(* ===== verification/_CoqProject ===== *)
-Q . S2P
Prelude.v
ThreadSets.v
AccountLocks.v
AccountLocksFacts.v
LockTheorems.v
Messages.v
RwAccountSet.v
Heap.v
Container.v
InFlight.v
PrioGraph.v
Channels.v
Scheduler.v
Flights.v
SchedulerCore.v
SchedulerOps.v
SchedulePass.v
ScheduleWindow.v
ScheduleLoop.v
ScheduleSpec.v
ScheduleProgress.v
ReceiveSpec.v
System.v
Demo.v
SchedulerTests.v
ComponentTheorems.v
SchedulerTheorems.v
NoLock.v
WorkerStatus.v
Simulation.v
Metrics.v
Stopwatch.v
SupportTheorems.v
Banks.v
Ledger.v
LedgerFacts.v
MapForks.v
Shreds.v
CommitBatch.v
Commit.v
CommitFacts.v
Verifier.v
Executor.v
VerifierFacts.v
ExecutorFacts.v
StorageDemo.v
StorageTheorems.v
BlockOrder.v
StorageTests.v
TxBuilder.v
TxFacts.v
StateError.v
Snapshots.v
StorageConfig.v
StorageOpen.v
StorageOpenFacts.v
StorageOpenTheorems.v
StorageQueries.v
SvmBank.v
SvmBuilder.v
SvmCli.v
SvmFacts.v
Rollup.v
SvmProducer.v
SvmTheorems.v
Runner.v
RunnerFacts.v
RollupTheorems.v
MockChain.v
RpcBase.v
RpcBlocks.v
RpcSignatures.v
RpcAccounts.v
RpcTokens.v
RpcTransactions.v
RpcServer.v
RpcRewards.v
RpcMethods.v
RpcWitnesses.v
RpcTests.v
