(* ===== verification/Prelude.v ===== *)
(** * Verification of the igloo rollup framework

    igloo is a rollup on the Solana runtime.  This library models its crates as
    functions and states what makes them correct.  Paths below are relative to
    [src/].

    ** The program

    - The scheduler ([scheduler]) takes transactions by priority, keeps the ones
      that conflict on accounts apart and hands batches to worker threads; the
      workers return results, which release the locks and may retry.
    - The executor ([executor]) checks a block with the verifier ([verifier]),
      executes it on a new slot and commits it to the storage ([storage]), which
      holds the banks, the forks and the block store, and reorganises them.
      The storage is opened on a directory of keys, genesis and databases, and
      closed after its snapshots are written.
    - The SVM executor ([svm/executor]) builds and executes one transaction on a
      bank it is given; [svm/cli] is its command line.
    - The example ([example]) is a rollup: it derives attributes from layer 1,
      produces blocks with the SVM executor and batches them back.
    - The RPC service ([rpc]) answers queries from the working bank, the block
      store and a long-term storage, and queues the transactions sent to it.  It
      is started on an opened storage, whose snapshot files it serves as well.

    ** Conventions

    A function that may panic returns [res]; a [Result] is a sum whose right
    side is the error; [&mut self] is a state passed in and out (in [StateError]
    a monad).  Machine integers are [Z] with their overflow written out: a panic,
    a wrap or a saturation, as the code has it.  [wp] is total correctness: the
    computation returns and its value satisfies the predicate.  Code of other
    crates is a class of operations, and what the code relies on is a class of
    laws, from the documentation of that crate; every theorem that assumes laws
    is applied to a concrete instance of them.

    ** Files

    Scheduler:
    - [ThreadSets], [AccountLocks], [AccountLocksFacts], [LockTheorems]: the
      64-bit thread set and the lock table ([thread_aware_account_locks.rs]).
    - [Messages], [RwAccountSet], [Heap], [Container], [InFlight], [PrioGraph],
      [Channels]: messages, transaction states, the look-ahead set, the container
      and the tracker, with the interfaces of heap, graph and channels.
    - [Scheduler]: [schedule], [receive_completed] and the wrapper.  [Flights],
      [SchedulerCore], [SchedulerOps], [SchedulePass], [ScheduleWindow],
      [ScheduleLoop], [ScheduleSpec], [ScheduleProgress] and [ReceiveSpec] prove
      its invariant and the specification of its operations; [System] runs it
      under every interleaving with its workers, and [Demo] is a concrete one.
    - [ComponentTheorems], [SchedulerTheorems]: the theorems.  [SchedulerTests]:
      the unit tests of the scheduler.
    - [NoLock], [WorkerStatus], [Simulation], [Metrics], [Stopwatch],
      [SupportTheorems]: the lock-free scheduler, status slices, the simulation,
      the metrics and the stopwatch.

    Storage, verifier and executor:
    - [Banks], [MapForks]: the interfaces of banks, forks and block store, and an
      instance.  [Ledger], [LedgerFacts]: slots and reorganisation.  [Shreds],
      [CommitBatch], [Commit], [CommitFacts]: from executed batches to entries,
      shreds and history.
    - [Verifier], [Executor], [VerifierFacts], [ExecutorFacts], [StorageDemo],
      [StorageTheorems].  [BlockOrder]: the accounts a block leaves.
      [StorageTests]: a bank with accounts, and tests of storage and executor.
    - [Snapshots]: waiting for snapshots and [close].  [StorageConfig],
      [StorageOpen], [StorageOpenFacts], [StorageOpenTheorems]: keys and
      configuration, and the opening of storage and executor on a directory.
      [StorageQueries]: scans and other accessors of an open storage.

    SVM executor and example:
    - [TxBuilder], [TxFacts]: the transaction builder.
    - [StateError], [SvmBank], [SvmBuilder], [SvmFacts], [SvmTheorems]: the banks
      behind their interface, one execution on any of them, and a bank opened on
      directories.  [SvmCli]: the command line's parsers and run.
    - [Rollup], [SvmProducer], [Runner], [RunnerFacts], [RollupTheorems],
      [MockChain]: blocks, engine, runner, tasks and mock layer 1 of the example.

    RPC service ([rpc/src]):
    - [RpcBase]: errors, the processor and requests of the bank alone.
    - [RpcBlocks], [RpcSignatures], [RpcAccounts], [RpcTokens],
      [RpcTransactions]: the requests, each with its theorems.
    - [RpcRewards]: inflation rewards, with the partitions of the stake rewards.
      [RpcMethods]: the methods of the five tables, with block production,
      samples and the airdrop.
    - [RpcServer]: the middleware that serves files and plain requests, and the
      service started on a storage.
    - [RpcWitnesses] is a concrete node.  [RpcTests]: a node with accounts in the
      layout of the token programs, and tests of the service.

    ** What the theorems show

    - Scheduler: transactions on different workers never conflict; a pass and the
      receiving of results never panic and lose or duplicate nothing; an idle
      scheduler with a queue makes progress; container, locks and workers agree.
    - Storage and executor: a reorganisation to a known slot abandons exactly the
      other forks; committed entries are ones the verifier accepts; block checks
      are exact; when producing a block returns and when it panics.  The accounts after an accepted block are those
      of its transactions executed one after the other, although its batches all
      run on the accounts before it.  Opening again with the keys of the
      first time finds the same genesis and validator, and fails without them.
    - SVM executor and example: the rights of a built transaction, the promise
      both banks keep, execution on any such bank, and that the runner executes
      every block of layer 1 and no attribute twice; accounts given on the
      command line are read back as they were printed.
    - RPC: lists of blocks, signatures, program accounts and largest token
      accounts are exact and bounded, the optimised paths (indexes, the bounded
      heap, the map of mints) change no answer, and only checked transactions are
      queued.  Inflation rewards are those of the blocks that hold them; the
      server gives out no file but the genesis and the snapshot archives, and
      reports the genesis on disk.
    - Several theorems state a defect precisely: a reorganisation that does not
      end, read-only accounts that become writable, transfers that move nothing,
      a sequence number that overflows, a block of too many empty batches that
      panics, a root that is recorded before an unknown slot panics, a [close]
      that waits for a snapshot that is never taken.
    - Tests of the repository are programs of the model, and evaluating them
      gives the outcomes they assert: every test of the scheduler, and of storage,
      executor and RPC service those on reorganisation, one block, block lists,
      accounts, tokens, encodings, sending, simulating and statuses.  For the
      latter Solana's runtime is a stand-in that behaves as the tests set it up;
      what they assert of the runtime itself is a property of the stand-in.

    ** Fuel

    A loop that is not structural takes fuel and panics when it runs out, so a
    theorem that a function returns also shows that the fuel is enough.  The
    loops of [schedule] and [receive_completed] take theirs from the lengths of
    the queue and of the waiting results, which every turn shortens.  The walks
    of [find_ancestors] take it as an argument: above the genesis bank the slot
    number and two is enough, and at the genesis bank no fuel is.  The waits for
    snapshots take it too, one unit for each look at the directory; [close]
    returns with some fuel exactly when the awaited archives appear.  The rounds
    of the tasks of the example, which never end, are counted by an argument.

    ** Not modelled

    The HTTP server with its threads and their end, the reading of command line
    arguments, log output and the text of formatted values, the table of the
    virtual machine's functions ([svm/executor/src/env.rs]), the threads of the
    scheduling simulation and constructors with values for tests.  Of the tests,
    those that run programs in the virtual machine, take snapshots, replay a
    ledger or read a value of the runtime's bank through a getter.  The accounts
    of Solana's runtime, its batch processor, its ledger and its encoders are
    interfaces. *)
From stdpp Require Export prelude gmap list fin_maps strings sorting.
From Stdlib Require Export ZArith Lia.

#[global] Set Default Proof Using "Type".

(** ** Panics

    A Rust function that may panic is a function into [res]: [Ok a] when it
    returns [a], [Panic msg] when it unwinds.  Integer overflow, an index out
    of bounds, [unwrap] on [None], [assert!] and [panic!] all unwind. *)
Inductive res (A : Type) : Type :=
| Ok (a : A)
| Panic (msg : string).
Arguments Ok {A} a.
Arguments Panic {A} msg.

#[global] Instance res_ret : MRet res := @Ok.
#[global] Instance res_bind : MBind res := λ A B k m,
  match m with Ok a => k a | Panic s => Panic s end.
#[global] Instance res_fmap : FMap res := λ A B f m,
  match m with Ok a => Ok (f a) | Panic s => Panic s end.

(** [assert!(b, msg)] *)
Definition assert_res (b : bool) (msg : string) : res unit :=
  if b then Ok () else Panic msg.

(** [assert!] and [assert_eq!] of a test: one that ends has passed; [?] on an
    error ends it with a failure. *)
Definition assert_that (b : bool) : res unit := assert_res b "assertion failed".
Definition assert_eq {A} `{EqDecision A} (x y : A) : res unit :=
  assert_res (bool_decide (x = y)) "assertion `left == right` failed".
Definition try_ok {A E} (r : A + E) : res A :=
  match r with inl x => Ok x | inr _ => Panic "the test returned an error" end.
Definition passed (t : res unit) : bool := match t with Ok _ => true | Panic _ => false end.

(** [o.expect(msg)] / [o.unwrap()] *)
Definition expect {A} (o : option A) (msg : string) : res A :=
  match o with Some a => Ok a | None => Panic msg end.

(** [v[i]] on a slice, and [v[i] = x] *)
Definition vec_get {A} (v : list A) (i : nat) : res A :=
  expect (v !! i) "index out of bounds".
Definition vec_set {A} (v : list A) (i : nat) (x : A) : res (list A) :=
  match v !! i with
  | Some _ => Ok (<[i := x]> v)
  | None => Panic "index out of bounds"
  end.

(** [v[a..b]] on a slice *)
Definition vec_slice {A} (v : list A) (a b : nat) : res (list A) :=
  if decide (a ≤ b ∧ b ≤ length v) then Ok (take (b - a) (drop a v))
  else Panic "range end index out of range for slice".

(** [v.chunks(n)]: consecutive pieces of [n] elements, the last one shorter;
    each step takes at least one element when [0 < n], so the length of [v] is
    fuel enough. *)
Fixpoint chunks_from {A} (fuel n : nat) (v : list A) : list (list A) :=
  match fuel, v with
  | S fuel, _ :: _ => take n v :: chunks_from fuel n (drop n v)
  | _, _ => []
  end.
Definition chunks {A} (n : nat) (v : list A) : list (list A) := chunks_from (length v) n v.

(** [v.sort_by_key(key)], a stable sort, by insertion. *)
Fixpoint sorted_insert {A} (key : A → Z) (x : A) (v : list A) : list A :=
  match v with
  | [] => [x]
  | y :: v' => if (key x <=? key y)%Z then x :: v else y :: sorted_insert key x v'
  end.
Definition sort_by_key {A} (key : A → Z) (v : list A) : list A :=
  foldr (sorted_insert key) [] v.

(** A [for] loop whose body updates the loop state and may panic. *)
Fixpoint fold_res {A S} (f : S → A → res S) (s : S) (l : list A) : res S :=
  match l with
  | [] => Ok s
  | x :: l => s' ← f s x; fold_res f s' l
  end.

(** [iter.filter(p)] with a predicate that may panic. *)
Fixpoint filter_res {A} (p : A → res bool) (l : list A) : res (list A) :=
  match l with
  | [] => Ok []
  | x :: l => b ← p x; r ← filter_res p l; Ok (if b : bool then x :: r else r)
  end.

(** ** Machine integers

    An unsigned integer of width [w] is a [Z] in [0, 2^w).  The plain
    operators panic on overflow (the checked profile of the test build); where
    a theorem shows that they do not, the wrapping profile computes the same
    value. *)
Definition u64_max : Z := 2 ^ 64 - 1.
Definition u32_max : Z := 2 ^ 32 - 1.
Definition u8_max : Z := 2 ^ 8 - 1.

Definition in_width (w x : Z) : Prop := (0 ≤ x < 2 ^ w)%Z.
Definition u64 (x : Z) : Prop := (0 ≤ x ≤ u64_max)%Z.
Definition u32 (x : Z) : Prop := (0 ≤ x ≤ u32_max)%Z.
Definition u8 (x : Z) : Prop := (0 ≤ x ≤ u8_max)%Z.

Definition checked_add (max x y : Z) : res Z :=
  if (x + y <=? max)%Z then Ok (x + y)%Z else Panic "attempt to add with overflow".
Definition checked_sub (x y : Z) : res Z :=
  if (y <=? x)%Z then Ok (x - y)%Z else Panic "attempt to subtract with overflow".
Definition checked_mul (max x y : Z) : res Z :=
  if (x * y <=? max)%Z then Ok (x * y)%Z else Panic "attempt to multiply with overflow".
Definition saturating_add (max x y : Z) : Z := Z.min (x + y) max.
Definition saturating_sub (x y : Z) : Z := Z.max (x - y) 0.
Definition wrapping_sub64 (x y : Z) : Z := (x - y) `mod` 2 ^ 64.

(** ** Total correctness of panicking code

    [wp m Φ]: [m] returns (it does not panic) and its result satisfies [Φ]. *)
Definition wp {A} (m : res A) (Φ : A → Prop) : Prop :=
  match m with Ok a => Φ a | Panic _ => False end.

Lemma wp_ok {A} (a : A) (Φ : A → Prop) : Φ a → wp (Ok a) Φ.
Proof. done. Qed.

Lemma wp_bind {A B} (m : res A) (k : A → res B) (Φ : B → Prop) :
  wp m (λ a, wp (k a) Φ) → wp (m ≫= k) Φ.
Proof. by destruct m. Qed.

Lemma wp_fmap {A B} (m : res A) (f : A → B) (Φ : B → Prop) :
  wp m (λ a, Φ (f a)) → wp (f <$> m) Φ.
Proof. by destruct m. Qed.

Lemma wp_mono {A} (m : res A) (Φ Ψ : A → Prop) :
  wp m Φ → (∀ a, Φ a → Ψ a) → wp m Ψ.
Proof. destruct m; simpl; eauto. Qed.

Lemma wp_elim {A} (m : res A) (Φ : A → Prop) :
  wp m Φ → ∃ a, m = Ok a ∧ Φ a.
Proof. destruct m; simpl; [eauto | done]. Qed.

Lemma wp_intro {A} (m : res A) (a : A) (Φ : A → Prop) :
  m = Ok a → Φ a → wp m Φ.
Proof. by intros ->. Qed.

Lemma wp_conj {A} (m : res A) (Φ Ψ : A → Prop) :
  wp m Φ → wp m Ψ → wp m (λ a, Φ a ∧ Ψ a).
Proof. destruct m; simpl; auto. Qed.

Lemma wp_assert (b : bool) msg (Φ : unit → Prop) :
  b = true → Φ () → wp (assert_res b msg) Φ.
Proof. by intros ->. Qed.

Lemma wp_expect {A} (o : option A) msg a (Φ : A → Prop) :
  o = Some a → Φ a → wp (expect o msg) Φ.
Proof. by intros ->. Qed.

Lemma wp_vec_get {A} (v : list A) i x (Φ : A → Prop) :
  v !! i = Some x → Φ x → wp (vec_get v i) Φ.
Proof. unfold vec_get. by intros ->. Qed.

Lemma wp_vec_set {A} (v : list A) i x (Φ : list A → Prop) :
  i < length v → Φ (<[i := x]> v) → wp (vec_set v i x) Φ.
Proof.
  intros [y Hy]%lookup_lt_is_Some_2 HΦ. unfold vec_set. by rewrite Hy.
Qed.

Lemma wp_checked_add max x y (Φ : Z → Prop) :
  (x + y ≤ max)%Z → Φ (x + y)%Z → wp (checked_add max x y) Φ.
Proof. unfold checked_add. intros ??. by rewrite (proj2 (Z.leb_le _ _)). Qed.

Lemma wp_checked_sub x y (Φ : Z → Prop) :
  (y ≤ x)%Z → Φ (x - y)%Z → wp (checked_sub x y) Φ.
Proof. unfold checked_sub. intros ??. by rewrite (proj2 (Z.leb_le _ _)). Qed.

(** The invariant rule of a loop over a list: [I done s] relates the loop
    state to the elements already processed. *)
Lemma wp_fold_res {A S} (f : S → A → res S) (I : list A → S → Prop) l s :
  I [] s →
  (∀ pre x post s, l = pre ++ x :: post → I pre s → wp (f s x) (I (pre ++ [x]))) →
  wp (fold_res f s l) (I l).
Proof.
  intros HI Hstep.
  cut (∀ post pre s, l = pre ++ post → I pre s → wp (fold_res f s post) (I l)).
  { intros H. by apply (H l []). }
  induction post as [|x post IH]; intros pre s' Heq HI'; simpl.
  - rewrite app_nil_r in Heq. by subst.
  - apply wp_bind. eapply wp_mono; [by eapply Hstep|].
    intros s'' HI''. apply (IH (pre ++ [x])); [|done].
    by rewrite <-app_assoc.
Qed.

Lemma fold_res_inv {A S} (f : S → A → res S) (I : list A → S → Prop) l s s' :
  fold_res f s l = Ok s' → I [] s →
  (∀ pre x post s1 s2, l = pre ++ x :: post → I pre s1 → f s1 x = Ok s2 → I (pre ++ [x]) s2) →
  I l s'.
Proof.
  intros Hf HI Hstep.
  cut (∀ post pre s, l = pre ++ post → fold_res f s post = Ok s' → I pre s → I l s').
  { intros H. by apply (H l [] s). }
  induction post as [|x post IH]; intros pre s1 Heq Hfold HI1; simpl in Hfold.
  - injection Hfold as ->. rewrite app_nil_r in Heq. by subst.
  - destruct (f s1 x) as [s2|] eqn:Hx; [|done]. simpl in Hfold.
    apply (IH (pre ++ [x]) s2); [by rewrite <-app_assoc|done|]. by eapply Hstep.
Qed.

Lemma fold_res_app {A S} (f : S → A → res S) s l1 l2 :
  fold_res f s (l1 ++ l2) = (s' ← fold_res f s l1; fold_res f s' l2).
Proof.
  revert s. induction l1 as [|x l1 IH]; intros s; simpl; [done|].
  destruct (f s x); simpl; auto.
Qed.

Lemma wp_filter_res {A} (p : A → res bool) (q : A → bool) l (Φ : list A → Prop) :
  (∀ x, x ∈ l → p x = Ok (q x)) → Φ (filter q l) → wp (filter_res p l) Φ.
Proof.
  intros Hp HΦ. assert (filter_res p l = Ok (filter q l)) as ->; [|done].
  clear Φ HΦ. induction l as [|x l IH]; [done|]. simpl.
  rewrite Hp by set_solver. simpl. rewrite IH by set_solver. simpl.
  f_equal. rewrite filter_cons. by destruct (q x).
Qed.

Lemma wp_mapM_length {A B} (f : A → res B) l :
  (∀ x, x ∈ l → wp (f x) (λ _, True)) → wp (mapM f l) (λ r, length r = length l).
Proof.
  induction l as [|x l IH]; intros Hf; simpl; [done|].
  apply wp_bind. eapply wp_mono; [apply Hf; left|]. intros y _. apply wp_bind.
  eapply wp_mono; [apply IH; intros; apply Hf; by right|]. intros r Hr. apply wp_ok. rewrite !length_cons. by f_equal.
Qed.

Lemma mapM_Ok {A B} (f : A → res B) (g : A → B) l :
  (∀ x, x ∈ l → f x = Ok (g x)) → mapM f l = Ok (g <$> l).
Proof.
  induction l as [|x l IH]; intros Hf; simpl; [done|].
  rewrite (Hf x) by left. simpl. rewrite IH; [done|]. intros y Hy. apply Hf. by right.
Qed.

Lemma res_bind_Ok {A B} (m : res A) (k : A → res B) b :
  m ≫= k = Ok b ↔ ∃ a, m = Ok a ∧ k a = Ok b.
Proof. destruct m; simpl; naive_solver. Qed.

Lemma assert_res_Ok b msg u : assert_res b msg = Ok u ↔ b = true.
Proof. destruct b, u; naive_solver. Qed.

Lemma checked_add_Ok max x y z : checked_add max x y = Ok z ↔ (x + y ≤ max ∧ z = x + y)%Z.
Proof. unfold checked_add. destruct (Z.leb_spec (x + y) max); split; intros; simplify_eq; naive_solver lia. Qed.

Lemma checked_sub_Ok x y z : checked_sub x y = Ok z ↔ (y ≤ x ∧ z = x - y)%Z.
Proof. unfold checked_sub. destruct (Z.leb_spec y x); split; intros; simplify_eq; naive_solver lia. Qed.

Lemma expect_Ok {A} (o : option A) msg a : expect o msg = Ok a ↔ o = Some a.
Proof. destruct o; naive_solver. Qed.

#[global] Arguments wp : simpl never.

(** ** Automation *)

(** Push [wp] through one construct of the program. *)
Ltac wp_step :=
  lazymatch goal with
  | |- wp (_ ≫= _) _ => apply wp_bind
  | |- wp (_ <$> _) _ => apply wp_fmap
  | |- wp (Ok _) _ => apply wp_ok
  | |- wp (mret _) _ => apply wp_ok
  | |- wp (assert_res _ _) _ => apply wp_assert
  | |- wp (checked_add _ _ _) _ => apply wp_checked_add
  | |- wp (checked_sub _ _) _ => apply wp_checked_sub
  | |- wp (vec_set _ _ _) _ => apply wp_vec_set
  end.

(** Peel the first step off a hypothesis [m ≫= k = Ok b]. *)
Tactic Notation "res_split" hyp(H) "as" simple_intropattern(x) simple_intropattern(Hx) :=
  apply res_bind_Ok in H; destruct H as (x & Hx & H).

(** Split a hypothesis [m ≫= k = Ok b] into its intermediate results. *)
Ltac res_inv H :=
  lazymatch type of H with
  | _ ≫= _ = Ok _ =>
      let a := fresh "a" in let Ha := fresh "Ha" in
      apply res_bind_Ok in H; destruct H as (a & Ha & H); res_inv Ha; res_inv H
  | Ok _ = Ok _ => injection H; clear H; intros; subst
  | Panic _ = Ok _ => discriminate H
  | _ => idtac
  end.

Create HintDb igloo.
#[export] Hint Resolve wp_ok wp_mono : igloo.

(** ** Lists *)

Lemma NoDup_perm {A} (l l' : list A) : l ≡ₚ l' → NoDup l → NoDup l'.
Proof. by intros ->. Qed.

Lemma omap_pointwise {A B} (f g : A → option B) (l : list A) :
  (∀ x, f x = g x) → omap f l = omap g l.
Proof. intros Hfg. induction l as [|x l IH]; csimpl; [done|]. by rewrite Hfg, IH. Qed.

Lemma NoDup_drop_r {A} (l l' : list A) : NoDup (l ++ l') → NoDup l.
Proof. by intros [? _]%NoDup_app. Qed.

Lemma chunks_from_concat {A} (n : nat) (v : list A) fuel :
  0 < n → length v ≤ fuel → concat (chunks_from fuel n v) = v.
Proof.
  intros Hn. revert v. induction fuel as [|fuel IH]; intros [|x v] Hl; simpl in *; try done; [lia|].
  destruct n as [|n]; [lia|]. simpl. rewrite IH by (rewrite length_drop; lia).
  f_equal. apply take_drop.
Qed.

Lemma chunks_concat {A} (n : nat) (v : list A) : 0 < n → concat (chunks n v) = v.
Proof. intros. by apply chunks_from_concat. Qed.

(** The [i]-th chunk is the piece of [v] from [i * n] on. *)
Lemma chunks_from_lookup {A} (n : nat) (v : list A) fuel i :
  0 < n → length v ≤ fuel →
  chunks_from fuel n v !! i =
    if decide (i * n < length v) then Some (take n (drop (i * n) v)) else None.
Proof.
  intros Hn. revert v i. induction fuel as [|fuel IH]; intros v i Hl.
  - destruct v; [|simpl in *; lia]. by rewrite decide_False by (simpl; lia).
  - destruct v as [|x v]; [by rewrite decide_False by (simpl; lia)|].
    destruct i as [|i].
    + by rewrite decide_True by (simpl; lia).
    + change (chunks_from (S fuel) n (x :: v) !! S i)
        with (chunks_from fuel n (drop n (x :: v)) !! i).
      rewrite IH by (rewrite length_drop; simpl in *; lia).
      rewrite length_drop, drop_drop. repeat case_decide; try (simpl in *; lia); [|done].
      by replace (n + i * n) with (S i * n) by lia.
Qed.

Lemma chunks_lookup {A} (n : nat) (v : list A) i :
  0 < n → chunks n v !! i =
    if decide (i * n < length v) then Some (take n (drop (i * n) v)) else None.
Proof. intros. by apply chunks_from_lookup. Qed.

Section SortByKey.
Context {A : Type} (key : A → Z).

Lemma sorted_insert_perm x v : sorted_insert key x v ≡ₚ x :: v.
Proof.
  induction v as [|y v IH]; simpl; [done|]. destruct (_ <=? _)%Z; [done|].
  rewrite IH. apply Permutation_swap.
Qed.

Lemma sort_by_key_perm v : sort_by_key key v ≡ₚ v.
Proof. induction v as [|x v IH]; simpl; [done|]. by rewrite sorted_insert_perm, IH. Qed.

Lemma sorted_insert_sorted x v :
  StronglySorted (λ a b, key a ≤ key b)%Z v →
  StronglySorted (λ a b, key a ≤ key b)%Z (sorted_insert key x v).
Proof.
  induction 1 as [|y v Hs IH Hall]; simpl; [repeat constructor|].
  destruct (Z.leb_spec (key x) (key y)).
  - constructor; [by constructor|]. constructor; [done|].
    eapply Forall_impl; [exact Hall|]. simpl. lia.
  - constructor; [done|]. rewrite sorted_insert_perm. constructor; [lia|done].
Qed.

Lemma sort_by_key_sorted v : StronglySorted (λ a b, key a ≤ key b)%Z (sort_by_key key v).
Proof. induction v; simpl; [constructor|]. by apply sorted_insert_sorted. Qed.
End SortByKey.

(** Sum of a [Z]-valued measure over a list. *)
Definition sumZ {A} (f : A → Z) (l : list A) : Z := foldr (λ x a, (f x + a)%Z) 0%Z l.

Lemma sumZ_cons {A} (f : A → Z) x l : sumZ f (x :: l) = (f x + sumZ f l)%Z.
Proof. done. Qed.

Lemma sumZ_app {A} (f : A → Z) l1 l2 : sumZ f (l1 ++ l2) = (sumZ f l1 + sumZ f l2)%Z.
Proof. induction l1; simpl; lia. Qed.

Lemma sumZ_nonneg {A} (f : A → Z) l : (∀ x, x ∈ l → 0 ≤ f x)%Z → (0 ≤ sumZ f l)%Z.
Proof.
  induction l as [|x l IH]; intros H; simpl; [done|].
  pose proof (H x ltac:(set_solver)). enough (0 ≤ sumZ f l)%Z by lia.
  apply IH. set_solver.
Qed.

Lemma sumZ_perm {A} (f : A → Z) l1 l2 : l1 ≡ₚ l2 → sumZ f l1 = sumZ f l2.
Proof. induction 1; simpl; lia. Qed.

Lemma sumZ_elem {A} (f : A → Z) l x :
  x ∈ l → (∀ y, y ∈ l → 0 ≤ f y)%Z → (f x ≤ sumZ f l)%Z.
Proof.
  intros [l1 [l2 ->]]%list_elem_of_split Hf. rewrite sumZ_app. simpl.
  pose proof (sumZ_nonneg f l1 ltac:(set_solver)).
  pose proof (sumZ_nonneg f l2 ltac:(set_solver)). lia.
Qed.

#[global] Instance sumZ_Permutation {A} (f : A → Z) :
  Proper ((≡ₚ) ==> (=)) (sumZ f).
Proof. intros ???. by apply sumZ_perm. Qed.

Lemma sumZ_ext {A} (f g : A → Z) l : (∀ x, x ∈ l → f x = g x) → sumZ f l = sumZ g l.
Proof.
  induction l as [|x l IH]; intros H; simpl; [done|].
  rewrite H, IH by set_solver. done.
Qed.

Lemma sumZ_le {A} (f g : A → Z) l : (∀ x, x ∈ l → f x ≤ g x)%Z → (sumZ f l ≤ sumZ g l)%Z.
Proof.
  induction l as [|x l IH]; intros H; simpl; [done|].
  pose proof (H x ltac:(left)). enough (sumZ f l ≤ sumZ g l)%Z by lia.
  apply IH. intros. apply H. by right.
Qed.

Lemma sumZ_fmap {A B} (f : B → Z) (g : A → B) l : sumZ f (g <$> l) = sumZ (f ∘ g) l.
Proof. induction l; simpl; [done|]. by f_equal. Qed.

Lemma sumZ_plus {A} (f g : A → Z) l : sumZ (λ x, f x + g x)%Z l = (sumZ f l + sumZ g l)%Z.
Proof. induction l; simpl; lia. Qed.

Lemma sumZ_swap {A B} (f : A → B → Z) l k :
  sumZ (λ x, sumZ (f x) k) l = sumZ (λ y, sumZ (λ x, f x y) l) k.
Proof.
  induction l as [|x l IH]; simpl.
  - induction k; simpl; lia.
  - rewrite IH, <-sumZ_plus. done.
Qed.

(** ** Maps *)

(** Sum of a measure over the values of a finite map. *)
Definition msum {K A} `{Countable K} (f : A → Z) (m : gmap K A) : Z :=
  sumZ (f ∘ snd) (map_to_list m).

Section MapSum.
Context {K A : Type} `{Countable K}.
Implicit Types (f : A → Z) (m : gmap K A).

Lemma msum_empty f : msum f (∅ : gmap K A) = 0%Z.
Proof. unfold msum. by rewrite map_to_list_empty. Qed.

Lemma msum_insert f m i x : m !! i = None → msum f (<[i := x]> m) = (f x + msum f m)%Z.
Proof. intros Hi. unfold msum. by rewrite map_to_list_insert. Qed.

Lemma msum_delete f m i x : m !! i = Some x → msum f (delete i m) = (msum f m - f x)%Z.
Proof.
  intros Hi. rewrite <-(insert_delete_id m i x) at 2 by done.
  rewrite msum_insert by apply lookup_delete_eq. lia.
Qed.

Lemma msum_update f m i x y :
  m !! i = Some x → msum f (<[i := y]> m) = (msum f m - f x + f y)%Z.
Proof.
  intros Hi. rewrite <-insert_delete_eq, msum_insert by apply lookup_delete_eq.
  rewrite (msum_delete _ _ _ x) by done. lia.
Qed.

Lemma msum_nonneg f m : (∀ i x, m !! i = Some x → 0 ≤ f x)%Z → (0 ≤ msum f m)%Z.
Proof.
  intros Hf. apply sumZ_nonneg. intros [i x] Hx%elem_of_map_to_list. by eapply Hf.
Qed.

Lemma msum_elem f m i x :
  m !! i = Some x → (∀ i x, m !! i = Some x → 0 ≤ f x)%Z → (f x ≤ msum f m)%Z.
Proof.
  intros Hi Hf. apply (sumZ_elem (f ∘ snd) (map_to_list m) (i, x)).
  - by apply elem_of_map_to_list.
  - intros [j y] Hy%elem_of_map_to_list. by eapply Hf.
Qed.
End MapSum.
