(* ===== verification/ThreadSets.v ===== *)
(** * Thread sets

    The [u64] bit set of worker threads of
    [scheduler/src/impls/prio_graph_scheduler/thread_aware_account_locks.rs]
    ([struct ThreadSet] and its [impl]s): one definition per method, with the
    64-bit representation kept, and the lemmas that let the rest of the
    development reason with membership [t ∈ s] instead of bits. *)
From S2P Require Import Prelude.

(** ** Definitions *)

(** [pub const MAX_THREADS: usize = u64::BITS as usize] *)
Definition MAX_THREADS : nat := 64.

(** [pub type ThreadId = usize] *)
Abbreviation ThreadId := nat (only parsing).

(** Bit operations of [u64] that the methods use. *)
Definition u64_not (x : Z) : Z := Z.lxor x u64_max.
Definition set_bits (x : Z) : list nat :=
  filter (λ i, Z.testbit x (Z.of_nat i) = true) (seq 0 64).
Definition count_ones (x : Z) : nat := length (set_bits x).
Definition trailing_zeros (x : Z) : nat := default 64 (head (set_bits x)).

Module ThreadSet.

(** [pub struct ThreadSet(u64)] *)
Record t : Set := mk { bits : Z }.

#[global] Instance t_eq_dec : EqDecision t.
Proof. solve_decision. Defined.

(** [const fn as_flag(thread_id) -> u64 { 0b1 << thread_id }]: a shift by the
    width or more overflows. *)
Definition as_flag (thread_id : ThreadId) : res Z :=
  if decide (thread_id < 64) then Ok (Z.shiftl 1 (Z.of_nat thread_id))
  else Panic "attempt to shift left with overflow".

Definition none : t := mk 0.

Definition any (num_threads : nat) : res t :=
  if decide (num_threads = MAX_THREADS) then Ok (mk u64_max)
  else f ← as_flag num_threads; b ← checked_sub f 1; Ok (mk b).

Definition only (thread_id : ThreadId) : res t := mk <$> as_flag thread_id.

Definition num_threads (s : t) : nat := count_ones (bits s).

Definition only_one_contained (s : t) : option ThreadId :=
  if decide (num_threads s = 1) then Some (trailing_zeros (bits s)) else None.

Definition is_empty (s : t) : bool := bool_decide (s = none).

Definition contains (s : t) (thread_id : ThreadId) : res bool :=
  f ← as_flag thread_id; Ok (negb (Z.land (bits s) f =? 0)%Z).

Definition insert (s : t) (thread_id : ThreadId) : res t :=
  f ← as_flag thread_id; Ok (mk (Z.lor (bits s) f)).

Definition remove (s : t) (thread_id : ThreadId) : res t :=
  f ← as_flag thread_id; Ok (mk (Z.land (bits s) (u64_not f))).

Definition contained_threads_iter (s : t) : res (list ThreadId) :=
  filter_res (contains s) (seq 0 MAX_THREADS).

(** [impl BitAnd], [impl Sub] *)
Definition bitand (s1 s2 : t) : t := mk (Z.land (bits s1) (bits s2)).
Definition sub (s1 s2 : t) : t := mk (Z.land (bits s1) (u64_not (bits s2))).

(** ** Membership view *)

(** The representation fits in 64 bits. *)
Definition wf (s : t) : Prop := u64 (bits s).

#[global] Instance elem_of_t : ElemOf nat t :=
  λ i s, Z.testbit (bits s) (Z.of_nat i) = true.
#[global] Instance elem_of_t_dec (i : nat) (s : t) : Decision (i ∈ s).
Proof. unfold elem_of, elem_of_t. apply _. Defined.

End ThreadSet.

(** ** Bits *)

Lemma testbit_above_64 x i : u64 x → (64 ≤ i)%Z → Z.testbit x i = false.
Proof.
  intros [H1 H2] Hi. unfold u64_max in H2.
  destruct (decide (x = 0)%Z) as [->|]; [apply Z.testbit_0_l|].
  apply Z.bits_above_log2; [done|].
  apply Z.lt_le_trans with 64%Z; [|done]. apply Z.log2_lt_pow2; lia.
Qed.

Lemma u64_testbit x :
  (0 ≤ x)%Z → (∀ i, (64 ≤ i)%Z → Z.testbit x i = false) → u64 x.
Proof.
  intros Hx Hb. split; [done|]. unfold u64_max.
  enough (x < 2 ^ 64)%Z by lia.
  destruct (decide (x = 0)%Z) as [->|]; [lia|].
  apply Z.log2_lt_pow2; [lia|].
  destruct (decide (64 ≤ Z.log2 x)%Z) as [H|]; [|lia].
  specialize (Hb _ H). rewrite Z.bit_log2 in Hb by lia. done.
Qed.

Lemma u64_not_spec x i :
  (0 ≤ i < 64)%Z → Z.testbit (u64_not x) i = negb (Z.testbit x i).
Proof.
  intros Hi. unfold u64_not, u64_max. rewrite Z.lxor_spec.
  replace (2 ^ 64 - 1)%Z with (Z.ones 64) by done.
  rewrite Z.ones_spec_low by done. by destruct (Z.testbit x i).
Qed.

Lemma shiftl_1_testbit (t i : nat) :
  Z.testbit (Z.shiftl 1 (Z.of_nat t)) (Z.of_nat i) = bool_decide (i = t).
Proof.
  rewrite Z.shiftl_1_l. rewrite Z.pow2_bits_eqb by lia.
  case_bool_decide; subst; [apply Z.eqb_refl | apply Z.eqb_neq; lia].
Qed.

Lemma elem_of_set_bits x i : i ∈ set_bits x ↔ i < 64 ∧ Z.testbit x (Z.of_nat i) = true.
Proof. unfold set_bits. rewrite list_elem_of_filter, elem_of_seq. intuition lia. Qed.

Lemma NoDup_set_bits x : NoDup (set_bits x).
Proof. apply NoDup_filter, NoDup_seq. Qed.

Module ThreadSetFacts.
Import ThreadSet.

Lemma elem_of_def (i : nat) (s : t) : i ∈ s ↔ Z.testbit (bits s) (Z.of_nat i) = true.
Proof. done. Qed.

Lemma elem_of_lt i (s : t) : wf s → i ∈ s → i < 64.
Proof.
  intros Hwf Hi. destruct (decide (i < 64)); [done|].
  rewrite elem_of_def, testbit_above_64 in Hi; [done..|lia].
Qed.

(** Two well-formed sets with the same members are equal. *)
Lemma ext s1 s2 : wf s1 → wf s2 → (∀ i, i < 64 → i ∈ s1 ↔ i ∈ s2) → s1 = s2.
Proof.
  intros H1 H2 H. destruct s1 as [x], s2 as [y]. f_equal. unfold wf in *; simpl in *.
  apply Z.bits_inj'. intros n Hn.
  destruct (decide (n < 64)%Z) as [Hlt|].
  - specialize (H (Z.to_nat n) ltac:(lia)). rewrite !elem_of_def in H. simpl in H.
    rewrite !Z2Nat.id in H by lia.
    destruct (Z.testbit x n), (Z.testbit y n); naive_solver.
  - rewrite !testbit_above_64; [done|..]; auto; lia.
Qed.

Lemma as_flag_ok t : t < 64 → as_flag t = Ok (Z.shiftl 1 (Z.of_nat t)).
Proof. intros. unfold as_flag. by rewrite decide_True. Qed.

Lemma flag_u64 (t : nat) : t < 64 → u64 (Z.shiftl 1 (Z.of_nat t)).
Proof.
  intros. apply u64_testbit.
  - rewrite Z.shiftl_1_l. lia.
  - intros i Hi. rewrite Z.shiftl_1_l. apply Z.pow2_bits_false. lia.
Qed.

(** [none] *)
Lemma none_wf : wf none.
Proof. split; done. Qed.

Lemma not_elem_of_none i : i ∉ none.
Proof. rewrite elem_of_def. simpl. by rewrite Z.testbit_0_l. Qed.

(** [only] *)
Lemma only_ok t : t < 64 → only t = Ok (mk (Z.shiftl 1 (Z.of_nat t))).
Proof. intros. unfold only. by rewrite as_flag_ok. Qed.

Lemma wp_only t (Φ : ThreadSet.t → Prop) :
  t < 64 → (∀ s, wf s → (∀ i, i ∈ s ↔ i = t) → Φ s) → wp (only t) Φ.
Proof.
  intros Ht HΦ. rewrite only_ok by done. apply HΦ; [by apply flag_u64|].
  intros i. rewrite elem_of_def. simpl. rewrite shiftl_1_testbit.
  by rewrite bool_decide_eq_true.
Qed.

(** [any] *)
Lemma any_ok n : n ≤ 64 → any n = Ok (mk (Z.ones (Z.of_nat n))).
Proof.
  intros Hn. unfold any, MAX_THREADS. case_decide; [by subst|].
  rewrite as_flag_ok by lia. simpl. unfold checked_sub.
  rewrite Z.shiftl_1_l, (proj2 (Z.leb_le _ _)) by lia.
  simpl. by rewrite Z.ones_equiv, Z.sub_1_r.
Qed.

Lemma ones_u64 n : n ≤ 64 → u64 (Z.ones (Z.of_nat n)).
Proof.
  intros. apply u64_testbit; [rewrite Z.ones_equiv; lia|].
  intros. apply Z.ones_spec_high. lia.
Qed.

Lemma elem_of_ones n i : i ∈ mk (Z.ones (Z.of_nat n)) ↔ i < n.
Proof.
  rewrite elem_of_def. simpl. destruct (decide (i < n)).
  - rewrite Z.ones_spec_low by lia. naive_solver.
  - rewrite Z.ones_spec_high by lia. naive_solver.
Qed.

Lemma wp_any n (Φ : ThreadSet.t → Prop) :
  n ≤ 64 → (∀ s, wf s → (∀ i, i ∈ s ↔ i < n) → Φ s) → wp (any n) Φ.
Proof.
  intros Hn HΦ. rewrite any_ok by done.
  apply HΦ; [by apply ones_u64 | intros; apply elem_of_ones].
Qed.

(** [contains], [insert], [remove], [is_empty] *)
Lemma contains_ok s t : t < 64 → contains s t = Ok (bool_decide (t ∈ s)).
Proof.
  intros Ht. unfold contains. rewrite as_flag_ok by done. simpl. f_equal.
  destruct (Z.land (bits s) (Z.shiftl 1 (Z.of_nat t)) =? 0)%Z eqn:E; simpl; symmetry.
  - apply bool_decide_eq_false. rewrite elem_of_def. intros Ht'.
    apply Z.eqb_eq in E. assert (Z.testbit 0 (Z.of_nat t) = true) as Hf.
    { rewrite <-E, Z.land_spec, Ht', shiftl_1_testbit. by apply bool_decide_eq_true. }
    by rewrite Z.testbit_0_l in Hf.
  - apply bool_decide_eq_true. rewrite elem_of_def. apply Z.eqb_neq in E.
    destruct (Z.testbit (bits s) (Z.of_nat t)) eqn:Hb; [done|]. exfalso. apply E.
    apply Z.bits_inj_0. intros n. rewrite Z.land_spec.
    destruct (decide (n < 0)%Z); [by rewrite Z.testbit_neg_r by done|].
    rewrite <-(Z2Nat.id n) by lia. rewrite shiftl_1_testbit.
    case_bool_decide; [|by rewrite andb_false_r]. subst. by rewrite Hb.
Qed.

Lemma wp_insert s t (Φ : ThreadSet.t → Prop) :
  wf s → t < 64 → (∀ s', wf s' → (∀ i, i ∈ s' ↔ i = t ∨ i ∈ s) → Φ s') →
  wp (insert s t) Φ.
Proof.
  intros Hs Ht HΦ. unfold insert. rewrite as_flag_ok by done. simpl. apply HΦ.
  - apply u64_testbit; simpl.
    + apply Z.lor_nonneg. split; [apply Hs|apply flag_u64; done].
    + intros i Hi. rewrite Z.lor_spec. rewrite !testbit_above_64; [done|..]; auto.
      by apply flag_u64.
  - intros i. rewrite !elem_of_def. simpl. rewrite Z.lor_spec, shiftl_1_testbit.
    case_bool_decide; rewrite orb_true_iff; naive_solver.
Qed.

Lemma wp_remove s t (Φ : ThreadSet.t → Prop) :
  wf s → t < 64 → (∀ s', wf s' → (∀ i, i ∈ s' ↔ i ∈ s ∧ i ≠ t) → Φ s') →
  wp (remove s t) Φ.
Proof.
  intros Hs Ht HΦ. unfold remove. rewrite as_flag_ok by done. simpl.
  assert (Hbit : ∀ i, (0 ≤ i)%Z → Z.testbit (Z.land (bits s)
     (u64_not (Z.shiftl 1 (Z.of_nat t)))) i =
     Z.testbit (bits s) i && negb (Z.testbit (Z.shiftl 1 (Z.of_nat t)) i)).
  { intros i Hi. rewrite Z.land_spec. destruct (decide (i < 64)%Z).
    - by rewrite u64_not_spec by lia.
    - rewrite testbit_above_64; [done|apply Hs|lia]. }
  apply HΦ.
  - apply u64_testbit; simpl.
    + apply Z.land_nonneg. left. apply Hs.
    + intros i Hi. rewrite Hbit by lia. rewrite testbit_above_64; [done|apply Hs|lia].
  - intros i. rewrite !elem_of_def. simpl. rewrite Hbit, shiftl_1_testbit by lia.
    case_bool_decide; rewrite andb_true_iff; naive_solver.
Qed.

Lemma is_empty_spec s : wf s → is_empty s = true ↔ ∀ i, i ∉ s.
Proof.
  intros Hs. unfold is_empty. rewrite bool_decide_eq_true. split.
  - intros ->. apply not_elem_of_none.
  - intros H. apply ext; [done|apply none_wf|]. intros i _.
    split; intros Hi; [by apply H in Hi | by apply not_elem_of_none in Hi].
Qed.

Lemma is_empty_false s : wf s → is_empty s = false ↔ ∃ i, i < 64 ∧ i ∈ s.
Proof.
  intros Hs. split.
  - intros He. destruct (decide (Exists (λ i, i ∈ s) (seq 0 64))) as [Hex|Hn].
    + apply Exists_exists in Hex as (i & Hi & ?). rewrite elem_of_seq in Hi.
      exists i. split; [lia|done].
    + exfalso. assert (is_empty s = true) as ?; [|congruence].
      apply is_empty_spec; [done|]. intros i Hi. apply Hn, Exists_exists.
      exists i. split; [|done]. rewrite elem_of_seq.
      pose proof (elem_of_lt i s Hs Hi). lia.
  - intros (i & _ & Hi). destruct (is_empty s) eqn:E; [|done].
    rewrite is_empty_spec in E by done. by apply E in Hi.
Qed.

(** [BitAnd] and [Sub] *)
Lemma bitand_wf s1 s2 : wf s1 → wf s2 → wf (bitand s1 s2).
Proof.
  intros H1 H2. apply u64_testbit; simpl.
  - apply Z.land_nonneg. left. apply H1.
  - intros. rewrite Z.land_spec, testbit_above_64; [done|apply H1|lia].
Qed.

Lemma elem_of_bitand i s1 s2 : i ∈ bitand s1 s2 ↔ i ∈ s1 ∧ i ∈ s2.
Proof. rewrite !elem_of_def. simpl. by rewrite Z.land_spec, andb_true_iff. Qed.

Lemma sub_wf s1 s2 : wf s1 → wf (sub s1 s2).
Proof.
  intros H1. apply u64_testbit; simpl.
  - apply Z.land_nonneg. left. apply H1.
  - intros. rewrite Z.land_spec, testbit_above_64; [done|apply H1|lia].
Qed.

Lemma elem_of_sub i s1 s2 : i < 64 → i ∈ sub s1 s2 ↔ i ∈ s1 ∧ i ∉ s2.
Proof.
  intros Hi. rewrite !elem_of_def. simpl. rewrite Z.land_spec, u64_not_spec by lia.
  rewrite andb_true_iff, negb_true_iff, not_true_iff_false. done.
Qed.

(** [num_threads], [only_one_contained], [contained_threads_iter] *)
Lemma elem_of_bits i s : wf s → i ∈ set_bits (bits s) ↔ i ∈ s.
Proof.
  intros Hs. rewrite elem_of_set_bits, <-elem_of_def.
  split; [naive_solver|]. intros Hi. split; [by eapply elem_of_lt|done].
Qed.

Lemma only_one_contained_Some s t :
  wf s → only_one_contained s = Some t ↔ t ∈ s ∧ ∀ i, i ∈ s → i = t.
Proof.
  intros Hs. unfold only_one_contained, num_threads, count_ones, trailing_zeros.
  pose proof (λ i, elem_of_bits i s Hs) as Hmem.
  pose proof (NoDup_set_bits (bits s)) as Hnd.
  destruct (set_bits (bits s)) as [|x [|y l]]; simpl in *.
  - split; [done|]. intros [Ht _].
    apply Hmem in Ht. by apply not_elem_of_nil in Ht.
  - split.
    + intros [= ->]. split; [apply Hmem; set_solver|].
      intros i Hi. apply Hmem in Hi. set_solver.
    + intros [Ht H]. f_equal. apply H, Hmem. set_solver.
  - split; [done|]. intros [Ht H].
    assert (x = t) by (apply H, Hmem; set_solver).
    assert (y = t) by (apply H, Hmem; set_solver).
    subst. apply NoDup_cons in Hnd as [Hnd _]. set_solver.
Qed.

Lemma only_one_contained_only s t :
  wf s → only_one_contained s = Some t → t < 64 ∧ only t = Ok s.
Proof.
  intros Hs Ho. apply only_one_contained_Some in Ho as [Ht Hu]; [|done].
  assert (t < 64) as Hlt by by eapply elem_of_lt.
  split; [done|]. destruct (wp_elim (only t) (λ s', s' = s)) as (s' & -> & ->); [|done].
  apply wp_only; [done|]. intros s' Hs' Hm. apply ext; [done..|].
  intros i _. rewrite Hm. split; [by intros ->|auto].
Qed.

Lemma contained_threads_iter_ok s :
  contained_threads_iter s = Ok (filter (λ i, i ∈ s) (seq 0 64)).
Proof.
  unfold contained_threads_iter, MAX_THREADS.
  destruct (wp_elim (filter_res (contains s) (seq 0 64))
    (λ l, l = filter (λ i, i ∈ s) (seq 0 64))) as (? & -> & ->); [|done].
  apply wp_filter_res with (q := λ i, bool_decide (i ∈ s)).
  - intros i Hi. rewrite elem_of_seq in Hi. apply contains_ok. lia.
  - apply list_filter_iff. intros i. by rewrite bool_decide_spec.
Qed.

Lemma elem_of_contained_threads s l i :
  wf s → contained_threads_iter s = Ok l → i ∈ l ↔ i ∈ s.
Proof.
  intros Hs. rewrite contained_threads_iter_ok. intros Heq.
  assert (l = filter (λ i, i ∈ s) (seq 0 64)) as -> by congruence.
  rewrite list_elem_of_filter, elem_of_seq. split; [naive_solver|].
  intros Hi. split; [done|]. pose proof (elem_of_lt i s Hs Hi). lia.
Qed.

End ThreadSetFacts.

#[export] Hint Resolve ThreadSetFacts.none_wf ThreadSetFacts.bitand_wf
  ThreadSetFacts.sub_wf : igloo.
