(* ===== verification/AccountLocks.v ===== *)
(** * Thread-aware account locks

    [scheduler/src/impls/prio_graph_scheduler/thread_aware_account_locks.rs]:
    the read/write lock table that decides on which worker threads a
    transaction may be scheduled.  [ThreadAwareAccountLocks] is translated
    method by method; [wcount] and [rcount] give its abstract meaning (how many
    write and read locks a thread holds on an account) and the lemmas state
    every method in these terms. *)
From S2P Require Import Prelude ThreadSets.

Module AccountLocks.

Section Defs.
Context {Pubkey : Type} `{Countable Pubkey}.

(** ** Data *)

Record AccountWriteLocks := mkWriteLocks { wl_thread_id : ThreadId; wl_lock_count : Z }.

Record AccountReadLocks := mkReadLocks { rl_thread_set : ThreadSet.t; rl_lock_counts : list Z }.

Record AccountLocks := mkAccountLocks {
  write_locks : option AccountWriteLocks;
  read_locks : option AccountReadLocks
}.

(** [#[derive(Default)]] *)
Definition AccountLocks_default : AccountLocks := mkAccountLocks None None.

Record ThreadAwareAccountLocks := mkLocks {
  num_threads : nat;
  locks : gmap Pubkey AccountLocks
}.

Definition set_locks (s : ThreadAwareAccountLocks) (m : gmap Pubkey AccountLocks) :
  ThreadAwareAccountLocks := mkLocks (num_threads s) m.

(** ** Operations *)

Definition new (num_threads : nat) : res ThreadAwareAccountLocks :=
  _ ← assert_res (bool_decide (0 < num_threads)) "num threads must be > 0";
  _ ← assert_res (bool_decide (num_threads ≤ MAX_THREADS)) "num threads must be <= {MAX_THREADS}";
  Ok (mkLocks num_threads ∅).

Definition schedulable_threads (WRITE : bool) (s : ThreadAwareAccountLocks)
    (account : Pubkey) : res ThreadSet.t :=
  match locks s !! account with
  | None => ThreadSet.any (num_threads s)
  | Some (mkAccountLocks None (Some rl)) =>
      if WRITE then
        match ThreadSet.only_one_contained (rl_thread_set rl) with
        | Some t => ThreadSet.only t
        | None => Ok ThreadSet.none
        end
      else ThreadSet.any (num_threads s)
  | Some (mkAccountLocks (Some wl) None) => ThreadSet.only (wl_thread_id wl)
  | Some (mkAccountLocks (Some wl) (Some rl)) =>
      _ ← assert_res (bool_decide (ThreadSet.only_one_contained (rl_thread_set rl) =
                                   Some (wl_thread_id wl))) "assertion `left == right` failed";
      Ok (rl_thread_set rl)
  | Some (mkAccountLocks None None) => Panic "unreachable"
  end.

Definition read_schedulable_threads (s : ThreadAwareAccountLocks) (account : Pubkey) :
  res ThreadSet.t := schedulable_threads false s account.

Definition write_schedulable_threads (s : ThreadAwareAccountLocks) (account : Pubkey) :
  res ThreadSet.t := schedulable_threads true s account.

(** One of the two [for] loops of [accounts_schedulable_threads]: [None] is
    the early [return None]. *)
Fixpoint narrow_threads (f : Pubkey → res ThreadSet.t) (schedulable : ThreadSet.t)
    (accounts : list Pubkey) : res (option ThreadSet.t) :=
  match accounts with
  | [] => Ok (Some schedulable)
  | account :: accounts =>
      s ← f account;
      let schedulable := ThreadSet.bitand schedulable s in
      if ThreadSet.is_empty schedulable then Ok None
      else narrow_threads f schedulable accounts
  end.

Definition accounts_schedulable_threads (s : ThreadAwareAccountLocks)
    (write_account_locks read_account_locks : list Pubkey) : res (option ThreadSet.t) :=
  all ← ThreadSet.any (num_threads s);
  w ← narrow_threads (write_schedulable_threads s) all write_account_locks;
  match w with
  | None => Ok None
  | Some w => narrow_threads (read_schedulable_threads s) w read_account_locks
  end.

Definition write_lock_account (s : ThreadAwareAccountLocks) (account : Pubkey)
    (thread_id : ThreadId) : res ThreadAwareAccountLocks :=
  let entry := default AccountLocks_default (locks s !! account) in
  _ ← match read_locks entry with
      | Some rl => assert_res (bool_decide (ThreadSet.only_one_contained (rl_thread_set rl) =
                                            Some thread_id))
                     "outstanding read lock must be on same thread"
      | None => Ok ()
      end;
  wl ← match write_locks entry with
       | Some wl =>
           _ ← assert_res (bool_decide (wl_thread_id wl = thread_id))
                 "outstanding write lock must be on same thread";
           c ← checked_add u32_max (wl_lock_count wl) 1;
           Ok (mkWriteLocks (wl_thread_id wl) c)
       | None => Ok (mkWriteLocks thread_id 1)
       end;
  Ok (set_locks s (<[account := mkAccountLocks (Some wl) (read_locks entry)]> (locks s))).

Definition write_unlock_account (s : ThreadAwareAccountLocks) (account : Pubkey)
    (thread_id : ThreadId) : res ThreadAwareAccountLocks :=
  entry ← expect (locks s !! account) "write lock must exist for account";
  wl ← expect (write_locks entry) "write lock must exist for account";
  _ ← assert_res (bool_decide (wl_thread_id wl = thread_id))
        "outstanding write lock must be on same thread";
  c ← checked_sub (wl_lock_count wl) 1;
  Ok (set_locks s
    (if decide (c = 0%Z) then
       match read_locks entry with
       | None => delete account (locks s)
       | Some rl => <[account := mkAccountLocks None (Some rl)]> (locks s)
       end
     else <[account := mkAccountLocks (Some (mkWriteLocks (wl_thread_id wl) c))
                                      (read_locks entry)]> (locks s))).

Definition read_lock_account (s : ThreadAwareAccountLocks) (account : Pubkey)
    (thread_id : ThreadId) : res ThreadAwareAccountLocks :=
  let entry := default AccountLocks_default (locks s !! account) in
  _ ← match write_locks entry with
      | Some wl => assert_res (bool_decide (wl_thread_id wl = thread_id))
                     "outstanding write lock must be on same thread"
      | None => Ok ()
      end;
  rl ← match read_locks entry with
       | Some rl =>
           ts ← ThreadSet.insert (rl_thread_set rl) thread_id;
           c ← vec_get (rl_lock_counts rl) thread_id;
           c ← checked_add u32_max c 1;
           cs ← vec_set (rl_lock_counts rl) thread_id c;
           Ok (mkReadLocks ts cs)
       | None =>
           cs ← vec_set (replicate MAX_THREADS 0%Z) thread_id 1%Z;
           ts ← ThreadSet.only thread_id;
           Ok (mkReadLocks ts cs)
       end;
  Ok (set_locks s (<[account := mkAccountLocks (write_locks entry) (Some rl)]> (locks s))).

Definition read_unlock_account (s : ThreadAwareAccountLocks) (account : Pubkey)
    (thread_id : ThreadId) : res ThreadAwareAccountLocks :=
  entry ← expect (locks s !! account) "read lock must exist for account";
  rl ← expect (read_locks entry) "read lock must exist for account";
  b ← ThreadSet.contains (rl_thread_set rl) thread_id;
  _ ← assert_res b "outstanding read lock must be on same thread";
  c ← vec_get (rl_lock_counts rl) thread_id;
  c ← checked_sub c 1;
  cs ← vec_set (rl_lock_counts rl) thread_id c;
  if decide (c = 0%Z) then
    ts ← ThreadSet.remove (rl_thread_set rl) thread_id;
    Ok (set_locks s
      (if ThreadSet.is_empty ts then
         match write_locks entry with
         | None => delete account (locks s)
         | Some wl => <[account := mkAccountLocks (Some wl) None]> (locks s)
         end
       else <[account := mkAccountLocks (write_locks entry) (Some (mkReadLocks ts cs))]> (locks s)))
  else Ok (set_locks s
    (<[account := mkAccountLocks (write_locks entry)
                    (Some (mkReadLocks (rl_thread_set rl) cs))]> (locks s))).

Definition lock_accounts (s : ThreadAwareAccountLocks)
    (write_account_locks read_account_locks : list Pubkey) (thread_id : ThreadId) :
    res ThreadAwareAccountLocks :=
  _ ← assert_res (bool_decide (thread_id < num_threads s)) "thread_id must be < num_threads";
  s ← fold_res (λ s account, write_lock_account s account thread_id) s write_account_locks;
  fold_res (λ s account, read_lock_account s account thread_id) s read_account_locks.

Definition unlock_accounts (s : ThreadAwareAccountLocks)
    (write_account_locks read_account_locks : list Pubkey) (thread_id : ThreadId) :
    res ThreadAwareAccountLocks :=
  s ← fold_res (λ s account, write_unlock_account s account thread_id) s write_account_locks;
  fold_res (λ s account, read_unlock_account s account thread_id) s read_account_locks.

Definition try_lock_accounts (s : ThreadAwareAccountLocks)
    (write_account_locks read_account_locks : list Pubkey) (allowed_threads : ThreadSet.t)
    (thread_selector : ThreadSet.t → res ThreadId) :
    res (ThreadAwareAccountLocks * option ThreadId) :=
  sched ← accounts_schedulable_threads s write_account_locks read_account_locks;
  match sched with
  | None => Ok (s, None)
  | Some sched =>
      let schedulable_threads := ThreadSet.bitand sched allowed_threads in
      if ThreadSet.is_empty schedulable_threads then Ok (s, None)
      else
        thread_id ← thread_selector schedulable_threads;
        s ← lock_accounts s write_account_locks read_account_locks thread_id;
        Ok (s, Some thread_id)
  end.

(** ** Abstract meaning *)

(** Write and read locks thread [t] holds on [a]. *)
Definition entry_wcount (e : AccountLocks) (t : ThreadId) : Z :=
  match write_locks e with
  | Some wl => if decide (wl_thread_id wl = t) then wl_lock_count wl else 0
  | None => 0
  end.
Definition entry_rcount (e : AccountLocks) (t : ThreadId) : Z :=
  match read_locks e with
  | Some rl => default 0%Z (rl_lock_counts rl !! t)
  | None => 0
  end.
Definition wcount (s : ThreadAwareAccountLocks) (a : Pubkey) (t : ThreadId) : Z :=
  match locks s !! a with Some e => entry_wcount e t | None => 0 end.
Definition rcount (s : ThreadAwareAccountLocks) (a : Pubkey) (t : ThreadId) : Z :=
  match locks s !! a with Some e => entry_rcount e t | None => 0 end.

(** Thread [t] may take a (write) lock on [a]: no other thread holds a
    conflicting one. *)
Definition can_lock (WRITE : bool) (s : ThreadAwareAccountLocks) (a : Pubkey)
    (t : ThreadId) : Prop :=
  ∀ t', t' ≠ t → wcount s a t' = 0%Z ∧ (WRITE = true → rcount s a t' = 0%Z).

(** Thread [t] may take all the locks of a transaction. *)
Definition can_lock_all (s : ThreadAwareAccountLocks) (w r : list Pubkey) (t : ThreadId) : Prop :=
  t < num_threads s ∧ (∀ a, a ∈ w → can_lock true s a t) ∧ (∀ a, a ∈ r → can_lock false s a t).

(** Representation invariant of an entry and of the table. *)
Record read_wf (n : nat) (rl : AccountReadLocks) : Prop := {
  read_set_wf : ThreadSet.wf (rl_thread_set rl);
  read_len : length (rl_lock_counts rl) = MAX_THREADS;
  read_nonempty : ∃ i, i ∈ rl_thread_set rl;
  read_lt : ∀ i, i ∈ rl_thread_set rl → i < n;
  read_counts : ∀ i c, rl_lock_counts rl !! i = Some c →
    (0 ≤ c ≤ u32_max)%Z ∧ ((0 < c)%Z ↔ i ∈ rl_thread_set rl)
}.
Record entry_wf (n : nat) (e : AccountLocks) : Prop := {
  entry_some : is_Some (write_locks e) ∨ is_Some (read_locks e);
  entry_write : ∀ wl, write_locks e = Some wl →
    wl_thread_id wl < n ∧ (1 ≤ wl_lock_count wl ≤ u32_max)%Z;
  entry_read : ∀ rl, read_locks e = Some rl → read_wf n rl;
  entry_mixed : ∀ wl rl, write_locks e = Some wl → read_locks e = Some rl →
    ∀ i, i ∈ rl_thread_set rl → i = wl_thread_id wl
}.
Record wf (s : ThreadAwareAccountLocks) : Prop := {
  wf_threads : 0 < num_threads s ≤ MAX_THREADS;
  wf_entries : map_Forall (λ _, entry_wf (num_threads s)) (locks s)
}.

(** Occurrences of an account in a lock list. *)
Definition occ (a : Pubkey) (l : list Pubkey) : Z :=
  sumZ (λ x, if decide (x = a) then 1%Z else 0%Z) l.

End Defs.

Arguments ThreadAwareAccountLocks Pubkey {_ _}.

End AccountLocks.
