(* ===== verification/AccountLocksFacts.v ===== *)
(** * Lock table: lemmas

    Every method of [AccountLocks.ThreadAwareAccountLocks] stated on the lock
    counts [wcount] / [rcount]; the representation is canonical ([locks_ext]),
    so equalities of tables reduce to equalities of counts. *)
From S2P Require Import Prelude ThreadSets AccountLocks.
Import AccountLocks.

Section Facts.
Context {Pubkey : Type} `{Countable Pubkey}.
Implicit Types (s : ThreadAwareAccountLocks Pubkey) (a : Pubkey) (t n : nat).

(** The indicator of one account on one thread. *)
Definition at_point (a : Pubkey) (t : nat) (a' : Pubkey) (t' : nat) : Z :=
  if decide (a' = a ∧ t' = t) then 1%Z else 0%Z.

(** [s'] is [s] with [dw] more write locks and [dr] more read locks. *)
Record delta s s' (dw dr : Pubkey → nat → Z) : Prop := {
  delta_threads : num_threads s' = num_threads s;
  delta_w : ∀ a t, wcount s' a t = (wcount s a t + dw a t)%Z;
  delta_r : ∀ a t, rcount s' a t = (rcount s a t + dr a t)%Z
}.

Definition no_locks : Pubkey → nat → Z := λ _ _, 0%Z.

(** ** Entries *)

Lemma entry_wcount_bounds n e t : entry_wf n e → (0 ≤ entry_wcount e t ≤ u32_max)%Z.
Proof.
  intros He. unfold entry_wcount. destruct (write_locks e) as [wl|] eqn:E; [|done].
  pose proof (entry_write _ _ He _ E). case_decide; lia.
Qed.

Lemma entry_rcount_bounds n e t : entry_wf n e → (0 ≤ entry_rcount e t ≤ u32_max)%Z.
Proof.
  intros He. unfold entry_rcount. destruct (read_locks e) as [rl|] eqn:E; [|done].
  destruct (rl_lock_counts rl !! t) as [c|] eqn:Ec; [|done].
  apply (read_counts _ _ (entry_read _ _ He _ E)) in Ec. naive_solver.
Qed.

Lemma read_count_pos n rl i :
  n ≤ MAX_THREADS → read_wf n rl →
  (0 < default 0 (rl_lock_counts rl !! i))%Z ↔ i ∈ rl_thread_set rl.
Proof.
  intros Hn Hr. destruct (rl_lock_counts rl !! i) as [c|] eqn:E; simpl.
  - by apply (read_counts _ _ Hr) in E as [_ ?].
  - split; [done|]. intros Hi%(read_lt _ _ Hr).
    apply lookup_ge_None in E. rewrite (read_len _ _ Hr) in E. lia.
Qed.

Lemma entry_wcount_pos n e t :
  entry_wf n e → (0 < entry_wcount e t)%Z ↔
  ∃ wl, write_locks e = Some wl ∧ wl_thread_id wl = t.
Proof.
  intros He. unfold entry_wcount. destruct (write_locks e) as [wl|] eqn:E; [|split; [lia|naive_solver]].
  pose proof (entry_write _ _ He _ E). case_decide; split; intros; simplify_eq; eauto; try lia; naive_solver.
Qed.

Lemma entry_rcount_pos n e t :
  n ≤ MAX_THREADS → entry_wf n e → (0 < entry_rcount e t)%Z ↔
  ∃ rl, read_locks e = Some rl ∧ t ∈ rl_thread_set rl.
Proof.
  intros Hn He. unfold entry_rcount. destruct (read_locks e) as [rl|] eqn:E; [|split; [lia|naive_solver]].
  rewrite (read_count_pos n) by (done || by eapply entry_read). naive_solver.
Qed.

(** A thread id at or above the thread count holds nothing. *)
Lemma entry_counts_ge n e t :
  n ≤ MAX_THREADS → entry_wf n e → n ≤ t → entry_wcount e t = 0%Z ∧ entry_rcount e t = 0%Z.
Proof.
  intros Hn He Ht. split.
  - destruct (decide (0 < entry_wcount e t)%Z) as [Hp|];
      [|pose proof (entry_wcount_bounds _ _ t He); lia].
    apply (entry_wcount_pos _ _ _ He) in Hp as (wl & Hwl & <-).
    apply (entry_write _ _ He) in Hwl. lia.
  - destruct (decide (0 < entry_rcount e t)%Z) as [Hp|];
      [|pose proof (entry_rcount_bounds _ _ t He); lia].
    apply (entry_rcount_pos n) in Hp as (rl & Hrl & Hi); [|done..].
    apply (read_lt _ _ (entry_read _ _ He _ Hrl)) in Hi. lia.
Qed.

(** An entry always records some lock. *)
Lemma entry_held n e :
  n ≤ MAX_THREADS → entry_wf n e →
  ∃ t, t < n ∧ (0 < entry_wcount e t ∨ 0 < entry_rcount e t)%Z.
Proof.
  intros Hn He. destruct (entry_some _ _ He) as [[wl Hwl]|[rl Hrl]].
  - exists (wl_thread_id wl). split; [by apply (entry_write _ _ He)|].
    left. apply (entry_wcount_pos _ _ _ He). eauto.
  - destruct (read_nonempty _ _ (entry_read _ _ He _ Hrl)) as [i Hi].
    exists i. split; [by apply (read_lt _ _ (entry_read _ _ He _ Hrl))|].
    right. apply (entry_rcount_pos n); eauto.
Qed.

Lemma read_ext n rl1 rl2 :
  n ≤ MAX_THREADS → read_wf n rl1 → read_wf n rl2 →
  (∀ t, default 0%Z (rl_lock_counts rl1 !! t) = default 0%Z (rl_lock_counts rl2 !! t)) →
  rl1 = rl2.
Proof.
  intros Hn H1 H2 Heq. destruct rl1 as [ts1 cs1], rl2 as [ts2 cs2]. f_equal.
  - apply ThreadSetFacts.ext; [apply H1|apply H2|]. intros i _.
    rewrite <-(read_count_pos _ _ i Hn H1), <-(read_count_pos _ _ i Hn H2). simpl in *.
    by rewrite Heq.
  - apply list_eq_same_length with MAX_THREADS; [apply H2|apply H1|].
    intros i x y _ Hx Hy. specialize (Heq i). simpl in *. by rewrite Hx, Hy in Heq.
Qed.

Lemma entry_ext n e1 e2 :
  n ≤ MAX_THREADS → entry_wf n e1 → entry_wf n e2 →
  (∀ t, entry_wcount e1 t = entry_wcount e2 t) →
  (∀ t, entry_rcount e1 t = entry_rcount e2 t) → e1 = e2.
Proof.
  intros Hn H1 H2 Hw Hr.
  assert (write_locks e1 = write_locks e2) as Hwe.
  { destruct (write_locks e1) as [wl1|] eqn:E1, (write_locks e2) as [wl2|] eqn:E2; [|..|done].
    - assert (0 < entry_wcount e1 (wl_thread_id wl1))%Z as Hp
        by (apply (entry_wcount_pos _ _ _ H1); eauto).
      pose proof (Hw (wl_thread_id wl1)) as Hc.
      unfold entry_wcount in Hp, Hc. rewrite E1 in Hp, Hc. rewrite E2 in Hc.
      rewrite decide_True in Hp, Hc by done. case_decide; [|lia].
      destruct wl1, wl2; simpl in *; subst. done.
    - pose proof (proj2 (entry_wcount_pos _ _ (wl_thread_id wl1) H1) ltac:(eauto)) as Hp.
      rewrite Hw in Hp. apply (entry_wcount_pos _ _ _ H2) in Hp. naive_solver.
    - pose proof (proj2 (entry_wcount_pos _ _ (wl_thread_id wl2) H2) ltac:(eauto)) as Hp.
      rewrite <-Hw in Hp. apply (entry_wcount_pos _ _ _ H1) in Hp. naive_solver. }
  assert (read_locks e1 = read_locks e2) as Hre.
  { destruct (read_locks e1) as [rl1|] eqn:E1, (read_locks e2) as [rl2|] eqn:E2; [|..|done].
    - f_equal. apply (read_ext n); [done|by eauto using entry_read..|].
      intros t. specialize (Hr t). unfold entry_rcount in Hr. by rewrite E1, E2 in Hr.
    - destruct (read_nonempty _ _ (entry_read _ _ H1 _ E1)) as [i Hi].
      pose proof (proj2 (entry_rcount_pos _ _ i Hn H1) ltac:(eauto)) as Hp.
      rewrite Hr in Hp. apply (entry_rcount_pos n) in Hp; naive_solver.
    - destruct (read_nonempty _ _ (entry_read _ _ H2 _ E2)) as [i Hi].
      pose proof (proj2 (entry_rcount_pos _ _ i Hn H2) ltac:(eauto)) as Hp.
      rewrite <-Hr in Hp. apply (entry_rcount_pos n) in Hp; naive_solver. }
  destruct e1, e2; simpl in *; by subst.
Qed.

(** ** Tables *)

Lemma wf_entry s a e : wf s → locks s !! a = Some e → entry_wf (num_threads s) e.
Proof. intros Hs. apply (wf_entries _ Hs). Qed.

Lemma wf_max s : wf s → num_threads s ≤ MAX_THREADS.
Proof. intros Hs. apply (wf_threads _ Hs). Qed.
#[local] Hint Resolve wf_max wf_entry : core.

Lemma wcount_bounds s a t : wf s → (0 ≤ wcount s a t ≤ u32_max)%Z.
Proof.
  intros Hs. unfold wcount. destruct (locks s !! a) eqn:E; [|done].
  by eapply entry_wcount_bounds, wf_entry.
Qed.

Lemma rcount_bounds s a t : wf s → (0 ≤ rcount s a t ≤ u32_max)%Z.
Proof.
  intros Hs. unfold rcount. destruct (locks s !! a) eqn:E; [|done].
  by eapply entry_rcount_bounds, wf_entry.
Qed.

Lemma counts_ge s a t :
  wf s → num_threads s ≤ t → wcount s a t = 0%Z ∧ rcount s a t = 0%Z.
Proof.
  intros Hs Ht. unfold wcount, rcount. destruct (locks s !! a) eqn:E; [|done].
  apply (entry_counts_ge (num_threads s)); eauto.
Qed.

(** Mutual exclusion: a write lock excludes every lock of another thread. *)
Lemma write_excludes s a t t' :
  wf s → (0 < wcount s a t)%Z → t' ≠ t → wcount s a t' = 0%Z ∧ rcount s a t' = 0%Z.
Proof.
  intros Hs Hp Hne. unfold wcount, rcount in *.
  destruct (locks s !! a) as [e|] eqn:E; [|done].
  pose proof (wf_entry _ _ _ Hs E) as He.
  apply (entry_wcount_pos _ _ _ He) in Hp as (wl & Hwl & <-). split.
  - unfold entry_wcount. rewrite Hwl, decide_False; done.
  - destruct (decide (0 < entry_rcount e t')%Z) as [Hp|];
      [|pose proof (entry_rcount_bounds _ _ t' He); lia].
    apply (entry_rcount_pos (num_threads s)) in Hp as (rl & Hrl & Hi); [|eauto..].
    by apply (entry_mixed _ _ He _ _ Hwl Hrl) in Hi.
Qed.

Lemma locks_ext s1 s2 :
  wf s1 → wf s2 → num_threads s1 = num_threads s2 →
  (∀ a t, wcount s1 a t = wcount s2 a t) → (∀ a t, rcount s1 a t = rcount s2 a t) → s1 = s2.
Proof.
  intros H1 H2 Hn Hw Hr.
  enough (locks s1 = locks s2) by (destruct s1, s2; simpl in *; by subst).
  apply map_eq. intros a. specialize (Hw a). specialize (Hr a). unfold wcount, rcount in *.
  destruct (locks s1 !! a) as [e1|] eqn:E1, (locks s2 !! a) as [e2|] eqn:E2; [|..|done].
  - f_equal. apply (entry_ext (num_threads s1)); eauto. rewrite Hn. eauto.
  - destruct (entry_held (num_threads s1) e1) as (t & _ & [?|?]); [eauto..| |];
      [rewrite Hw in *|rewrite Hr in *]; lia.
  - destruct (entry_held (num_threads s2) e2) as (t & _ & [?|?]); [eauto..| |];
      [rewrite <-Hw in *|rewrite <-Hr in *]; lia.
Qed.

Lemma new_wf n : 0 < n ≤ MAX_THREADS → wf (mkLocks n (∅ : gmap Pubkey _)).
Proof. intros. split; [done|]. apply map_Forall_empty. Qed.

Lemma set_locks_insert_wf s a e :
  wf s → entry_wf (num_threads s) e → wf (set_locks s (<[a := e]> (locks s))).
Proof. intros Hs He. split; [apply Hs|]. by apply map_Forall_insert_2, Hs. Qed.

Lemma set_locks_delete_wf s a : wf s → wf (set_locks s (delete a (locks s))).
Proof. intros Hs. split; [apply Hs|]. by apply map_Forall_delete, Hs. Qed.

(** Replacing the entry of [a] changes only the counts of [a]. *)
Lemma delta_insert s a e dw dr :
  (∀ t, entry_wcount e t = (wcount s a t + dw a t)%Z) →
  (∀ t, entry_rcount e t = (rcount s a t + dr a t)%Z) →
  (∀ a' t, a' ≠ a → dw a' t = 0%Z ∧ dr a' t = 0%Z) →
  delta s (set_locks s (<[a := e]> (locks s))) dw dr.
Proof.
  intros Hw Hr Hne. split; [done|..]; intros a' t.
  - unfold wcount at 1. simpl. rewrite lookup_insert. case_decide; subst; [apply Hw|].
    change (wcount s a' t = (wcount s a' t + dw a' t)%Z).
    destruct (Hne a' t); [done|]. lia.
  - unfold rcount at 1. simpl. rewrite lookup_insert. case_decide; subst; [apply Hr|].
    change (rcount s a' t = (rcount s a' t + dr a' t)%Z).
    destruct (Hne a' t); [done|]. lia.
Qed.

Lemma delta_delete s a dw dr :
  (∀ t, (wcount s a t + dw a t = 0)%Z) → (∀ t, (rcount s a t + dr a t = 0)%Z) →
  (∀ a' t, a' ≠ a → dw a' t = 0%Z ∧ dr a' t = 0%Z) →
  delta s (set_locks s (delete a (locks s))) dw dr.
Proof.
  intros Hw Hr Hne. split; [done|..]; intros a' t.
  - unfold wcount at 1. simpl. rewrite lookup_delete. case_decide; subst; [by rewrite Hw|].
    change (wcount s a' t = (wcount s a' t + dw a' t)%Z).
    destruct (Hne a' t); [done|]. lia.
  - unfold rcount at 1. simpl. rewrite lookup_delete. case_decide; subst; [by rewrite Hr|].
    change (rcount s a' t = (rcount s a' t + dr a' t)%Z).
    destruct (Hne a' t); [done|]. lia.
Qed.

Lemma at_point_ne a t a' t' : a' ≠ a → at_point a t a' t' = 0%Z.
Proof. intros. unfold at_point. rewrite decide_False; naive_solver. Qed.

Lemma at_point_same a t t' : at_point a t a t' = if decide (t' = t) then 1%Z else 0%Z.
Proof. unfold at_point. repeat case_decide; naive_solver. Qed.

(** ** Locking and unlocking one account *)

(** The entry the [entry(..).or_default()] API hands out. *)
Definition entry_at s a : AccountLocks := default AccountLocks_default (locks s !! a).

Lemma wcount_entry s a t : wcount s a t = entry_wcount (entry_at s a) t.
Proof. unfold wcount, entry_at. by destruct (locks s !! a). Qed.
Lemma rcount_entry s a t : rcount s a t = entry_rcount (entry_at s a) t.
Proof. unfold rcount, entry_at. by destruct (locks s !! a). Qed.

Lemma entry_at_write s a wl :
  wf s → write_locks (entry_at s a) = Some wl →
  wl_thread_id wl < num_threads s ∧ (1 ≤ wl_lock_count wl ≤ u32_max)%Z ∧
  wcount s a (wl_thread_id wl) = wl_lock_count wl.
Proof.
  intros Hs Hwl. unfold wcount, entry_at in *.
  destruct (locks s !! a) as [e|] eqn:E; simpl in *; [|done].
  destruct (entry_write _ _ (wf_entry _ _ _ Hs E) _ Hwl). split_and!; try lia.
  unfold entry_wcount. by rewrite Hwl, decide_True.
Qed.

Lemma entry_at_read s a rl :
  wf s → read_locks (entry_at s a) = Some rl → read_wf (num_threads s) rl.
Proof.
  intros Hs Hrl. unfold entry_at in *.
  destruct (locks s !! a) as [e|] eqn:E; simpl in *; [|done].
  by eapply entry_read; [eapply wf_entry|].
Qed.

Lemma entry_at_read_held s a rl i :
  wf s → read_locks (entry_at s a) = Some rl → i ∈ rl_thread_set rl ↔ (0 < rcount s a i)%Z.
Proof.
  intros Hs Hrl. rewrite rcount_entry. unfold entry_rcount. rewrite Hrl.
  symmetry. apply (read_count_pos (num_threads s)); eauto using entry_at_read.
Qed.

(** Under [can_lock true], the outstanding readers are all on [t]. *)
Lemma can_lock_readers s a t rl :
  wf s → can_lock true s a t → read_locks (entry_at s a) = Some rl →
  ThreadSet.only_one_contained (rl_thread_set rl) = Some t.
Proof.
  intros Hs Hc Hrl. pose proof (entry_at_read _ _ _ Hs Hrl) as Hr.
  assert (∀ i, i ∈ rl_thread_set rl → i = t) as Hu.
  { intros i Hi. apply (entry_at_read_held _ _ _ _ Hs Hrl) in Hi.
    destruct (decide (i = t)); [done|]. destruct (Hc i) as [_ Hz]; [done|].
    rewrite Hz in Hi by done. lia. }
  apply ThreadSetFacts.only_one_contained_Some; [apply Hr|]. split; [|done].
  destruct (read_nonempty _ _ Hr) as [i Hi]. by rewrite <-(Hu i Hi).
Qed.

Lemma can_lock_writer W s a t wl :
  wf s → can_lock W s a t → write_locks (entry_at s a) = Some wl → wl_thread_id wl = t.
Proof.
  intros Hs Hc Hwl. destruct (decide (wl_thread_id wl = t)) as [|Hne]; [done|].
  destruct (entry_at_write _ _ _ Hs Hwl) as (_ & ? & Hw).
  destruct (Hc _ Hne) as [Hz _]. lia.
Qed.

Lemma write_lock_ok s a t :
  wf s → t < num_threads s → can_lock true s a t → (wcount s a t < u32_max)%Z →
  wp (write_lock_account s a t) (λ s', wf s' ∧ delta s s' (at_point a t) no_locks).
Proof.
  intros Hs Ht Hc Hmax. unfold write_lock_account. fold (entry_at s a).
  set (e := entry_at s a) in *.
  assert (Hread : wp (match read_locks e with
      | Some rl => assert_res (bool_decide (ThreadSet.only_one_contained (rl_thread_set rl) =
                                            Some t)) "outstanding read lock must be on same thread"
      | None => Ok () end) (λ _, True)).
  { destruct (read_locks e) as [rl|] eqn:Hrl; [|done]. apply wp_assert; [|done].
    apply bool_decide_eq_true. by eapply can_lock_readers. }
  apply wp_bind. eapply wp_mono; [exact Hread|]. intros _ _.
  apply wp_bind. apply wp_mono with (λ wl, wl = mkWriteLocks t (wcount s a t + 1)).
  { rewrite wcount_entry. fold e. unfold entry_wcount.
    destruct (write_locks e) as [wl|] eqn:Hwl; [|done].
    pose proof (can_lock_writer _ _ _ _ _ Hs Hc Hwl) as Hid.
    destruct (entry_at_write _ _ _ Hs Hwl) as (_ & _ & Hw). rewrite Hid in Hw.
    rewrite decide_True by done. repeat wp_step; [by apply bool_decide_eq_true|lia|].
    by rewrite Hid. }
  intros wl ->. apply wp_ok.
  assert (entry_wf (num_threads s)
    (mkAccountLocks (Some (mkWriteLocks t (wcount s a t + 1))) (read_locks e))) as He.
  { pose proof (wcount_bounds s a t Hs). split; simpl; [eauto|..].
    - intros ? [= <-]. simpl. lia.
    - intros rl Hrl. by eapply entry_at_read.
    - intros ? rl [= <-] Hrl i Hi. simpl.
      pose proof (can_lock_readers _ _ _ _ Hs Hc Hrl) as Ho.
      apply ThreadSetFacts.only_one_contained_Some in Ho; [naive_solver|].
      by apply (entry_at_read _ _ _ Hs Hrl). }
  split; [by apply set_locks_insert_wf|]. apply delta_insert.
  - intros t'. rewrite at_point_same. unfold entry_wcount. simpl.
    case_decide; subst; [by rewrite decide_True|]. rewrite decide_False by done.
    destruct (Hc t') as [-> _]; [done|]. lia.
  - intros t'. rewrite rcount_entry. unfold no_locks, entry_rcount. fold e. simpl. lia.
  - intros. by rewrite at_point_ne.
Qed.

Lemma write_unlock_ok s a t :
  wf s → (0 < wcount s a t)%Z →
  wp (write_unlock_account s a t)
     (λ s', wf s' ∧ delta s s' (λ a' t', - at_point a t a' t')%Z no_locks).
Proof.
  intros Hs Hp. unfold write_unlock_account.
  destruct (locks s !! a) as [e|] eqn:E; [|unfold wcount in Hp; by rewrite E in Hp].
  pose proof (wf_entry _ _ _ Hs E) as He.
  assert (∀ t', wcount s a t' = entry_wcount e t') as Hw by (unfold wcount; by rewrite E).
  assert (∀ t', rcount s a t' = entry_rcount e t') as Hr by (unfold rcount; by rewrite E).
  rewrite Hw in Hp. apply (entry_wcount_pos _ _ _ He) in Hp as (wl & Hwl & Hid).
  destruct (entry_write _ _ He _ Hwl) as [Hlt Hcnt].
  simpl. rewrite Hwl. simpl. repeat wp_step; [by apply bool_decide_eq_true|lia|].
  assert (∀ t', wcount s a t' = if decide (t' = t) then wl_lock_count wl else 0%Z) as Hw'.
  { intros t'. rewrite Hw. unfold entry_wcount. rewrite Hwl, Hid. repeat case_decide; naive_solver. }
  case_decide as Hc.
  - assert (wl_lock_count wl = 1%Z) as H1 by lia.
    destruct (read_locks e) as [rl|] eqn:Hrl.
    + split.
      * apply set_locks_insert_wf; [done|]. split; simpl; [eauto|done| |done].
        intros ? [= <-]. by apply (entry_read _ _ He).
      * apply delta_insert; [intros t'..|].
        -- rewrite Hw', at_point_same. unfold entry_wcount. simpl. case_decide; lia.
        -- rewrite Hr. unfold entry_rcount, no_locks. rewrite Hrl. simpl. lia.
        -- intros. by rewrite at_point_ne.
    + split; [by apply set_locks_delete_wf|]. apply delta_delete.
      * intros t'. rewrite Hw', at_point_same. case_decide; lia.
      * intros t'. rewrite Hr. unfold entry_rcount, no_locks. by rewrite Hrl.
      * intros. by rewrite at_point_ne.
  - split.
    + apply set_locks_insert_wf; [done|]. split; simpl; [eauto|..].
      * intros ? [= <-]. simpl. lia.
      * by apply (entry_read _ _ He).
      * intros ? rl [= <-] Hrl. simpl. by apply (entry_mixed _ _ He).
    + apply delta_insert; [intros t'..|].
      * rewrite Hw', at_point_same. unfold entry_wcount. simpl. rewrite Hid.
        repeat case_decide; naive_solver lia.
      * rewrite Hr. unfold entry_rcount, no_locks. simpl. lia.
      * intros. by rewrite at_point_ne.
Qed.

(** Read locks with the count of one thread replaced. *)
Lemma read_set_wf_update n rl ts t c :
  t < n ≤ MAX_THREADS → read_wf n rl ∨ rl_lock_counts rl = replicate MAX_THREADS 0%Z →
  ThreadSet.wf ts → (∃ i, i ∈ ts) → (0 ≤ c ≤ u32_max)%Z → ((0 < c)%Z ↔ t ∈ ts) →
  (∀ i, i ≠ t → i ∈ ts ↔ (0 < default 0 (rl_lock_counts rl !! i))%Z) →
  read_wf n (mkReadLocks ts (<[t := c]> (rl_lock_counts rl))).
Proof.
  intros Ht Hrl Hts Hne Hc Hmem Hoth.
  assert (length (rl_lock_counts rl) = MAX_THREADS) as Hlen.
  { destruct Hrl as [Hrl| ->]; [apply Hrl|apply length_replicate]. }
  assert (∀ i x, rl_lock_counts rl !! i = Some x → (0 ≤ x ≤ u32_max)%Z) as Hold.
  { intros i x Hx. destruct Hrl as [Hrl|Hrep].
    - by apply (read_counts _ _ Hrl) in Hx as [? _].
    - rewrite Hrep in Hx. apply lookup_replicate in Hx as [-> _]. done. }
  split; simpl; [done|by rewrite length_insert|done|..].
  - intros i Hi. destruct (decide (i = t)) as [->|Hit]; [lia|].
    apply Hoth in Hi; [|done]. destruct Hrl as [Hrl|Hrep].
    + apply (read_lt _ _ Hrl). apply (read_count_pos n); [lia|done|done].
    + rewrite Hrep in Hi. destruct (replicate _ _ !! i) eqn:Er; simpl in Hi; [|lia].
      apply lookup_replicate in Er as [-> _]. lia.
  - intros i x. rewrite list_lookup_insert. case_decide as Hd.
    + destruct Hd as [<- _]. intros [= <-]. done.
    + intros Hx. split; [by eapply Hold|].
      assert (i ≠ t) as Hit. { intros ->. apply Hd. split; [done|]. lia. }
      rewrite (Hoth i Hit), Hx. done.
Qed.

(** The read locks [rl] of [a] after thread [t] took one more. *)
Definition one_more_reader s a t (rl : AccountReadLocks) : Prop :=
  read_wf (num_threads s) rl ∧
  (∀ i, i ∈ rl_thread_set rl → i = t ∨ (0 < rcount s a i)%Z) ∧
  ∀ t', default 0%Z (rl_lock_counts rl !! t') = (rcount s a t' + at_point a t a t')%Z.

Lemma read_lock_more s a t rl :
  wf s → t < num_threads s → (rcount s a t < u32_max)%Z → read_locks (entry_at s a) = Some rl →
  wp (ts ← ThreadSet.insert (rl_thread_set rl) t; c ← vec_get (rl_lock_counts rl) t;
      c ← checked_add u32_max c 1; cs ← vec_set (rl_lock_counts rl) t c;
      Ok (mkReadLocks ts cs)) (one_more_reader s a t).
Proof.
  intros Hs Ht Hmax Hrl. pose proof (wf_max _ Hs) as Hn.
  pose proof (rcount_bounds s a t Hs) as Hrb. pose proof (entry_at_read _ _ _ Hs Hrl) as Hr.
  assert (∀ t', rcount s a t' = default 0%Z (rl_lock_counts rl !! t')) as Hrc.
  { intros t'. rewrite rcount_entry. unfold entry_rcount. by rewrite Hrl. }
  assert (t < length (rl_lock_counts rl)) as Hlen by (rewrite (read_len _ _ Hr); lia).
  destruct (lookup_lt_is_Some_2 _ _ Hlen) as [c Hct].
  assert (rcount s a t = c) as Hcc by (rewrite Hrc, Hct; done).
  wp_step. apply ThreadSetFacts.wp_insert; [apply Hr|unfold MAX_THREADS in *; lia|].
  intros ts Hts Hmem. wp_step. eapply wp_vec_get; [done|]. repeat wp_step; [lia|done|].
  split_and!.
  - apply read_set_wf_update; [lia|by left|done|exists t; apply Hmem; by left|lia|..].
    + rewrite Hmem. split; [by left|lia].
    + intros i Hi. rewrite Hmem, <-(read_count_pos (num_threads s)) by done. naive_solver.
  - simpl. intros i Hi%Hmem. destruct Hi as [->|Hi]; [by left|right].
    rewrite Hrc. by apply (read_count_pos (num_threads s)).
  - intros t'. simpl. rewrite Hrc, at_point_same, list_lookup_insert.
    destruct (decide (t' = t)) as [->|Hne].
    + rewrite decide_True by done. rewrite Hct. simpl. lia.
    + rewrite decide_False by naive_solver. lia.
Qed.

Lemma read_lock_first s a t :
  wf s → t < num_threads s → read_locks (entry_at s a) = None →
  wp (cs ← vec_set (replicate MAX_THREADS 0%Z) t 1%Z; ts ← ThreadSet.only t;
      Ok (mkReadLocks ts cs)) (one_more_reader s a t).
Proof.
  intros Hs Ht Hrl. pose proof (wf_max _ Hs) as Hn.
  assert (∀ t', rcount s a t' = 0%Z) as Hrc.
  { intros t'. rewrite rcount_entry. unfold entry_rcount. by rewrite Hrl. }
  assert (∀ i, default 0%Z (replicate MAX_THREADS 0%Z !! i) = 0%Z) as Hrep.
  { intros i. destruct (replicate MAX_THREADS 0%Z !! i) eqn:Er; [|done].
    by apply lookup_replicate in Er as [-> _]. }
  wp_step. wp_step; [rewrite length_replicate; lia|]. wp_step.
  apply ThreadSetFacts.wp_only; [unfold MAX_THREADS in *; lia|].
  intros ts Hts Hmem. wp_step. split_and!.
  - apply (read_set_wf_update _ (mkReadLocks ThreadSet.none (replicate MAX_THREADS 0%Z)));
      simpl; [lia|by right|done|exists t; by apply Hmem|done|by rewrite Hmem|].
    intros i Hi. rewrite Hmem, Hrep. split; [done|lia].
  - simpl. intros i ->%Hmem. by left.
  - intros t'. cbn [rl_lock_counts].
    rewrite Hrc, at_point_same, list_lookup_insert, length_replicate.
    destruct (decide (t' = t)) as [->|Hne].
    + by rewrite decide_True by lia.
    + rewrite decide_False by naive_solver. by rewrite Hrep.
Qed.

(** Replacing the read locks of an account by [rl]. *)
Lemma replace_read_locks s a rl dr :
  wf s → read_wf (num_threads s) rl →
  (∀ wl i, write_locks (entry_at s a) = Some wl → i ∈ rl_thread_set rl → i = wl_thread_id wl) →
  (∀ t, default 0%Z (rl_lock_counts rl !! t) = (rcount s a t + dr a t)%Z) →
  (∀ a' t, a' ≠ a → dr a' t = 0%Z) →
  let s' := set_locks s (<[a := mkAccountLocks (write_locks (entry_at s a)) (Some rl)]> (locks s)) in
  wf s' ∧ delta s s' no_locks dr.
Proof.
  intros Hs Hrl Hmix Hcs Hoth. split.
  - apply set_locks_insert_wf; [done|]. split; simpl; [eauto|..].
    + intros wl Hwl. destruct (entry_at_write _ _ _ Hs Hwl) as (? & ? & _). done.
    + by intros ? [= <-].
    + intros wl ? Hwl [= <-] i Hi. by apply Hmix.
  - apply delta_insert; [intros t..|].
    + rewrite wcount_entry. unfold no_locks, entry_wcount. simpl. lia.
    + unfold entry_rcount. simpl. apply Hcs.
    + intros a' t Ha'. by rewrite Hoth.
Qed.

(** Dropping the read locks of an account, and its entry with them when no
    write lock is left. *)
Lemma drop_read_locks s a dr :
  wf s → (∀ t, (rcount s a t + dr a t = 0)%Z) → (∀ a' t, a' ≠ a → dr a' t = 0%Z) →
  let s' := set_locks s (match write_locks (entry_at s a) with
                         | None => delete a (locks s)
                         | Some wl => <[a := mkAccountLocks (Some wl) None]> (locks s)
                         end) in
  wf s' ∧ delta s s' no_locks dr.
Proof.
  intros Hs Hz Hoth. destruct (write_locks (entry_at s a)) as [wl|] eqn:Hwl; split.
  - apply set_locks_insert_wf; [done|]. split; simpl; [eauto| |done|done].
    intros ? [= <-]. destruct (entry_at_write _ _ _ Hs Hwl) as (? & ? & _). done.
  - apply delta_insert; [intros t..|].
    + rewrite wcount_entry. unfold no_locks, entry_wcount. rewrite Hwl. simpl. lia.
    + unfold entry_rcount. simpl. by rewrite Hz.
    + intros a' t Ha'. by rewrite Hoth.
  - by apply set_locks_delete_wf.
  - apply delta_delete; [|done|].
    + intros t. rewrite wcount_entry. unfold no_locks, entry_wcount. by rewrite Hwl.
    + intros a' t Ha'. by rewrite Hoth.
Qed.

(** The readers of an account written by one thread are on that thread. *)
Lemma reader_of_written s a wl i :
  wf s → write_locks (entry_at s a) = Some wl → (0 < rcount s a i)%Z → i = wl_thread_id wl.
Proof.
  intros Hs Hwl Hp. destruct (decide (i = wl_thread_id wl)) as [|Hne]; [done|].
  destruct (entry_at_write _ _ _ Hs Hwl) as (_ & ? & Hw).
  destruct (write_excludes s a (wl_thread_id wl) i) as [_ Hz]; [done|lia|done|lia].
Qed.

Lemma read_lock_ok s a t :
  wf s → t < num_threads s → can_lock false s a t → (rcount s a t < u32_max)%Z →
  wp (read_lock_account s a t) (λ s', wf s' ∧ delta s s' no_locks (at_point a t)).
Proof.
  intros Hs Ht Hc Hmax. unfold read_lock_account. fold (entry_at s a).
  apply wp_bind. apply wp_mono with (λ _, True).
  { destruct (write_locks (entry_at s a)) as [wl|] eqn:Hwl; [|done]. apply wp_assert; [|done].
    apply bool_decide_eq_true. by eapply can_lock_writer. }
  intros _ _. apply wp_bind. apply wp_mono with (one_more_reader s a t).
  { destruct (read_locks (entry_at s a)) eqn:Hrl; [by apply read_lock_more|by apply read_lock_first]. }
  intros rl (Hrl & Hmem & Hcs). apply wp_ok, replace_read_locks; [done..| |done|].
  - intros wl i Hwl Hi. destruct (Hmem i Hi) as [->|Hp].
    + symmetry. by eapply can_lock_writer.
    + by eapply reader_of_written.
  - intros. by apply at_point_ne.
Qed.

(** The counts of the readers of [a] after thread [t] released one of [c]. *)
Lemma release_counts s a rl t c :
  wf s → read_locks (entry_at s a) = Some rl → rl_lock_counts rl !! t = Some c → ∀ t',
  default 0%Z (<[t:=(c - 1)%Z]> (rl_lock_counts rl) !! t') = (rcount s a t' - at_point a t a t')%Z.
Proof.
  intros Hs Hrl Hct t'. rewrite rcount_entry, at_point_same, list_lookup_insert.
  unfold entry_rcount. rewrite Hrl. destruct (decide (t' = t)) as [->|Hne].
  - rewrite decide_True by (split; [done|by eapply lookup_lt_Some]). by rewrite Hct.
  - rewrite decide_False by naive_solver. lia.
Qed.

(** Releasing one of several locks, or the only lock of one of several readers. *)
Lemma release_some s a rl t c ts :
  wf s → read_locks (entry_at s a) = Some rl → rl_lock_counts rl !! t = Some c →
  (0 < c)%Z → ThreadSet.wf ts → (∃ i, i ∈ ts) → ((0 < c - 1)%Z ↔ t ∈ ts) →
  (∀ i, i ≠ t → i ∈ ts ↔ i ∈ rl_thread_set rl) →
  let s' := set_locks s (<[a := mkAccountLocks (write_locks (entry_at s a))
       (Some (mkReadLocks ts (<[t:=(c - 1)%Z]> (rl_lock_counts rl))))]> (locks s)) in
  wf s' ∧ delta s s' no_locks (λ a' t', - at_point a t a' t')%Z.
Proof.
  intros Hs Hrl Hct Hc Hts Hne Htc Hoth.
  pose proof (entry_at_read _ _ _ Hs Hrl) as Hr. pose proof (wf_max _ Hs) as Hn.
  destruct (read_counts _ _ Hr _ _ Hct) as [Hcb Hcp].
  assert (t ∈ rl_thread_set rl) as Ht by by apply Hcp.
  apply replace_read_locks; [done|..].
  - apply read_set_wf_update; [|by left|done|done|lia|done|].
    + split; [by apply (read_lt _ _ Hr)|done].
    + intros i Hit. rewrite Hoth by done. by rewrite (read_count_pos (num_threads s)).
  - intros wl i Hwl Hi. eapply reader_of_written; [done..|].
    apply (entry_at_read_held _ _ _ _ Hs Hrl).
    destruct (decide (i = t)) as [->|Hit]; [done|]. by apply Hoth.
  - intros t'. cbn [rl_lock_counts]. rewrite (release_counts s a) by done. lia.
  - intros. by rewrite at_point_ne.
Qed.

Lemma read_unlock_ok s a t :
  wf s → (0 < rcount s a t)%Z →
  wp (read_unlock_account s a t)
     (λ s', wf s' ∧ delta s s' no_locks (λ a' t', - at_point a t a' t')%Z).
Proof.
  intros Hs Hp. pose proof (wf_max _ Hs) as Hn. unfold read_unlock_account.
  destruct (locks s !! a) as [e|] eqn:E; [|unfold rcount in Hp; by rewrite E in Hp].
  assert (entry_at s a = e) as He by (unfold entry_at; by rewrite E).
  rewrite rcount_entry in Hp. unfold entry_rcount in Hp.
  destruct (read_locks (entry_at s a)) as [rl|] eqn:Hrl; [|lia].
  pose proof (entry_at_read _ _ _ Hs Hrl) as Hr.
  destruct (rl_lock_counts rl !! t) as [c|] eqn:Hct; simpl in Hp; [|lia].
  destruct (read_counts _ _ Hr _ _ Hct) as [Hcb Hcp].
  assert (t ∈ rl_thread_set rl) as Hi by by apply Hcp.
  assert (t < 64) as Ht64 by (apply (read_lt _ _ Hr) in Hi; unfold MAX_THREADS in *; lia).
  simpl. rewrite <-He, Hrl. simpl. wp_step. rewrite ThreadSetFacts.contains_ok by done.
  wp_step. wp_step. wp_step; [by apply bool_decide_eq_true|].
  wp_step. eapply wp_vec_get; [done|]. wp_step. wp_step; [lia|]. wp_step.
  wp_step; [by eapply lookup_lt_Some|].
  case_decide as Hc0; wp_step; [|apply release_some; try done; [apply Hr|eauto|split; [done|lia]]].
  apply ThreadSetFacts.wp_remove; [apply Hr|done|]. intros ts Hts Hmem. wp_step.
  destruct (ThreadSet.is_empty ts) eqn:Hemp.
  - apply drop_read_locks; [done|..|intros; by rewrite at_point_ne].
    intros t'. pose proof (release_counts _ _ _ _ _ Hs Hrl Hct t') as Hcs.
    rewrite ThreadSetFacts.is_empty_spec in Hemp by done.
    rewrite list_lookup_insert in Hcs. case_decide as Hd; simpl in Hcs; [lia|].
    assert (¬ (0 < rcount s a t')%Z) as Hnp.
    { intros Hlt. apply (entry_at_read_held _ _ _ _ Hs Hrl) in Hlt.
      apply (Hemp t'), Hmem. split; [done|]. intros ->.
      apply Hd. split; [done|]. by eapply lookup_lt_Some. }
    pose proof (rcount_bounds s a t' Hs). rewrite rcount_entry in *.
    unfold entry_rcount in *. rewrite Hrl in *. lia.
  - apply release_some; try done.
    + apply ThreadSetFacts.is_empty_false in Hemp; naive_solver.
    + rewrite Hmem, Hc0. split; [lia|naive_solver].
    + intros i Hit. rewrite Hmem. naive_solver.
Qed.

(** ** Locking and unlocking the accounts of a transaction *)

(** The locks thread [t] takes for the account list [l]. *)
Definition held_by (l : list Pubkey) (t : nat) (a : Pubkey) (t' : nat) : Z :=
  if decide (t' = t) then occ a l else 0%Z.

Lemma occ_app a l1 l2 : occ a (l1 ++ l2) = (occ a l1 + occ a l2)%Z.
Proof. apply sumZ_app. Qed.

Lemma occ_nonneg a l : (0 ≤ occ a l)%Z.
Proof. apply sumZ_nonneg. intros. by case_decide. Qed.

Lemma occ_cons a x l : occ a (x :: l) = ((if decide (x = a) then 1 else 0) + occ a l)%Z.
Proof. done. Qed.

Lemma occ_pos a l : a ∈ l → (1 ≤ occ a l)%Z.
Proof.
  intros [l1 [l2 ->]]%list_elem_of_split. rewrite occ_app, occ_cons, decide_True by done.
  pose proof (occ_nonneg a l1). pose proof (occ_nonneg a l2). lia.
Qed.

Lemma occ_zero a l : a ∉ l → occ a l = 0%Z.
Proof.
  intros Ha. induction l as [|x l IH]; [done|]. rewrite occ_cons.
  rewrite decide_False, IH by set_solver. done.
Qed.

Lemma held_by_snoc l a0 t a t' :
  held_by (l ++ [a0]) t a t' = (held_by l t a t' + at_point a0 t a t')%Z.
Proof.
  unfold held_by, at_point. rewrite occ_app, occ_cons. change (occ a []) with 0%Z.
  repeat case_decide; naive_solver lia.
Qed.

Lemma delta_trans s1 s2 s3 dw1 dr1 dw2 dr2 dw dr :
  delta s1 s2 dw1 dr1 → delta s2 s3 dw2 dr2 →
  (∀ a t, dw a t = dw1 a t + dw2 a t)%Z → (∀ a t, dr a t = dr1 a t + dr2 a t)%Z →
  delta s1 s3 dw dr.
Proof.
  intros [H1 H2 H3] [H4 H5 H6] Hw Hr. split; [congruence|..]; intros a t.
  - rewrite H5, H2, Hw. lia.
  - rewrite H6, H3, Hr. lia.
Qed.

Lemma delta_refl s : delta s s no_locks no_locks.
Proof. split; [done|..]; intros; unfold no_locks; lia. Qed.

(** Locks of thread [t] do not affect what [t] may lock. *)
Lemma can_lock_delta W s s' dw dr a t :
  delta s s' dw dr → (∀ t', t' ≠ t → dw a t' = 0 ∧ dr a t' = 0)%Z →
  can_lock W s a t → can_lock W s' a t.
Proof.
  intros Hd Hoth Hc t' Ht'. destruct (Hoth t' Ht') as [Hw Hr].
  rewrite (delta_w _ _ _ _ Hd), (delta_r _ _ _ _ Hd), Hw, Hr.
  destruct (Hc t' Ht') as [-> Hc']. split; [done|]. intros HW. rewrite Hc'; done.
Qed.

Lemma write_lock_accounts_ok s w t :
  wf s → t < num_threads s → (∀ a, a ∈ w → can_lock true s a t) →
  (∀ a, a ∈ w → (wcount s a t + occ a w ≤ u32_max)%Z) →
  wp (fold_res (λ s account, write_lock_account s account t) s w)
     (λ s', wf s' ∧ delta s s' (held_by w t) no_locks).
Proof.
  intros Hs Ht Hc Hmax.
  apply wp_fold_res with (I := λ l s', wf s' ∧ delta s s' (held_by l t) no_locks).
  { split; [done|]. eapply delta_trans; [apply delta_refl|apply delta_refl|..]; intros; unfold held_by;
      try case_decide; done. }
  intros pre a post s1 Hl [Hs1 Hd]. assert (a ∈ w) as Ha by set_solver.
  eapply wp_mono; [apply write_lock_ok; [done|..]|].
  - by rewrite (delta_threads _ _ _ _ Hd).
  - eapply can_lock_delta; [done| |by apply Hc].
    intros t' Ht'. unfold held_by. by rewrite decide_False.
  - rewrite (delta_w _ _ _ _ Hd). unfold held_by. rewrite decide_True by done.
    specialize (Hmax a Ha). rewrite Hl, occ_app in Hmax.
    pose proof (occ_pos a (a :: post) ltac:(set_solver)). lia.
  - intros s2 [Hs2 Hd2]. split; [done|]. eapply delta_trans; [done..| |done].
    intros. apply held_by_snoc.
Qed.

Lemma read_lock_accounts_ok s r t :
  wf s → t < num_threads s → (∀ a, a ∈ r → can_lock false s a t) →
  (∀ a, a ∈ r → (rcount s a t + occ a r ≤ u32_max)%Z) →
  wp (fold_res (λ s account, read_lock_account s account t) s r)
     (λ s', wf s' ∧ delta s s' no_locks (held_by r t)).
Proof.
  intros Hs Ht Hc Hmax.
  apply wp_fold_res with (I := λ l s', wf s' ∧ delta s s' no_locks (held_by l t)).
  { split; [done|]. eapply delta_trans; [apply delta_refl|apply delta_refl|..]; intros; unfold held_by;
      try case_decide; done. }
  intros pre a post s1 Hl [Hs1 Hd]. assert (a ∈ r) as Ha by set_solver.
  eapply wp_mono; [apply read_lock_ok; [done|..]|].
  - by rewrite (delta_threads _ _ _ _ Hd).
  - eapply can_lock_delta; [done| |by apply Hc].
    intros t' Ht'. unfold held_by. by rewrite decide_False.
  - rewrite (delta_r _ _ _ _ Hd). unfold held_by. rewrite decide_True by done.
    specialize (Hmax a Ha). rewrite Hl, occ_app in Hmax.
    pose proof (occ_pos a (a :: post) ltac:(set_solver)). lia.
  - intros s2 [Hs2 Hd2]. split; [done|]. eapply delta_trans; [done..|done|].
    intros. apply held_by_snoc.
Qed.

Lemma lock_accounts_ok s w r t :
  wf s → can_lock_all s w r t →
  (∀ a, a ∈ w → (wcount s a t + occ a w ≤ u32_max)%Z) →
  (∀ a, a ∈ r → (rcount s a t + occ a r ≤ u32_max)%Z) →
  wp (lock_accounts s w r t) (λ s', wf s' ∧ delta s s' (held_by w t) (held_by r t)).
Proof.
  intros Hs (Ht & Hcw & Hcr) Hw Hr. unfold lock_accounts.
  wp_step. wp_step; [by apply bool_decide_eq_true|]. wp_step.
  eapply wp_mono; [by apply write_lock_accounts_ok|]. intros s1 [Hs1 Hd1].
  eapply wp_mono; [apply read_lock_accounts_ok; [done|..]|].
  - by rewrite (delta_threads _ _ _ _ Hd1).
  - intros a Ha. eapply can_lock_delta; [done| |by apply Hcr].
    intros t' Ht'. unfold held_by. by rewrite decide_False.
  - intros a Ha. rewrite (delta_r _ _ _ _ Hd1). unfold no_locks. specialize (Hr a Ha). lia.
  - intros s2 [Hs2 Hd2]. split; [done|].
    eapply delta_trans; [done..|intros; unfold no_locks; lia|intros; unfold no_locks; lia].
Qed.

Lemma unlock_accounts_ok s w r t :
  wf s → (∀ a, a ∈ w → (occ a w ≤ wcount s a t)%Z) →
  (∀ a, a ∈ r → (occ a r ≤ rcount s a t)%Z) →
  wp (unlock_accounts s w r t)
     (λ s', wf s' ∧ delta s s' (λ a t', - held_by w t a t')%Z (λ a t', - held_by r t a t')%Z).
Proof.
  intros Hs Hw Hr. unfold unlock_accounts. wp_step.
  eapply wp_mono; [apply (wp_fold_res _ (λ l s', wf s' ∧
    delta s s' (λ a t', - held_by l t a t')%Z no_locks))|].
  - split; [done|]. eapply delta_trans; [apply delta_refl|apply delta_refl|..]; intros; unfold held_by;
      try case_decide; done.
  - intros pre a post s1 Hl [Hs1 Hd]. eapply wp_mono; [apply write_unlock_ok; [done|]|].
    + rewrite (delta_w _ _ _ _ Hd). unfold held_by. rewrite decide_True by done.
      specialize (Hw a ltac:(set_solver)). rewrite Hl, occ_app in Hw.
      pose proof (occ_pos a (a :: post) ltac:(set_solver)). lia.
    + intros s2 [Hs2 Hd2]. split; [done|]. eapply delta_trans; [done..| |done].
      intros. rewrite held_by_snoc. lia.
  - intros s1 [Hs1 Hd1]. eapply wp_mono; [apply (wp_fold_res _ (λ l s', wf s' ∧
      delta s1 s' no_locks (λ a t', - held_by l t a t')%Z))|].
    + split; [done|]. eapply delta_trans; [apply delta_refl|apply delta_refl|..]; intros; unfold held_by;
        try case_decide; done.
    + intros pre a post s2 Hl [Hs2 Hd]. eapply wp_mono; [apply read_unlock_ok; [done|]|].
      * rewrite (delta_r _ _ _ _ Hd), (delta_r _ _ _ _ Hd1). unfold held_by, no_locks.
        rewrite decide_True by done.
        specialize (Hr a ltac:(set_solver)). rewrite Hl, occ_app in Hr.
        pose proof (occ_pos a (a :: post) ltac:(set_solver)). lia.
      * intros s3 [Hs3 Hd3]. split; [done|]. eapply delta_trans; [done..|done|].
        intros. rewrite held_by_snoc. lia.
    + intros s2 [Hs2 Hd2]. split; [done|].
      eapply delta_trans; [done..|intros; unfold no_locks; lia|intros; unfold no_locks; lia].
Qed.

(** ** Exactness: a lock call that returns was allowed *)

Lemma write_lock_inv s a t s' :
  wf s → t < num_threads s → write_lock_account s a t = Ok s' →
  can_lock true s a t ∧ (wcount s a t < u32_max)%Z.
Proof.
  intros Hs Ht Hok. unfold write_lock_account in Hok. fold (entry_at s a) in Hok.
  res_split Hok as u Ha. res_split Hok as wl' Ha0.
  assert (Hr : ∀ t', t' ≠ t → rcount s a t' = 0%Z).
  { intros t' Hne. pose proof (rcount_bounds s a t' Hs). rewrite rcount_entry in *.
    unfold entry_rcount in *. destruct (read_locks (entry_at s a)) as [rl|] eqn:Hrl; [|done].
    apply assert_res_Ok, bool_decide_eq_true in Ha. pose proof (entry_at_read _ _ _ Hs Hrl) as Hr.
    apply ThreadSetFacts.only_one_contained_Some in Ha as [_ Hu]; [|apply Hr].
    destruct (decide (0 < default 0 (rl_lock_counts rl !! t'))%Z) as [Hp|]; [|lia].
    apply (read_count_pos (num_threads s)) in Hp; [|by apply wf_max|done].
    by apply Hu in Hp. }
  destruct (write_locks (entry_at s a)) as [wl|] eqn:Hwl.
  - res_split Ha0 as u' Ha1. res_split Ha0 as c Hc.
    apply assert_res_Ok, bool_decide_eq_true in Ha1. subst t.
    apply checked_add_Ok in Hc as [Hle _].
    destruct (entry_at_write _ _ _ Hs Hwl) as (_ & ? & ->). split; [|lia].
    intros t' Hne. split; [|by intros; apply Hr].
    rewrite wcount_entry. unfold entry_wcount. rewrite Hwl. by rewrite decide_False.
  - assert (∀ t', wcount s a t' = 0%Z) as Hw.
    { intros t'. rewrite wcount_entry. unfold entry_wcount. by rewrite Hwl. }
    rewrite Hw. split; [|done]. intros t' Hne. split; [apply Hw|by intros; apply Hr].
Qed.

Lemma read_lock_inv s a t s' :
  wf s → t < num_threads s → read_lock_account s a t = Ok s' →
  can_lock false s a t ∧ (rcount s a t < u32_max)%Z.
Proof.
  intros Hs Ht Hok. unfold read_lock_account in Hok. fold (entry_at s a) in Hok.
  res_split Hok as u Ha. res_split Hok as rl' Ha0. split.
  - intros t' Hne. split; [|done]. rewrite wcount_entry. unfold entry_wcount.
    destruct (write_locks (entry_at s a)) as [wl|]; [|done].
    apply assert_res_Ok, bool_decide_eq_true in Ha. by rewrite decide_False by congruence.
  - rewrite rcount_entry. unfold entry_rcount.
    destruct (read_locks (entry_at s a)) as [rl|] eqn:Hrl; [|done].
    res_split Ha0 as ts Hts. res_split Ha0 as c Hc. res_split Ha0 as c' Hc'.
    apply expect_Ok in Hc as ->. apply checked_add_Ok in Hc' as [? _]. simpl. lia.
Qed.

Lemma write_lock_Ok s a t s' :
  wf s → t < num_threads s → write_lock_account s a t = Ok s' →
  wf s' ∧ delta s s' (at_point a t) no_locks.
Proof.
  intros Hs Ht Hok. destruct (write_lock_inv _ _ _ _ Hs Ht Hok).
  pose proof (write_lock_ok s a t) as Hwp. rewrite Hok in Hwp. by apply Hwp.
Qed.

Lemma read_lock_Ok s a t s' :
  wf s → t < num_threads s → read_lock_account s a t = Ok s' →
  wf s' ∧ delta s s' no_locks (at_point a t).
Proof.
  intros Hs Ht Hok. destruct (read_lock_inv _ _ _ _ Hs Ht Hok).
  pose proof (read_lock_ok s a t) as Hwp. rewrite Hok in Hwp. by apply Hwp.
Qed.

Lemma can_lock_undelta W s s' dw dr a t :
  delta s s' dw dr → (∀ t', t' ≠ t → dw a t' = 0 ∧ dr a t' = 0)%Z →
  can_lock W s' a t → can_lock W s a t.
Proof.
  intros Hd Hoth Hc t' Ht'. destruct (Hoth t' Ht') as [Hw Hr]. specialize (Hc t' Ht').
  rewrite (delta_w _ _ _ _ Hd), (delta_r _ _ _ _ Hd), Hw, Hr in Hc.
  rewrite !Z.add_0_r in Hc. done.
Qed.

Lemma held_by_other l t a t' : t' ≠ t → held_by l t a t' = 0%Z.
Proof. intros. unfold held_by. by rewrite decide_False. Qed.

Lemma held_by_nil t a t' : held_by [] t a t' = 0%Z.
Proof. unfold held_by. by case_decide. Qed.

Lemma lock_accounts_inv s w r t s' :
  wf s → lock_accounts s w r t = Ok s' →
  wf s' ∧ can_lock_all s w r t ∧ delta s s' (held_by w t) (held_by r t).
Proof.
  intros Hs Hok. unfold lock_accounts in Hok. res_split Hok as u Ha. res_split Hok as s1 Hw.
  apply assert_res_Ok, bool_decide_eq_true in Ha.
  assert (wf s1 ∧ delta s s1 (held_by w t) no_locks ∧ ∀ a, a ∈ w → can_lock true s a t)
    as (Hs1 & Hd1 & Hcw).
  { eapply (fold_res_inv _ (λ l s1, wf s1 ∧ delta s s1 (held_by l t) no_locks ∧
      ∀ a, a ∈ l → can_lock true s a t)); [done|..].
    - split_and!; [done| |by intros ? ?%not_elem_of_nil].
      eapply delta_trans; [apply delta_refl|apply delta_refl|..]; intros;
        by rewrite ?held_by_nil.
    - intros pre x post s2 s3 _ (Hs2 & Hd & Hc) Hx.
      assert (t < num_threads s2) by by rewrite (delta_threads _ _ _ _ Hd).
      destruct (write_lock_inv _ _ _ _ Hs2 ltac:(done) Hx) as [Hcx _].
      destruct (write_lock_Ok _ _ _ _ Hs2 ltac:(done) Hx) as [Hs3 Hd3]. split_and!; [done|..].
      + eapply delta_trans; [done..|intros; apply held_by_snoc|done].
      + intros b [Hb| ->%list_elem_of_singleton]%elem_of_app; [by apply Hc|].
        eapply can_lock_undelta; [done| |done]. intros. by rewrite held_by_other. }
  assert (wf s' ∧ delta s1 s' no_locks (held_by r t) ∧ ∀ a, a ∈ r → can_lock false s1 a t)
    as (Hs' & Hd2 & Hcr).
  { eapply (fold_res_inv _ (λ l s2, wf s2 ∧ delta s1 s2 no_locks (held_by l t) ∧
      ∀ a, a ∈ l → can_lock false s1 a t)); [done|..].
    - split_and!; [done| |by intros ? ?%not_elem_of_nil].
      eapply delta_trans; [apply delta_refl|apply delta_refl|..]; intros;
        by rewrite ?held_by_nil.
    - intros pre x post s2 s3 _ (Hs2 & Hd & Hc) Hx.
      assert (t < num_threads s2)
        by by rewrite (delta_threads _ _ _ _ Hd), (delta_threads _ _ _ _ Hd1).
      destruct (read_lock_inv _ _ _ _ Hs2 ltac:(done) Hx) as [Hcx _].
      destruct (read_lock_Ok _ _ _ _ Hs2 ltac:(done) Hx) as [Hs3 Hd3]. split_and!; [done|..].
      + eapply delta_trans; [done..|done|intros; apply held_by_snoc].
      + intros b [Hb| ->%list_elem_of_singleton]%elem_of_app; [by apply Hc|].
        eapply can_lock_undelta; [done| |done]. intros. by rewrite held_by_other. }
  split_and!; [done| |].
  - split_and!; [done..|]. intros a Ha'. eapply can_lock_undelta; [done| |by apply Hcr].
    intros. by rewrite held_by_other.
  - eapply delta_trans; [done..|intros; unfold no_locks; lia|intros; unfold no_locks; lia].
Qed.

Lemma try_lock_accounts_inv s w r allowed selector s' o :
  wf s → try_lock_accounts s w r allowed selector = Ok (s', o) →
  match o with
  | Some t => wf s' ∧ can_lock_all s w r t ∧ delta s s' (held_by w t) (held_by r t)
  | None => s' = s
  end.
Proof.
  intros Hs Hok. unfold try_lock_accounts in Hok. res_split Hok as [ts|] Hts; [|by simplify_eq].
  destruct (ThreadSet.is_empty _); [by simplify_eq|].
  res_split Hok as t Ht. res_split Hok as s1 Hl. simplify_eq. by apply lock_accounts_inv.
Qed.

(** ** Which threads may take the locks *)

Lemma can_lock_none W s a t : wf s → locks s !! a = None → can_lock W s a t.
Proof. intros Hs E t' _. unfold wcount, rcount. by rewrite E. Qed.

(** A written account may only be locked by its writer. *)
Lemma can_lock_written W s a wl t :
  wf s → write_locks (entry_at s a) = Some wl → can_lock W s a t ↔ t = wl_thread_id wl.
Proof.
  intros Hs Hwl. destruct (entry_at_write s a wl Hs Hwl) as (Hlt & Hb & Hw). split.
  - intros Hc. symmetry. by eapply (can_lock_writer W s a).
  - intros -> t' Ht'. destruct (write_excludes s a (wl_thread_id wl) t'); [done|lia|done|]. done.
Qed.

(** An account that is only read may be read by every thread, and written by
    the thread that holds all its read locks. *)
Lemma can_lock_read_only s a rl t :
  wf s → write_locks (entry_at s a) = None → read_locks (entry_at s a) = Some rl →
  can_lock false s a t ∧
  (can_lock true s a t ↔ ThreadSet.only_one_contained (rl_thread_set rl) = Some t).
Proof.
  intros Hs Hwl Hrl. pose proof (entry_at_read _ _ _ Hs Hrl) as Hr.
  assert (∀ t', wcount s a t' = 0%Z) as Hw0.
  { intros t'. rewrite wcount_entry. unfold entry_wcount. by rewrite Hwl. }
  split; [by intros t' _|]. split; [intros Hc; by eapply (can_lock_readers s a)|].
  intros Ho. apply ThreadSetFacts.only_one_contained_Some in Ho as [Ht Hu]; [|apply Hr].
  intros t' Hne. split; [apply Hw0|]. intros _. pose proof (rcount_bounds s a t' Hs).
  destruct (decide (0 < rcount s a t')%Z) as [Hp|]; [|lia].
  apply (entry_at_read_held s a rl) in Hp; [|done..]. by apply Hu in Hp.
Qed.

Lemma schedulable_threads_ok W s a :
  wf s → wp (schedulable_threads W s a) (λ ts, ThreadSet.wf ts ∧
    ∀ t, t ∈ ts ↔ t < num_threads s ∧ can_lock W s a t).
Proof.
  intros Hs. pose proof (wf_max _ Hs) as Hn. unfold MAX_THREADS in Hn.
  unfold schedulable_threads. destruct (locks s !! a) as [e|] eqn:E.
  2:{ apply ThreadSetFacts.wp_any; [done|]. intros ts Hts Hm. split; [done|].
      intros t. rewrite Hm. naive_solver eauto using can_lock_none. }
  pose proof (wf_entry _ _ _ Hs E) as He.
  assert (entry_at s a = e) as Hea by (unfold entry_at; by rewrite E).
  destruct e as [[wl|] [rl|]]; simpl.
  - pose proof (entry_at_read s a rl Hs ltac:(by rewrite Hea)) as Hr.
    destruct (entry_at_write s a wl Hs ltac:(by rewrite Hea)) as (Hlt & _ & _).
    assert (∀ i, i ∈ rl_thread_set rl ↔ i = wl_thread_id wl) as Hone.
    { intros i. split; [by apply (entry_mixed _ _ He)|]. intros ->.
      destruct (read_nonempty _ _ Hr) as [j Hj].
      by rewrite <-(entry_mixed _ _ He wl rl eq_refl eq_refl j Hj). }
    wp_step. wp_step.
    { apply bool_decide_eq_true, ThreadSetFacts.only_one_contained_Some; [apply Hr|].
      naive_solver. }
    wp_step. split; [apply Hr|]. intros t.
    rewrite Hone, (can_lock_written W s a wl) by (done || by rewrite Hea). naive_solver.
  - destruct (entry_at_write s a wl Hs ltac:(by rewrite Hea)) as (Hlt & _ & _).
    apply ThreadSetFacts.wp_only; [lia|]. intros ts Hts Hm. split; [done|]. intros t.
    rewrite Hm, (can_lock_written W s a wl) by (done || by rewrite Hea). naive_solver.
  - pose proof (entry_at_read s a rl Hs ltac:(by rewrite Hea)) as Hr.
    pose proof (λ t, can_lock_read_only s a rl t Hs ltac:(by rewrite Hea)
      ltac:(by rewrite Hea)) as Hcl.
    destruct W.
    2:{ apply ThreadSetFacts.wp_any; [done|]. intros ts Hts Hm. split; [done|].
        intros t. rewrite Hm. specialize (Hcl t). naive_solver. }
    destruct (ThreadSet.only_one_contained (rl_thread_set rl)) as [t0|] eqn:Ho.
    + apply ThreadSetFacts.only_one_contained_Some in Ho as [Ht0 _]; [|apply Hr].
      apply (read_lt _ _ Hr) in Ht0.
      apply ThreadSetFacts.wp_only; [lia|]. intros ts Hts Hm. split; [done|].
      intros t. rewrite Hm. destruct (Hcl t) as [_ ->]. naive_solver.
    + wp_step. split; [apply ThreadSetFacts.none_wf|]. intros t. destruct (Hcl t) as [_ ->].
      split; [by intros ?%ThreadSetFacts.not_elem_of_none|naive_solver].
  - destruct (entry_some _ _ He) as [[]|[]]; done.
Qed.

Lemma narrow_threads_ok f (P : Pubkey → nat → Prop) l ts :
  ThreadSet.wf ts → (∃ t, t ∈ ts) →
  (∀ a, a ∈ l → wp (f a) (λ u, ThreadSet.wf u ∧ ∀ t, t ∈ ts → t ∈ u ↔ P a t)) →
  wp (narrow_threads f ts l) (λ o,
    match o with
    | Some ts' => ThreadSet.wf ts' ∧ (∃ t, t ∈ ts') ∧
                  ∀ t, t ∈ ts' ↔ t ∈ ts ∧ ∀ a, a ∈ l → P a t
    | None => ∀ t, t ∈ ts → ¬ ∀ a, a ∈ l → P a t
    end).
Proof.
  revert ts. induction l as [|a l IH]; intros ts Hts Hne Hf; simpl.
  { split_and!; [done..|]. intros t. split; [|naive_solver]. intros Ht.
    split; [done|]. by intros ? ?%not_elem_of_nil. }
  setoid_rewrite elem_of_cons in Hf.
  wp_step. eapply wp_mono; [apply Hf; by left|]. intros u [Hu Hm]. simpl.
  assert (∀ t, t ∈ ThreadSet.bitand ts u ↔ t ∈ ts ∧ P a t) as Hb.
  { intros t. rewrite ThreadSetFacts.elem_of_bitand. split; intros []; split; try done; by apply Hm. }
  assert (ThreadSet.wf (ThreadSet.bitand ts u)) by eauto with igloo.
  destruct (ThreadSet.is_empty _) eqn:Hemp.
  - wp_step. rewrite ThreadSetFacts.is_empty_spec in Hemp by done.
    intros t Ht Hall. apply (Hemp t), Hb. split; [done|]. apply Hall. by constructor.
  - rewrite ThreadSetFacts.is_empty_false in Hemp by done. destruct Hemp as (t0 & _ & Ht0).
    eapply wp_mono; [apply IH; [done|by exists t0|]|].
    + intros b Hbl. eapply wp_mono; [apply Hf; by right|]. intros v [? Hv]. split; [done|].
      intros t Ht. apply Hv. by apply Hb in Ht as [? _].
    + intros [ts'|]; [intros (? & ? & Hm'); split_and!; [done..|]|].
      * intros t. rewrite Hm', Hb. setoid_rewrite elem_of_cons. split.
        -- intros [[Ht Ha] Hl]. split; [done|]. intros b [->|?]; auto.
        -- intros [Ht Hl]. auto.
      * intros Hno t Ht Hall. setoid_rewrite elem_of_cons in Hall.
        apply (Hno t); [apply Hb|]; auto.
Qed.

Lemma accounts_schedulable_threads_ok s w r :
  wf s → wp (accounts_schedulable_threads s w r) (λ o,
    match o with
    | Some ts => ThreadSet.wf ts ∧ ∀ t, t ∈ ts ↔ can_lock_all s w r t
    | None => ∀ t, ¬ can_lock_all s w r t
    end).
Proof.
  intros Hs. pose proof (wf_threads _ Hs) as Hn. unfold MAX_THREADS in Hn.
  unfold accounts_schedulable_threads. wp_step.
  apply ThreadSetFacts.wp_any; [lia|]. intros all Hall Hmall. wp_step.
  eapply wp_mono; [apply (narrow_threads_ok _ (λ a t, can_lock true s a t))|].
  - done.
  - exists 0. apply Hmall. lia.
  - intros a _. eapply wp_mono; [by apply schedulable_threads_ok|].
    intros ts [? Hts]. split; [done|]. intros t Ht%Hmall. rewrite Hts. naive_solver.
  - unfold can_lock_all. intros [tw|]; [intros (Htw & Hne & Hmw)|].
    + eapply wp_mono; [apply (narrow_threads_ok _ (λ a t, can_lock false s a t)); [done..|]|].
      * intros a _. eapply wp_mono; [by apply schedulable_threads_ok|].
        intros ts [? Hts]. split; [done|]. intros t Ht.
        rewrite Hts. apply Hmw in Ht as [Ht%Hmall _]. naive_solver.
      * intros [tr|].
        -- intros (? & _ & Hmr). split; [done|]. intros t. rewrite Hmr, Hmw, Hmall. tauto.
        -- intros Hno t (? & ? & Hr). apply (Hno t); [apply Hmw; rewrite Hmall; tauto|done].
    + intros Hno. wp_step. intros t (? & Hw & ?). apply (Hno t); [by apply Hmall|done].
Qed.

(** The bound that keeps the [u32] lock counters from overflowing. *)
Definition counts_fit s (w r : list Pubkey) : Prop :=
  (∀ a t, a ∈ w → (wcount s a t + occ a w ≤ u32_max)%Z) ∧
  (∀ a t, a ∈ r → (rcount s a t + occ a r ≤ u32_max)%Z).

Lemma try_lock_accounts_ok s w r allowed selector (Ψ : ThreadSet.t → nat → Prop) :
  wf s → ThreadSet.wf allowed → counts_fit s w r →
  (∀ ts, ThreadSet.wf ts → (∃ t, t ∈ ts) → (∀ t, t ∈ ts → t < num_threads s) →
     wp (selector ts) (λ t, t ∈ ts ∧ Ψ ts t)) →
  wp (try_lock_accounts s w r allowed selector) (λ '(s', o),
    match o with
    | Some t => (∃ ts, (∀ t', t' ∈ ts ↔ can_lock_all s w r t' ∧ t' ∈ allowed) ∧ t ∈ ts ∧ Ψ ts t) ∧
                wf s' ∧ delta s s' (held_by w t) (held_by r t)
    | None => s' = s ∧ ∀ t, t ∈ allowed → ¬ can_lock_all s w r t
    end).
Proof.
  intros Hs Hal [Hfw Hfr] Hsel. unfold try_lock_accounts. wp_step.
  eapply wp_mono; [by apply accounts_schedulable_threads_ok|]. intros [ts|]; [intros [Hts Hm]|].
  - destruct (ThreadSet.is_empty _) eqn:Hemp.
    + rewrite ThreadSetFacts.is_empty_spec in Hemp by eauto with igloo. wp_step.
      split; [done|]. intros t Ht Hc. apply (Hemp t).
      apply ThreadSetFacts.elem_of_bitand. by rewrite Hm.
    + rewrite ThreadSetFacts.is_empty_false in Hemp by eauto with igloo. wp_step.
      assert (∀ t, t ∈ ThreadSet.bitand ts allowed ↔ can_lock_all s w r t ∧ t ∈ allowed) as Hsp
        by (intros t; by rewrite ThreadSetFacts.elem_of_bitand, Hm).
      eapply wp_mono; [apply Hsel; [eauto with igloo|naive_solver|]|].
      { intros t [(Ht & _) _]%Hsp. done. }
      intros t [Hin HΨ]. pose proof Hin as [Hc Hta]%Hsp. wp_step.
      eapply wp_mono; [by apply lock_accounts_ok; auto|]. intros s' [? ?]. wp_step. eauto 6.
  - intros Hno. wp_step. naive_solver.
Qed.

(** Unlocking what was locked restores the table exactly. *)
Lemma lock_unlock_id s w r t s' :
  wf s → wf s' → delta s s' (held_by w t) (held_by r t) →
  wp (unlock_accounts s' w r t) (λ s'', s'' = s).
Proof.
  intros Hs Hs' Hd. eapply wp_mono; [apply unlock_accounts_ok; [done|..]|].
  - intros a _. rewrite (delta_w _ _ _ _ Hd). unfold held_by. rewrite decide_True by done.
    pose proof (wcount_bounds s a t Hs). lia.
  - intros a _. rewrite (delta_r _ _ _ _ Hd). unfold held_by. rewrite decide_True by done.
    pose proof (rcount_bounds s a t Hs). lia.
  - intros s'' [Hs'' Hd2]. apply locks_ext; [done|done| |intros a t'..].
    + by rewrite (delta_threads _ _ _ _ Hd2), (delta_threads _ _ _ _ Hd).
    + rewrite (delta_w _ _ _ _ Hd2), (delta_w _ _ _ _ Hd). lia.
    + rewrite (delta_r _ _ _ _ Hd2), (delta_r _ _ _ _ Hd). lia.
Qed.

End Facts.

#[export] Hint Resolve wf_max wf_entry set_locks_insert_wf set_locks_delete_wf : igloo.
