(* ===== verification/LockTheorems.v ===== *)
(** * Lock table: correctness

    The lock table against its clients: a state machine whose state is the
    table together with the grants handed out and not yet released, its
    invariant, and the properties of the single operations. *)
From S2P Require Import Prelude ThreadSets AccountLocks AccountLocksFacts.
Import AccountLocks.

Section LockClient.
Context {Pubkey : Type} `{Countable Pubkey}.

(** A granted [try_lock_accounts] call: its accounts and the thread chosen. *)
Record grant := mkGrant { g_write : list Pubkey; g_read : list Pubkey; g_thread : nat }.

Record lock_state := mkLockState {
  table : ThreadAwareAccountLocks Pubkey;
  grants : list grant
}.

(** Any interleaving of lock attempts (with any thread selector) and releases
    of outstanding grants. *)
Inductive lock_step : lock_state → lock_state → Prop :=
| step_grant s gs w r allowed selector s' t :
    try_lock_accounts s w r allowed selector = Ok (s', Some t) →
    lock_step (mkLockState s gs) (mkLockState s' (mkGrant w r t :: gs))
| step_refuse s gs w r allowed selector s' :
    try_lock_accounts s w r allowed selector = Ok (s', None) →
    lock_step (mkLockState s gs) (mkLockState s' gs)
| step_release s gs1 g gs2 s' :
    unlock_accounts s (g_write g) (g_read g) (g_thread g) = Ok s' →
    lock_step (mkLockState s (gs1 ++ g :: gs2)) (mkLockState s' (gs1 ++ gs2)).

Definition lock_reachable (n : nat) (st : lock_state) : Prop :=
  ∃ s0, new n = Ok s0 ∧ rtc lock_step (mkLockState s0 []) st.

(** The table counts exactly the outstanding grants. *)
Record lock_inv (st : lock_state) : Prop := {
  inv_wf : wf (table st);
  inv_w : ∀ a t, wcount (table st) a t =
            sumZ (λ g, held_by (g_write g) (g_thread g) a t) (grants st);
  inv_r : ∀ a t, rcount (table st) a t =
            sumZ (λ g, held_by (g_read g) (g_thread g) a t) (grants st)
}.

Lemma held_by_nonneg (l : list Pubkey) t a t' : (0 ≤ held_by l t a t')%Z.
Proof. unfold held_by. case_decide; [apply occ_nonneg|done]. Qed.

(** The total of the grants covers each of them. *)
Lemma grant_le (f : grant → list Pubkey) gs g a t :
  g ∈ gs → (held_by (f g) (g_thread g) a t ≤
            sumZ (λ g', held_by (f g') (g_thread g') a t) gs)%Z.
Proof.
  intros Hg. apply (sumZ_elem (λ g', held_by (f g') (g_thread g') a t)); [done|].
  intros. apply held_by_nonneg.
Qed.

Lemma held_by_own (l : list Pubkey) t a : held_by l t a t = occ a l.
Proof. unfold held_by. by rewrite decide_True. Qed.

Lemma lock_inv_init n s0 : new (Pubkey := Pubkey) n = Ok s0 → lock_inv (mkLockState s0 []).
Proof.
  intros Hn. unfold new in Hn. res_inv Hn.
  apply assert_res_Ok, bool_decide_eq_true in Ha, Ha0. split; [by apply new_wf|done..].
Qed.

(** A grant the table counts can be released. *)
Lemma unlock_held s gs g :
  wf s → (∀ a t, wcount s a t = sumZ (λ g, held_by (g_write g) (g_thread g) a t) gs) →
  (∀ a t, rcount s a t = sumZ (λ g, held_by (g_read g) (g_thread g) a t) gs) → g ∈ gs →
  wp (unlock_accounts s (g_write g) (g_read g) (g_thread g)) (λ s', wf s' ∧
    delta s s' (λ a t, - held_by (g_write g) (g_thread g) a t)%Z
               (λ a t, - held_by (g_read g) (g_thread g) a t)%Z).
Proof.
  intros Hwf Hw Hr Hg. apply unlock_accounts_ok; [done|..]; intros a _.
  - rewrite Hw, <-(held_by_own (g_write g) (g_thread g)). by apply (grant_le g_write).
  - rewrite Hr, <-(held_by_own (g_read g) (g_thread g)). by apply (grant_le g_read).
Qed.

Lemma lock_inv_step st st' : lock_step st st' → lock_inv st → lock_inv st'.
Proof.
  intros Hstep [Hwf Hw Hr]; simpl in *.
  inversion Hstep as [s gs w r al sel s' t Hok|s gs w r al sel s' Hok|s gs1 g gs2 s' Hok]; subst;
    simpl in *.
  - apply try_lock_accounts_inv in Hok as (Hs' & _ & Hd); [|done]. split; simpl; [done|..]; intros a t'.
    + rewrite (delta_w _ _ _ _ Hd), Hw. lia.
    + rewrite (delta_r _ _ _ _ Hd), Hr. lia.
  - apply try_lock_accounts_inv in Hok; [|done]. by subst.
  - pose proof (unlock_held s _ g Hwf Hw Hr ltac:(set_solver)) as Hu.
    rewrite Hok in Hu. destruct Hu as [Hs' Hd].
    split; simpl; [done|..]; intros a t'; rewrite sumZ_app.
    + rewrite (delta_w _ _ _ _ Hd), Hw, sumZ_app. simpl. lia.
    + rewrite (delta_r _ _ _ _ Hd), Hr, sumZ_app. simpl. lia.
Qed.

Lemma lock_inv_reachable n st : lock_reachable n st → lock_inv st.
Proof.
  intros (s0 & Hn & Hsteps). apply lock_inv_init in Hn.
  induction Hsteps; [done|]. eauto using lock_inv_step.
Qed.

Lemma inv_held st g a :
  lock_inv st → g ∈ grants st →
  (a ∈ g_write g → 0 < wcount (table st) a (g_thread g))%Z ∧
  (a ∈ g_read g → 0 < rcount (table st) a (g_thread g))%Z.
Proof.
  intros Hi Hg. split; intros Ha.
  - rewrite (inv_w _ Hi). pose proof (grant_le g_write _ _ a (g_thread g) Hg) as Hle.
    rewrite held_by_own in Hle. pose proof (occ_pos a (g_write g) Ha). lia.
  - rewrite (inv_r _ Hi). pose proof (grant_le g_read _ _ a (g_thread g) Hg) as Hle.
    rewrite held_by_own in Hle. pose proof (occ_pos a (g_read g) Ha). lia.
Qed.

(** C9: mutual exclusion.  In every reachable state, two outstanding grants
    held by different threads do not conflict: an account one of them writes
    is neither written nor read by the other. *)
Theorem grants_never_conflict n st g1 g2 a :
  lock_reachable n st → g1 ∈ grants st → g2 ∈ grants st → g_thread g1 ≠ g_thread g2 →
  a ∈ g_write g1 → (a ∉ g_write g2) ∧ (a ∉ g_read g2).
Proof.
  intros Hi%lock_inv_reachable H1 H2 Hne Ha.
  destruct (inv_held st g1 a Hi H1) as [Hp _]. destruct (inv_held st g2 a Hi H2) as [Hw Hr].
  destruct (write_excludes _ a (g_thread g1) (g_thread g2) (inv_wf _ Hi)) as [Hzw Hzr];
    [by auto|done|]. split; intros Ha2; [specialize (Hw Ha2)|specialize (Hr Ha2)]; lia.
Qed.

(** every outstanding grant can be released: the unlock does not panic. *)
Theorem release_never_panics n s gs1 g gs2 :
  lock_reachable n (mkLockState s (gs1 ++ g :: gs2)) →
  ∃ s', unlock_accounts s (g_write g) (g_read g) (g_thread g) = Ok s' ∧
        lock_reachable n (mkLockState s' (gs1 ++ gs2)).
Proof.
  intros Hreach. pose proof (lock_inv_reachable _ _ Hreach) as [Hwf Hw Hr]; simpl in *.
  destruct (wp_elim _ _ (unlock_held s _ g Hwf Hw Hr ltac:(set_solver))) as (s' & Hok & _).
  exists s'. split; [done|]. destruct Hreach as (s0 & Hn & Hsteps). exists s0. split; [done|].
  eapply rtc_r; [done|]. by constructor.
Qed.


(** C10: [try_lock_accounts] grants exactly when it can.  In a reachable state
    whose counters have room, with a selector that returns a member of the set
    it is given, the call does not panic; it refuses exactly when no allowed
    thread could take all the locks without conflicting with another thread,
    and then changes nothing; otherwise it locks every account for one allowed
    thread that could, adding one lock per occurrence. *)
Theorem try_lock_accounts_exact n st w r allowed selector :
  lock_reachable n st → ThreadSet.wf allowed → counts_fit (table st) w r →
  (∀ ts, ThreadSet.wf ts → (∃ t, t ∈ ts) → (∀ t, t ∈ ts → t < num_threads (table st)) →
     wp (selector ts) (λ t, t ∈ ts)) →
  ∃ s' o, try_lock_accounts (table st) w r allowed selector = Ok (s', o) ∧
    match o with
    | Some t => t ∈ allowed ∧ can_lock_all (table st) w r t ∧
        (∀ a t', wcount s' a t' = wcount (table st) a t' + held_by w t a t')%Z ∧
        (∀ a t', rcount s' a t' = rcount (table st) a t' + held_by r t a t')%Z
    | None => s' = table st ∧ ∀ t, t ∈ allowed → ¬ can_lock_all (table st) w r t
    end.
Proof.
  intros Hi%lock_inv_reachable Hal Hfit Hsel.
  destruct (wp_elim _ _ (try_lock_accounts_ok (table st) w r allowed selector (λ _ _, True)
    (inv_wf _ Hi) Hal Hfit ltac:(intros; eapply wp_mono; [by apply Hsel|done])))
    as ([s' o] & Heq & Hpost).
  exists s', o. split; [done|]. destruct o as [t|]; [|done].
  destruct Hpost as ((ts & Hts & Hin & _) & _ & Hd). apply Hts in Hin as [? ?].
  split_and!; [done|done|..]; intros; [by rewrite (delta_w _ _ _ _ Hd)|by rewrite (delta_r _ _ _ _ Hd)].
Qed.

(** C11: unlocking undoes locking.  After a granted [try_lock_accounts], the
    matching [unlock_accounts] restores the table exactly. *)
Theorem lock_unlock_roundtrip n st w r allowed selector s' t :
  lock_reachable n st → try_lock_accounts (table st) w r allowed selector = Ok (s', Some t) →
  unlock_accounts s' w r t = Ok (table st).
Proof.
  intros Hi%lock_inv_reachable Hok. apply try_lock_accounts_inv in Hok as (Hwf' & _ & Hd);
    [|apply (inv_wf _ Hi)].
  destruct (wp_elim _ _ (lock_unlock_id (table st) w r t s' (inv_wf _ Hi) Hwf' Hd)) as (? & -> & ->).
  done.
Qed.

(** no leaks.  In a reachable state without outstanding grants the table
    has no entries at all. *)
Theorem no_grants_no_locks n s : lock_reachable n (mkLockState s []) → locks s = ∅.
Proof.
  intros Hi%lock_inv_reachable. destruct Hi as [Hwf Hw Hr]. simpl in *.
  assert (s = mkLocks (num_threads s) ∅) as ->; [|done].
  apply locks_ext; [done|apply new_wf, (wf_threads _ Hwf)|done|..]; intros a t;
    [by rewrite Hw|by rewrite Hr].
Qed.

(** [accounts_schedulable_threads] answers with exactly the threads that
    can take all the locks, and [None] when there is none. *)
Theorem schedulable_threads_exact n st w r :
  lock_reachable n st → ∃ o, accounts_schedulable_threads (table st) w r = Ok o ∧
    match o with
    | Some ts => ∀ t, t ∈ ts ↔ can_lock_all (table st) w r t
    | None => ∀ t, ¬ can_lock_all (table st) w r t
    end.
Proof.
  intros Hi%lock_inv_reachable.
  destruct (wp_elim _ _ (accounts_schedulable_threads_ok (table st) w r (inv_wf _ Hi)))
    as (o & Heq & Ho). exists o. split; [done|]. destruct o; [apply Ho|done].
Qed.
End LockClient.

(** ** A concrete table: two threads, accounts as numbers *)

Module LockWitnesses.

Definition first (ts : ThreadSet.t) : res nat :=
  l ← ThreadSet.contained_threads_iter ts; expect (head l) "empty".

Definition t0 : ThreadAwareAccountLocks nat := mkLocks 2 ∅.
Definition all : ThreadSet.t := ThreadSet.mk 3.
Definition locked (s : ThreadAwareAccountLocks nat) (w r : list nat) (allowed : ThreadSet.t) :
    ThreadAwareAccountLocks nat :=
  match try_lock_accounts s w r allowed first with Ok (s', _) => s' | Panic _ => s end.
(** Thread 0 writes account 1 and reads 3; thread 1 writes account 2 and reads 3. *)
Definition t1 := locked t0 [1] [3] all.
Definition t2 := locked t1 [2] [3] (ThreadSet.mk 2).
Definition g0 : grant := mkGrant [1] [3] 0.
Definition g1 : grant := mkGrant [2] [3] 1.

Lemma lock_reachable_0 : lock_reachable 2 (mkLockState t0 []).
Proof. exists t0. done. Qed.
Lemma lock_reachable_2 : lock_reachable 2 (mkLockState t2 [g1; g0]).
Proof.
  exists t0. split; [done|]. eapply rtc_l; [|eapply rtc_l; [|apply rtc_refl]].
  - apply (step_grant t0 [] [1] [3] all first t1 0). vm_compute. reflexivity.
  - apply (step_grant t1 [g0] [2] [3] (ThreadSet.mk 2) first t2 1). vm_compute. reflexivity.
Qed.

Lemma grants_never_conflict_witness : (1 ∉ g_write g1) ∧ (1 ∉ g_read g1).
Proof.
  apply (grants_never_conflict 2 (mkLockState t2 [g1; g0]) g0 g1 1);
    [apply lock_reachable_2|right; left|left|done|left].
Defined.

Lemma release_never_panics_witness : ∃ s',
  unlock_accounts t2 [1] [3] 0 = Ok s' ∧ lock_reachable 2 (mkLockState s' [g1]).
Proof. apply (release_never_panics 2 t2 [g1] g0 []), lock_reachable_2. Defined.

Lemma first_ok ts : ThreadSet.wf ts → (∃ t, t ∈ ts) → wp (first ts) (λ t, t ∈ ts).
Proof.
  intros Hwf [t Ht]. unfold first. pose proof (ThreadSetFacts.contained_threads_iter_ok ts) as Hit.
  pose proof (λ i, ThreadSetFacts.elem_of_contained_threads ts _ i Hwf Hit) as Hm.
  rewrite Hit. simpl. destruct (filter _ _) as [|i l] eqn:E.
  - apply Hm in Ht. by apply not_elem_of_nil in Ht.
  - apply wp_ok. apply Hm. left.
Qed.

Lemma try_lock_accounts_exact_witness : ∃ s' o,
  try_lock_accounts t2 [2] [] all first = Ok (s', o) ∧
  match o with
  | Some t => t ∈ all ∧ can_lock_all t2 [2] [] t ∧
      (∀ a t', wcount s' a t' = wcount t2 a t' + held_by [2%nat] t a t')%Z ∧
      (∀ a t', rcount s' a t' = rcount t2 a t' + held_by [] t a t')%Z
  | None => s' = t2 ∧ ∀ t, t ∈ all → ¬ can_lock_all t2 [2] [] t
  end.
Proof.
  apply (try_lock_accounts_exact 2 (mkLockState t2 [g1; g0]) [2] [] all first).
  - apply lock_reachable_2.
  - vm_compute. split; discriminate.
  - split; intros a t Ha; [|exfalso; exact (not_elem_of_nil _ Ha)].
    assert (a = 2) as Ha2 by exact (proj1 (list_elem_of_singleton _ _) Ha). rewrite Ha2.
    destruct t as [|[|t]]; vm_compute; discriminate.
  - intros ts Hwf Hne _. by apply first_ok.
Defined.

Lemma lock_unlock_roundtrip_witness : unlock_accounts t1 [1] [3] 0 = Ok t0.
Proof.
  apply (lock_unlock_roundtrip 2 (mkLockState t0 []) [1] [3] all first t1 0 lock_reachable_0).
  vm_compute. reflexivity.
Defined.

Lemma no_grants_no_locks_witness : locks t0 = ∅.
Proof. apply (no_grants_no_locks 2 t0 lock_reachable_0). Defined.

Lemma schedulable_threads_exact_witness : ∃ o,
  accounts_schedulable_threads t2 [1] [] = Ok o ∧
  match o with
  | Some ts => ∀ t, t ∈ ts ↔ can_lock_all t2 [1] [] t
  | None => ∀ t, ¬ can_lock_all t2 [1] [] t
  end.
Proof. apply (schedulable_threads_exact 2 (mkLockState t2 [g1; g0]) [1] []), lock_reachable_2. Defined.
End LockWitnesses.
