(* ===== verification/Messages.v ===== *)
(** * Scheduler messages, identifiers and transaction states

    [scheduler/src/scheduler_messages.rs], [scheduler/src/id_generator.rs] and,
    of [scheduler/src/impls/prio_graph_scheduler/], [transaction_priority_id.rs]
    and [transaction_state.rs].  A sanitized transaction is a type of
    [solana_sdk]; what the scheduler reads of it is the interface
    [Transactions]. *)
From S2P Require Import Prelude.

(** ** Sanitized transactions ([solana_sdk]) *)

(** [message().account_keys()] and [message().is_writable(index)]. *)
Class Transactions (Pubkey Tx : Type) := {
  account_keys : Tx → list Pubkey;
  is_writable : Tx → nat → bool
}.

(** [iter().enumerate()] *)
Definition enumerate {A} (l : list A) : list (nat * A) := zip (seq 0 (length l)) l.

Section TxLocks.
Context {Pubkey Tx : Type} `{Transactions Pubkey Tx}.

(** The two [filter_map]s by which the scheduler splits the account keys. *)
Definition write_account_locks (tx : Tx) : list Pubkey :=
  omap (λ '(index, key), if is_writable tx index then Some key else None)
       (enumerate (account_keys tx)).
Definition read_account_locks (tx : Tx) : list Pubkey :=
  omap (λ '(index, key), if negb (is_writable tx index) then Some key else None)
       (enumerate (account_keys tx)).
End TxLocks.

(** ** Identifiers *)

Record TransactionBatchId := mkBatchId { batch_value : Z }.
Record TransactionId := mkTxId { tx_value : Z }.

#[global] Instance TransactionBatchId_eq_dec : EqDecision TransactionBatchId.
Proof. solve_decision. Defined.
#[global] Instance TransactionId_eq_dec : EqDecision TransactionId.
Proof. solve_decision. Defined.
#[global] Program Instance TransactionBatchId_countable : Countable TransactionBatchId :=
  inj_countable' batch_value mkBatchId _.
Next Obligation. by intros []. Qed.
#[global] Program Instance TransactionId_countable : Countable TransactionId :=
  inj_countable' tx_value mkTxId _.
Next Obligation. by intros []. Qed.

(** [id_generator.rs]: identifiers are handed out downwards from [u64::MAX]. *)
Module IdGenerator.
Record t := mk { next_id : Z }.
Definition default : t := mk u64_max.
Definition gen (g : t) : Z * t := (next_id g, mk (wrapping_sub64 (next_id g) 1)).

(** [n] successive calls of [gen]. *)
Fixpoint gen_n (n : nat) (g : t) : list Z * t :=
  match n with
  | 0 => ([], g)
  | S n => let '(id, g) := gen g in let '(ids, g) := gen_n n g in (id :: ids, g)
  end.
End IdGenerator.

(** [transaction_priority_id.rs]: ordered by priority, then by id. *)
Record TransactionPriorityId := mkPriorityId { priority : Z; id : TransactionId }.

#[global] Instance TransactionPriorityId_eq_dec : EqDecision TransactionPriorityId.
Proof. solve_decision. Defined.

(** [derive(PartialOrd, Ord)] on the struct: lexicographic. *)
Definition priority_id_le (x y : TransactionPriorityId) : Prop :=
  (priority x < priority y ∨
   (priority x = priority y ∧ tx_value (id x) ≤ tx_value (id y)))%Z.
#[global] Instance priority_id_le_dec : RelDecision priority_id_le.
Proof. intros x y. unfold priority_id_le. apply _. Defined.

(** ** Messages *)

Record MaxAge := mkMaxAge { epoch_invalidation_slot : Z; alt_invalidation_slot : Z }.

Section Messages.
Context {Tx : Type}.

Record SchedulingBatch := mkBatch {
  batch_id : TransactionBatchId;
  ids : list TransactionId;
  transactions : list Tx;
  max_ages : list MaxAge
}.

Definition valid (b : SchedulingBatch) : bool :=
  bool_decide (length (transactions b) = length (ids b)) &&
  bool_decide (length (ids b) = length (max_ages b)).

Record SchedulingBatchResult := mkBatchResult {
  batch : SchedulingBatch;
  retryable_indexes : list nat
}.

(** ** [transaction_state.rs] *)

Record SanitizedTransactionTTL := mkTTL { transaction : Tx; max_age : MaxAge }.

Inductive TransactionState :=
| Unprocessed (transaction_ttl : SanitizedTransactionTTL) (priority cost : Z)
| Pending (transaction_ttl : SanitizedTransactionTTL) (priority cost : Z)
| Transitioning.

Definition state_new (ttl : SanitizedTransactionTTL) (priority cost : Z) : TransactionState :=
  Unprocessed ttl priority cost.

Definition state_priority (s : TransactionState) : res Z :=
  match s with
  | Unprocessed _ p _ => Ok p
  | Pending _ p _ => Ok p
  | Transitioning => Panic "internal error: entered unreachable code"
  end.

Definition state_cost (s : TransactionState) : res Z :=
  match s with
  | Unprocessed _ _ c => Ok c
  | Pending _ _ c => Ok c
  | Transitioning => Panic "internal error: entered unreachable code"
  end.

(** [fn take(&mut self)]: the value taken and the state left behind. *)
Definition state_take (s : TransactionState) : TransactionState * TransactionState :=
  (s, Transitioning).

Definition transition_to_pending (s : TransactionState) :
    res (TransactionState * SanitizedTransactionTTL) :=
  let '(taken, _) := state_take s in
  match taken with
  | Unprocessed ttl p c => Ok (Pending ttl p c, ttl)
  | Pending _ _ _ => Panic "transaction already pending"
  | Transitioning => Panic "internal error: entered unreachable code"
  end.

Definition transition_to_unprocessed (s : TransactionState) (ttl : SanitizedTransactionTTL) :
    res TransactionState :=
  let '(taken, _) := state_take s in
  match taken with
  | Unprocessed _ _ _ => Panic "already unprocessed"
  | Pending _ p c => Ok (Unprocessed ttl p c)
  | Transitioning => Panic "internal error: entered unreachable code"
  end.

Definition transaction_ttl (s : TransactionState) : res SanitizedTransactionTTL :=
  match s with
  | Unprocessed ttl _ _ => Ok ttl
  | Pending _ _ _ => Panic "transaction is pending"
  | Transitioning => Panic "internal error: entered unreachable code"
  end.

End Messages.
Arguments SchedulingBatch Tx : clear implicits.
Arguments SchedulingBatchResult Tx : clear implicits.
Arguments SanitizedTransactionTTL Tx : clear implicits.
Arguments TransactionState Tx : clear implicits.

(** ** Lemmas *)

Lemma elem_of_enumerate {A} (l : list A) i x : (i, x) ∈ enumerate l ↔ l !! i = Some x.
Proof.
  unfold enumerate. rewrite list_elem_of_lookup. split.
  - intros [j Hj]. apply lookup_zip_with_Some in Hj as (k & y & ? & Hk & Hy). simplify_eq.
    apply lookup_seq in Hk as [-> _]. done.
  - intros Hi. exists i. apply lookup_zip_with_Some. exists i, x. split_and!; [done| |done].
    apply lookup_seq. split; [done|]. by eapply lookup_lt_Some.
Qed.

Section TxFacts.
Context {Pubkey Tx : Type} `{Transactions Pubkey Tx}.

Lemma elem_of_write_locks (tx : Tx) (a : Pubkey) :
  a ∈ write_account_locks tx ↔ ∃ i, account_keys tx !! i = Some a ∧ is_writable tx i = true.
Proof.
  unfold write_account_locks. rewrite list_elem_of_omap. split.
  - intros ([i k] & Hin & Hw). apply elem_of_enumerate in Hin.
    destruct (is_writable tx i) eqn:E; simplify_eq. eauto.
  - intros (i & Hi & Hw). exists (i, a). rewrite elem_of_enumerate, Hw. done.
Qed.

Lemma elem_of_read_locks (tx : Tx) (a : Pubkey) :
  a ∈ read_account_locks tx ↔ ∃ i, account_keys tx !! i = Some a ∧ is_writable tx i = false.
Proof.
  unfold read_account_locks. rewrite list_elem_of_omap. split.
  - intros ([i k] & Hin & Hw). apply elem_of_enumerate in Hin.
    destruct (is_writable tx i) eqn:E; simplify_eq/=; eauto.
  - intros (i & Hi & Hw). exists (i, a). rewrite elem_of_enumerate, Hw. done.
Qed.
End TxFacts.

(** The order of priority ids is total. *)
#[global] Instance priority_id_le_trans : Transitive priority_id_le.
Proof. intros [] [] []. unfold priority_id_le. simpl. lia. Qed.
#[global] Instance priority_id_le_total : Total priority_id_le.
Proof. intros [] []. unfold priority_id_le. simpl. lia. Qed.
#[global] Instance priority_id_le_refl : Reflexive priority_id_le.
Proof. intros []. unfold priority_id_le. simpl. lia. Qed.
#[global] Instance priority_id_le_antisymm : AntiSymm (=) priority_id_le.
Proof. intros [? []] [? []]. unfold priority_id_le. simpl. intros. f_equal; [lia|f_equal; lia]. Qed.

(** [gen] hands out [next_id, next_id - 1, ...] until it wraps at zero. *)
Lemma gen_n_spec n g :
  u64 (IdGenerator.next_id g) → (Z.of_nat n ≤ IdGenerator.next_id g + 1)%Z →
  (IdGenerator.gen_n n g).1 = (λ i, IdGenerator.next_id g - Z.of_nat i)%Z <$> seq 0 n.
Proof.
  revert g. induction n as [|n IH]; intros g Hg Hn; [done|].
  change (seq 0 (S n)) with (0 :: seq 1 n). rewrite fmap_cons. simpl.
  destruct (IdGenerator.gen_n n _) as [l g'] eqn:E. simpl. f_equal; [lia|].
  destruct (decide (n = 0)) as [->|Hn0]; [by simplify_eq/=|].
  assert (wrapping_sub64 (IdGenerator.next_id g) 1 = IdGenerator.next_id g - 1)%Z as Hw.
  { unfold wrapping_sub64. apply Z.mod_small. unfold u64, u64_max in Hg. lia. }
  rewrite Hw in E. pose proof (IH (IdGenerator.mk (IdGenerator.next_id g - 1))) as IH'.
  rewrite E in IH'. simpl in IH'. rewrite IH' by (unfold u64 in *; lia).
  rewrite <-fmap_S_seq, <-list_fmap_compose. apply list_fmap_ext. intros. simpl. lia.
Qed.
