(* ===== verification/RwAccountSet.v ===== *)
(** * The look-ahead account set

    [scheduler/src/impls/prio_graph_scheduler/read_write_account_set.rs]: the
    read and write sets by which the scheduler remembers the accounts of the
    transactions it could not schedule, so that no later transaction overtakes
    them.  An [AHashSet<Pubkey>] is a [gset]. *)
From S2P Require Import Prelude Messages.

Module RwAccountSet.
Section Defs.
Context {Pubkey Tx : Type} `{Countable Pubkey} `{Transactions Pubkey Tx}.

Record ReadWriteAccountSet := mk { read_set : gset Pubkey; write_set : gset Pubkey }.

Definition rw_default : ReadWriteAccountSet := mk ∅ ∅.

Definition can_read (s : ReadWriteAccountSet) (pubkey : Pubkey) : bool :=
  negb (bool_decide (pubkey ∈ write_set s)).
Definition can_write (s : ReadWriteAccountSet) (pubkey : Pubkey) : bool :=
  negb (bool_decide (pubkey ∈ write_set s)) && negb (bool_decide (pubkey ∈ read_set s)).

Definition add_read (s : ReadWriteAccountSet) (pubkey : Pubkey) : ReadWriteAccountSet * bool :=
  let can_read := can_read s pubkey in
  (mk ({[pubkey]} ∪ read_set s) (write_set s), can_read).
Definition add_write (s : ReadWriteAccountSet) (pubkey : Pubkey) : ReadWriteAccountSet * bool :=
  let can_write := can_write s pubkey in
  (mk (read_set s) ({[pubkey]} ∪ write_set s), can_write).

Definition check_locks (s : ReadWriteAccountSet) (message : Tx) : bool :=
  forallb (λ '(index, pubkey),
             if is_writable message index then can_write s pubkey else can_read s pubkey)
          (enumerate (account_keys message)).

(** One iteration of the fold of [take_locks]; [&] does not short-circuit. *)
Definition take_lock (message : Tx) (acc : ReadWriteAccountSet * bool) (x : nat * Pubkey) :
    ReadWriteAccountSet * bool :=
  let '(s, all_available) := acc in
  let '(index, pubkey) := x in
  let '(s', ok) := if is_writable message index then add_write s pubkey else add_read s pubkey in
  (s', all_available && ok).

Definition take_locks (s : ReadWriteAccountSet) (message : Tx) : ReadWriteAccountSet * bool :=
  foldl (take_lock message) (s, true) (enumerate (account_keys message)).

Definition clear (s : ReadWriteAccountSet) : ReadWriteAccountSet := mk ∅ ∅.

(** Two transactions conflict on an account when both use it and one writes it. *)
Definition tx_conflict (m1 m2 : Tx) : Prop :=
  ∃ a, (a ∈ write_account_locks m1 ∧
          (a ∈ write_account_locks m2 ∨ a ∈ read_account_locks m2)) ∨
       (a ∈ read_account_locks m1 ∧ a ∈ write_account_locks m2).

End Defs.
Arguments ReadWriteAccountSet Pubkey {_ _}.
End RwAccountSet.
Import RwAccountSet.

Section RwFacts.
Context {Pubkey Tx : Type} `{Countable Pubkey} `{Transactions Pubkey Tx}.
Implicit Types (s : ReadWriteAccountSet Pubkey) (m : Tx).

Lemma can_read_spec s a : can_read s a = true ↔ a ∉ write_set s.
Proof. unfold can_read. rewrite negb_true_iff, bool_decide_eq_false. done. Qed.
Lemma can_write_spec s a : can_write s a = true ↔ (a ∉ write_set s) ∧ (a ∉ read_set s).
Proof.
  unfold can_write. rewrite andb_true_iff, !negb_true_iff, !bool_decide_eq_false. done.
Qed.

(** [check_locks] in terms of the two account lists of the message. *)
Lemma check_locks_spec s m :
  check_locks s m = true ↔
    (∀ a, a ∈ write_account_locks m → (a ∉ write_set s) ∧ (a ∉ read_set s)) ∧
    (∀ a, a ∈ read_account_locks m → a ∉ write_set s).
Proof.
  unfold check_locks. rewrite forallb_forall. split.
  - intros Hall. split; intros a.
    + rewrite elem_of_write_locks. intros (i & Hi & Hw).
      specialize (Hall (i, a)). rewrite <-list_elem_of_In, elem_of_enumerate in Hall.
      specialize (Hall Hi). rewrite Hw in Hall. by apply can_write_spec.
    + rewrite elem_of_read_locks. intros (i & Hi & Hw).
      specialize (Hall (i, a)). rewrite <-list_elem_of_In, elem_of_enumerate in Hall.
      specialize (Hall Hi). rewrite Hw in Hall. by apply can_read_spec.
  - intros [HW HR] [i a]. rewrite <-list_elem_of_In, elem_of_enumerate. intros Hi.
    destruct (is_writable m i) eqn:Hw.
    + apply can_write_spec, HW, elem_of_write_locks. eauto.
    + apply can_read_spec, HR, elem_of_read_locks. eauto.
Qed.

Lemma marked_cons (f : nat → bool) b i k (l : list (nat * Pubkey)) a :
  (∃ j, (j, a) ∈ (i, k) :: l ∧ f j = b) ↔
  (a = k ∧ f i = b) ∨ ∃ j, (j, a) ∈ l ∧ f j = b.
Proof.
  setoid_rewrite elem_of_cons. split.
  - intros (j & [Heq|Hin] & Hf); [left; by simplify_eq|right; by exists j].
  - intros [[-> Hf]|(j & Hin & Hf)]; [exists i|exists j]; auto.
Qed.

(** What the fold of [take_locks] has added after the entries [l]. *)
Lemma take_lock_fold m l s b s' b' :
  foldl (take_lock m) (s, b) l = (s', b') →
  (∀ a, a ∈ write_set s' ↔ a ∈ write_set s ∨ ∃ i, (i, a) ∈ l ∧ is_writable m i = true) ∧
  (∀ a, a ∈ read_set s' ↔ a ∈ read_set s ∨ ∃ i, (i, a) ∈ l ∧ is_writable m i = false).
Proof.
  revert s b. induction l as [|[i k] l IH]; intros s b Hf; simpl in Hf.
  { simplify_eq. split; intros a; split; [by left| |by left|];
      intros [?|(? & Hin & _)]; (done || by apply not_elem_of_nil in Hin). }
  destruct (is_writable m i) eqn:Hi; simpl in Hf; apply IH in Hf as [HW HR];
    split; intros a; rewrite ?HW, ?HR, marked_cons, Hi; simpl;
    rewrite ?elem_of_union, ?elem_of_singleton; intuition congruence.
Qed.

Lemma take_locks_write_set s m a :
  a ∈ write_set (take_locks s m).1 ↔ a ∈ write_set s ∨ a ∈ write_account_locks m.
Proof.
  unfold take_locks. destruct (foldl _ _ _) as [s' b'] eqn:E.
  apply take_lock_fold in E as [HW _]. simpl. rewrite HW, elem_of_write_locks.
  by setoid_rewrite elem_of_enumerate.
Qed.

Lemma take_locks_read_set s m a :
  a ∈ read_set (take_locks s m).1 ↔ a ∈ read_set s ∨ a ∈ read_account_locks m.
Proof.
  unfold take_locks. destruct (foldl _ _ _) as [s' b'] eqn:E.
  apply take_lock_fold in E as [_ HR]. simpl. rewrite HR, elem_of_read_locks.
  by setoid_rewrite elem_of_enumerate.
Qed.

(** After [take_locks], a message passes exactly when it passed before and does
    not conflict with the message whose locks were taken. *)
Lemma check_locks_take s m m' :
  check_locks (take_locks s m).1 m' = true ↔
  check_locks s m' = true ∧ ¬ tx_conflict m m'.
Proof.
  rewrite !check_locks_spec. setoid_rewrite take_locks_write_set.
  setoid_rewrite take_locks_read_set. unfold tx_conflict. split.
  - intros [HW HR]. split_and!; [intros a Ha|intros a Ha|intros (a & [[Hw [Ha|Ha]]|[Hr Ha]])].
    + specialize (HW a Ha). tauto.
    + specialize (HR a Ha). tauto.
    + specialize (HW a Ha). tauto.
    + specialize (HR a Ha). tauto.
    + specialize (HW a Ha). tauto.
  - intros [[HW HR] Hc]. split; intros a Ha.
    + specialize (HW a Ha). split; intros [?|?]; try tauto; apply Hc; exists a; tauto.
    + specialize (HR a Ha). intros [?|?]; try tauto; apply Hc; exists a; tauto.
Qed.

(** The flag of the fold: with distinct keys each lock is tested against the
    set the call started from. *)
Lemma take_lock_flag m l s b :
  NoDup l.*2 →
  (foldl (take_lock m) (s, b) l).2 =
  b && forallb (λ '(i, a), if is_writable m i then can_write s a else can_read s a) l.
Proof.
  revert s b. induction l as [|[i k] l IH]; intros s b Hnd; simpl; [by rewrite andb_true_r|].
  apply NoDup_cons in Hnd as [Hk Hnd].
  assert (∀ s', (∀ a, a ≠ k → (a ∈ write_set s' ↔ a ∈ write_set s) ∧
                                (a ∈ read_set s' ↔ a ∈ read_set s)) →
    forallb (λ '(i, a), if is_writable m i then can_write s' a else can_read s' a) l =
    forallb (λ '(i, a), if is_writable m i then can_write s a else can_read s a) l) as Hext.
  { intros s' Hs'. clear IH. induction l as [|[j a] l IHl]; [done|]. simpl.
    apply not_elem_of_cons in Hk as [Hka Hk]. apply NoDup_cons in Hnd as [_ Hnd].
    rewrite (IHl Hk Hnd). f_equal. destruct (Hs' a (not_eq_sym Hka)) as [HW HR].
    unfold can_write, can_read.
    by rewrite (bool_decide_ext _ _ HW), (bool_decide_ext _ _ HR). }
  destruct (is_writable m i); simpl; rewrite (IH _ _ Hnd), <-andb_assoc; do 2 f_equal;
    apply Hext; intros a Ha; simpl; set_solver.
Qed.

Lemma enumerate_snd {A} (l : list A) : (enumerate l).*2 = l.
Proof. apply snd_zip. by rewrite length_seq. Qed.

Lemma take_locks_flag s m :
  NoDup (account_keys m) → (take_locks s m).2 = check_locks s m.
Proof.
  intros Hnd. unfold take_locks. rewrite take_lock_flag by by rewrite enumerate_snd.
  done.
Qed.
End RwFacts.
