(* ===== verification/Heap.v ===== *)
(** * The double-ended priority queue interface

    The container keeps its queue in [min_max_heap::MinMaxHeap], a crate outside
    this repository.  [MinMaxHeap] lists the operations the container calls and
    [MinMaxHeapLaws] the documented behaviour it relies on: contents as a
    multiset ([into_vec]), the extremal element removed, and a capacity that
    only grows when a push finds the heap full.  [ListHeap] is an implementation
    by unordered lists, used to instantiate the interface. *)
From S2P Require Import Prelude.

Class MinMaxHeap (H T : Type) := {
  heap_with_capacity : nat → H;
  heap_len : H → nat;
  heap_capacity : H → nat;
  heap_is_empty : H → bool;
  heap_push : T → H → H;
  heap_pop_max : H → option T * H;
  heap_push_pop_min : T → H → T * H;
  heap_peek_min : H → option T;
  heap_peek_max : H → option T;
  heap_into_vec : H → list T
}.

Class MinMaxHeapLaws (H T : Type) `{MinMaxHeap H T} (le : relation T) : Prop := {
  heap_new_elems n : heap_into_vec (heap_with_capacity n) = [];
  heap_new_capacity n : n ≤ heap_capacity (heap_with_capacity n);
  heap_len_elems h : heap_len h = length (heap_into_vec h);
  heap_is_empty_elems h : heap_is_empty h = bool_decide (heap_len h = 0);
  heap_len_capacity h : heap_len h ≤ heap_capacity h;
  heap_push_elems x h : heap_into_vec (heap_push x h) ≡ₚ x :: heap_into_vec h;
  heap_push_capacity x h :
    heap_len h < heap_capacity h → heap_capacity (heap_push x h) = heap_capacity h;
  heap_pop_max_None h h' : heap_pop_max h = (None, h') → heap_into_vec h = [] ∧ h' = h;
  heap_pop_max_Some h x h' : heap_pop_max h = (Some x, h') →
    heap_into_vec h ≡ₚ x :: heap_into_vec h' ∧
    (∀ y, y ∈ heap_into_vec h → le y x) ∧ heap_capacity h' = heap_capacity h;
  heap_push_pop_min_elems x h y h' : heap_push_pop_min x h = (y, h') →
    x :: heap_into_vec h ≡ₚ y :: heap_into_vec h' ∧
    (∀ z, z ∈ x :: heap_into_vec h → le y z) ∧ heap_capacity h' = heap_capacity h;
  heap_peek_min_elems h : match heap_peek_min h with
    | None => heap_into_vec h = []
    | Some x => x ∈ heap_into_vec h ∧ ∀ y, y ∈ heap_into_vec h → le x y
    end;
  heap_peek_max_elems h : match heap_peek_max h with
    | None => heap_into_vec h = []
    | Some x => x ∈ heap_into_vec h ∧ ∀ y, y ∈ heap_into_vec h → le y x
    end
}.

(** ** An implementation by lists *)

Module ListHeap.
Section Defs.
Context {T : Type}.

Record t := mk { cap : nat; elems : list T }.
Definition capacity (h : t) : nat := cap h `max` length (elems h).

Section Extract.
Context (R : relation T) `{!RelDecision R}.
(** The extremal element of [x :: l] for [R], and the others. *)
Fixpoint extract (x : T) (l : list T) : T * list T :=
  match l with
  | [] => (x, [])
  | y :: l =>
      if decide (R x y) then let '(m, r) := extract y l in (m, x :: r)
      else let '(m, r) := extract x l in (m, y :: r)
  end.

Lemma extract_spec `{!Transitive R, !Total R} x l m r :
  extract x l = (m, r) → x :: l ≡ₚ m :: r ∧ ∀ y, y ∈ x :: l → R y m.
Proof.
  revert x r. induction l as [|y l IH]; intros x r; simpl.
  { intros [= <- <-]. split; [done|]. intros y ->%list_elem_of_singleton.
    by destruct (total R x x). }
  destruct (decide (R x y)) as [Hxy|Hxy]; destruct (extract _ l) as [m' r'] eqn:E;
    intros [= <- <-]; apply IH in E as [Hp Hm].
  - split; [rewrite Hp; apply Permutation_swap|].
    intros z [->|Hz]%elem_of_cons; [|auto]. etrans; [exact Hxy|apply Hm; left].
  - assert (R y x) by (destruct (total R x y); [done|done]).
    split; [rewrite (Permutation_swap y x l), Hp; apply Permutation_swap|].
    intros z [->|[->|Hz]%elem_of_cons]%elem_of_cons; [apply Hm; left| |apply Hm; by right].
    etrans; [done|apply Hm; left].
Qed.
End Extract.

Context (le : relation T) `{!RelDecision le}.

Definition pop_max (h : t) : option T * t :=
  match elems h with
  | [] => (None, h)
  | x :: l => let '(m, r) := extract le x l in (Some m, mk (capacity h) r)
  end.
Definition push_pop_min (x : T) (h : t) : T * t :=
  let '(m, r) := extract (flip le) x (elems h) in (m, mk (capacity h) r).
Definition peek_min (h : t) : option T :=
  match elems h with [] => None | x :: l => Some (extract (flip le) x l).1 end.
Definition peek_max (h : t) : option T :=
  match elems h with [] => None | x :: l => Some (extract le x l).1 end.

Definition ops : MinMaxHeap t T := {|
  heap_with_capacity n := mk n [];
  heap_len h := length (elems h);
  heap_capacity := capacity;
  heap_is_empty h := bool_decide (length (elems h) = 0);
  heap_push x h := mk (cap h) (x :: elems h);
  heap_pop_max := pop_max;
  heap_push_pop_min := push_pop_min;
  heap_peek_min := peek_min;
  heap_peek_max := peek_max;
  heap_into_vec := elems
|}.

Lemma capacity_shrink h r :
  length r ≤ length (elems h) → capacity (mk (capacity h) r) = capacity h.
Proof. unfold capacity. simpl. lia. Qed.

Lemma laws `{!Transitive le, !Total le} : @MinMaxHeapLaws t T ops le.
Proof.
  assert (Transitive (flip le)) by (intros x y z Hxy Hyz; by transitivity y).
  assert (Total (flip le)) by (intros x y; destruct (total le y x); [left|right]; done).
  split; simpl.
  - done.
  - intros n. unfold capacity. simpl. lia.
  - done.
  - done.
  - intros h. unfold capacity. lia.
  - done.
  - intros x h Hlt. unfold capacity in *. simpl. lia.
  - intros [c [|x l]] h'; unfold pop_max; simpl; [by intros [= <-]|].
    by destruct (extract le x l).
  - intros [c [|x l]] m h'; unfold pop_max; simpl; [done|].
    destruct (extract le x l) as [m' r] eqn:E. intros [= <- <-].
    apply extract_spec in E as [Hp Hm]; [|done..]. split_and!; [done|done|].
    apply (capacity_shrink (mk c (x :: l))). simpl. apply Permutation_length in Hp. simpl in Hp. lia.
  - intros x [c l] m h'. unfold push_pop_min. simpl.
    destruct (extract (flip le) x l) as [m' r] eqn:E. intros [= <- <-].
    apply extract_spec in E as [Hp Hm]; [|done..]. split_and!; [done|done|].
    apply (capacity_shrink (mk c l)). simpl. apply Permutation_length in Hp. simpl in Hp. lia.
  - intros [c [|x l]]; unfold peek_min; simpl; [done|].
    destruct (extract (flip le) x l) as [m r] eqn:E.
    apply extract_spec in E as [Hp Hm]; [|done..]. split; [|done]. simpl. rewrite Hp. left.
  - intros [c [|x l]]; unfold peek_max; simpl; [done|].
    destruct (extract le x l) as [m r] eqn:E.
    apply extract_spec in E as [Hp Hm]; [|done..]. split; [|done]. simpl. rewrite Hp. left.
Qed.
End Defs.
Arguments t : clear implicits.
End ListHeap.
