(* ===== verification/Container.v ===== *)
(** * The transaction state container

    [scheduler/src/impls/prio_graph_scheduler/transaction_state_container.rs]:
    a bounded priority queue of transaction ids next to the map from ids to
    transaction states.  The queue is any [MinMaxHeap]; the map is a [gmap]. *)
From S2P Require Import Prelude Messages Heap.
Set Default Proof Using "Type*".

Module Container.
Section Defs.
Context {Tx H : Type} `{MinMaxHeap H TransactionPriorityId}.

Record TransactionStateContainer := mk {
  priority_queue : H;
  id_to_transaction_state : gmap TransactionId (TransactionState Tx)
}.
Implicit Type c : TransactionStateContainer.

Definition set_states c m := mk (priority_queue c) m.
Definition set_queue c q := mk q (id_to_transaction_state c).

Definition with_capacity (capacity : nat) : TransactionStateContainer :=
  mk (heap_with_capacity capacity) ∅.

Definition len c : nat := heap_len (priority_queue c).

Definition is_empty c : bool := heap_is_empty (priority_queue c).

Definition remaining_queue_capacity c : res nat :=
  if decide (heap_len (priority_queue c) ≤ heap_capacity (priority_queue c))
  then Ok (heap_capacity (priority_queue c) - heap_len (priority_queue c))
  else Panic "attempt to subtract with overflow".

Definition pop c : option TransactionPriorityId * TransactionStateContainer :=
  let '(x, q) := heap_pop_max (priority_queue c) in (x, set_queue c q).

(** [get_mut_transaction_state]: the state, and how the caller stores a new one. *)
Definition get_mut_transaction_state c (id : TransactionId) :
    option (TransactionState Tx * (TransactionState Tx → TransactionStateContainer)) :=
  s ← id_to_transaction_state c !! id;
  Some (s, λ s', set_states c (<[id := s']> (id_to_transaction_state c))).

Definition get_transaction_ttl c (id : TransactionId) :
    res (option (SanitizedTransactionTTL Tx)) :=
  match id_to_transaction_state c !! id with
  | None => Ok None
  | Some state => ttl ← transaction_ttl state; Ok (Some ttl)
  end.

Definition remove_by_id c (id : TransactionId) : res TransactionStateContainer :=
  _ ← expect (id_to_transaction_state c !! id) "transaction must exist";
  Ok (set_states c (delete id (id_to_transaction_state c))).

Definition push_id_into_queue c (priority_id : TransactionPriorityId) :
    res (TransactionStateContainer * bool) :=
  remaining ← remaining_queue_capacity c;
  if decide (remaining = 0) then
    let '(popped_id, q) := heap_push_pop_min priority_id (priority_queue c) in
    c ← remove_by_id (set_queue c q) (id popped_id);
    Ok (c, true)
  else Ok (set_queue c (heap_push priority_id (priority_queue c)), false).

Definition insert_new_transaction c (transaction_id : TransactionId)
    (ttl : SanitizedTransactionTTL Tx) (priority cost : Z) :
    res (TransactionStateContainer * bool) :=
  let priority_id := mkPriorityId priority transaction_id in
  push_id_into_queue
    (set_states c (<[transaction_id := state_new ttl priority cost]>
                     (id_to_transaction_state c)))
    priority_id.

Definition retry_transaction c (transaction_id : TransactionId)
    (ttl : SanitizedTransactionTTL Tx) : res TransactionStateContainer :=
  '(transaction_state, store) ←
    expect (get_mut_transaction_state c transaction_id) "transaction must exist";
  priority ← state_priority transaction_state;
  let priority_id := mkPriorityId priority transaction_id in
  transaction_state ← transition_to_unprocessed transaction_state ttl;
  '(c, _) ← push_id_into_queue (store transaction_state) priority_id;
  Ok c.

(** [itertools::MinMaxResult<u64>] *)
Inductive MinMaxResult := NoElements | OneElement (x : Z) | MinMax (x y : Z).

Definition get_min_max_priority c : MinMaxResult :=
  match heap_peek_min (priority_queue c) with
  | Some min =>
      match heap_peek_max (priority_queue c) with
      | Some max => MinMax (priority min) (priority max)
      | None => OneElement (priority min)
      end
  | None => NoElements
  end.

(** ** The container invariant *)

(** The map [m] and the ids [L] known to be schedulable agree: [L] has no
    duplicate id and holds exactly the unprocessed transactions with their
    priority; no state is left in the transition marker. *)
Definition matches (m : gmap TransactionId (TransactionState Tx))
    (L : list TransactionPriorityId) : Prop :=
  NoDup (id <$> L) ∧
  (∀ x, x ∈ L ↔ ∃ ttl cost, m !! id x = Some (Unprocessed ttl (priority x) cost)) ∧
  (∀ i, m !! i ≠ Some Transitioning).

(** [out] are the ids a scheduling pass has popped and not yet disposed of. *)
Definition cont_ok c (out : list TransactionPriorityId) : Prop :=
  matches (id_to_transaction_state c) (heap_into_vec (priority_queue c) ++ out) ∧
  length (heap_into_vec (priority_queue c)) + length out ≤ heap_capacity (priority_queue c).
End Defs.
Arguments TransactionStateContainer Tx H : clear implicits.
End Container.
Import Container.

(** ** The correspondence of map and queue *)

Section Matches.
Context {Tx : Type}.
Implicit Types (m : gmap TransactionId (TransactionState Tx)) (L : list TransactionPriorityId).

#[global] Instance matches_perm m : Proper ((≡ₚ) ==> iff) (matches m).
Proof.
  intros L L' HL. unfold matches. rewrite HL. split; intros (?&Hm&?); split_and!; try done;
    intros x; [rewrite <-HL|rewrite HL]; apply Hm.
Qed.

Lemma matches_empty : matches (Tx:=Tx) ∅ [].
Proof.
  split_and!; [constructor| |done].
  intros x. split; [by intros ?%not_elem_of_nil|by intros (?&?&?)].
Qed.

Lemma matches_lookup m x L :
  matches m (x :: L) → ∃ ttl cost, m !! id x = Some (Unprocessed ttl (priority x) cost).
Proof. intros (_ & Hm & _). apply Hm. left. Qed.

(** Within [L] an id determines the entry. *)
Lemma matches_fresh m x y L : matches m (x :: L) → y ∈ L → id y ≠ id x.
Proof.
  intros (Hnd & _) Hy Heq. apply NoDup_cons in Hnd as [Hx _]. apply Hx.
  rewrite <-Heq. by apply list_elem_of_fmap_2.
Qed.

(** Replacing the state of the head of [L] by anything but an unprocessed
    one removes it from the correspondence. *)
Lemma matches_pop m x L m' :
  matches m (x :: L) →
  (∀ i, i ≠ id x → m' !! i = m !! i) →
  (∀ ttl p cost, m' !! id x ≠ Some (Unprocessed ttl p cost)) →
  m' !! id x ≠ Some Transitioning →
  matches m' L.
Proof.
  intros HM Heq Hx Ht. pose proof HM as (Hnd & Hm & Htr). apply NoDup_cons in Hnd as [_ Hnd].
  split_and!; [done| |].
  - intros y. split.
    + intros Hy. rewrite Heq by by eapply matches_fresh. apply Hm. by right.
    + intros (ttl & cost & Hy). destruct (decide (id y = id x)) as [E|E].
      * rewrite E in Hy. by apply Hx in Hy.
      * rewrite Heq in Hy by done.
        assert (y ∈ x :: L) as [->|?]%elem_of_cons by (apply Hm; eauto); done.
  - intros i. destruct (decide (i = id x)) as [->|E]; [done|]. by rewrite Heq.
Qed.

Lemma matches_delete m x L : matches m (x :: L) → matches (delete (id x) m) L.
Proof.
  intros HM. eapply matches_pop; [done|..]; intros; [by rewrite lookup_delete_ne|..];
    by rewrite lookup_delete_eq.
Qed.

Lemma matches_pending m x L ttl p cost :
  matches m (x :: L) → matches (<[id x := Pending ttl p cost]> m) L.
Proof.
  intros HM. eapply matches_pop; [done|..]; intros; [by rewrite lookup_insert_ne|..];
    by rewrite lookup_insert_eq.
Qed.

(** Adding an unprocessed transaction whose id was not unprocessed. *)
Lemma matches_insert m L i ttl p cost :
  matches m L → (∀ ttl p cost, m !! i ≠ Some (Unprocessed ttl p cost)) →
  matches (<[i := Unprocessed ttl p cost]> m) (mkPriorityId p i :: L).
Proof.
  intros (Hnd & Hm & Htr) Hi.
  assert (∀ y, y ∈ L → id y ≠ i) as Hfresh.
  { intros y Hy <-. apply Hm in Hy as (? & ? & Hy). by apply Hi in Hy. }
  split_and!.
  - apply NoDup_cons. split; [|done]. intros (y & Hy & HyL)%list_elem_of_fmap. simpl in Hy.
    by eapply Hfresh.
  - intros y. rewrite elem_of_cons. destruct (decide (id y = i)) as [E|E].
    + rewrite E, lookup_insert_eq. split.
      * intros [->|Hy]; [eauto|by apply Hfresh in Hy].
      * intros (? & ? & [= _ Hp _]). left. destruct y. simpl in *. by subst.
    + rewrite lookup_insert_ne by done. rewrite <-Hm. split; [|by right].
      intros [->|?]; done.
  - intros j. destruct (decide (j = i)) as [->|E].
    + by rewrite lookup_insert_eq.
    + by rewrite lookup_insert_ne.
Qed.

Lemma matches_delete_pending m L i ttl p cost :
  matches m L → m !! i = Some (Pending ttl p cost) → matches (delete i m) L.
Proof.
  intros (Hnd & Hm & Htr) Hi. split_and!; [done| |].
  - intros y. rewrite Hm. destruct (decide (id y = i)) as [->|E].
    + rewrite lookup_delete_eq, Hi. naive_solver.
    + by rewrite lookup_delete_ne.
  - intros j. destruct (decide (j = i)) as [->|E].
    + by rewrite lookup_delete_eq.
    + by rewrite lookup_delete_ne.
Qed.
End Matches.

(** ** The operations *)

Section ContainerFacts.
Context {Tx H : Type} `{MinMaxHeapLaws H TransactionPriorityId priority_id_le}.
Implicit Types (c : TransactionStateContainer Tx H) (x : TransactionPriorityId).

Lemma remaining_ok c :
  remaining_queue_capacity c =
  Ok (heap_capacity (priority_queue c) - length (heap_into_vec (priority_queue c))).
Proof.
  unfold remaining_queue_capacity.
  rewrite decide_True by apply heap_len_capacity. by rewrite heap_len_elems.
Qed.

Lemma with_capacity_ok n : cont_ok (with_capacity (Tx:=Tx) (H:=H) n) [].
Proof.
  unfold cont_ok. simpl. rewrite heap_new_elems. split; [apply matches_empty|simpl; lia].
Qed.

Lemma pop_None c c' :
  pop c = (None, c') → c' = c ∧ heap_into_vec (priority_queue c) = [].
Proof.
  unfold pop. destruct (heap_pop_max _) as [x q] eqn:E. intros [= -> <-].
  apply heap_pop_max_None in E as [? ->]. by destruct c.
Qed.

Lemma pop_Some c x c' out :
  cont_ok c out → pop c = (Some x, c') →
  heap_into_vec (priority_queue c) ≡ₚ x :: heap_into_vec (priority_queue c') ∧
  (∀ y, y ∈ heap_into_vec (priority_queue c) → priority_id_le y x) ∧
  id_to_transaction_state c' = id_to_transaction_state c ∧
  heap_capacity (priority_queue c') = heap_capacity (priority_queue c) ∧
  cont_ok c' (x :: out).
Proof.
  intros [HM Hlen]. unfold pop. destruct (heap_pop_max _) as [x' q] eqn:E.
  intros [= -> <-]. apply heap_pop_max_Some in E as (Hp & Hmax & Hcap). simpl.
  split_and!; try done. split; simpl.
  - rewrite <-Permutation_middle. by rewrite Hp in HM.
  - rewrite Hp in Hlen. simpl in Hlen. lia.
Qed.

Lemma remove_by_id_ok c i s Φ :
  id_to_transaction_state c !! i = Some s →
  Φ (set_states c (delete i (id_to_transaction_state c))) →
  wp (remove_by_id c i) Φ.
Proof. intros Hi HΦ. unfold remove_by_id. by rewrite Hi. Qed.

Lemma cont_ok_perm c out out' : out ≡ₚ out' → cont_ok c out → cont_ok c out'.
Proof. intros Hp [HM Hl]. split; [by rewrite <-Hp|by rewrite <-Hp]. Qed.

#[global] Instance cont_ok_proper c : Proper ((≡ₚ) ==> iff) (cont_ok c).
Proof. intros out out' Hp. split; by apply cont_ok_perm. Qed.

(** A popped id is disposed of: removed, or made pending, or put back. *)
Lemma cont_ok_out c x out :
  cont_ok c (x :: out) → ∃ ttl cost,
    id_to_transaction_state c !! id x = Some (Unprocessed ttl (priority x) cost).
Proof. intros [HM _]. rewrite <-Permutation_middle in HM. by eapply matches_lookup. Qed.

Lemma cont_ok_remove c x out :
  cont_ok c (x :: out) →
  cont_ok (set_states c (delete (id x) (id_to_transaction_state c))) out.
Proof.
  intros [HM Hl]. rewrite <-Permutation_middle in HM.
  split; simpl in *; [by apply matches_delete|lia].
Qed.

Lemma cont_ok_pending c x out ttl p cost :
  cont_ok c (x :: out) →
  cont_ok (set_states c (<[id x := Pending ttl p cost]> (id_to_transaction_state c))) out.
Proof.
  intros [HM Hl]. rewrite <-Permutation_middle in HM.
  split; simpl in *; [by apply matches_pending|lia].
Qed.

(** Ids popped earlier in the pass fit back into the queue: nothing is dropped. *)
Lemma push_back_ok c x out Φ :
  cont_ok c (x :: out) →
  (∀ c', cont_ok c' out →
     heap_into_vec (priority_queue c') ≡ₚ x :: heap_into_vec (priority_queue c) →
     id_to_transaction_state c' = id_to_transaction_state c →
     heap_capacity (priority_queue c') = heap_capacity (priority_queue c) →
     Φ (c', false)) →
  wp (push_id_into_queue c x) Φ.
Proof.
  intros [HM Hl] HΦ. unfold push_id_into_queue. rewrite remaining_ok. simpl in *.
  rewrite decide_False by lia. apply wp_ok.
  assert (heap_capacity (heap_push x (priority_queue c)) = heap_capacity (priority_queue c)) as Hc
    by (apply heap_push_capacity; rewrite heap_len_elems; lia).
  apply HΦ; simpl; [|apply heap_push_elems|done|done].
  split; simpl.
  - rewrite heap_push_elems. simpl. by rewrite Permutation_middle.
  - rewrite heap_push_elems, Hc. simpl. lia.
Qed.

(** What pushing [x] does to the queue of [c]: it is added, and when the queue
    was full the least entry, possibly [x] itself, is dropped with its state. *)
Definition pushed c x (c' : TransactionStateContainer Tx H) (dropped : bool) : Prop :=
  heap_capacity (priority_queue c') = heap_capacity (priority_queue c) ∧
  if dropped then
    length (heap_into_vec (priority_queue c)) = heap_capacity (priority_queue c) ∧
    ∃ v, x :: heap_into_vec (priority_queue c) ≡ₚ v :: heap_into_vec (priority_queue c') ∧
      (∀ y, y ∈ x :: heap_into_vec (priority_queue c) → priority_id_le v y) ∧
      id_to_transaction_state c' = delete (id v) (id_to_transaction_state c)
  else
    length (heap_into_vec (priority_queue c)) < heap_capacity (priority_queue c) ∧
    heap_into_vec (priority_queue c') ≡ₚ x :: heap_into_vec (priority_queue c) ∧
    id_to_transaction_state c' = id_to_transaction_state c.

Lemma push_ok c x :
  matches (id_to_transaction_state c) (x :: heap_into_vec (priority_queue c)) →
  wp (push_id_into_queue c x) (λ '(c', dropped), cont_ok c' [] ∧ pushed c x c' dropped).
Proof.
  intros HM. unfold push_id_into_queue. rewrite remaining_ok. simpl.
  assert (length (heap_into_vec (priority_queue c)) ≤ heap_capacity (priority_queue c)) as Hle
    by (rewrite <-heap_len_elems; apply heap_len_capacity).
  destruct (decide _) as [Hz|Hz].
  - destruct (heap_push_pop_min _ _) as [v q] eqn:E.
    apply heap_push_pop_min_elems in E as (Hp & Hmin & Hc).
    assert (∃ ttl cost, id_to_transaction_state c !! id v =
              Some (Unprocessed ttl (priority v) cost)) as (ttl & cost & Hv)
      by (rewrite Hp in HM; by eapply matches_lookup).
    apply wp_bind. eapply remove_by_id_ok; [exact Hv|]. apply wp_ok. split; [split|split]; simpl.
    + rewrite app_nil_r. rewrite Hp in HM. by apply matches_delete.
    + apply Permutation_length in Hp. simpl in Hp. lia.
    + done.
    + split; [lia|]. by exists v.
  - apply wp_ok.
    assert (heap_capacity (heap_push x (priority_queue c)) = heap_capacity (priority_queue c)) as Hc
      by (apply heap_push_capacity; rewrite heap_len_elems; lia).
    split; [split|split]; simpl.
    + rewrite app_nil_r. by rewrite heap_push_elems.
    + rewrite heap_push_elems, Hc. simpl. lia.
    + done.
    + split_and!; [lia|apply heap_push_elems|done].
Qed.

Lemma insert_new_transaction_ok c i ttl p cost :
  cont_ok c [] → id_to_transaction_state c !! i = None →
  wp (insert_new_transaction c i ttl p cost) (λ '(c', dropped),
    cont_ok c' [] ∧
    pushed (set_states c (<[i := Unprocessed ttl p cost]> (id_to_transaction_state c)))
      (mkPriorityId p i) c' dropped).
Proof.
  intros [HM _] Hi. rewrite app_nil_r in HM. apply push_ok. simpl.
  apply matches_insert; [done|]. intros. by rewrite Hi.
Qed.

Lemma retry_transaction_ok c i ttl0 ttl p cost :
  cont_ok c [] → id_to_transaction_state c !! i = Some (Pending ttl0 p cost) →
  wp (retry_transaction c i ttl) (λ c', cont_ok c' [] ∧ ∃ dropped,
    pushed (set_states c (<[i := Unprocessed ttl p cost]> (id_to_transaction_state c)))
      (mkPriorityId p i) c' dropped).
Proof.
  intros [HM _] Hi. rewrite app_nil_r in HM.
  unfold retry_transaction, get_mut_transaction_state. rewrite Hi. simpl.
  apply wp_bind. eapply wp_mono; [apply push_ok|].
  - simpl. apply matches_insert; [done|]. intros. by rewrite Hi.
  - intros [c' d] [? ?]. apply wp_ok. eauto.
Qed.
End ContainerFacts.
