(* ===== verification/InFlight.v ===== *)
(** * The in-flight tracker

    [scheduler/src/impls/prio_graph_scheduler/in_flight_tracker.rs]: per worker
    thread, how many transactions and compute units have been handed out and not
    come back.  [usize] and [u64] counters panic on overflow. *)
From S2P Require Import Prelude Messages ThreadSets.

Module InFlightTracker.

Record BatchEntry := mkEntry { thread_id : ThreadId; num_transactions : Z; total_cus : Z }.

Record t := mk {
  num_in_flight_per_thread : list Z;
  cus_in_flight_per_thread : list Z;
  batches : gmap TransactionBatchId BatchEntry;
  batch_id_generator : IdGenerator.t
}.

Definition new (num_threads : nat) : t :=
  mk (replicate num_threads 0%Z) (replicate num_threads 0%Z) ∅ IdGenerator.default.

(** [v[i] += x] and [v[i] -= x] *)
Definition vec_add (v : list Z) (i : nat) (x : Z) : res (list Z) :=
  y ← vec_get v i; z ← checked_add u64_max y x; vec_set v i z.
Definition vec_sub (v : list Z) (i : nat) (x : Z) : res (list Z) :=
  y ← vec_get v i; z ← checked_sub y x; vec_set v i z.

Definition track_batch (tr : t) (num_transactions total_cus : Z) (thread_id : ThreadId) :
    res (t * TransactionBatchId) :=
  let '(id, gen) := IdGenerator.gen (batch_id_generator tr) in
  let batch_id := mkBatchId id in
  num ← vec_add (num_in_flight_per_thread tr) thread_id num_transactions;
  cus ← vec_add (cus_in_flight_per_thread tr) thread_id total_cus;
  Ok (mk num cus
        (<[batch_id := mkEntry thread_id num_transactions total_cus]> (batches tr)) gen,
      batch_id).

Definition complete_batch (tr : t) (batch_id : TransactionBatchId) : res (t * ThreadId) :=
  match batches tr !! batch_id with
  | None => Panic "batch id is not being tracked"
  | Some e =>
      num ← vec_sub (num_in_flight_per_thread tr) (thread_id e) (num_transactions e);
      cus ← vec_sub (cus_in_flight_per_thread tr) (thread_id e) (total_cus e);
      Ok (mk num cus (delete batch_id (batches tr)) (batch_id_generator tr), thread_id e)
  end.

(** The entries of one thread, measured by [f]. *)
Definition on_thread (i : ThreadId) (f : BatchEntry → Z) (e : BatchEntry) : Z :=
  if decide (thread_id e = i) then f e else 0%Z.

(** The counters are the sums over the tracked batches, and the ids handed out
    are still above the generator. *)
Record ok (n : nat) (tr : t) : Prop := {
  ok_num_len : length (num_in_flight_per_thread tr) = n;
  ok_cus_len : length (cus_in_flight_per_thread tr) = n;
  ok_num i x : num_in_flight_per_thread tr !! i = Some x →
    x = msum (on_thread i num_transactions) (batches tr);
  ok_cus i x : cus_in_flight_per_thread tr !! i = Some x →
    x = msum (on_thread i total_cus) (batches tr);
  ok_entry b e : batches tr !! b = Some e →
    thread_id e < n ∧ (0 ≤ num_transactions e)%Z ∧ (0 ≤ total_cus e)%Z;
  ok_next : u64 (IdGenerator.next_id (batch_id_generator tr));
  ok_ids b e : batches tr !! b = Some e →
    (IdGenerator.next_id (batch_id_generator tr) < batch_value b ≤ u64_max)%Z
}.
End InFlightTracker.
Import InFlightTracker.

(** ** Lemmas *)

Lemma wp_vec_add v i x y (Φ : list Z → Prop) :
  v !! i = Some y → (y + x ≤ u64_max)%Z → Φ (<[i := (y + x)%Z]> v) → wp (vec_add v i x) Φ.
Proof.
  intros Hi Hle HΦ. unfold vec_add. wp_step. eapply wp_vec_get; [done|].
  wp_step. apply wp_checked_add; [done|]. apply wp_vec_set; [|done].
  by eapply lookup_lt_Some.
Qed.

Lemma wp_vec_sub v i x y (Φ : list Z → Prop) :
  v !! i = Some y → (x ≤ y)%Z → Φ (<[i := (y - x)%Z]> v) → wp (vec_sub v i x) Φ.
Proof.
  intros Hi Hle HΦ. unfold vec_sub. wp_step. eapply wp_vec_get; [done|].
  wp_step. apply wp_checked_sub; [done|]. apply wp_vec_set; [|done].
  by eapply lookup_lt_Some.
Qed.

Definition counts (f : BatchEntry → Z) (v : list Z) (m : gmap TransactionBatchId BatchEntry) :=
  ∀ i x, v !! i = Some x → x = msum (on_thread i f) m.

Lemma counts_insert f v m b e y :
  counts f v m → m !! b = None → v !! thread_id e = Some y →
  counts f (<[thread_id e := (y + f e)%Z]> v) (<[b := e]> m).
Proof.
  intros Hc Hb Hy i x Hx. rewrite msum_insert by done. unfold on_thread at 1.
  apply list_lookup_insert_Some in Hx as [(<- & <- & _)|[Hne Hx]].
  - rewrite decide_True by done. rewrite (Hc _ _ Hy). lia.
  - rewrite decide_False by done. rewrite (Hc _ _ Hx). lia.
Qed.

Lemma counts_delete f v m b e y :
  counts f v m → m !! b = Some e → v !! thread_id e = Some y →
  counts f (<[thread_id e := (y - f e)%Z]> v) (delete b m).
Proof.
  intros Hc Hb Hy i x Hx. rewrite (msum_delete _ _ _ e) by done. unfold on_thread at 2.
  apply list_lookup_insert_Some in Hx as [(<- & <- & _)|[Hne Hx]].
  - rewrite decide_True by done. rewrite (Hc _ _ Hy). lia.
  - rewrite decide_False by done. rewrite (Hc _ _ Hx). lia.
Qed.

Lemma new_ok n : InFlightTracker.ok n (new n).
Proof.
  split; simpl; try done; try (by rewrite length_replicate); intros;
    try (apply lookup_replicate in H as [-> _]; by rewrite msum_empty).
Qed.

Lemma fresh_batch_id n tr :
  InFlightTracker.ok n tr →
  batches tr !! mkBatchId (IdGenerator.next_id (batch_id_generator tr)) = None.
Proof.
  intros Hok. destruct (batches tr !! _) as [e|] eqn:E; [|done].
  apply (ok_ids _ _ Hok) in E. simpl in E. lia.
Qed.

(** Tracking adds the batch under a fresh id and its size to its thread. *)
Lemma track_batch_ok n tr k cus i :
  InFlightTracker.ok n tr → i < n → (0 ≤ k)%Z → (0 ≤ cus)%Z →
  (0 < IdGenerator.next_id (batch_id_generator tr))%Z →
  (msum (on_thread i num_transactions) (batches tr) + k ≤ u64_max)%Z →
  (msum (on_thread i total_cus) (batches tr) + cus ≤ u64_max)%Z →
  wp (track_batch tr k cus i) (λ '(tr', b),
    InFlightTracker.ok n tr' ∧ batches tr !! b = None ∧
    batches tr' = <[b := mkEntry i k cus]> (batches tr) ∧
    b = mkBatchId (IdGenerator.next_id (batch_id_generator tr)) ∧
    (IdGenerator.next_id (batch_id_generator tr') =
     IdGenerator.next_id (batch_id_generator tr) - 1)%Z).
Proof.
  intros Hok Hi Hk Hcus Hid Hn Hc. pose proof (fresh_batch_id _ _ Hok) as Hfresh.
  destruct Hok as [Hnl Hcl Hnum Hcu He Hu Hids]. unfold track_batch. simpl.
  destruct (lookup_lt_is_Some_2 (num_in_flight_per_thread tr) i) as [x Hx]; [lia|].
  destruct (lookup_lt_is_Some_2 (cus_in_flight_per_thread tr) i) as [y Hy]; [lia|].
  wp_step. eapply wp_vec_add; [done|by rewrite (Hnum _ _ Hx)|].
  wp_step. eapply wp_vec_add; [done|by rewrite (Hcu _ _ Hy)|]. wp_step.
  assert (wrapping_sub64 (IdGenerator.next_id (batch_id_generator tr)) 1 =
          IdGenerator.next_id (batch_id_generator tr) - 1)%Z as Hw.
  { unfold wrapping_sub64. apply Z.mod_small. unfold u64, u64_max in Hu. lia. }
  split_and!; try done. split; simpl.
  - by rewrite length_insert.
  - by rewrite length_insert.
  - by apply (counts_insert num_transactions _ _ _ (mkEntry i k cus)).
  - by apply (counts_insert total_cus _ _ _ (mkEntry i k cus)).
  - intros b e [[<- <-]|[_ Hb]]%lookup_insert_Some; [done|by eapply He].
  - rewrite Hw. unfold u64 in *. lia.
  - rewrite Hw. unfold u64 in Hu.
    intros b e [[<- <-]|[_ Hb%Hids]]%lookup_insert_Some; simpl; lia.
Qed.

(** Completing removes the batch and gives back its thread. *)
Lemma complete_batch_ok n tr b e :
  InFlightTracker.ok n tr → batches tr !! b = Some e →
  wp (complete_batch tr b) (λ '(tr', i),
    InFlightTracker.ok n tr' ∧ i = thread_id e ∧
    batches tr' = delete b (batches tr) ∧
    batch_id_generator tr' = batch_id_generator tr).
Proof.
  intros Hok Hb. pose proof (ok_entry _ _ Hok _ _ Hb) as (Hi & _).
  destruct Hok as [Hnl Hcl Hnum Hcu He Hu Hids]. unfold complete_batch. rewrite Hb.
  assert (∀ f, (∀ b e, batches tr !! b = Some e → 0 ≤ f e)%Z →
    (f e ≤ msum (on_thread (thread_id e) f) (batches tr))%Z) as Hle.
  { intros f Hf. etrans; [|eapply (msum_elem _ _ _ _ Hb)].
    - unfold on_thread. by rewrite decide_True.
    - intros b' e' Hb'. unfold on_thread. destruct (decide _); [by eapply Hf|lia]. }
  destruct (lookup_lt_is_Some_2 (num_in_flight_per_thread tr) (thread_id e)) as [x Hx]; [lia|].
  destruct (lookup_lt_is_Some_2 (cus_in_flight_per_thread tr) (thread_id e)) as [y Hy]; [lia|].
  wp_step. eapply wp_vec_sub; [done| |].
  { rewrite (Hnum _ _ Hx). apply Hle. intros b' e' Hb'. apply He in Hb'. naive_solver. }
  wp_step. eapply wp_vec_sub; [done| |].
  { rewrite (Hcu _ _ Hy). apply Hle. intros b' e' Hb'. apply He in Hb'. naive_solver. }
  wp_step. split_and!; try done. split; simpl; rewrite ?length_insert; try done.
  - by apply counts_delete.
  - by apply counts_delete.
  - intros b' e' [_ Hb']%lookup_delete_Some. by eapply He.
  - intros b' e' [_ Hb']%lookup_delete_Some. by eapply Hids.
Qed.
