(* ===== verification/PrioGraph.v ===== *)
(** * The priority graph interface

    The look-ahead window of the scheduler is a [prio_graph::PrioGraph], a crate
    outside this repository.  [PrioGraph] lists the operations the scheduler
    calls.  [PrioGraphLaws] states what their documentation says: a transaction
    is inserted once, is popped once when nothing it conflicts with is ahead of
    it, stays known until it is unblocked, and some transaction is poppable
    whenever none is waiting to be unblocked.  [QueueGraph] is an
    implementation by a list in insertion order that instantiates the interface. *)
From S2P Require Import Prelude.
Set Default Proof Using "Type*".

(** [prio_graph::AccessKind] *)
Inductive AccessKind := Read | Write.

Class PrioGraph (G Id Pubkey : Type) := {
  pg_new : G;
  pg_insert_transaction : Id → list (Pubkey * AccessKind) → G → G;
  pg_pop : G → option Id * G;
  pg_unblock : Id → G → res G;
  pg_pop_and_unblock : G → res (option Id * G);
  pg_is_empty : G → bool;
  (** inserted and not popped; popped and not unblocked *)
  pg_waiting : G → list Id;
  pg_popped : G → list Id
}.

Class PrioGraphLaws (G Id Pubkey : Type) `{PrioGraph G Id Pubkey} : Prop := {
  pg_new_waiting : pg_waiting pg_new = [];
  pg_new_popped : pg_popped pg_new = [];
  pg_insert_waiting x acc g : x ∉ pg_waiting g ++ pg_popped g →
    pg_waiting (pg_insert_transaction x acc g) ≡ₚ x :: pg_waiting g;
  pg_insert_popped x acc g : x ∉ pg_waiting g ++ pg_popped g →
    pg_popped (pg_insert_transaction x acc g) = pg_popped g;
  pg_pop_None g g' : pg_pop g = (None, g') → g' = g ∧ pg_is_empty g = true;
  pg_pop_Some g x g' : pg_pop g = (Some x, g') →
    pg_is_empty g = false ∧
    pg_waiting g ≡ₚ x :: pg_waiting g' ∧ pg_popped g' ≡ₚ x :: pg_popped g;
  pg_unblock_ok x g : x ∈ pg_popped g → ∃ g', pg_unblock x g = Ok g' ∧
    pg_waiting g' ≡ₚ pg_waiting g ∧ pg_popped g ≡ₚ x :: pg_popped g';
  pg_pop_and_unblock_eq g : pg_pop_and_unblock g =
    match pg_pop g with
    | (None, g') => Ok (None, g')
    | (Some x, g') => g'' ← pg_unblock x g'; Ok (Some x, g'')
    end;
  pg_progress g : pg_popped g = [] → pg_waiting g ≠ [] → pg_is_empty g = false
}.

(** ** An implementation by lists *)

Module QueueGraph.
Section Defs.
Context {Id Pubkey : Type} `{EqDecision Id} `{EqDecision Pubkey}.

(** Entries in insertion order, each with its accesses and whether it has been
    popped. *)
Record node := mkNode { n_id : Id; n_accesses : list (Pubkey * AccessKind); n_popped : bool }.
Definition t := list node.

Definition access_conflict (x y : Pubkey * AccessKind) : bool :=
  bool_decide (x.1 = y.1) &&
  match x.2, y.2 with Read, Read => false | _, _ => true end.
Definition node_conflict (x y : node) : bool :=
  existsb (λ a, existsb (access_conflict a) (n_accesses y)) (n_accesses x).

(** Pop the first waiting entry that conflicts with nothing in [ahead] or
    before it. *)
Fixpoint pop_from (ahead g : t) : option (Id * t) :=
  match g with
  | [] => None
  | x :: g =>
      if (if n_popped x then false else negb (existsb (node_conflict x) ahead))
      then Some (n_id x, mkNode (n_id x) (n_accesses x) true :: g)
      else match pop_from (x :: ahead) g with
           | Some (i, g) => Some (i, x :: g)
           | None => None
           end
  end.

Definition pop (g : t) : option Id * t :=
  match pop_from [] g with Some (i, g') => (Some i, g') | None => (None, g) end.

Definition is_empty (g : t) : bool :=
  match pop_from [] g with Some _ => false | None => true end.

Fixpoint unblock (i : Id) (g : t) : res t :=
  match g with
  | [] => Panic "unblocked node must exist"
  | x :: g =>
      if decide (n_id x = i ∧ n_popped x = true) then Ok g
      else g' ← unblock i g; Ok (x :: g')
  end.

Definition pop_and_unblock (g : t) : res (option Id * t) :=
  match pop g with
  | (None, g') => Ok (None, g')
  | (Some x, g') => g'' ← unblock x g'; Ok (Some x, g'')
  end.

Definition ids (popped : bool) (g : t) : list Id :=
  omap (λ x, if decide (n_popped x = popped) then Some (n_id x) else None) g.

#[global] Instance ops : PrioGraph t Id Pubkey := {|
  pg_new := [];
  pg_insert_transaction i acc g := g ++ [mkNode i acc false];
  pg_pop := pop;
  pg_unblock := unblock;
  pg_pop_and_unblock := pop_and_unblock;
  pg_is_empty := is_empty;
  pg_waiting := ids false;
  pg_popped := ids true
|}.

Lemma ids_app b g1 g2 : ids b (g1 ++ g2) = ids b g1 ++ ids b g2.
Proof. apply omap_app. Qed.

Lemma pop_from_Some ahead g i g' :
  pop_from ahead g = Some (i, g') →
  ids false g ≡ₚ i :: ids false g' ∧ ids true g' ≡ₚ i :: ids true g.
Proof.
  revert ahead g'. induction g as [|x g IH]; intros ahead g'; simpl; [done|].
  destruct (if n_popped x then false else _) eqn:E.
  - destruct (n_popped x) eqn:Hx; [done|]. intros [= <- <-].
    done.
  - destruct (pop_from (x :: ahead) g) as [[j g1]|] eqn:Hp; [|done].
    intros [= <- <-]. apply IH in Hp as [Hw Hpop]. simpl.
    destruct (n_popped x); simpl; rewrite ?Hw, ?Hpop; split; try done; apply Permutation_swap.
Qed.

Lemma unblock_ok i g :
  i ∈ ids true g → ∃ g', unblock i g = Ok g' ∧
    ids false g' = ids false g ∧ ids true g ≡ₚ i :: ids true g'.
Proof.
  induction g as [|x g IH]; simpl; [by intros ?%not_elem_of_nil|].
  destruct (decide (n_id x = i ∧ n_popped x = true)) as [[<- Hx]|Hx].
  - intros _. exists g. rewrite Hx. done.
  - destruct (n_popped x) eqn:E; simpl.
    + intros [->|Hi]%elem_of_cons; [naive_solver|]. apply IH in Hi as (g' & -> & Hf & Ht).
      exists (x :: g'). simpl. rewrite E. simpl. split_and!; [done|done|].
      rewrite Ht. apply Permutation_swap.
    + intros Hi. apply IH in Hi as (g' & -> & Hf & Ht).
      exists (x :: g'). simpl. rewrite E. simpl. by rewrite Hf.
Qed.

#[global] Instance laws : PrioGraphLaws t Id Pubkey.
Proof.
  split; simpl; try done.
  - intros x acc g _. rewrite ids_app. simpl. by rewrite <-Permutation_cons_append.
  - intros x acc g _. rewrite ids_app. simpl. by rewrite app_nil_r.
  - intros g g'. unfold pop, is_empty. destruct (pop_from [] g) as [[]|]; [done|].
    by intros [= <-].
  - intros g x g'. unfold pop, is_empty. destruct (pop_from [] g) as [[i g1]|] eqn:E; [|done].
    intros [= <- <-]. split; [done|]. by eapply pop_from_Some.
  - intros x g Hx. apply unblock_ok in Hx as (g' & ? & Hf & ?). exists g'. by rewrite Hf.
  - intros [|x g]; [done|]. unfold is_empty, ids. simpl.
    by destruct (n_popped x).
Qed.
End Defs.
Arguments t : clear implicits.
End QueueGraph.
