(* ===== verification/Channels.v ===== *)
(** * The channel interface

    The scheduler talks to its workers through [crossbeam_channel], a crate
    outside this repository.  [Sender] and [Receiver] are its two ends as the
    scheduler uses them, with the documented behaviour: a send either fails
    because the other side is gone or delivers the message, and messages are
    received in the order they were delivered.  [Queue] is an instance by
    lists. *)
From S2P Require Import Prelude.

Class Sender (S M : Type) := {
  send : S → M → option S;
  (** everything delivered so far, oldest first *)
  sender_log : S → list M
}.
Class SenderLaws (S M : Type) `{Sender S M} : Prop :=
  send_log s m s' : send s m = Some s' → sender_log s' = sender_log s ++ [m].

Inductive TryRecvError := Empty | Disconnected.

Class Receiver (R M : Type) := {
  try_recv : R → (M + TryRecvError) * R;
  (** delivered and not yet received, oldest first *)
  recv_pending : R → list M
}.
Class ReceiverLaws (R M : Type) `{Receiver R M} : Prop := {
  try_recv_ok r m r' : try_recv r = (inl m, r') → recv_pending r = m :: recv_pending r';
  try_recv_err r e r' : try_recv r = (inr e, r') → recv_pending r = [] ∧ r' = r
}.

Module Queue.
Section Defs.
Context {M : Type}.
Record t := mk { connected : bool; queue : list M }.

#[global] Instance sender : Sender t M := {|
  send s m := if connected s then Some (mk true (queue s ++ [m])) else None;
  sender_log := queue
|}.
#[global] Instance sender_laws : SenderLaws t M.
Proof. intros [[] q] m s'; simpl; [by intros [= <-]|done]. Qed.

Definition recv (r : t) : (M + TryRecvError) * t :=
  match queue r with
  | m :: q => (inl m, mk (connected r) q)
  | [] => (inr (if connected r then Empty else Disconnected), r)
  end.
#[global] Instance receiver : Receiver t M := {| try_recv := recv; recv_pending := queue |}.
#[global] Instance receiver_laws : ReceiverLaws t M.
Proof.
  split.
  - intros [c [|m q]] m' r'; simpl; [done|]. by intros [= <- <-].
  - intros [c [|m q]] e r'; simpl; [|done]. by intros [= _ <-].
Qed.
End Defs.
Arguments t : clear implicits.
End Queue.
