(* ===== verification/Scheduler.v ===== *)
(** * The prio-graph scheduler

    [scheduler/src/impls/prio_graph_scheduler/scheduler.rs], [scheduler_error.rs]
    and [mod.rs].  A method that takes [&mut self] and [&mut container] is a
    function from their values to their new values; [Result] is a sum whose
    right side is the error, next to the state reached when it was returned.
    The local variables of [schedule] are the record [pass]; those captured by
    the closure [chunked_pops] are the record [window]. *)
From S2P Require Import Prelude ThreadSets AccountLocks Messages RwAccountSet Heap Container.
From S2P Require Import InFlight PrioGraph Channels.
Import AccountLocks RwAccountSet Container.

Inductive SchedulerError :=
| DisconnectedSendChannel (what : string)
| DisconnectedRecvChannel (what : string).

Definition TARGET_NUM_TRANSACTIONS_PER_BATCH : nat := 128.
Definition MAX_FILTER_CHUNK_SIZE : nat := 128.
Definition MAX_TRANSACTIONS_PER_SCHEDULING_PASS : Z := 100000.

(** How an iteration of a loop ends: normally, by [break], or by a [?] that
    leaves the function. *)
Inductive flow := Continue | Break | Return (e : SchedulerError).

Module PrioGraphScheduler.
Section Defs.
Context {Pubkey Tx H G S R : Type}.
Context `{Countable Pubkey} `{Transactions Pubkey Tx}.
Context `{MinMaxHeap H TransactionPriorityId} `{PrioGraph G TransactionPriorityId Pubkey}.
Context `{Sender S (SchedulingBatch Tx)} `{Receiver R (SchedulingBatchResult Tx)}.
(** [solana_cost_model::block_cost_limits::MAX_BLOCK_UNITS] *)
Context (MAX_BLOCK_UNITS : Z).

Record t := mk {
  in_flight_tracker : InFlightTracker.t;
  account_locks : ThreadAwareAccountLocks Pubkey;
  consume_work_senders : list S;
  finished_consume_work_receiver : R;
  look_ahead_window_size : Z
}.
Abbreviation container := (TransactionStateContainer Tx H).

Definition new (senders : list S) (receiver : R) : res t :=
  let num_threads := length senders in
  locks ← AccountLocks.new num_threads;
  Ok (mk (InFlightTracker.new num_threads) locks senders receiver 2048).

Definition set_tracker (s : t) tr :=
  mk tr (account_locks s) (consume_work_senders s) (finished_consume_work_receiver s)
    (look_ahead_window_size s).
Definition set_account_locks (s : t) l :=
  mk (in_flight_tracker s) l (consume_work_senders s) (finished_consume_work_receiver s)
    (look_ahead_window_size s).
Definition set_senders (s : t) ss :=
  mk (in_flight_tracker s) (account_locks s) ss (finished_consume_work_receiver s)
    (look_ahead_window_size s).
Definition set_receiver (s : t) r :=
  mk (in_flight_tracker s) (account_locks s) (consume_work_senders s) r
    (look_ahead_window_size s).

(** ** Batches under construction *)

Record Batches := mkBatches {
  b_ids : list (list TransactionId);
  b_transactions : list (list Tx);
  b_max_ages : list (list MaxAge);
  b_total_cus : list Z
}.

Definition Batches_new (num_threads : nat) : Batches :=
  mkBatches (replicate num_threads []) (replicate num_threads [])
    (replicate num_threads []) (replicate num_threads 0%Z).

Definition take_batch (b : Batches) (thread_id : ThreadId) :
    res (Batches * (list TransactionId * list Tx * list MaxAge * Z)) :=
  ids ← vec_get (b_ids b) thread_id;
  ids' ← vec_set (b_ids b) thread_id [];
  transactions ← vec_get (b_transactions b) thread_id;
  transactions' ← vec_set (b_transactions b) thread_id [];
  max_ages ← vec_get (b_max_ages b) thread_id;
  max_ages' ← vec_set (b_max_ages b) thread_id [];
  total_cus ← vec_get (b_total_cus b) thread_id;
  total_cus' ← vec_set (b_total_cus b) thread_id 0%Z;
  Ok (mkBatches ids' transactions' max_ages' total_cus', (ids, transactions, max_ages, total_cus)).

(** [v[i].push(x)] *)
Definition vec_push {A} (v : list (list A)) (i : nat) (x : A) : res (list (list A)) :=
  l ← vec_get v i; vec_set v i (l ++ [x]).

(** ** Sending *)

Definition send_batch (s : t) (b : Batches) (thread_index : ThreadId) :
    res (t * Batches * (nat + SchedulerError)) :=
  ids ← vec_get (b_ids b) thread_index;
  if decide (ids = []) then Ok (s, b, inl 0)
  else
    '(b, (ids, transactions, max_ages, total_cus)) ← take_batch b thread_index;
    '(tr, batch_id) ← InFlightTracker.track_batch (in_flight_tracker s)
                        (Z.of_nat (length ids)) total_cus thread_index;
    let s := set_tracker s tr in
    let num_scheduled := length ids in
    let work := mkBatch batch_id ids transactions max_ages in
    sender ← vec_get (consume_work_senders s) thread_index;
    match send sender work with
    | Some sender =>
        senders ← vec_set (consume_work_senders s) thread_index sender;
        Ok (set_senders s senders, b, inl num_scheduled)
    | None => Ok (s, b, inr (DisconnectedSendChannel "consume work sender"))
    end.

(** [sum] over an iterator of [Result]s stops at the first error. *)
Fixpoint send_batches_from (threads : list ThreadId) (s : t) (b : Batches) (sum : nat) :
    res (t * Batches * (nat + SchedulerError)) :=
  match threads with
  | [] => Ok (s, b, inl sum)
  | thread_index :: threads =>
      '(s, b, r) ← send_batch s b thread_index;
      match r with
      | inl n => send_batches_from threads s b (sum + n)
      | inr e => Ok (s, b, inr e)
      end
  end.

Definition send_batches (s : t) (b : Batches) : res (t * Batches * (nat + SchedulerError)) :=
  send_batches_from (seq 0 (length (consume_work_senders s))) s b 0.

(** ** Selecting a thread *)

(** [a.1.cmp(&b.1).then_with(|| a.2.cmp(&b.2))] is [Greater] *)
Definition load_gt (a b : ThreadId * Z * Z) : bool :=
  let '(_, a1, a2) := a in
  let '(_, b1, b2) := b in
  bool_decide (b1 < a1 ∨ (a1 = b1 ∧ b2 < a2))%Z.

(** [Iterator::min_by]: the first of the least elements. *)
Definition min_by {A} (gt : A → A → bool) (l : list A) : option A :=
  match l with
  | [] => None
  | x :: l => Some (foldl (λ m y, if gt m y then y else m) x l)
  end.

Definition thread_load (batch_cus in_flight_cus : list Z) (batches : list (list Tx))
    (in_flight : list Z) (thread_id : ThreadId) : res (ThreadId * Z * Z) :=
  c1 ← vec_get batch_cus thread_id;
  c2 ← vec_get in_flight_cus thread_id;
  cus ← checked_add u64_max c1 c2;
  txs ← vec_get batches thread_id;
  n ← vec_get in_flight thread_id;
  num ← checked_add u64_max (Z.of_nat (length txs)) n;
  Ok (thread_id, cus, num).

Definition select_thread (thread_set : ThreadSet.t) (batch_cus_per_thread : list Z)
    (in_flight_cus_per_thread : list Z) (batches_per_thread : list (list Tx))
    (in_flight_per_thread : list Z) : res ThreadId :=
  threads ← ThreadSet.contained_threads_iter thread_set;
  loads ← mapM (thread_load batch_cus_per_thread in_flight_cus_per_thread
                  batches_per_thread in_flight_per_thread) threads;
  m ← expect (min_by load_gt loads) "called `Option::unwrap()` on a `None` value";
  Ok m.1.1.

Definition get_transaction_account_access (ttl : SanitizedTransactionTTL Tx) :
    list (Pubkey * AccessKind) :=
  (λ '(index, key), (key, if is_writable (transaction ttl) index then Write else Read)) <$>
    enumerate (account_keys (transaction ttl)).

(** ** Scheduling one transaction *)

Record TransactionSchedulingInfo := mkInfo {
  i_thread_id : ThreadId; i_transaction : Tx; i_max_age : MaxAge; i_cost : Z
}.
Inductive TransactionSchedulingError := Filtered | UnschedulableConflicts.

Definition try_schedule_transaction (state : TransactionState Tx) (pre_lock_filter : Tx → bool)
    (blocking_locks : ReadWriteAccountSet Pubkey) (locks : ThreadAwareAccountLocks Pubkey)
    (num_threads : nat) (thread_selector : ThreadSet.t → res ThreadId) :
    res (TransactionState Tx * ReadWriteAccountSet Pubkey * ThreadAwareAccountLocks Pubkey *
         (TransactionSchedulingInfo + TransactionSchedulingError)) :=
  ttl ← transaction_ttl state;
  let tx := transaction ttl in
  if negb (pre_lock_filter tx) then Ok (state, blocking_locks, locks, inr Filtered)
  else if negb (check_locks blocking_locks tx) then
    Ok (state, (take_locks blocking_locks tx).1, locks, inr UnschedulableConflicts)
  else
    allowed ← ThreadSet.any num_threads;
    '(locks, o) ← try_lock_accounts locks (write_account_locks tx) (read_account_locks tx)
                    allowed thread_selector;
    match o with
    | None => Ok (state, (take_locks blocking_locks tx).1, locks, inr UnschedulableConflicts)
    | Some thread_id =>
        '(state, ttl) ← transition_to_pending state;
        cost ← state_cost state;
        Ok (state, blocking_locks, locks,
            inl (mkInfo thread_id (transaction ttl) (max_age ttl) cost))
    end.

(** ** The look-ahead window: [chunked_pops] *)

Record window := mkWindow {
  w_container : container;
  w_prio_graph : G;
  w_budget : Z;
  w_num_filtered_out : Z;
  w_total_filter_time_us : Z
}.

(** The pops of one chunk: at most [k], fewer when the queue runs out. *)
Fixpoint pop_chunk (k : nat) (c : container) : list TransactionPriorityId * container :=
  match k with
  | 0 => ([], c)
  | Datatypes.S k =>
      match pop c with
      | (Some id, c) => let '(ids, c) := pop_chunk k c in (id :: ids, c)
      | (None, c) => ([], c)
      end
  end.

(** [container.get_transaction_ttl(&id.id).unwrap()] *)
Definition ttl_unwrap (c : container) (id : TransactionPriorityId) :
    res (SanitizedTransactionTTL Tx) :=
  ttl ← get_transaction_ttl c (Messages.id id);
  expect ttl "called `Option::unwrap()` on a `None` value".

(** One id of the chunk with its filter result: into the graph, or dropped. *)
Definition filter_one (st : container * G * Z) (x : TransactionPriorityId * bool) :
    res (container * G * Z) :=
  let '(c, g, num_filtered_out) := st in
  let '(id, filter_result) := x in
  if filter_result : bool then
    ttl ← ttl_unwrap c id;
    Ok (c, pg_insert_transaction id (get_transaction_account_access ttl) g, num_filtered_out)
  else
    c ← remove_by_id c (Messages.id id);
    Ok (c, g, saturating_add u64_max num_filtered_out 1).

Section Schedule.
(** The filters passed to [schedule], and the time the first of them takes. *)
Context (pre_graph_filter : list Tx → list bool → list bool).
Context (pre_lock_filter : Tx → bool).
Context (elapsed_us : list Tx → Z).

(** One iteration of the [while] loop, and whether it ends by [break]. *)
Definition chunk_step (w : window) : res (window * bool) :=
  let filter_array := replicate MAX_FILTER_CHUNK_SIZE true in
  let chunk_size := Z.to_nat (Z.min (w_budget w) (Z.of_nat MAX_FILTER_CHUNK_SIZE)) in
  let '(ids, c) := pop_chunk chunk_size (w_container w) in
  let budget := saturating_sub (w_budget w) (Z.of_nat chunk_size) in
  txs ← mapM (λ id, ttl ← ttl_unwrap c id; Ok (transaction ttl)) ids;
  let filter_array := pre_graph_filter txs (take chunk_size filter_array) in
  let time := saturating_add u64_max (w_total_filter_time_us w) (elapsed_us txs) in
  '(c, g, num_filtered_out) ←
    fold_res filter_one (c, w_prio_graph w, w_num_filtered_out w) (zip ids filter_array);
  Ok (mkWindow c g budget num_filtered_out time, bool_decide (length ids ≠ chunk_size)).

Fixpoint chunked_pops (fuel : nat) (w : window) : res window :=
  if decide (0 < w_budget w)%Z then
    match fuel with
    | 0 => Panic "out of fuel"
    | Datatypes.S fuel =>
        '(w, brk) ← chunk_step w;
        if brk : bool then Ok w else chunked_pops fuel w
    end
  else Ok w.

(** ** One scheduling pass *)

Record pass := mkPass {
  p_self : t;
  p_batches : Batches;
  p_window : window;
  p_schedulable_threads : ThreadSet.t;
  p_unschedulable_ids : list TransactionPriorityId;
  p_blocking_locks : ReadWriteAccountSet Pubkey;
  p_unblock_this_batch : list TransactionPriorityId;
  p_num_scheduled : Z;
  p_num_sent : Z;
  p_num_unschedulable : Z
}.

Definition set_container (w : window) (c : container) : window :=
  mkWindow c (w_prio_graph w) (w_budget w) (w_num_filtered_out w) (w_total_filter_time_us w).
Definition set_graph (w : window) (g : G) : window :=
  mkWindow (w_container w) g (w_budget w) (w_num_filtered_out w) (w_total_filter_time_us w).
Definition set_budget (w : window) (b : Z) : window :=
  mkWindow (w_container w) (w_prio_graph w) b (w_num_filtered_out w) (w_total_filter_time_us w).
Definition set_window (p : pass) (w : window) : pass :=
  mkPass (p_self p) (p_batches p) w (p_schedulable_threads p) (p_unschedulable_ids p)
    (p_blocking_locks p) (p_unblock_this_batch p) (p_num_scheduled p) (p_num_sent p)
    (p_num_unschedulable p).
Definition set_sent (p : pass) (s : t) (b : Batches) (num_sent : Z) : pass :=
  mkPass s b (p_window p) (p_schedulable_threads p) (p_unschedulable_ids p)
    (p_blocking_locks p) (p_unblock_this_batch p) (p_num_scheduled p) num_sent
    (p_num_unschedulable p).
Definition set_schedulable (p : pass) (ts : ThreadSet.t) : pass :=
  mkPass (p_self p) (p_batches p) (p_window p) ts (p_unschedulable_ids p)
    (p_blocking_locks p) (p_unblock_this_batch p) (p_num_scheduled p) (p_num_sent p)
    (p_num_unschedulable p).
Definition set_unblock (p : pass) (ids : list TransactionPriorityId) : pass :=
  mkPass (p_self p) (p_batches p) (p_window p) (p_schedulable_threads p)
    (p_unschedulable_ids p) (p_blocking_locks p) ids (p_num_scheduled p) (p_num_sent p)
    (p_num_unschedulable p).

(** The four pushes into the batch of the selected thread. *)
Definition push_batches (b : Batches) (id : TransactionId) (i : TransactionSchedulingInfo) :
    res Batches :=
  transactions ← vec_push (b_transactions b) (i_thread_id i) (i_transaction i);
  ids ← vec_push (b_ids b) (i_thread_id i) id;
  max_ages ← vec_push (b_max_ages b) (i_thread_id i) (i_max_age i);
  cus ← vec_get (b_total_cus b) (i_thread_id i);
  total_cus ← vec_set (b_total_cus b) (i_thread_id i) (saturating_add u64_max cus (i_cost i));
  Ok (mkBatches ids transactions max_ages total_cus).

(** After a transaction went to [thread_id]: is the thread saturated, is the
    pass over? *)
Definition check_limits (max_cu_per_thread : Z) (thread_id : ThreadId) (p : pass) :
    res (pass * flow) :=
  cus ← vec_get (InFlightTracker.cus_in_flight_per_thread (in_flight_tracker (p_self p))) thread_id;
  batch_cus ← vec_get (b_total_cus (p_batches p)) thread_id;
  sum ← checked_add u64_max cus batch_cus;
  let pass_limit p :=
    if decide (MAX_TRANSACTIONS_PER_SCHEDULING_PASS ≤ p_num_scheduled p)%Z
    then Ok (p, Break) else Ok (p, Continue) in
  if decide (max_cu_per_thread ≤ sum)%Z then
    ts ← ThreadSet.remove (p_schedulable_threads p) thread_id;
    let p := set_schedulable p ts in
    if ThreadSet.is_empty ts then Ok (p, Break) else pass_limit p
  else pass_limit p.

(** The [Ok] arm of the [match maybe_schedule_info]. *)
Definition commit_scheduled (max_cu_per_thread : Z) (id : TransactionPriorityId)
    (i : TransactionSchedulingInfo) (p : pass) : res (pass * flow) :=
  b ← push_batches (p_batches p) (Messages.id id) i;
  let p := mkPass (p_self p) b (p_window p) (p_schedulable_threads p) (p_unschedulable_ids p)
             (p_blocking_locks p) (p_unblock_this_batch p)
             (saturating_add u64_max (p_num_scheduled p) 1) (p_num_sent p)
             (p_num_unschedulable p) in
  ids ← vec_get (b_ids b) (i_thread_id i);
  if decide (TARGET_NUM_TRANSACTIONS_PER_BATCH ≤ length ids) then
    '(s, b, r) ← send_batch (p_self p) b (i_thread_id i);
    match r with
    | inr e => Ok (set_sent p s b (p_num_sent p), Return e)
    | inl n => check_limits max_cu_per_thread (i_thread_id i)
                 (set_sent p s b (saturating_add u64_max (p_num_sent p) (Z.of_nat n)))
    end
  else check_limits max_cu_per_thread (i_thread_id i) p.

(** The body of the inner loop, for the id it popped. *)
Definition schedule_one (num_threads : nat) (max_cu_per_thread : Z)
    (id : TransactionPriorityId) (p : pass) : res (pass * flow) :=
  let p := set_unblock p (p_unblock_this_batch p ++ [id]) in
  let w := p_window p in
  '(state, store) ← expect (get_mut_transaction_state (w_container w) (Messages.id id))
                      "transaction state must exist";
  let tracker := in_flight_tracker (p_self p) in
  '(state, blocking_locks, locks, maybe_schedule_info) ←
    try_schedule_transaction state pre_lock_filter (p_blocking_locks p)
      (account_locks (p_self p)) num_threads
      (λ thread_set, select_thread thread_set (b_total_cus (p_batches p))
         (InFlightTracker.cus_in_flight_per_thread tracker) (b_transactions (p_batches p))
         (InFlightTracker.num_in_flight_per_thread tracker));
  let c := store state in
  let p := mkPass (set_account_locks (p_self p) locks) (p_batches p) (set_container w c)
             (p_schedulable_threads p) (p_unschedulable_ids p) blocking_locks
             (p_unblock_this_batch p) (p_num_scheduled p) (p_num_sent p)
             (p_num_unschedulable p) in
  match maybe_schedule_info with
  | inr Filtered =>
      c ← remove_by_id c (Messages.id id);
      Ok (set_window p (set_container w c), Continue)
  | inr UnschedulableConflicts =>
      Ok (mkPass (p_self p) (p_batches p) (p_window p) (p_schedulable_threads p)
            (p_unschedulable_ids p ++ [id]) (p_blocking_locks p) (p_unblock_this_batch p)
            (p_num_scheduled p) (p_num_sent p)
            (saturating_add u64_max (p_num_unschedulable p) 1), Continue)
  | inl info => commit_scheduled max_cu_per_thread id info p
  end.

(** [while let Some(id) = prio_graph.pop()] *)
Fixpoint inner_loop (num_threads : nat) (max_cu_per_thread : Z) (fuel : nat) (p : pass) :
    res (pass * option SchedulerError) :=
  match fuel with
  | 0 => Panic "out of fuel"
  | Datatypes.S fuel =>
      match pg_pop (w_prio_graph (p_window p)) with
      | (None, g) => Ok (set_window p (set_graph (p_window p) g), None)
      | (Some id, g) =>
          '(p, f) ← schedule_one num_threads max_cu_per_thread id
                      (set_window p (set_graph (p_window p) g));
          match f with
          | Continue => inner_loop num_threads max_cu_per_thread fuel p
          | Break => Ok (p, None)
          | Return e => Ok (p, Some e)
          end
      end
  end.

(** [for id in unblock_this_batch.drain(..) { prio_graph.unblock(&id); }] *)
Definition unblock_all (p : pass) : res pass :=
  g ← fold_res (λ g id, pg_unblock id g) (w_prio_graph (p_window p)) (p_unblock_this_batch p);
  Ok (set_unblock (set_window p (set_graph (p_window p) g)) []).

(** [saturating_add_assign!(num_sent, self.send_batches(&mut batches)?)] *)
Definition flush (p : pass) : res (pass * option SchedulerError) :=
  '(s, b, r) ← send_batches (p_self p) (p_batches p);
  match r with
  | inr e => Ok (set_sent p s b (p_num_sent p), Some e)
  | inl n => Ok (set_sent p s b (saturating_add u64_max (p_num_sent p) (Z.of_nat n)), None)
  end.

(** The outer [while] loop; [fuel0] bounds the loops inside an iteration. *)
Fixpoint outer_loop (num_threads : nat) (max_cu_per_thread : Z) (fuel0 fuel : nat) (p : pass) :
    res (pass * option SchedulerError) :=
  if decide (p_num_scheduled p < MAX_TRANSACTIONS_PER_SCHEDULING_PASS)%Z then
    if pg_is_empty (w_prio_graph (p_window p)) then Ok (p, None)
    else
      match fuel with
      | 0 => Panic "out of fuel"
      | Datatypes.S fuel =>
          '(p, e) ← inner_loop num_threads max_cu_per_thread fuel0 p;
          match e with
          | Some e => Ok (p, Some e)
          | None =>
              '(p, e) ← flush p;
              match e with
              | Some e => Ok (p, Some e)
              | None =>
                  let budget := saturating_add u64_max (w_budget (p_window p))
                                  (Z.of_nat (length (p_unblock_this_batch p))) in
                  w ← chunked_pops fuel0 (set_budget (p_window p) budget);
                  p ← unblock_all (set_window p w);
                  outer_loop num_threads max_cu_per_thread fuel0 fuel p
              end
          end
      end
  else Ok (p, None).

(** [while let Some((id, _)) = prio_graph.pop_and_unblock()] *)
Fixpoint drain_graph (fuel : nat) (c : container) (g : G) : res (container * G) :=
  match fuel with
  | 0 => Panic "out of fuel"
  | Datatypes.S fuel =>
      '(o, g) ← pg_pop_and_unblock g;
      match o with
      | None => Ok (c, g)
      | Some id => '(c, _) ← push_id_into_queue c id; drain_graph fuel c g
      end
  end.

Record SchedulingSummary := mkSummary {
  num_scheduled : Z; num_unschedulable : Z; num_filtered_out : Z; filter_time_us : Z
}.

(** The threads whose in-flight compute units leave room. *)
Definition unsaturated_threads (s : t) (num_threads : nat) (max_cu_per_thread : Z) :
    res ThreadSet.t :=
  all ← ThreadSet.any num_threads;
  fold_res (λ ts thread_id,
      cus ← vec_get (InFlightTracker.cus_in_flight_per_thread (in_flight_tracker s)) thread_id;
      if decide (max_cu_per_thread ≤ cus)%Z then ThreadSet.remove ts thread_id else Ok ts)
    all (seq 0 num_threads).

Definition schedule (s : t) (c : container) :
    res (t * container * (SchedulingSummary + SchedulerError)) :=
  let num_threads := length (consume_work_senders s) in
  _ ← assert_res (bool_decide (num_threads ≠ 0)) "attempt to divide by zero";
  let max_cu_per_thread := (MAX_BLOCK_UNITS `div` Z.of_nat num_threads)%Z in
  schedulable_threads ← unsaturated_threads s num_threads max_cu_per_thread;
  if ThreadSet.is_empty schedulable_threads then Ok (s, c, inl (mkSummary 0 0 0 0))
  else
    let fuel := Datatypes.S (len c) in
    w ← chunked_pops fuel (mkWindow c pg_new (look_ahead_window_size s) 0 0);
    '(p, e) ← outer_loop num_threads max_cu_per_thread fuel fuel
      (mkPass s (Batches_new num_threads) w schedulable_threads []
         rw_default [] 0 0 0);
    match e with
    | Some e => Ok (p_self p, w_container (p_window p), inr e)
    | None =>
        '(p, e) ← flush p;
        match e with
        | Some e => Ok (p_self p, w_container (p_window p), inr e)
        | None =>
            c ← fold_res (λ c id, '(c, _) ← push_id_into_queue c id; Ok c)
                  (w_container (p_window p)) (p_unschedulable_ids p);
            '(c, _) ← drain_graph fuel c (w_prio_graph (p_window p));
            _ ← assert_res (bool_decide (p_num_scheduled p = p_num_sent p))
                  "number of scheduled and sent transactions must match";
            Ok (p_self p, c,
                inl (mkSummary (p_num_scheduled p) (p_num_unschedulable p)
                       (w_num_filtered_out (p_window p))
                       (w_total_filter_time_us (p_window p))))
        end
    end.
End Schedule.

(** ** Receiving *)

Definition complete_batch (s : t) (batch_id : TransactionBatchId) (transactions : list Tx) :
    res t :=
  '(tr, thread_id) ← InFlightTracker.complete_batch (in_flight_tracker s) batch_id;
  locks ← fold_res (λ locks tx,
              unlock_accounts locks (write_account_locks tx) (read_account_locks tx) thread_id)
            (account_locks s) transactions;
  Ok (set_account_locks (set_tracker s tr) locks).

(** One iteration of the retry loop; the state carries the peekable iterator. *)
Definition receive_one (st : container * list nat)
    (x : nat * (TransactionId * Tx * MaxAge)) : res (container * list nat) :=
  let '(c, retryable_iter) := st in
  let '(index, (id, tx, max_age)) := x in
  match retryable_iter with
  | retryable_index :: rest =>
      if decide (retryable_index = index) then
        c ← retry_transaction c id (mkTTL tx max_age);
        Ok (c, rest)
      else c ← remove_by_id c id; Ok (c, retryable_iter)
  | [] => c ← remove_by_id c id; Ok (c, retryable_iter)
  end.

Definition try_receive_completed (s : t) (c : container) :
    res (t * container * ((nat * nat) + SchedulerError)) :=
  let '(m, receiver) := try_recv (finished_consume_work_receiver s) in
  let s := set_receiver s receiver in
  match m with
  | inl (mkBatchResult (mkBatch batch_id ids transactions max_ages) retryable_indexes) =>
      let num_transactions := length ids in
      let num_retryable := length retryable_indexes in
      s ← complete_batch s batch_id transactions;
      '(c, _) ← fold_res receive_one (c, retryable_indexes)
                  (enumerate (zip (zip ids transactions) max_ages));
      Ok (s, c, inl (num_transactions, num_retryable))
  | inr Empty => Ok (s, c, inl (0, 0))
  | inr Disconnected => Ok (s, c, inr (DisconnectedRecvChannel "finished consume work"))
  end.

Fixpoint receive_loop (fuel : nat) (s : t) (c : container) (total_txs total_retryable : Z) :
    res (t * container * ((Z * Z) + SchedulerError)) :=
  match fuel with
  | 0 => Panic "out of fuel"
  | Datatypes.S fuel =>
      '(s, c, r) ← try_receive_completed s c;
      match r with
      | inr e => Ok (s, c, inr e)
      | inl (num_transactions, num_retryable) =>
          if decide (num_transactions = 0) then Ok (s, c, inl (total_txs, total_retryable))
          else receive_loop fuel s c
                 (saturating_add u64_max total_txs (Z.of_nat num_transactions))
                 (saturating_add u64_max total_retryable (Z.of_nat num_retryable))
      end
  end.

(** Each iteration that goes on takes a message, so the messages delivered
    bound the loop. *)
Definition receive_completed (s : t) (c : container) :
    res (t * container * ((Z * Z) + SchedulerError)) :=
  receive_loop (Datatypes.S (length (recv_pending (finished_consume_work_receiver s)))) s c 0 0.

(** ** [PrioGraphSchedulerWrapper] *)

Record Wrapper := mkWrapper { inner : t; wrapped_container : container }.

Definition wrapper_new (senders : list S) (receiver : R) : res Wrapper :=
  inner ← new senders receiver;
  Ok (mkWrapper inner (with_capacity (Z.to_nat 10240))).

(** The transactions of a batch enter the container with priority 0 and cost 100. *)
Definition insert_batch (c : container) (txs : SchedulingBatch Tx) : res container :=
  fold_res (λ c '(tx, tx_id, max_age),
      '(c, _) ← insert_new_transaction c tx_id (mkTTL tx max_age) 0 100; Ok c)
    c (zip (zip (transactions txs) (ids txs)) (max_ages txs)).

Definition schedule_batch (elapsed_us : list Tx → Z) (w : Wrapper) (txs : SchedulingBatch Tx) :
    res (Wrapper * (unit + SchedulerError)) :=
  c ← insert_batch (wrapped_container w) txs;
  '(s, c, r) ← schedule (λ _ result, replicate (length result) true) (λ _, true) elapsed_us
                 (inner w) c;
  Ok (mkWrapper s c, match r with inl _ => inl () | inr e => inr e end).

Definition receive_complete (w : Wrapper) : res (Wrapper * (unit + SchedulerError)) :=
  '(s, c, r) ← receive_completed (inner w) (wrapped_container w);
  Ok (mkWrapper s c, match r with inl _ => inl () | inr e => inr e end).

End Defs.
Arguments t Pubkey S R {_ _}.
Arguments Batches Tx : clear implicits.
Arguments window Tx H G : clear implicits.
Arguments pass Pubkey Tx H G S R {_ _}.
Arguments Wrapper Pubkey Tx H S R {_ _}.
End PrioGraphScheduler.
