(* ===== verification/Flights.v ===== *)
(** * Transactions in flight

    The bookkeeping the scheduler's invariant is stated with.  A [job] is a
    transaction of the container in the pending state.  Each job sits, with the
    thread it was given to, either in a batch under construction or in a batch
    that was sent and has not come back.  The lemmas relate these lists to the
    container's map, to the sums of the in-flight tracker and to the lock
    table. *)
From S2P Require Import Prelude ThreadSets AccountLocks AccountLocksFacts LockTheorems Messages.
From S2P Require Import Heap Container InFlight.
Import AccountLocks Container.
Set Default Proof Using "Type*".

Section Jobs.
Context {Tx : Type}.
Abbreviation states := (gmap TransactionId (TransactionState Tx)).

Record job := mkJob { j_pid : TransactionPriorityId; j_ttl : SanitizedTransactionTTL Tx; j_cost : Z }.
Definition j_id (j : job) : TransactionId := id (j_pid j).
Definition j_tx (j : job) : Tx := transaction (j_ttl j).

(** ** Pending transactions of the container's map *)

Definition pending_job (i : TransactionId) (st : TransactionState Tx) : list job :=
  match st with Pending ttl p c => [mkJob (mkPriorityId p i) ttl c] | _ => [] end.
Definition pending_jobs (m : states) : list job :=
  map_to_list m ≫= λ x, pending_job x.1 x.2.

Lemma pending_jobs_insert_fresh m i st :
  m !! i = None → pending_jobs (<[i := st]> m) ≡ₚ pending_job i st ++ pending_jobs m.
Proof. intros Hi. unfold pending_jobs. by rewrite map_to_list_insert. Qed.

Lemma pending_jobs_delete m i st :
  m !! i = Some st → pending_jobs m ≡ₚ pending_job i st ++ pending_jobs (delete i m).
Proof.
  intros Hi. rewrite <-(insert_delete_id m i st) at 1 by done.
  by rewrite pending_jobs_insert_fresh by apply lookup_delete_eq.
Qed.

Lemma pending_jobs_insert m i st :
  pending_jobs (<[i := st]> m) ≡ₚ pending_job i st ++ pending_jobs (delete i m).
Proof. by rewrite <-insert_delete_eq, pending_jobs_insert_fresh by apply lookup_delete_eq. Qed.

Lemma elem_of_pending_jobs m j :
  j ∈ pending_jobs m ↔ m !! j_id j = Some (Pending (j_ttl j) (priority (j_pid j)) (j_cost j)).
Proof.
  unfold pending_jobs. rewrite list_elem_of_bind. split.
  - intros ([i st] & Hj & Hi). apply elem_of_map_to_list in Hi. simpl in Hj.
    destruct st; simpl in Hj; try by apply not_elem_of_nil in Hj.
    apply list_elem_of_singleton in Hj as ->. done.
  - intros Hj. exists (j_id j, Pending (j_ttl j) (priority (j_pid j)) (j_cost j)). simpl.
    split; [|by apply elem_of_map_to_list]. destruct j as [[p i] ttl c]. left.
Qed.

(** No transaction is pending twice. *)
Lemma NoDup_pending_jobs m : NoDup (j_id <$> pending_jobs m).
Proof.
  apply (sublist_NoDup _ (map_to_list m).*1); [apply NoDup_fst_map_to_list|].
  unfold pending_jobs. induction (map_to_list m) as [|[i st] l IH]; [done|].
  rewrite bind_cons, fmap_app. destruct st; simpl; by constructor.
Qed.

(** ** Weights *)

Section Weight.
(** A weight of a transaction, from its content and cost. *)
Context (w : SanitizedTransactionTTL Tx → Z → Z).

Definition job_weight (j : job) : Z := w (j_ttl j) (j_cost j).
Definition state_weight (st : TransactionState Tx) : Z :=
  match st with Unprocessed ttl _ c | Pending ttl _ c => w ttl c | Transitioning => 0 end.
Definition total (m : states) : Z := msum state_weight m.

Definition weight_ok (m : states) : Prop := ∀ i st, m !! i = Some st → (0 ≤ state_weight st)%Z.

Lemma weight_ok_delete m i : weight_ok m → weight_ok (delete i m).
Proof. intros Hw j st [_ Hj]%lookup_delete_Some. by eapply Hw. Qed.

Lemma pending_jobs_total m :
  weight_ok m → (sumZ job_weight (pending_jobs m) ≤ total m)%Z.
Proof.
  intros Hw. unfold total, msum, pending_jobs.
  assert (∀ x, x ∈ map_to_list m → 0 ≤ state_weight x.2)%Z as Hnn.
  { intros [i st] Hx%elem_of_map_to_list. by eapply Hw. }
  induction (map_to_list m) as [|[i st] l IH]; [done|].
  rewrite bind_cons, sumZ_app. specialize (IH ltac:(intros; apply Hnn; by right)).
  pose proof (Hnn (i, st) ltac:(left)) as Hst. etrans; [apply Z.add_le_mono_l, IH|].
  cbn [sumZ foldr]. apply Z.add_le_mono_r. unfold compose. simpl in *.
  destruct st; simpl in *; unfold job_weight; simpl; lia.
Qed.

(** The pending transactions leave room for one that is not pending. *)
Lemma pending_jobs_room m i ttl p c :
  weight_ok m → m !! i = Some (Unprocessed ttl p c) →
  (sumZ job_weight (pending_jobs m) + w ttl c ≤ total m)%Z.
Proof.
  intros Hw Hi. rewrite (pending_jobs_delete m i _ Hi). simpl.
  pose proof (pending_jobs_total _ (weight_ok_delete _ i Hw)) as Hle.
  unfold total in *. rewrite (msum_delete _ _ _ _ Hi) in Hle. simpl in Hle. lia.
Qed.

Lemma total_delete m i : weight_ok m → (total (delete i m) ≤ total m)%Z.
Proof.
  intros Hw. destruct (m !! i) as [st|] eqn:Hi.
  - unfold total. rewrite (msum_delete _ _ _ _ Hi). specialize (Hw _ _ Hi). lia.
  - by rewrite delete_id.
Qed.

(** Changing the state keeps the weight when the transaction stays the same. *)
Lemma total_update m i st st' :
  m !! i = Some st → state_weight st' = state_weight st → total (<[i := st']> m) = total m.
Proof. intros Hi He. unfold total. rewrite (msum_update _ _ _ _ _ Hi). lia. Qed.
End Weight.

(** ** Flights: jobs with their thread *)

Abbreviation flight := (nat * job)%type.

Definition cur_flight (cur : list (list job)) : list flight :=
  concat (imap (λ t js, (λ j, (t, j)) <$> js) cur).
Definition sent_flight (sent : gmap TransactionBatchId (nat * list job)) : list flight :=
  map_to_list sent ≫= λ x, (λ j, (x.2.1, j)) <$> x.2.2.

(** The jobs under construction, per thread. *)
Definition njobs (cur : list (list job)) : nat := length (concat cur).

Lemma elem_of_concat {A} (ls : list (list A)) x : x ∈ concat ls ↔ ∃ l, l ∈ ls ∧ x ∈ l.
Proof. rewrite list_elem_of_In, in_concat. by setoid_rewrite list_elem_of_In. Qed.

Lemma concat_insert_perm {A} (l : list (list A)) i x y :
  l !! i = Some x → x ++ concat (<[i := y]> l) ≡ₚ y ++ concat l.
Proof.
  revert i. induction l as [|z l IH]; intros [|i] Hi; simplify_eq/=.
  - solve_Permutation.
  - specialize (IH i Hi). rewrite (Permutation_app_swap_app x z), IH. solve_Permutation.
Qed.

Lemma imap_insert {A B} (f : nat → A → B) l i x :
  imap f (<[i := x]> l) = <[i := f i x]> (imap f l).
Proof.
  revert i f. induction l as [|y l IH]; intros [|i] f; simpl; [done|done|done|].
  rewrite IH. done.
Qed.

Lemma cur_flight_insert cur t js js' :
  cur !! t = Some js →
  ((λ j, (t, j)) <$> js) ++ cur_flight (<[t := js']> cur) ≡ₚ ((λ j, (t, j)) <$> js') ++ cur_flight cur.
Proof.
  intros Ht. unfold cur_flight. rewrite imap_insert. apply concat_insert_perm.
  by rewrite list_lookup_imap, Ht.
Qed.

Lemma cur_flight_push cur t js j :
  cur !! t = Some js → cur_flight (<[t := js ++ [j]]> cur) ≡ₚ (t, j) :: cur_flight cur.
Proof.
  intros Ht. pose proof (cur_flight_insert cur t js (js ++ [j]) Ht) as Hp.
  rewrite fmap_app, <-app_assoc in Hp. simpl in Hp. by apply (inj (app _)) in Hp.
Qed.

Lemma cur_flight_take cur t js :
  cur !! t = Some js →
  cur_flight cur ≡ₚ ((λ j, (t, j)) <$> js) ++ cur_flight (<[t := []]> cur).
Proof. intros Ht. symmetry. by rewrite (cur_flight_insert cur t js [] Ht). Qed.

Lemma length_cur_flight cur : length (cur_flight cur) = njobs cur.
Proof.
  unfold cur_flight, njobs.
  enough (∀ f : nat → job → flight,
    length (concat (imap (λ t js, f t <$> js) cur)) = length (concat cur)) as Hf
    by apply (Hf (λ t j, (t, j))).
  induction cur as [|js cur IH]; intros f; simpl; [done|].
  rewrite !length_app, length_fmap. f_equal. apply (IH (λ t, f (S t))).
Qed.

Lemma njobs_insert cur t js js' :
  cur !! t = Some js → njobs (<[t := js']> cur) + length js = njobs cur + length js'.
Proof.
  intros Ht. pose proof (Permutation_length (concat_insert_perm cur t js js' Ht)) as Hl.
  rewrite !length_app in Hl. unfold njobs. lia.
Qed.

Lemma njobs_ge cur t js : cur !! t = Some js → length js ≤ njobs cur.
Proof. intros Ht. pose proof (njobs_insert cur t js [] Ht). simpl in *. lia. Qed.

Lemma sent_flight_insert sent b t js :
  sent !! b = None →
  sent_flight (<[b := (t, js)]> sent) ≡ₚ ((λ j, (t, j)) <$> js) ++ sent_flight sent.
Proof. intros Hb. unfold sent_flight. by rewrite map_to_list_insert. Qed.

Lemma sent_flight_delete sent b t js :
  sent !! b = Some (t, js) →
  sent_flight sent ≡ₚ ((λ j, (t, j)) <$> js) ++ sent_flight (delete b sent).
Proof.
  intros Hb. rewrite <-(insert_delete_id sent b (t, js)) at 1 by done.
  by rewrite sent_flight_insert by apply lookup_delete_eq.
Qed.

(** What thread [t] has of a flight, measured by [f]. *)
Definition load (f : job → Z) (t : nat) (F : list flight) : Z :=
  sumZ (λ x, if decide (x.1 = t) then f x.2 else 0%Z) F.

#[global] Instance load_perm f t : Proper ((≡ₚ) ==> (=)) (load f t).
Proof. intros ???. by apply sumZ_perm. Qed.

Lemma load_app f t F1 F2 : load f t (F1 ++ F2) = (load f t F1 + load f t F2)%Z.
Proof. apply sumZ_app. Qed.

Lemma load_same f t js : load f t ((λ j, (t, j)) <$> js) = sumZ f js.
Proof.
  unfold load. rewrite sumZ_fmap. apply sumZ_ext. intros. simpl. by rewrite decide_True.
Qed.

Lemma load_other f t t' js : t' ≠ t → load f t ((λ j, (t', j)) <$> js) = 0%Z.
Proof.
  intros Hne. unfold load. rewrite sumZ_fmap. induction js as [|j js IH]; simpl; [done|].
  rewrite decide_False by done. lia.
Qed.

Lemma load_le f t F : (∀ x, x ∈ F → 0 ≤ f x.2)%Z → (load f t F ≤ sumZ f F.*2)%Z.
Proof.
  intros Hf. unfold load. rewrite sumZ_fmap. apply sumZ_le. intros x Hx. specialize (Hf x Hx).
  simpl. case_decide; lia.
Qed.

Lemma load_cur f cur t js : cur !! t = Some js → load f t (cur_flight cur) = sumZ f js.
Proof.
  intros Ht. rewrite (cur_flight_take _ _ _ Ht), load_app, load_same.
  enough (load f t (cur_flight (<[t := []]> cur)) = 0%Z) by lia.
  assert (<[t := []]> cur !! t = Some []) as Ht'.
  { apply list_lookup_insert_eq. by eapply lookup_lt_Some. }
  revert Ht'. generalize (<[t := []]> cur). clear. intros cur Ht. unfold load.
  assert (∀ x, x ∈ cur_flight cur → x.1 ≠ t) as Hne.
  { intros [t' j] Hx. unfold cur_flight in Hx. apply elem_of_concat in Hx as (l & Hl & Hj).
    apply elem_of_lookup_imap in Hl as (i & js & -> & Hi).
    apply list_elem_of_fmap in Hj as (j' & [= -> ->] & Hj). simpl. intros ->.
    rewrite Ht in Hi. simplify_eq. by apply not_elem_of_nil in Hj. }
  induction (cur_flight cur) as [|x l IH]; simpl; [done|].
  rewrite decide_False by (apply Hne; left). rewrite IH; [done|].
  intros. apply Hne. by right.
Qed.

(** The entry the tracker keeps for a sent batch. *)
Definition tracker_entry (x : nat * list job) : InFlightTracker.BatchEntry :=
  InFlightTracker.mkEntry x.1 (Z.of_nat (length x.2)) (sumZ j_cost x.2).

Lemma load_sent (f : job → Z) (g : InFlightTracker.BatchEntry → Z) t sent :
  (∀ x, g (tracker_entry x) = sumZ f x.2) →
  msum (InFlightTracker.on_thread t g) (tracker_entry <$> sent) = load f t (sent_flight sent).
Proof.
  intros Hg. induction sent as [|b [t' js] sent Hb IH] using map_ind.
  - unfold sent_flight. by rewrite fmap_empty, msum_empty, map_to_list_empty.
  - rewrite fmap_insert, msum_insert by by rewrite lookup_fmap, Hb.
    rewrite sent_flight_insert, load_app, IH by done. f_equal.
    unfold InFlightTracker.on_thread. simpl. case_decide as Ht.
    + subst t'. rewrite load_same. apply (Hg (t, js)).
    + by rewrite load_other.
Qed.

Lemma sumZ_length {A} (l : list A) : sumZ (λ _, 1%Z) l = Z.of_nat (length l).
Proof. induction l; simpl; lia. Qed.
End Jobs.
Arguments job Tx : clear implicits.
