(* ===== verification/SchedulerCore.v ===== *)
(** * The scheduler's invariant

    [core_ok] relates the lock table, the in-flight tracker, the batches and the
    container's map of a [PrioGraphScheduler]: all four describe the same set of
    pending transactions.  This file states it and proves the lemmas about
    sending batches and selecting threads. *)
From S2P Require Import Prelude ThreadSets AccountLocks AccountLocksFacts LockTheorems Messages.
From S2P Require Import RwAccountSet Heap Container InFlight PrioGraph Channels Scheduler Flights.
Import AccountLocks RwAccountSet Container PrioGraphScheduler.
Set Default Proof Using "Type*".

Section Weights.
Context {Pubkey Tx : Type} `{Transactions Pubkey Tx}.
Abbreviation states := (gmap TransactionId (TransactionState Tx)).

Definition key_weight (ttl : SanitizedTransactionTTL Tx) (c : Z) : Z :=
  Z.of_nat (length (account_keys (transaction ttl))).
Definition cost_weight (ttl : SanitizedTransactionTTL Tx) (c : Z) : Z := c.
Definition one_weight (ttl : SanitizedTransactionTTL Tx) (c : Z) : Z := 1.

(** The transactions of the container fit the counters: lock counts are [u32],
    compute units and transaction counts [u64]. *)
Record fits (m : states) : Prop := {
  fits_keys : (total key_weight m ≤ u32_max)%Z;
  fits_cost : (total cost_weight m ≤ u64_max)%Z;
  fits_count : (total one_weight m ≤ u64_max)%Z;
  fits_nonneg : weight_ok cost_weight m
}.

Lemma key_weight_ok (m : states) : weight_ok key_weight m.
Proof. intros i [] _; simpl; unfold key_weight; lia. Qed.
Lemma one_weight_ok (m : states) : weight_ok one_weight m.
Proof. intros i [] _; simpl; unfold one_weight; lia. Qed.

Lemma fits_delete m i : fits m → fits (delete i m).
Proof.
  intros [Hk Hc Hn Hw]. split; [..|by apply weight_ok_delete].
  - pose proof (total_delete key_weight m i (key_weight_ok m)). lia.
  - pose proof (total_delete cost_weight m i Hw). lia.
  - pose proof (total_delete one_weight m i (one_weight_ok m)). lia.
Qed.

(** A state change that keeps the transaction and its cost. *)
Lemma fits_update m i st st' :
  m !! i = Some st → (∀ w, state_weight w st' = state_weight w st) → fits m →
  fits (<[i := st']> m).
Proof.
  intros Hi He [Hk Hc Hn Hw]. split; rewrite ?(total_update _ _ _ _ _ Hi) by done; try done.
  intros j st0 [[<- <-]|[_ Hj]]%lookup_insert_Some; [rewrite He|]; by eapply Hw.
Qed.

Lemma length_omap_le {A B} (f : A → option B) l : length (omap f l) ≤ length l.
Proof. induction l as [|x l IH]; csimpl; [done|]. destruct (f x); csimpl; lia. Qed.

Lemma length_enumerate {A} (l : list A) : length (enumerate l) = length l.
Proof. unfold enumerate. rewrite length_zip, length_seq. lia. Qed.

Lemma write_locks_length (tx : Tx) : length (write_account_locks tx) ≤ length (account_keys tx).
Proof. etrans; [apply length_omap_le|by rewrite length_enumerate]. Qed.
Lemma read_locks_length (tx : Tx) : length (read_account_locks tx) ≤ length (account_keys tx).
Proof. etrans; [apply length_omap_le|by rewrite length_enumerate]. Qed.
End Weights.

Lemma occ_length `{Countable K} (a : K) l : (occ a l ≤ Z.of_nat (length l))%Z.
Proof. induction l as [|x l IH]; [done|]. rewrite occ_cons, length_cons. case_decide; lia. Qed.

Section Core.
Context {Pubkey Tx H S R : Type}.
Context `{Countable Pubkey} `{Transactions Pubkey Tx}.
Context `{MinMaxHeapLaws H TransactionPriorityId priority_id_le}.
Context `{SenderLaws S (SchedulingBatch Tx)}.
Implicit Types (s : t Pubkey S R) (c : TransactionStateContainer Tx H).
Implicit Types (cur : list (list (job Tx))) (sent : gmap TransactionBatchId (nat * list (job Tx))).

(** The lock grant of a transaction in flight. *)
Definition job_grant (x : nat * job Tx) : grant :=
  mkGrant (write_account_locks (j_tx x.2)) (read_account_locks (j_tx x.2)) x.1.

Definition flights cur sent : list (nat * job Tx) := cur_flight cur ++ sent_flight sent.

Definition next_batch_id s : Z :=
  IdGenerator.next_id (InFlightTracker.batch_id_generator (in_flight_tracker s)).

Record core_ok s (m : gmap TransactionId (TransactionState Tx)) cur sent : Prop := {
  core_threads : num_threads (account_locks s) = length (consume_work_senders s);
  core_cur : length cur = length (consume_work_senders s);
  core_locks : lock_inv (mkLockState (account_locks s) (job_grant <$> flights cur sent));
  core_tracker : InFlightTracker.ok (length (consume_work_senders s)) (in_flight_tracker s);
  core_sent : InFlightTracker.batches (in_flight_tracker s) = tracker_entry <$> sent;
  core_pending : (flights cur sent).*2 ≡ₚ pending_jobs m;
  core_fits : fits m
}.

(** The message by which a batch was sent. *)
Definition batch_message (b : TransactionBatchId) (js : list (job Tx)) : SchedulingBatch Tx :=
  mkBatch b (j_id <$> js) (j_tx <$> js) ((max_age ∘ j_ttl) <$> js).

(** [msg] has been delivered to the worker of thread [t]. *)
Definition in_log s (t : nat) (msg : SchedulingBatch Tx) : Prop :=
  ∃ sender, consume_work_senders s !! t = Some sender ∧ msg ∈ sender_log sender.

(** The batches handed out are those the workers got and have not returned:
    each was delivered to its thread, and a delivered message whose id is still
    tracked is the message of that batch. *)
Definition delivered s sent : Prop :=
  (∀ b t js, sent !! b = Some (t, js) → in_log s t (batch_message b js)) ∧
  (∀ t msg, in_log s t msg →
     (next_batch_id s < batch_value (batch_id msg))%Z ∧
     ∀ t' js, sent !! batch_id msg = Some (t', js) →
       t' = t ∧ msg = batch_message (batch_id msg) js).

(** The batches under construction hold [cur]. *)
Definition batches_ok (b : Batches Tx) cur : Prop :=
  b_ids b = (λ js : list (job Tx), j_id <$> js) <$> cur ∧
  b_transactions b = (λ js : list (job Tx), j_tx <$> js) <$> cur ∧
  b_max_ages b = (λ js : list (job Tx), (max_age ∘ j_ttl) <$> js) <$> cur ∧
  b_total_cus b = sumZ (j_cost (Tx:=Tx)) <$> cur.

(** ** Capacity *)

Lemma core_pos s m cur sent : core_ok s m cur sent → 0 < length (consume_work_senders s) ≤ 64.
Proof.
  intros Hc. pose proof (wf_threads _ (inv_wf _ (core_locks _ _ _ _ Hc))) as Hn. simpl in Hn.
  by rewrite (core_threads _ _ _ _ Hc) in Hn.
Qed.

Lemma core_weight s m cur sent w :
  core_ok s m cur sent → weight_ok w m →
  (sumZ (job_weight w) (flights cur sent).*2 ≤ total w m)%Z.
Proof.
  intros Hc Hw. rewrite (core_pending _ _ _ _ Hc). by apply pending_jobs_total.
Qed.

Lemma core_job_weight s m cur sent w x :
  core_ok s m cur sent → weight_ok w m → x ∈ flights cur sent → (0 ≤ job_weight w x.2)%Z.
Proof.
  intros Hc Hw Hx. assert (x.2 ∈ pending_jobs m) as Hp.
  { rewrite <-(core_pending _ _ _ _ Hc). by apply list_elem_of_fmap_2. }
  apply elem_of_pending_jobs in Hp. by apply Hw in Hp.
Qed.

(** What one thread has been given fits. *)
Lemma core_load s m cur sent w t :
  core_ok s m cur sent → weight_ok w m →
  (load (job_weight w) t (cur_flight cur) + load (job_weight w) t (sent_flight sent) ≤ total w m)%Z.
Proof.
  intros Hc Hw. rewrite <-load_app. etrans; [apply load_le|by eapply core_weight].
  intros. by eapply core_job_weight.
Qed.

(** The lock counts leave room for an unprocessed transaction. *)
Lemma core_counts_fit s m cur sent i ttl p cost :
  core_ok s m cur sent → m !! i = Some (Unprocessed ttl p cost) →
  counts_fit (account_locks s) (write_account_locks (transaction ttl))
    (read_account_locks (transaction ttl)).
Proof.
  intros Hc Hi. pose proof (fits_keys _ (core_fits _ _ _ _ Hc)) as Hk.
  pose proof (pending_jobs_room key_weight m i ttl p cost (key_weight_ok m) Hi) as Hroom.
  rewrite <-(core_pending _ _ _ _ Hc), sumZ_fmap in Hroom.
  destruct (core_locks _ _ _ _ Hc) as [Hwf Hw Hr]. simpl in *.
  assert (∀ (f : Tx → list Pubkey) a t, (∀ tx, length (f tx) ≤ length (account_keys tx)) →
    (sumZ (λ x, held_by (f (j_tx x.2)) x.1 a t) (flights cur sent) + occ a (f (transaction ttl))
      ≤ u32_max)%Z) as Hle.
  { intros f a t Hf. etrans; [|exact Hk]. etrans; [|exact Hroom]. apply Z.add_le_mono.
    - apply sumZ_le. intros x _. unfold compose, job_weight, key_weight, held_by. specialize (Hf (j_tx x.2)).
      pose proof (occ_length a (f (j_tx x.2))). unfold j_tx in *. case_decide; lia.
    - pose proof (occ_length a (f (transaction ttl))). specialize (Hf (transaction ttl)).
      unfold key_weight. lia. }
  split; intros a t _; [rewrite Hw|rewrite Hr]; rewrite sumZ_fmap; unfold compose; simpl;
    apply Hle; [apply write_locks_length|apply read_locks_length].
Qed.

(** The counters of thread [t]. *)
Lemma core_cus s m cur sent t x :
  core_ok s m cur sent →
  InFlightTracker.cus_in_flight_per_thread (in_flight_tracker s) !! t = Some x →
  x = load j_cost t (sent_flight sent).
Proof.
  intros Hc Hx. rewrite (InFlightTracker.ok_cus _ _ (core_tracker _ _ _ _ Hc) _ _ Hx).
  rewrite (core_sent _ _ _ _ Hc). by apply load_sent.
Qed.
Lemma core_num s m cur sent t x :
  core_ok s m cur sent →
  InFlightTracker.num_in_flight_per_thread (in_flight_tracker s) !! t = Some x →
  x = load (λ _, 1%Z) t (sent_flight sent).
Proof.
  intros Hc Hx. rewrite (InFlightTracker.ok_num _ _ (core_tracker _ _ _ _ Hc) _ _ Hx).
  rewrite (core_sent _ _ _ _ Hc). apply load_sent. intros. by rewrite sumZ_length.
Qed.

Lemma core_cus_default s m cur sent t :
  core_ok s m cur sent → t < length (consume_work_senders s) →
  default 0%Z (InFlightTracker.cus_in_flight_per_thread (in_flight_tracker s) !! t) =
  load j_cost t (sent_flight sent).
Proof.
  intros Hc Ht. rewrite <-(InFlightTracker.ok_cus_len _ _ (core_tracker _ _ _ _ Hc)) in Ht.
  destruct (lookup_lt_is_Some_2 _ _ Ht) as [x Hx]. rewrite Hx. by eapply core_cus.
Qed.
Lemma core_num_default s m cur sent t :
  core_ok s m cur sent → t < length (consume_work_senders s) →
  default 0%Z (InFlightTracker.num_in_flight_per_thread (in_flight_tracker s) !! t) =
  load (λ _, 1%Z) t (sent_flight sent).
Proof.
  intros Hc Ht. rewrite <-(InFlightTracker.ok_num_len _ _ (core_tracker _ _ _ _ Hc)) in Ht.
  destruct (lookup_lt_is_Some_2 _ _ Ht) as [x Hx]. rewrite Hx. by eapply core_num.
Qed.

(** ** Sending *)

(** What sending does not touch. *)
Definition send_frame s s' : Prop :=
  account_locks s' = account_locks s ∧
  finished_consume_work_receiver s' = finished_consume_work_receiver s ∧
  look_ahead_window_size s' = look_ahead_window_size s ∧
  length (consume_work_senders s') = length (consume_work_senders s).

#[global] Instance send_frame_preorder : PreOrder send_frame.
Proof. split; [done|]. intros s1 s2 s3. unfold send_frame. naive_solver congruence. Qed.

Lemma lock_inv_perm (l : ThreadAwareAccountLocks Pubkey) gs gs' :
  gs ≡ₚ gs' → lock_inv (mkLockState l gs) → lock_inv (mkLockState l gs').
Proof.
  intros Hp [Hwf Hw Hr]. split; simpl in *; [done|..]; intros a t; by rewrite <-Hp.
Qed.

(** Moving jobs between the batches and the sent ones. *)
Lemma core_ok_move s s' m cur sent cur' sent' :
  core_ok s m cur sent → send_frame s s' → length cur' = length cur →
  flights cur sent ≡ₚ flights cur' sent' →
  InFlightTracker.ok (length (consume_work_senders s)) (in_flight_tracker s') →
  InFlightTracker.batches (in_flight_tracker s') = tracker_entry <$> sent' →
  core_ok s' m cur' sent'.
Proof.
  intros [Ht Hcur Hl Htr Hs Hp Hf] (El & _ & _ & En) Hlen Hperm Htr' Hs'.
  split; rewrite ?El, ?En; try done; [congruence| |by rewrite <-Hperm].
  eapply lock_inv_perm; [|exact Hl]. by rewrite Hperm.
Qed.

Lemma batches_ok_lookup b cur t js :
  batches_ok b cur → cur !! t = Some js →
  b_ids b !! t = Some (j_id <$> js) ∧ b_transactions b !! t = Some (j_tx <$> js) ∧
  b_max_ages b !! t = Some ((max_age ∘ j_ttl) <$> js) ∧ b_total_cus b !! t = Some (sumZ j_cost js).
Proof.
  intros (-> & -> & -> & ->) Ht. rewrite !list_lookup_fmap, Ht. done.
Qed.

Lemma take_batch_ok b cur t js :
  batches_ok b cur → cur !! t = Some js →
  wp (take_batch b t) (λ '(b', x),
    x = (j_id <$> js, j_tx <$> js, (max_age ∘ j_ttl) <$> js, sumZ j_cost js) ∧
    batches_ok b' (<[t := []]> cur)).
Proof.
  intros Hb Ht. pose proof (batches_ok_lookup _ _ _ _ Hb Ht) as (Hi & Htx & Ha & Hc).
  unfold take_batch. wp_step. eapply wp_vec_get; [exact Hi|]. wp_step.
  wp_step; [by eapply lookup_lt_Some|]. wp_step. eapply wp_vec_get; [exact Htx|]. wp_step.
  wp_step; [by eapply lookup_lt_Some|]. wp_step. eapply wp_vec_get; [exact Ha|]. wp_step.
  wp_step; [by eapply lookup_lt_Some|]. wp_step. eapply wp_vec_get; [exact Hc|]. wp_step.
  wp_step; [by eapply lookup_lt_Some|]. wp_step. split; [done|].
  destruct Hb as (-> & -> & -> & ->). split_and!; simpl; by rewrite list_fmap_insert.
Qed.

(** The logs after a message was sent to thread [t]. *)
Lemma in_log_send s s' t sender sender' msg t1 msg1 :
  consume_work_senders s !! t = Some sender → send sender msg = Some sender' →
  consume_work_senders s' = <[t := sender']> (consume_work_senders s) →
  in_log s' t1 msg1 ↔ in_log s t1 msg1 ∨ (t1 = t ∧ msg1 = msg).
Proof.
  intros Hs Hsend Hs'. apply send_log in Hsend. unfold in_log. rewrite Hs'.
  destruct (decide (t1 = t)) as [->|Hne].
  - rewrite list_lookup_insert_eq by by eapply lookup_lt_Some. rewrite Hs. split.
    + intros (x & [= <-] & Hin). rewrite Hsend in Hin.
      apply elem_of_app in Hin as [Hin|Hin%list_elem_of_singleton]; eauto.
    + intros [(x & [= <-] & Hin)|[_ ->]]; exists sender'; rewrite Hsend, elem_of_app;
        (split; [done|]); [by left|right; left].
  - rewrite list_lookup_insert_ne by done. split; [by left|]. intros [?|[? _]]; done.
Qed.

Lemma delivered_insert s s' sent t js sender sender' :
  let b := mkBatchId (next_batch_id s) in
  delivered s sent → consume_work_senders s !! t = Some sender →
  send sender (batch_message b js) = Some sender' →
  consume_work_senders s' = <[t := sender']> (consume_work_senders s) →
  next_batch_id s' = (next_batch_id s - 1)%Z →
  delivered s' (<[b := (t, js)]> sent).
Proof.
  intros b [Hd1 Hd2] Hs Hsend Hs' Hnext.
  pose proof (in_log_send _ _ _ _ _ _ t (batch_message b js) Hs Hsend Hs') as Hnew. split.
  - intros b0 t0 js0 [[<- [= <- <-]]|[Hne Hb]]%lookup_insert_Some; [apply Hnew; by right|].
    apply (in_log_send _ _ _ _ _ _ _ _ Hs Hsend Hs'). left. by apply Hd1.
  - intros t1 msg Hin. apply (in_log_send _ _ _ _ _ _ _ _ Hs Hsend Hs') in Hin as [Hin|[-> ->]].
    + destruct (Hd2 _ _ Hin) as [Hlt Hmsg]. split; [lia|]. intros t' js'.
      rewrite lookup_insert_ne; [apply Hmsg|]. intros Hb. rewrite <-Hb in Hlt. simpl in Hlt. lia.
    + simpl. split; [lia|]. intros t' js'. rewrite lookup_insert_eq. by intros [= -> ->].
Qed.

(** The state after the batch of thread [t] is gone: [js] jobs fewer under
    construction, tracked as sent. *)
Definition batch_gone s m cur sent t (js : list (job Tx)) s' (b' : Batches Tx) sent' : Prop :=
  core_ok s' m (<[t := []]> cur) sent' ∧ batches_ok b' (<[t := []]> cur) ∧ send_frame s s' ∧
  sent ⊆ sent' ∧ (next_batch_id s - Z.of_nat (length js) ≤ next_batch_id s')%Z ∧
  flights cur sent ≡ₚ flights (<[t := []]> cur) sent'.

(** Tracking the batch of thread [t] moves its jobs to those sent. *)
Lemma track_gone s m cur sent b' t js :
  core_ok s m cur sent → batches_ok b' (<[t := []]> cur) → cur !! t = Some js → js ≠ [] →
  (0 < next_batch_id s)%Z →
  wp (InFlightTracker.track_batch (in_flight_tracker s) (Z.of_nat (length js)) (sumZ j_cost js) t)
    (λ '(tr, bid), bid = mkBatchId (next_batch_id s) ∧
      ∀ s', in_flight_tracker s' = tr → next_batch_id s' = (next_batch_id s - 1)%Z ∧
        (send_frame s s' → batch_gone s m cur sent t js s' b' (<[bid := (t, js)]> sent))).
Proof.
  intros Hc Hb' Ht Hjs Hid.
  assert (t < length (consume_work_senders s)) as Hlt
    by (rewrite <-(core_cur _ _ _ _ Hc); by eapply lookup_lt_Some).
  pose proof (core_fits _ _ _ _ Hc) as Hf.
  pose proof (core_load _ _ _ _ cost_weight t Hc (fits_nonneg _ Hf)) as Hcost.
  pose proof (core_load _ _ _ _ one_weight t Hc (one_weight_ok m)) as Hone.
  change (job_weight cost_weight) with (j_cost (Tx:=Tx)) in Hcost.
  change (job_weight one_weight) with (λ _ : job Tx, 1%Z) in Hone.
  rewrite (load_cur _ _ _ _ Ht) in Hcost. rewrite (load_cur _ _ _ _ Ht), sumZ_length in Hone.
  pose proof (fits_cost _ Hf) as Hfc. pose proof (fits_count _ Hf) as Hfn.
  eapply wp_mono; [apply track_batch_ok; [apply (core_tracker _ _ _ _ Hc)|done|lia| |done|..]|].
  - apply sumZ_nonneg. intros j Hj. apply (core_job_weight _ _ _ _ cost_weight (t, j) Hc (fits_nonneg _ Hf)).
    apply elem_of_app. left. rewrite (cur_flight_take _ _ _ Ht). apply elem_of_app. left.
    by apply list_elem_of_fmap_2.
  - rewrite (core_sent _ _ _ _ Hc), (load_sent (λ _, 1%Z)) by (intros; by rewrite sumZ_length).
    lia.
  - rewrite (core_sent _ _ _ _ Hc), (load_sent j_cost) by done. lia.
  - intros [tr bid] (Htr & Hfresh & Hbs & Hbid & Hnext). split; [done|].
    rewrite (core_sent _ _ _ _ Hc) in Hfresh, Hbs.
    assert (sent !! bid = None) as Hnew by by rewrite lookup_fmap, fmap_None in Hfresh.
    intros s' Etr. split; [unfold next_batch_id; by rewrite Etr|]. intros Hfr.
    assert (flights cur sent ≡ₚ flights (<[t := []]> cur) (<[bid := (t, js)]> sent)) as Hperm.
    { unfold flights. rewrite (cur_flight_take _ _ _ Ht), sent_flight_insert by done.
      solve_Permutation. }
    split_and!; [|done|done|by apply insert_subseteq| |done].
    + eapply core_ok_move; [done|done|by rewrite length_insert|done|by rewrite Etr|].
      by rewrite Etr, Hbs, fmap_insert.
    + unfold next_batch_id. rewrite Etr, Hnext. destruct js; [done|]. simpl. lia.
Qed.

Lemma send_batch_ok s m cur sent b t js :
  core_ok s m cur sent → batches_ok b cur → cur !! t = Some js →
  (js ≠ [] → 0 < next_batch_id s)%Z →
  wp (send_batch s b t) (λ '(s', b', r), ∃ sent', batch_gone s m cur sent t js s' b' sent' ∧
    match r with
    | inl k => k = length js ∧ (delivered s sent → delivered s' sent')
    | inr e => e = DisconnectedSendChannel "consume work sender"
    end).
Proof.
  intros Hc Hb Ht Hid. pose proof (batches_ok_lookup _ _ _ _ Hb Ht) as (Hi & _).
  unfold send_batch. wp_step. eapply wp_vec_get; [exact Hi|]. case_decide as Hemp.
  { apply fmap_nil_inv in Hemp as ->. wp_step. exists sent.
    unfold batch_gone. rewrite (list_insert_id _ _ _ Ht). split_and!; try done. simpl. lia. }
  assert (js ≠ []) as Hjs by by intros ->. specialize (Hid Hjs).
  assert (t < length (consume_work_senders s)) as Hlt
    by (rewrite <-(core_cur _ _ _ _ Hc); by eapply lookup_lt_Some).
  wp_step. eapply wp_mono; [by eapply take_batch_ok|]. intros [b' x] [-> Hb']. wp_step.
  rewrite length_fmap. eapply wp_mono; [apply (track_gone s m cur sent b' t js Hc Hb' Ht Hjs Hid)|].
  intros [tr bid] [Hbid Hgone].
  wp_step. destruct (lookup_lt_is_Some_2 _ _ Hlt) as [sender Hsender].
  eapply wp_vec_get; [exact Hsender|]. change (mkBatch _ _ _ _) with (batch_message bid js).
  destruct (send sender (batch_message bid js)) as [sender'|] eqn:Hsend.
  - wp_step. wp_step; [done|]. wp_step. exists (<[bid := (t, js)]> sent).
    set (s' := set_senders _ _). destruct (Hgone s' eq_refl) as [Hnext Hg].
    split_and!; [apply Hg|done|].
    + split_and!; try done. simpl. by rewrite length_insert.
    + intros Hd. rewrite Hbid in *. by eapply delivered_insert.
  - wp_step. exists (<[bid := (t, js)]> sent). split; [|done]. by apply Hgone.
Qed.

(** The state after some batches are gone. *)
Definition batches_gone s m cur sent s' (b' : Batches Tx) cur' sent' : Prop :=
  core_ok s' m cur' sent' ∧ batches_ok b' cur' ∧ send_frame s s' ∧ sent ⊆ sent' ∧
  njobs cur' ≤ njobs cur ∧
  (next_batch_id s - Z.of_nat (njobs cur - njobs cur') ≤ next_batch_id s')%Z ∧
  flights cur sent ≡ₚ flights cur' sent' ∧
  (∀ t, cur !! t = Some [] → cur' !! t = Some []).

Lemma batch_gone_batches s m cur sent t js s' b' sent' :
  cur !! t = Some js → batch_gone s m cur sent t js s' b' sent' →
  batches_gone s m cur sent s' b' (<[t := []]> cur) sent'.
Proof.
  intros Ht (Hc & Hb & Hfr & Hsub & Hid & Hp).
  pose proof (njobs_insert cur t js [] Ht) as Hn. simpl in Hn.
  split_and!; try done; [lia|lia|].
  intros t' Ht'. destruct (decide (t' = t)) as [->|Hne].
  - apply list_lookup_insert_eq. by eapply lookup_lt_Some.
  - by rewrite list_lookup_insert_ne.
Qed.

Lemma batches_gone_trans s m cur sent s1 b1 cur1 sent1 s2 b2 cur2 sent2 :
  batches_gone s m cur sent s1 b1 cur1 sent1 → batches_gone s1 m cur1 sent1 s2 b2 cur2 sent2 →
  batches_gone s m cur sent s2 b2 cur2 sent2.
Proof.
  intros (Hc1 & Hb1 & Hf1 & Hs1 & Hn1 & Hi1 & Hp1 & He1) (Hc2 & Hb2 & Hf2 & Hs2 & Hn2 & Hi2 & Hp2 & He2).
  split_and!; [done|done|by etrans|by etrans|lia|lia|by etrans|auto].
Qed.

Lemma send_batches_from_ok ts s m cur sent b sum :
  core_ok s m cur sent → batches_ok b cur → (∀ t, t ∈ ts → t < length cur) →
  (Z.of_nat (njobs cur) ≤ next_batch_id s)%Z →
  wp (send_batches_from ts s b sum) (λ '(s', b', r), ∃ cur' sent',
    batches_gone s m cur sent s' b' cur' sent' ∧
    match r with
    | inl k => k = sum + (njobs cur - njobs cur') ∧ (∀ t, t ∈ ts → cur' !! t = Some []) ∧
               (delivered s sent → delivered s' sent')
    | inr e => e = DisconnectedSendChannel "consume work sender"
    end).
Proof.
  revert s cur sent b sum. induction ts as [|t ts IH]; intros s cur sent b sum Hc Hb Hts Hid; simpl.
  { wp_step. exists cur, sent. split; [|split_and!; [lia|by intros ? ?%not_elem_of_nil|done]].
    split_and!; try done. lia. }
  destruct (lookup_lt_is_Some_2 cur t) as [js Ht]; [apply Hts; left|].
  pose proof (njobs_ge _ _ _ Ht) as Hge. pose proof (njobs_insert cur t js [] Ht) as Hn. simpl in Hn.
  wp_step. eapply wp_mono; [eapply send_batch_ok; [done|done|done|]|].
  { intros Hjs. destruct js; [done|]. simpl in Hge. lia. }
  intros [[s1 b1] r1] (sent1 & Hg1 & Hr1). pose proof Hg1 as (Hc1 & Hb1 & _ & _ & Hid1 & _).
  apply batch_gone_batches in Hg1; [|done]. destruct r1 as [k1|e1].
  - destruct Hr1 as [-> Hd1]. eapply wp_mono; [apply IH; [done|done| |lia]|].
    { intros t' Ht'. rewrite length_insert. apply Hts. by right. }
    intros [[s2 b2] r2] (cur2 & sent2 & Hg2 & Hr2). exists cur2, sent2.
    split; [by eapply batches_gone_trans|]. destruct r2 as [k2|e2]; [|done].
    destruct Hr2 as (-> & Hemp & Hd2). destruct Hg2 as (_ & _ & _ & _ & Hn2 & _ & _ & He2).
    split_and!; [lia| |auto]. intros t' [->|Ht']%elem_of_cons; [|auto]. apply He2.
    apply list_lookup_insert_eq. by eapply lookup_lt_Some.
  - wp_step. eauto.
Qed.

Lemma njobs_empty cur : (∀ t, t < length cur → cur !! t = Some []) → njobs cur = 0.
Proof.
  unfold njobs. induction cur as [|js cur IH]; intros He; simpl; [done|].
  pose proof (He 0 ltac:(simpl; lia)) as [= ->]. apply IH. intros t Ht.
  apply (He (Datatypes.S t)). simpl. lia.
Qed.

(** [send_batches] sends everything under construction, or reports that a
    worker is gone. *)
Lemma send_batches_ok s m cur sent b :
  core_ok s m cur sent → batches_ok b cur → (Z.of_nat (njobs cur) ≤ next_batch_id s)%Z →
  wp (send_batches s b) (λ '(s', b', r), ∃ cur' sent',
    batches_gone s m cur sent s' b' cur' sent' ∧
    match r with
    | inl k => k = njobs cur ∧ njobs cur' = 0 ∧ (delivered s sent → delivered s' sent')
    | inr e => e = DisconnectedSendChannel "consume work sender"
    end).
Proof.
  intros Hc Hb Hid. unfold send_batches. eapply wp_mono; [apply send_batches_from_ok; try done|].
  { intros t Ht%elem_of_seq. rewrite (core_cur _ _ _ _ Hc). lia. }
  intros [[s' b'] r] (cur' & sent' & Hg & Hr). exists cur', sent'. split; [done|].
  destruct r as [k|]; [|done]. destruct Hr as (-> & He & Hd). destruct Hg as (Hc' & _ & Hfr & _).
  assert (njobs cur' = 0) as ->.
  { apply njobs_empty. intros t Ht. apply He, elem_of_seq.
    rewrite (core_cur _ _ _ _ Hc') in Ht. destruct Hfr as (_ & _ & _ & E). lia. }
  split_and!; [lia|done|done].
Qed.
End Core.
