(* ===== verification/SchedulerOps.v ===== *)
(** * Selecting a thread and scheduling one transaction

    The lemmas of [select_thread], [push_batches] and
    [try_schedule_transaction] against the scheduler's invariant. *)
From S2P Require Import Prelude ThreadSets AccountLocks AccountLocksFacts LockTheorems Messages.
From S2P Require Import RwAccountSet Heap Container InFlight PrioGraph Channels Scheduler Flights.
From S2P Require Import SchedulerCore.
Import AccountLocks RwAccountSet Container PrioGraphScheduler.
Set Default Proof Using "Type*".

(** ** [min_by] *)

Lemma foldl_min_by {A} (gt : A → A → bool) l x :
  (∀ a b c, gt a b = false → gt b c = false → gt a c = false) →
  (∀ a b, gt a b = true → gt b a = false) → (∀ a, gt a a = false) →
  let m := foldl (λ m y, if gt m y then y else m) x l in
  m ∈ x :: l ∧ ∀ y, y ∈ x :: l → gt m y = false.
Proof.
  intros Htr Has Hrefl. revert x. induction l as [|z l IH]; intros x; simpl.
  { split; [left|]. by intros y ->%list_elem_of_singleton. }
  destruct (gt x z) eqn:E.
  - destruct (IH z) as [Hin Hmin]. split; [by right|].
    intros y [->|Hy]%elem_of_cons; [|auto]. eapply Htr; [apply Hmin; left|by apply Has].
  - destruct (IH x) as [Hin Hmin]. split.
    + apply elem_of_cons in Hin as [->|?]; [left|by do 2 right].
    + intros y [->|[->|Hy]%elem_of_cons]%elem_of_cons; [apply Hmin; left| |apply Hmin; by right].
      eapply Htr; [apply Hmin; left|done].
Qed.

Lemma min_by_Some {A} (gt : A → A → bool) l :
  (∀ a b c, gt a b = false → gt b c = false → gt a c = false) →
  (∀ a b, gt a b = true → gt b a = false) → (∀ a, gt a a = false) → l ≠ [] →
  ∃ m, min_by gt l = Some m ∧ m ∈ l ∧ ∀ y, y ∈ l → gt m y = false.
Proof.
  intros Htr Has Hrefl Hl. destruct l as [|x l]; [done|]. eexists. split; [done|].
  by apply foldl_min_by.
Qed.

Lemma load_gt_false a b :
  load_gt a b = false ↔ (a.1.2 < b.1.2 ∨ (a.1.2 = b.1.2 ∧ a.2 ≤ b.2))%Z.
Proof.
  destruct a as [[? a1] a2], b as [[? b1] b2]. simpl. rewrite bool_decide_eq_false. lia.
Qed.

Lemma load_gt_true a b :
  load_gt a b = true ↔ (b.1.2 < a.1.2 ∨ (a.1.2 = b.1.2 ∧ b.2 < a.2))%Z.
Proof.
  destruct a as [[? a1] a2], b as [[? b1] b2]. simpl. by rewrite bool_decide_eq_true.
Qed.

(** [t] carries no more than [t']: fewer compute units, or as many and no more
    transactions. *)
Definition no_more_loaded (cus num : nat → Z) (t t' : nat) : Prop :=
  (cus t < cus t' ∨ (cus t = cus t' ∧ num t ≤ num t'))%Z.

Lemma select_thread_ok {Tx} ts bc fc (bt : list (list Tx)) nf (cus num : nat → Z) :
  ThreadSet.wf ts → (∃ t, t ∈ ts) →
  (∀ t, t ∈ ts → thread_load bc fc bt nf t = Ok (t, cus t, num t)) →
  wp (select_thread ts bc fc bt nf) (λ t, t ∈ ts ∧ ∀ t', t' ∈ ts → no_more_loaded cus num t t').
Proof.
  intros Hwf [t0 Ht0] Hl. unfold select_thread.
  pose proof (ThreadSetFacts.contained_threads_iter_ok ts) as Hit. rewrite Hit. simpl.
  set (l := filter _ _) in *.
  assert (∀ t, t ∈ l ↔ t ∈ ts) as Hin
    by (intros t; by apply ThreadSetFacts.elem_of_contained_threads).
  rewrite (mapM_Ok _ (λ t, (t, cus t, num t))) by (intros t Ht; by apply Hl, Hin). simpl.
  destruct (min_by_Some load_gt ((λ t, (t, cus t, num t)) <$> l)) as (m & -> & Hm & Hmin).
  - intros a b c. rewrite !load_gt_false. lia.
  - intros a b. rewrite load_gt_false, load_gt_true. lia.
  - intros a. rewrite load_gt_false. lia.
  - intros Hnil%fmap_nil_inv. apply Hin in Ht0. rewrite Hnil in Ht0. by apply not_elem_of_nil in Ht0.
  - simpl. apply wp_ok. apply list_elem_of_fmap in Hm as (t & -> & Ht). simpl. split; [by apply Hin|].
    intros t' Ht'. specialize (Hmin (t', cus t', num t')). rewrite load_gt_false in Hmin.
    apply Hmin. by apply (list_elem_of_fmap_2 (λ t, (t, cus t, num t))), Hin.
Qed.

Section Ops.
Context {Pubkey Tx H S R : Type}.
Context `{Countable Pubkey} `{Transactions Pubkey Tx}.
Context `{MinMaxHeapLaws H TransactionPriorityId priority_id_le}.
Context `{SenderLaws S (SchedulingBatch Tx)}.
Implicit Types (s : t Pubkey S R) (c : TransactionStateContainer Tx H).
Implicit Types (cur : list (list (job Tx))) (sent : gmap TransactionBatchId (nat * list (job Tx))).

(** The loads [select_thread] compares are those of the jobs in flight. *)
Lemma core_thread_load s m cur sent b t :
  core_ok s m cur sent → batches_ok b cur → t < length (consume_work_senders s) →
  thread_load (b_total_cus b) (InFlightTracker.cus_in_flight_per_thread (in_flight_tracker s))
    (b_transactions b) (InFlightTracker.num_in_flight_per_thread (in_flight_tracker s)) t =
  Ok (t, load j_cost t (flights cur sent), load (λ _, 1%Z) t (flights cur sent)).
Proof.
  intros Hc Hb Ht. pose proof (core_tracker _ _ _ _ Hc) as Htr.
  destruct (lookup_lt_is_Some_2 cur t) as [js Hjs]; [by rewrite (core_cur _ _ _ _ Hc)|].
  pose proof (batches_ok_lookup _ _ _ _ Hb Hjs) as (_ & Htx & _ & Hcu).
  destruct (lookup_lt_is_Some_2 (InFlightTracker.cus_in_flight_per_thread (in_flight_tracker s)) t)
    as [x Hx]; [by rewrite (InFlightTracker.ok_cus_len _ _ Htr)|].
  destruct (lookup_lt_is_Some_2 (InFlightTracker.num_in_flight_per_thread (in_flight_tracker s)) t)
    as [y Hy]; [by rewrite (InFlightTracker.ok_num_len _ _ Htr)|].
  pose proof (core_fits _ _ _ _ Hc) as Hf.
  pose proof (core_load _ _ _ _ cost_weight t Hc (fits_nonneg _ Hf)) as Hcost.
  pose proof (core_load _ _ _ _ one_weight t Hc (one_weight_ok m)) as Hone.
  change (job_weight cost_weight) with (j_cost (Tx:=Tx)) in Hcost.
  change (job_weight one_weight) with (λ _ : job Tx, 1%Z) in Hone.
  pose proof (fits_cost _ Hf). pose proof (fits_count _ Hf).
  unfold flights, thread_load, vec_get. rewrite !load_app.
  rewrite (load_cur j_cost _ _ _ Hjs) in *.
  rewrite (load_cur (λ _, 1%Z) _ _ _ Hjs), sumZ_length in *.
  rewrite Hcu, Hx, Htx, Hy. simpl.
  rewrite (core_cus _ _ _ _ _ _ Hc Hx), (core_num _ _ _ _ _ _ Hc Hy).
  unfold checked_add. rewrite length_fmap.
  rewrite (proj2 (Z.leb_le _ _)) by lia. simpl. rewrite (proj2 (Z.leb_le _ _)) by lia. done.
Qed.

Lemma vec_push_ok {A} (v : list (list A)) i x l (Φ : list (list A) → Prop) :
  v !! i = Some l → Φ (<[i := l ++ [x]]> v) → wp (vec_push v i x) Φ.
Proof.
  intros Hi HΦ. unfold vec_push. wp_step. eapply wp_vec_get; [done|].
  apply wp_vec_set; [by eapply lookup_lt_Some|done].
Qed.

Lemma push_batches_ok b cur t js (j : job Tx) :
  batches_ok b cur → cur !! t = Some js → (sumZ j_cost js + j_cost j ≤ u64_max)%Z →
  wp (push_batches b (j_id j) (mkInfo t (j_tx j) (max_age (j_ttl j)) (j_cost j)))
     (λ b', batches_ok b' (<[t := js ++ [j]]> cur)).
Proof.
  intros Hb Ht Hle. pose proof (batches_ok_lookup _ _ _ _ Hb Ht) as (Hi & Htx & Ha & Hc).
  unfold push_batches. simpl. wp_step. eapply vec_push_ok; [exact Htx|].
  wp_step. eapply vec_push_ok; [exact Hi|]. wp_step. eapply vec_push_ok; [exact Ha|].
  wp_step. eapply wp_vec_get; [exact Hc|]. wp_step. apply wp_vec_set; [by eapply lookup_lt_Some|].
  wp_step. destruct Hb as (-> & -> & -> & ->).
  split_and!; simpl; rewrite list_fmap_insert; f_equal; try by rewrite fmap_app.
  rewrite sumZ_app. unfold saturating_add. simpl. lia.
Qed.

(** ** [try_schedule_transaction] *)

(** The outcome for an unprocessed transaction [ttl], by the three results:
    filtered, held back, or given to the least loaded of the threads that can
    take all its locks. *)
Definition try_schedule_post (plf : Tx → bool) (bl : ReadWriteAccountSet Pubkey) s cur sent
    (j : job Tx) (st : TransactionState Tx) (bl' : ReadWriteAccountSet Pubkey)
    (locks' : ThreadAwareAccountLocks Pubkey)
    (r : TransactionSchedulingInfo + TransactionSchedulingError) : Prop :=
  let able t := can_lock_all (account_locks s) (write_account_locks (j_tx j))
                  (read_account_locks (j_tx j)) t in
  match r with
  | inr Filtered =>
      st = Unprocessed (j_ttl j) (priority (j_pid j)) (j_cost j) ∧ bl' = bl ∧
      locks' = account_locks s ∧ plf (j_tx j) = false
  | inr UnschedulableConflicts =>
      st = Unprocessed (j_ttl j) (priority (j_pid j)) (j_cost j) ∧
      bl' = (take_locks bl (j_tx j)).1 ∧ locks' = account_locks s ∧ plf (j_tx j) = true ∧
      (check_locks bl (j_tx j) = false ∨ ∀ t, ¬ able t)
  | inl info =>
      ∃ t, info = mkInfo t (j_tx j) (max_age (j_ttl j)) (j_cost j) ∧
        st = Pending (j_ttl j) (priority (j_pid j)) (j_cost j) ∧ bl' = bl ∧
        plf (j_tx j) = true ∧ check_locks bl (j_tx j) = true ∧ able t ∧
        (∀ t', able t' → no_more_loaded (λ t, load j_cost t (flights cur sent))
                           (λ t, load (λ _, 1%Z) t (flights cur sent)) t t') ∧
        num_threads locks' = num_threads (account_locks s) ∧
        lock_inv (mkLockState locks' (job_grant <$> ((t, j) :: flights cur sent)))
  end.

Lemma try_schedule_ok plf bl s m cur sent b j :
  core_ok s m cur sent → batches_ok b cur →
  m !! j_id j = Some (Unprocessed (j_ttl j) (priority (j_pid j)) (j_cost j)) →
  wp (try_schedule_transaction (Unprocessed (j_ttl j) (priority (j_pid j)) (j_cost j)) plf bl
        (account_locks s) (length (consume_work_senders s))
        (λ ts, select_thread ts (b_total_cus b)
                 (InFlightTracker.cus_in_flight_per_thread (in_flight_tracker s))
                 (b_transactions b)
                 (InFlightTracker.num_in_flight_per_thread (in_flight_tracker s))))
     (λ '(st, bl', locks', r), try_schedule_post plf bl s cur sent j st bl' locks' r).
Proof.
  intros Hc Hb Hj. unfold try_schedule_transaction, try_schedule_post. simpl.
  change (transaction (j_ttl j)) with (j_tx j).
  destruct (plf (j_tx j)) eqn:Hplf; simpl; [|by wp_step].
  destruct (check_locks bl (j_tx j)) eqn:Hck; simpl; [|by wp_step; auto 6].
  pose proof (core_pos _ _ _ _ Hc) as Hn. pose proof (core_threads _ _ _ _ Hc) as Hnt.
  pose proof (core_locks _ _ _ _ Hc) as [Hwf Hw Hr]. simpl in Hwf, Hw, Hr.
  wp_step. apply ThreadSetFacts.wp_any; [lia|]. intros all Hall Hmall. wp_step.
  eapply wp_mono; [apply (try_lock_accounts_ok _ _ _ _ _ (λ ts t, ∀ t', t' ∈ ts →
      no_more_loaded (λ t, load j_cost t (flights cur sent))
        (λ t, load (λ _, 1%Z) t (flights cur sent)) t t'));
    [done|done|by eapply core_counts_fit|]|].
  { intros ts Hts Hne Hlt. apply select_thread_ok; [done|done|]. intros t Ht.
    eapply core_thread_load; [done|done|]. rewrite <-Hnt. auto. }
  intros [locks' [t|]].
  - intros ((ts & Hsp & Ht & Hmin) & Hwf' & Hd). repeat wp_step. simpl. apply Hsp in Ht as [Hable Hta].
    exists t. split_and!; try done.
    + intros t' Ht'. apply Hmin, Hsp. split; [done|]. apply Hmall. destruct Ht' as (Hlt & _). lia.
    + apply (delta_threads _ _ _ _ Hd).
    + split; simpl; [done|..]; intros a t'.
      * by rewrite (delta_w _ _ _ _ Hd), Hw, Z.add_comm.
      * by rewrite (delta_r _ _ _ _ Hd), Hr, Z.add_comm.
  - intros [-> Hno]. wp_step. split_and!; try done. right. intros t Ht.
    apply (Hno t); [|done]. apply Hmall. destruct Ht as (Hlt & _). lia.
Qed.
End Ops.
