(* ===== verification/SchedulePass.v ===== *)
(** * The invariant of a scheduling pass

    [pass_ok] is the invariant of the loops of [schedule]; every step of a pass
    (pop from the graph, filter, hold back, commit, send, refill the window,
    unblock) is shown to keep it. *)
From S2P Require Import Prelude ThreadSets AccountLocks AccountLocksFacts LockTheorems Messages.
From S2P Require Import RwAccountSet Heap Container InFlight PrioGraph Channels Scheduler Flights.
From S2P Require Import SchedulerCore SchedulerOps.
Import AccountLocks RwAccountSet Container PrioGraphScheduler.
Set Default Proof Using "Type*".

(** ** How a pass may change the transactions of the container *)

Section Evolves.
Context {Tx : Type}.
Abbreviation states := (gmap TransactionId (TransactionState Tx)).
Implicit Type m : states.

(** Each transaction is left alone, or was unprocessed and is now pending with
    the same content, or gone. *)
Definition evolves m0 m : Prop := ∀ i, m !! i = m0 !! i ∨
  ∃ ttl p c, m0 !! i = Some (Unprocessed ttl p c) ∧
             (m !! i = None ∨ m !! i = Some (Pending ttl p c)).

Lemma evolves_refl m : evolves m m.
Proof. intros i. by left. Qed.

(** An unprocessed transaction is still as it was. *)
Lemma evolves_unprocessed m0 m i ttl p c :
  evolves m0 m → m !! i = Some (Unprocessed ttl p c) → m0 !! i = Some (Unprocessed ttl p c).
Proof. intros He Hi. destruct (He i) as [<-|(? & ? & ? & _ & [?|?])]; [done|congruence..]. Qed.

Lemma evolves_change m0 m m' i ttl p c :
  evolves m0 m → m !! i = Some (Unprocessed ttl p c) →
  (∀ j, j ≠ i → m' !! j = m !! j) → (m' !! i = None ∨ m' !! i = Some (Pending ttl p c)) →
  evolves m0 m'.
Proof.
  intros He Hi Hne Hm' j. destruct (decide (j = i)) as [->|Hji]; [|rewrite Hne by done; apply He].
  right. exists ttl, p, c. split; [by eapply evolves_unprocessed|done].
Qed.

(** Unprocessed transactions removed one after the other. *)
Definition dropping : states → states → Prop :=
  rtc (λ m m', ∃ i ttl p c, m !! i = Some (Unprocessed ttl p c) ∧ m' = delete i m).

Lemma evolves_dropping m0 m m' : evolves m0 m → dropping m m' → evolves m0 m'.
Proof.
  intros He Hd. induction Hd as [|m1 m2 m3 (i & ttl & p & c & Hi & ->) _ IH]; [done|].
  apply IH. eapply evolves_change; [done|done| |left; apply lookup_delete_eq].
  intros. by apply lookup_delete_ne.
Qed.
End Evolves.

Section Core.
Context {Pubkey Tx H S R : Type}.
Context `{Countable Pubkey} `{Transactions Pubkey Tx}.
Context `{MinMaxHeapLaws H TransactionPriorityId priority_id_le}.
Context `{SenderLaws S (SchedulingBatch Tx)}.
Implicit Types (s : t Pubkey S R) (cur : list (list (job Tx))).
Implicit Types (sent : gmap TransactionBatchId (nat * list (job Tx))).

Lemma core_ok_delete s m cur sent i ttl p c :
  core_ok s m cur sent → m !! i = Some (Unprocessed ttl p c) → core_ok s (delete i m) cur sent.
Proof.
  intros [] Hi. split; try done; [|by apply fits_delete].
  rewrite core_pending. by rewrite (pending_jobs_delete _ _ _ Hi).
Qed.

Lemma core_ok_dropping s m m' cur sent :
  core_ok s m cur sent → dropping m m' → core_ok s m' cur sent.
Proof.
  intros Hc Hd. induction Hd as [|m1 m2 m3 (i & ttl & p & c & Hi & ->) _ IH]; [done|].
  apply IH. by eapply core_ok_delete.
Qed.

(** A transaction becomes pending on thread [t], its locks taken. *)
Lemma core_ok_commit s m cur sent locks' t js j :
  core_ok s m cur sent → cur !! t = Some js →
  m !! j_id j = Some (Unprocessed (j_ttl j) (priority (j_pid j)) (j_cost j)) →
  num_threads locks' = num_threads (account_locks s) →
  lock_inv (mkLockState locks' (job_grant <$> ((t, j) :: flights cur sent))) →
  core_ok (set_account_locks s locks')
    (<[j_id j := Pending (j_ttl j) (priority (j_pid j)) (j_cost j)]> m)
    (<[t := js ++ [j]]> cur) sent.
Proof.
  intros [Hn Hcur Hl Htr Hs Hp Hf] Ht Hj Hn' Hl'.
  assert (flights (<[t := js ++ [j]]> cur) sent ≡ₚ (t, j) :: flights cur sent) as Hfl.
  { unfold flights. by rewrite (cur_flight_push _ _ _ _ Ht). }
  split; simpl; try done; [congruence|by rewrite length_insert| | |].
  - eapply lock_inv_perm; [|exact Hl']. by rewrite Hfl.
  - rewrite Hfl. simpl. rewrite Hp, pending_jobs_insert, (pending_jobs_delete _ _ _ Hj).
    destruct j as [[pr i] ttl c]. done.
  - by eapply fits_update.
Qed.

(** The room left for the cost of a transaction on its thread. *)
Lemma core_cost_room s m cur sent t js j :
  core_ok s m cur sent → cur !! t = Some js →
  m !! j_id j = Some (Unprocessed (j_ttl j) (priority (j_pid j)) (j_cost j)) →
  (sumZ j_cost js + j_cost j ≤ u64_max)%Z.
Proof.
  intros Hc Ht Hj. pose proof (core_fits _ _ _ _ Hc) as Hf.
  pose proof (pending_jobs_room cost_weight m _ _ _ _ (fits_nonneg _ Hf) Hj) as Hroom.
  rewrite <-(core_pending _ _ _ _ Hc) in Hroom. pose proof (fits_cost _ Hf).
  assert (sumZ j_cost js ≤ sumZ (job_weight cost_weight) (flights cur sent).*2)%Z; [|unfold cost_weight in *; lia].
  rewrite <-(load_cur j_cost cur t js Ht).
  pose proof (load_le (job_weight cost_weight) t (flights cur sent)) as Hle.
  assert (∀ x, x ∈ flights cur sent → 0 ≤ job_weight cost_weight x.2)%Z as Hnn
    by (intros; by eapply core_job_weight; [| |done]; [done|apply fits_nonneg]).
  etrans; [|by apply Hle]. unfold flights. rewrite load_app.
  enough (0 ≤ load (job_weight cost_weight) t (sent_flight sent))%Z
    by (change (job_weight cost_weight) with (j_cost (Tx:=Tx)) in *; lia).
  apply sumZ_nonneg. intros x Hx. case_decide; [|done]. apply Hnn, elem_of_app. by right.
Qed.
End Core.
