(* ===== verification/ScheduleWindow.v ===== *)
(** * The look-ahead window

    [chunked_pops] moves ids from the container's queue into the priority graph
    and drops those the filter rejects; nothing is lost or duplicated, and the
    loop ends. *)
From S2P Require Import Prelude ThreadSets AccountLocks Messages Heap Container PrioGraph.
From S2P Require Import Channels Scheduler Flights SchedulePass.
Import AccountLocks Container PrioGraphScheduler.
Set Default Proof Using "Type*".

Section Window.
Context {Pubkey Tx H G : Type}.
Context `{Countable Pubkey} `{Transactions Pubkey Tx}.
Context `{MinMaxHeapLaws H TransactionPriorityId priority_id_le}.
Context `{PrioGraphLaws G TransactionPriorityId Pubkey}.
Implicit Types (c : TransactionStateContainer Tx H) (g : G) (w : window Tx H G).
Implicit Types (U : list TransactionPriorityId).

Abbreviation queue c := (heap_into_vec (priority_queue c)).
Abbreviation w_queue w := (queue (w_container w)).
Abbreviation w_waiting w := (pg_waiting (w_prio_graph w)).
Abbreviation w_states w := (id_to_transaction_state (w_container w)).

Lemma pop_chunk_ok k c ids c' U :
  cont_ok c U → pop_chunk k c = (ids, c') →
  cont_ok c' (ids ++ U) ∧ id_to_transaction_state c' = id_to_transaction_state c ∧
  queue c ≡ₚ ids ++ queue c' ∧ length ids ≤ k.
Proof.
  revert c ids U. induction k as [|k IH]; intros c ids U Hc; simpl.
  { intros [= <- <-]. done. }
  destruct (pop c) as [[x|] c1] eqn:Hpop.
  - destruct (pop_chunk k c1) as [ids1 c2] eqn:Hk. intros [= <- <-].
    apply (pop_Some c x c1 U) in Hpop as (Hq & _ & Hm & _ & Hc1); [|done].
    apply (IH _ _ _ Hc1) in Hk as (Hc2 & Hm2 & Hq2 & Hl). split_and!.
    + eapply cont_ok_perm; [|exact Hc2]. by rewrite <-Permutation_middle.
    + congruence.
    + by rewrite Hq, Hq2.
    + simpl. lia.
  - intros [= <- <-]. apply pop_None in Hpop as [-> Hq]. simpl. split_and!; [done..|lia].
Qed.

Lemma pop_chunk_some k c ids c' :
  0 < k → queue c ≠ [] → pop_chunk k c = (ids, c') → 0 < length ids.
Proof.
  intros Hk Hq. destruct k as [|k]; [lia|]. simpl. destruct (pop c) as [[x|] c1] eqn:Hpop.
  - destruct (pop_chunk k c1). intros [= <- _]. simpl. lia.
  - by apply pop_None in Hpop as [_ ?].
Qed.

Lemma cont_ok_elem c out x :
  cont_ok c out → x ∈ out → ∃ ttl cost,
    id_to_transaction_state c !! id x = Some (Unprocessed ttl (priority x) cost).
Proof.
  intros Hc [out' Hp]%elem_of_Permutation. eapply cont_ok_out, cont_ok_perm; [exact Hp|done].
Qed.

Lemma ttl_unwrap_ok c out x (Φ : SanitizedTransactionTTL Tx → Prop) :
  cont_ok c out → x ∈ out →
  (∀ ttl cost, id_to_transaction_state c !! id x = Some (Unprocessed ttl (priority x) cost) → Φ ttl) →
  wp (ttl_unwrap c x) Φ.
Proof.
  intros Hc Hx HΦ. destruct (cont_ok_elem _ _ _ Hc Hx) as (ttl & cost & Hi).
  unfold ttl_unwrap, get_transaction_ttl. rewrite Hi. simpl. eapply HΦ, Hi.
Qed.

(** The loop over a chunk of ids and their filter results. *)
Lemma filter_fold_ok l c g nf U :
  cont_ok c (l.*1 ++ pg_waiting g ++ U) →
  NoDup (queue c ++ l.*1 ++ pg_waiting g ++ pg_popped g) →
  wp (fold_res filter_one (c, g, nf) l) (λ '(c', g', nf'), ∃ dropped,
    cont_ok c' (pg_waiting g' ++ U) ∧ queue c' = queue c ∧ pg_popped g' = pg_popped g ∧
    l.*1 ++ pg_waiting g ≡ₚ pg_waiting g' ++ dropped ∧
    dropping (id_to_transaction_state c) (id_to_transaction_state c') ∧
    (Forall (λ b, b = true) l.*2 → dropped = [])).
Proof.
  revert c g nf. induction l as [|[x b] l IH]; intros c g nf Hc Hnd; simpl.
  { wp_step. exists []. rewrite app_nil_r. split_and!; done. }
  wp_step. destruct b; simpl.
  - wp_step. eapply ttl_unwrap_ok; [exact Hc|simpl; left|]. intros ttl cost _. wp_step.
    assert (x ∉ pg_waiting g ++ pg_popped g) as Hx.
    { simpl in Hnd. rewrite <-Permutation_middle in Hnd. apply NoDup_cons in Hnd as [Hx _].
      intros Hin. apply Hx. by rewrite !elem_of_app in *; tauto. }
    eapply wp_mono; [apply IH|].
    + eapply cont_ok_perm; [|exact Hc]. rewrite pg_insert_waiting by done. csimpl.
      solve_Permutation.
    + rewrite pg_insert_waiting, pg_insert_popped by done. eapply NoDup_perm; [|exact Hnd].
      csimpl. solve_Permutation.
    + intros [[c' g'] nf'] (dr & Hc' & Hq & Hp & Hperm & Hd & Hall). exists dr. split_and!; try done.
      * by rewrite Hp, pg_insert_popped.
      * rewrite <-Hperm, pg_insert_waiting by done. solve_Permutation.
      * intros Hf%Forall_cons. naive_solver.
  - destruct (cont_ok_out _ _ _ Hc) as (ttl & cost & Hi). wp_step.
    eapply remove_by_id_ok; [exact Hi|]. wp_step.
    eapply wp_mono; [apply IH|].
    + by apply cont_ok_remove.
    + simpl in *. rewrite <-Permutation_middle in Hnd. by apply NoDup_cons in Hnd as [_ Hnd].
    + intros [[c' g'] nf'] (dr & Hc' & Hq & Hp & Hperm & Hd & Hall). exists (x :: dr).
      split_and!; try done.
      * rewrite Hperm. solve_Permutation.
      * eapply rtc_l; [|exact Hd]. simpl. eauto 6.
      * by intros [? _]%Forall_cons.
Qed.

(** What refilling the window does, with [U] the ids held back. *)
Definition refilled (accept : Prop) U w w' : Prop := ∃ dropped,
  cont_ok (w_container w') (w_waiting w' ++ U) ∧
  NoDup (w_queue w' ++ w_waiting w' ++ pg_popped (w_prio_graph w')) ∧
  pg_popped (w_prio_graph w') = pg_popped (w_prio_graph w) ∧
  w_queue w ++ w_waiting w ≡ₚ w_queue w' ++ w_waiting w' ++ dropped ∧
  dropping (w_states w) (w_states w') ∧ (accept → dropped = []).

Lemma refilled_refl accept U w :
  cont_ok (w_container w) (w_waiting w ++ U) →
  NoDup (w_queue w ++ w_waiting w ++ pg_popped (w_prio_graph w)) → refilled accept U w w.
Proof.
  intros. exists []. rewrite app_nil_r. split_and!; done.
Qed.

Lemma refilled_trans accept U w1 w2 w3 :
  refilled accept U w1 w2 → refilled accept U w2 w3 → refilled accept U w1 w3.
Proof.
  intros (d1 & _ & _ & Hp1 & Hq1 & Hd1 & Ha1) (d2 & Hc2 & Hn2 & Hp2 & Hq2 & Hd2 & Ha2).
  exists (d2 ++ d1). split_and!; [done|done|congruence| |by etrans|].
  - rewrite Hq1. transitivity ((w_queue w2 ++ w_waiting w2) ++ d1); [solve_Permutation|].
    rewrite Hq2. solve_Permutation.
  - intros Ha. by rewrite Ha1, Ha2.
Qed.

Section Chunks.
Context (pre_graph_filter : list Tx → list bool → list bool) (elapsed_us : list Tx → Z).
(** The filter gets a [&mut [bool]]: it cannot change its length. *)
Context (filter_length : ∀ txs l, length (pre_graph_filter txs l) = length l).
Context (accept : Prop).
Context (filter_accept : accept → ∀ txs l, Forall (λ b, b = true) (pre_graph_filter txs l)).

Lemma chunk_step_ok U w :
  cont_ok (w_container w) (w_waiting w ++ U) →
  NoDup (w_queue w ++ w_waiting w ++ pg_popped (w_prio_graph w)) → (0 < w_budget w)%Z →
  wp (chunk_step pre_graph_filter elapsed_us w) (λ '(w', brk),
    refilled accept U w w' ∧ (brk = false → length (w_queue w') < length (w_queue w)) ∧
    length (w_queue w') ≤ length (w_queue w) ∧
    (w_queue w ≠ [] → length (w_queue w') < length (w_queue w))).
Proof.
  intros Hc Hnd Hb. unfold chunk_step.
  set (k := Z.to_nat _). destruct (pop_chunk k (w_container w)) as [ids c1] eqn:Hk.
  pose proof (λ H0 H1, pop_chunk_some _ _ _ _ H0 H1 Hk) as Hsome.
  apply (pop_chunk_ok _ _ _ _ _ Hc) in Hk as (Hc1 & Hm1 & Hq1 & Hlen).
  assert (0 < k ≤ MAX_FILTER_CHUNK_SIZE) as Hk by (unfold k, MAX_FILTER_CHUNK_SIZE; lia).
  wp_step. eapply wp_mono; [apply wp_mapM_length|].
  { intros x Hx. wp_step. eapply ttl_unwrap_ok; [exact Hc1|apply elem_of_app; by left|].
    intros. by wp_step. }
  intros txs _. set (fl := pre_graph_filter _ _).
  assert (length ids ≤ length fl) as Hfl.
  { unfold fl. rewrite filter_length, length_take, length_replicate. lia. }
  wp_step. eapply wp_mono; [apply (filter_fold_ok _ _ _ _ U)|].
  - by rewrite fst_zip.
  - rewrite fst_zip by done. eapply NoDup_perm; [|exact Hnd]. rewrite Hq1. solve_Permutation.
  - intros [[c' g'] nf'] (dr & Hc' & Hq & Hp & Hperm & Hd & Hall). wp_step. simpl.
    rewrite fst_zip in Hperm by done.
    assert (length (w_queue w) = length ids + length (queue c1)) as Hlq by by rewrite Hq1, length_app.
    split_and!.
    + exists dr. simpl. split_and!; [done| |done| |by rewrite <-Hm1|].
      * rewrite Hq, Hp. apply (NoDup_drop_r _ dr). eapply NoDup_perm; [|exact Hnd].
        rewrite Hq1. transitivity ((ids ++ w_waiting w) ++ queue c1 ++ pg_popped (w_prio_graph w));
          [solve_Permutation|]. rewrite Hperm. solve_Permutation.
      * rewrite Hq1, Hq. transitivity ((ids ++ w_waiting w) ++ queue c1); [solve_Permutation|].
        rewrite Hperm. solve_Permutation.
      * intros Ha. apply Hall. apply Forall_fmap, Forall_forall. intros [y bb] Hy%elem_of_zip_r.
        exact (proj1 (Forall_forall _ _) (filter_accept Ha _ _) _ Hy).
    + intros Hbrk%bool_decide_eq_false. apply dec_stable in Hbrk. rewrite Hq. lia.
    + rewrite Hq. lia.
    + intros Hne. rewrite Hq. specialize (Hsome (proj1 Hk) Hne). lia.
Qed.

Lemma chunked_pops_ok fuel U w :
  cont_ok (w_container w) (w_waiting w ++ U) →
  NoDup (w_queue w ++ w_waiting w ++ pg_popped (w_prio_graph w)) →
  length (w_queue w) < fuel →
  wp (chunked_pops pre_graph_filter elapsed_us fuel w) (λ w', refilled accept U w w' ∧
    length (w_queue w') ≤ length (w_queue w) ∧
    ((0 < w_budget w)%Z → w_queue w ≠ [] → length (w_queue w') < length (w_queue w))).
Proof.
  revert w. induction fuel as [|fuel IH]; intros w Hc Hnd Hlt; [lia|]. simpl.
  case_decide as Hb; [|wp_step; split_and!; [by apply refilled_refl|done|done]].
  wp_step. eapply wp_mono; [by apply chunk_step_ok|]. intros [w1 brk] (Hr & Hq & Hle & Hs).
  destruct brk; [by wp_step|]. specialize (Hq eq_refl).
  pose proof Hr as (d & Hc1 & Hnd1 & _).
  eapply wp_mono; [apply IH; [done|done|lia]|]. intros w2 (Hr2 & Hle2 & _).
  split_and!; [by eapply refilled_trans|lia|lia].
Qed.
End Chunks.
End Window.
