(* ===== verification/ScheduleLoop.v ===== *)
(** * The loops of [schedule]

    The invariant [pass_ok] of a scheduling pass and its preservation by each
    step; from it, that every loop ends, that no step panics, and what a whole
    pass achieves. *)
From S2P Require Import Prelude ThreadSets AccountLocks AccountLocksFacts LockTheorems Messages.
From S2P Require Import RwAccountSet Heap Container InFlight PrioGraph Channels Scheduler Flights.
From S2P Require Import SchedulerCore SchedulerOps SchedulePass ScheduleWindow.
Import AccountLocks RwAccountSet Container PrioGraphScheduler.
Set Default Proof Using "Type*".

Section Loop.
Context {Pubkey Tx H G S R : Type}.
Context `{Countable Pubkey} `{Transactions Pubkey Tx}.
Context `{MinMaxHeapLaws H TransactionPriorityId priority_id_le}.
Context `{PrioGraphLaws G TransactionPriorityId Pubkey}.
Context `{SenderLaws S (SchedulingBatch Tx)}.
Implicit Types (s : t Pubkey S R) (c : TransactionStateContainer Tx H).
Implicit Types (p : pass Pubkey Tx H G S R).
Implicit Types (cur : list (list (job Tx))) (sent : gmap TransactionBatchId (nat * list (job Tx))).

Abbreviation p_queue p := (heap_into_vec (priority_queue (w_container (p_window p)))).
Abbreviation p_waiting p := (pg_waiting (w_prio_graph (p_window p))).
Abbreviation p_popped p := (pg_popped (w_prio_graph (p_window p))).
Abbreviation p_states p := (id_to_transaction_state (w_container (p_window p))).

(** Ids the pass can still reach: the measure of its loops. *)
Definition remaining p : nat := length (p_queue p) + length (p_waiting p).

Section Pass.
(** The scheduler, the queue, the flights and the map the pass started with,
    and whether its filters accept every transaction. *)
Context (s0 : t Pubkey S R) (q0 : list TransactionPriorityId) (F0 : list (nat * job Tx)).
Context (m0 : gmap TransactionId (TransactionState Tx)) (accept : Prop).

(** What a pass does not change of the scheduler. *)
Definition pass_frame s : Prop :=
  finished_consume_work_receiver s = finished_consume_work_receiver s0 ∧
  look_ahead_window_size s = look_ahead_window_size s0 ∧
  length (consume_work_senders s) = length (consume_work_senders s0).

(** Where the ids of the starting queue are: [hand] is the one just popped. *)
Definition history hand p cur sent : Prop := ∃ newF dropped,
  flights cur sent ≡ₚ newF ++ F0 ∧
  q0 ≡ₚ p_queue p ++ hand ++ p_waiting p ++ p_unschedulable_ids p ++
        (j_pid <$> newF.*2) ++ dropped ∧
  Z.of_nat (length newF) = p_num_scheduled p ∧ (accept → dropped = []).

Record pass_ok (hand : list TransactionPriorityId) p cur sent : Prop := {
  po_core : core_ok (p_self p) (p_states p) cur sent;
  po_batches : batches_ok (p_batches p) cur;
  po_cont : cont_ok (w_container (p_window p)) (hand ++ p_waiting p ++ p_unschedulable_ids p);
  po_popped : p_popped p ≡ₚ p_unblock_this_batch p;
  po_nodup : NoDup (p_queue p ++ p_waiting p ++ p_popped p);
  po_sched : (p_num_scheduled p = p_num_sent p + Z.of_nat (njobs cur))%Z;
  po_sent : (0 ≤ p_num_sent p)%Z;
  po_max : (p_num_scheduled p ≤ MAX_TRANSACTIONS_PER_SCHEDULING_PASS)%Z;
  po_ids : (Z.of_nat (remaining p + length hand + njobs cur) ≤ next_batch_id (p_self p))%Z;
  po_threads : ThreadSet.wf (p_schedulable_threads p);
  po_delivered : delivered (p_self p) sent;
  po_frame : pass_frame (p_self p);
  po_history : history hand p cur sent;
  po_evolves : evolves m0 (p_states p)
}.

(** What holds when a worker is gone: the bookkeeping is still consistent, but
    the ids in the graph and those held back are in the map and not in the queue. *)
Definition pass_failed p (e : SchedulerError) : Prop :=
  e = DisconnectedSendChannel "consume work sender" ∧ pass_frame (p_self p) ∧
  evolves m0 (p_states p) ∧
  cont_ok (w_container (p_window p)) (p_waiting p ++ p_unschedulable_ids p) ∧
  ∃ cur sent, core_ok (p_self p) (p_states p) cur sent.

(** ** Popping an id *)

Lemma pop_ok p cur sent x g' :
  pass_ok [] p cur sent → pg_pop (w_prio_graph (p_window p)) = (Some x, g') →
  let p' := set_unblock (set_window p (set_graph (p_window p) g'))
              (p_unblock_this_batch p ++ [x]) in
  pass_ok [x] p' cur sent ∧ Datatypes.S (remaining p') = remaining p.
Proof.
  intros [] Hpop. apply pg_pop_Some in Hpop as (_ & Hw & Hp).
  assert (Datatypes.S (length (pg_waiting g')) = length (p_waiting p)) as Hlen by by rewrite Hw.
  split; [|unfold remaining; simpl; lia]. split; try done; simpl in *.
  - eapply cont_ok_perm; [|done]. rewrite Hw. solve_Permutation.
  - rewrite Hp, po_popped0. solve_Permutation.
  - eapply NoDup_perm; [|done]. rewrite Hw, Hp. solve_Permutation.
  - unfold remaining in *. simpl. lia.
  - destruct po_history0 as (newF & dropped & HF & Hq & Hn & Ha). exists newF, dropped.
    split_and!; try done. simpl in *. rewrite Hq, Hw. solve_Permutation.
Qed.

(** ** The three fates of a popped id *)

(** The state of the id in hand. *)
Lemma hand_state x p cur sent :
  pass_ok [x] p cur sent → ∃ j, j_pid j = x ∧
    p_states p !! j_id j = Some (Unprocessed (j_ttl j) (priority (j_pid j)) (j_cost j)).
Proof.
  intros Hok. destruct (cont_ok_out _ _ _ (po_cont _ _ _ _ Hok)) as (ttl & cost & Hi).
  by exists (mkJob x ttl cost).
Qed.

Lemma filtered_ok x p cur sent ttl cost :
  pass_ok [x] p cur sent → ¬ accept →
  p_states p !! id x = Some (Unprocessed ttl (priority x) cost) →
  pass_ok [] (set_window p (set_container (p_window p)
    (set_states (w_container (p_window p)) (delete (id x) (p_states p))))) cur sent.
Proof.
  intros [] Hna Hi. split; try done; simpl in *.
  - by eapply core_ok_delete.
  - by apply cont_ok_remove.
  - unfold remaining in *. simpl. lia.
  - destruct po_history0 as (newF & dropped & HF & Hq & Hn & Ha). exists newF, (x :: dropped).
    split_and!; try done. simpl in *. rewrite Hq. solve_Permutation.
  - eapply evolves_change; [done|done| |left; apply lookup_delete_eq].
    intros. by apply lookup_delete_ne.
Qed.

Lemma held_back_ok x p cur sent bl n :
  pass_ok [x] p cur sent →
  pass_ok [] (mkPass (p_self p) (p_batches p) (p_window p) (p_schedulable_threads p)
                (p_unschedulable_ids p ++ [x]) bl (p_unblock_this_batch p)
                (p_num_scheduled p) (p_num_sent p) n) cur sent.
Proof.
  intros []. split; try done; simpl in *.
  - eapply cont_ok_perm; [|done]. solve_Permutation.
  - unfold remaining in *. simpl. lia.
  - destruct po_history0 as (newF & dropped & HF & Hq & Hn & Ha). exists newF, dropped.
    split_and!; try done. simpl in *. rewrite Hq. solve_Permutation.
Qed.

(** The pass with [j] committed to thread [t]. *)
Definition committed p (j : job Tx) locks' b' bl : pass Pubkey Tx H G S R :=
  mkPass (set_account_locks (p_self p) locks') b'
    (set_container (p_window p) (set_states (w_container (p_window p))
       (<[j_id j := Pending (j_ttl j) (priority (j_pid j)) (j_cost j)]> (p_states p))))
    (p_schedulable_threads p) (p_unschedulable_ids p) bl (p_unblock_this_batch p)
    (saturating_add u64_max (p_num_scheduled p) 1) (p_num_sent p) (p_num_unschedulable p).

Lemma committed_ok p cur sent j t js locks' b' bl :
  pass_ok [j_pid j] p cur sent → cur !! t = Some js →
  p_states p !! j_id j = Some (Unprocessed (j_ttl j) (priority (j_pid j)) (j_cost j)) →
  num_threads locks' = num_threads (account_locks (p_self p)) →
  lock_inv (mkLockState locks' (job_grant <$> ((t, j) :: flights cur sent))) →
  batches_ok b' (<[t := js ++ [j]]> cur) →
  (p_num_scheduled p < MAX_TRANSACTIONS_PER_SCHEDULING_PASS)%Z →
  pass_ok [] (committed p j locks' b' bl) (<[t := js ++ [j]]> cur) sent.
Proof.
  intros [] Ht Hj Hn Hl Hb Hlt. pose proof (njobs_insert cur t js (js ++ [j]) Ht) as Hnj.
  rewrite length_app in Hnj. simpl in Hnj.
  assert (saturating_add u64_max (p_num_scheduled p) 1 = p_num_scheduled p + 1)%Z as Hsat.
  { unfold saturating_add, u64_max, MAX_TRANSACTIONS_PER_SCHEDULING_PASS in *. lia. }
  split; simpl in *; rewrite ?Hsat; try done; try lia.
  - by apply core_ok_commit.
  - by apply cont_ok_pending.
  - unfold remaining in *. simpl in *. change (next_batch_id (set_account_locks _ _)) with (next_batch_id (p_self p)). lia.
  - destruct po_history0 as (newF & dropped & HF & Hq & Hnum & Ha). exists ((t, j) :: newF), dropped.
    split_and!; simpl in *; [| |rewrite Hsat; lia|done].
    + unfold flights in *. rewrite (cur_flight_push _ _ _ _ Ht). simpl. by rewrite HF.
    + rewrite Hq. solve_Permutation.
  - eapply evolves_change; [done|done| |right; apply lookup_insert_eq].
    intros. by apply lookup_insert_ne.
Qed.

(** ** Sending during a pass *)

Lemma pass_frame_send s s' : pass_frame s → send_frame s s' → pass_frame s'.
Proof. intros (? & ? & ?) (? & ? & ? & ?). split_and!; congruence. Qed.

(** Batches that are gone leave the pass consistent, whether they were
    delivered or not. *)
Lemma gone_ok p cur sent s' b' cur' sent' :
  pass_ok [] p cur sent → batches_gone (p_self p) (p_states p) cur sent s' b' cur' sent' →
  delivered s' sent' →
  pass_ok [] (set_sent p s' b'
    (saturating_add u64_max (p_num_sent p) (Z.of_nat (njobs cur - njobs cur')))) cur' sent'.
Proof.
  intros [] (Hc & Hb & Hfr & Hsub & Hn & Hid & Hperm & _) Hd.
  assert (saturating_add u64_max (p_num_sent p) (Z.of_nat (njobs cur - njobs cur')) =
          p_num_sent p + Z.of_nat (njobs cur - njobs cur'))%Z as Hsat.
  { unfold saturating_add, u64_max, MAX_TRANSACTIONS_PER_SCHEDULING_PASS in *. lia. }
  split; simpl in *; rewrite ?Hsat; try done; try lia.
  - unfold remaining in *. simpl in *. lia.
  - by eapply pass_frame_send.
  - destruct po_history0 as (newF & dropped & HF & Hq & Hnum & Ha). exists newF, dropped.
    by rewrite <-Hperm.
Qed.

Lemma gone_failed p cur sent s' b' cur' sent' n :
  pass_ok [] p cur sent → batches_gone (p_self p) (p_states p) cur sent s' b' cur' sent' →
  pass_failed (set_sent p s' b' n) (DisconnectedSendChannel "consume work sender").
Proof.
  intros [] (Hc & Hb & Hfr & _). split_and!; try done; simpl.
  - by eapply pass_frame_send.
  - eauto.
Qed.

Lemma flush_ok p cur sent :
  pass_ok [] p cur sent →
  wp (flush p) (λ '(p', e), match e with
    | Some e => pass_failed p' e
    | None => ∃ cur' sent', pass_ok [] p' cur' sent' ∧ njobs cur' = 0 ∧
        p_window p' = p_window p ∧ p_unblock_this_batch p' = p_unblock_this_batch p ∧
        p_num_scheduled p' = p_num_scheduled p ∧ p_unschedulable_ids p' = p_unschedulable_ids p
    end).
Proof.
  intros Hok. pose proof Hok as []. unfold flush. wp_step.
  eapply wp_mono; [apply send_batches_ok; [done|done|]|].
  { simpl in *. lia. }
  intros [[s' b'] r] (cur' & sent' & Hg & Hr). destruct r as [k|e]; wp_step.
  - destruct Hr as (-> & Hz & Hd). exists cur', sent'. split_and!; try done.
    replace (njobs cur) with (njobs cur - njobs cur') by lia. eapply gone_ok; eauto.
  - subst e. by eapply gone_failed.
Qed.

(** ** One iteration of the inner loop *)

(** The outcome of a step, measured against the ids that remained before. *)
Definition step_post (rem : nat) (p' : pass Pubkey Tx H G S R) (f : flow) : Prop :=
  match f with
  | Return e => pass_failed p' e
  | _ => (∃ cur' sent', pass_ok [] p' cur' sent') ∧ remaining p' ≤ rem ∧
         (f = Continue → (p_num_scheduled p' < MAX_TRANSACTIONS_PER_SCHEDULING_PASS)%Z)
  end.

Lemma check_limits_ok max_cu t p cur sent :
  pass_ok [] p cur sent → t < length cur →
  wp (check_limits max_cu t p) (λ '(p', f), step_post (remaining p) p' f).
Proof.
  intros Hok Ht. pose proof Hok as []. unfold check_limits.
  pose proof (core_thread_load _ _ _ _ _ t po_core0 po_batches0) as Hl.
  rewrite <-(core_cur _ _ _ _ po_core0) in Hl. specialize (Hl Ht). unfold thread_load in Hl.
  res_split Hl as c1 Hc1. res_split Hl as c2 Hc2. res_split Hl as sm Hsm.
  rewrite Hc1, Hc2. simpl. rewrite (proj2 (checked_add_Ok _ _ _ (c2 + c1)%Z)); simpl;
    [|apply checked_add_Ok in Hsm; lia].
  assert (∀ p', (∃ cur' sent', pass_ok [] p' cur' sent') → remaining p' = remaining p →
    wp (if decide (MAX_TRANSACTIONS_PER_SCHEDULING_PASS ≤ p_num_scheduled p')%Z
        then Ok (p', Break) else Ok (p', Continue)) (λ '(p', f), step_post (remaining p) p' f)) as Hlim.
  { intros p' Hp' Hr. case_decide; wp_step; split_and!; try done; try lia. }
  case_decide; [|apply Hlim; eauto]. wp_step.
  pose proof (core_pos _ _ _ _ po_core0) as Hn. rewrite <-(core_cur _ _ _ _ po_core0) in Hn.
  apply ThreadSetFacts.wp_remove; [done|lia|]. intros ts Hts _.
  assert (pass_ok [] (set_schedulable p ts) cur sent) as Hok' by by split.
  destruct (ThreadSet.is_empty ts).
  - wp_step. split_and!; try done. eauto.
  - apply (Hlim (set_schedulable p ts)); [eauto|done].
Qed.

(** The batch of one thread is sent. *)
Lemma send_one_ok p cur sent t js :
  pass_ok [] p cur sent → cur !! t = Some js →
  wp (send_batch (p_self p) (p_batches p) t) (λ '(s', b', r), match r with
    | inl k => ∃ sent', pass_ok [] (set_sent p s' b'
                 (saturating_add u64_max (p_num_sent p) (Z.of_nat k))) (<[t := []]> cur) sent'
    | inr e => pass_failed (set_sent p s' b' (p_num_sent p)) e
    end).
Proof.
  intros Hok Ht. pose proof Hok as []. pose proof (njobs_ge _ _ _ Ht) as Hge.
  eapply wp_mono; [eapply send_batch_ok; [done|done|done|]|].
  { intros Hjs. destruct js; [done|]. simpl in *. lia. }
  intros [[s' b'] r] (sent' & Hg & Hr). apply batch_gone_batches in Hg; [|done].
  destruct r as [k|e].
  - destruct Hr as [-> Hd]. exists sent'.
    pose proof (njobs_insert cur t js [] Ht) as Hn. simpl in Hn.
    replace (length js) with (njobs cur - njobs (<[t := []]> cur)) by lia.
    eapply gone_ok; eauto.
  - subst e. by eapply gone_failed.
Qed.

Lemma commit_scheduled_ok max_cu j t js locks' bl p cur sent :
  pass_ok [j_pid j] p cur sent → cur !! t = Some js →
  p_states p !! j_id j = Some (Unprocessed (j_ttl j) (priority (j_pid j)) (j_cost j)) →
  num_threads locks' = num_threads (account_locks (p_self p)) →
  lock_inv (mkLockState locks' (job_grant <$> ((t, j) :: flights cur sent))) →
  (p_num_scheduled p < MAX_TRANSACTIONS_PER_SCHEDULING_PASS)%Z →
  wp (commit_scheduled max_cu (j_pid j) (mkInfo t (j_tx j) (max_age (j_ttl j)) (j_cost j))
        (mkPass (set_account_locks (p_self p) locks') (p_batches p)
           (set_container (p_window p) (set_states (w_container (p_window p))
              (<[j_id j := Pending (j_ttl j) (priority (j_pid j)) (j_cost j)]> (p_states p))))
           (p_schedulable_threads p) (p_unschedulable_ids p) bl (p_unblock_this_batch p)
           (p_num_scheduled p) (p_num_sent p) (p_num_unschedulable p)))
     (λ '(p', f), step_post (remaining p) p' f).
Proof.
  intros Hok Ht Hj Hn Hl Hlt. pose proof Hok as []. unfold commit_scheduled. wp_step. simpl.
  eapply wp_mono; [eapply push_batches_ok; [done|done|by eapply core_cost_room]|].
  intros b' Hb'. set (cur1 := <[t := js ++ [j]]> cur) in *.
  assert (cur1 !! t = Some (js ++ [j])) as Ht1
    by (apply list_lookup_insert_eq; by eapply lookup_lt_Some).
  pose proof (committed_ok p cur sent j t js locks' b' bl Hok Ht Hj Hn Hl Hb' Hlt) as Hok1.
  fold cur1 in Hok1. unfold committed in Hok1.
  set (p1 := mkPass _ b' _ _ _ _ _ _ _ _) in *.
  pose proof (batches_ok_lookup _ _ _ _ Hb' Ht1) as (Hi & _).
  wp_step. eapply wp_vec_get; [exact Hi|]. case_decide.
  - wp_step. change (send_batch _ b' t) with (send_batch (p_self p1) (p_batches p1) t).
    eapply wp_mono; [by eapply send_one_ok|]. intros [[s' b2] r] Hr. destruct r as [k|e].
    + destruct Hr as (sent' & Hok2). eapply wp_mono; [eapply check_limits_ok; [exact Hok2|]|].
      * rewrite length_insert. by eapply lookup_lt_Some.
      * intros [p' f] Hpost. exact Hpost.
    + by wp_step.
  - change (remaining p) with (remaining p1).
    eapply check_limits_ok; [exact Hok1|]. by eapply lookup_lt_Some.
Qed.

Section Steps.
Context (pre_graph_filter : list Tx → list bool → list bool) (pre_lock_filter : Tx → bool).
Context (elapsed_us : list Tx → Z) (max_cu : Z).
Context (filter_length : ∀ txs l, length (pre_graph_filter txs l) = length l).
Context (filter_accept : accept → ∀ txs l, Forall (λ b, b = true) (pre_graph_filter txs l)).
Context (lock_accept : accept → ∀ tx, pre_lock_filter tx = true).

Lemma set_account_locks_id s : set_account_locks s (account_locks s) = s.
Proof. by destruct s. Qed.
Lemma store_id c i st :
  id_to_transaction_state c !! i = Some st →
  set_states c (<[i := st]> (id_to_transaction_state c)) = c.
Proof. intros Hi. unfold set_states. rewrite insert_id by done. by destruct c. Qed.
Lemma set_container_id (w : window Tx H G) : set_container w (w_container w) = w.
Proof. by destruct w. Qed.

Lemma schedule_one_ok p cur sent x g' :
  pass_ok [] p cur sent → pg_pop (w_prio_graph (p_window p)) = (Some x, g') →
  (p_num_scheduled p < MAX_TRANSACTIONS_PER_SCHEDULING_PASS)%Z →
  wp (schedule_one pre_lock_filter (length (consume_work_senders (p_self p))) max_cu x
        (set_window p (set_graph (p_window p) g')))
     (λ '(p', f), step_post (Nat.pred (remaining p)) p' f).
Proof.
  intros Hok0 Hpop Hlt. destruct (pop_ok _ _ _ _ _ Hok0 Hpop) as [Hok Hrem].
  unfold schedule_one. set (p1 := set_unblock _ _) in *.
  change (set_unblock _ _) with p1. change (p_self p) with (p_self p1) in *.
  change (p_num_scheduled p) with (p_num_scheduled p1) in Hlt.
  rewrite <-Hrem. simpl Nat.pred. clearbody p1. clear Hok0 Hpop Hrem g'.
  destruct (hand_state _ _ _ _ Hok) as (j & <- & Hj). pose proof Hok as [].
  wp_step. unfold get_mut_transaction_state. change (id (j_pid j)) with (j_id j). rewrite Hj. simpl.
  wp_step. wp_step. eapply wp_mono; [by eapply try_schedule_ok|].
  intros [[[st bl'] locks'] r]. unfold try_schedule_post. destruct r as [info|[]].
  - intros (t & -> & -> & -> & _ & _ & (Ht & _) & _ & Hn & Hl).
    rewrite (core_threads _ _ _ _ po_core0), <-(core_cur _ _ _ _ po_core0) in Ht.
    destruct (lookup_lt_is_Some_2 _ _ Ht) as [js Hjs]. by eapply commit_scheduled_ok.
  - intros (-> & -> & -> & Hf). rewrite (store_id _ _ _ Hj), set_account_locks_id, set_container_id.
    wp_step. eapply remove_by_id_ok; [exact Hj|]. wp_step. split; [|split; [done|intros _; exact Hlt]].
    exists cur, sent. destruct p1. eapply filtered_ok; [done| |done].
    intros Ha. by rewrite (lock_accept Ha) in Hf.
  - intros (-> & -> & -> & _). rewrite (store_id _ _ _ Hj), set_account_locks_id, set_container_id.
    wp_step. split; [|split; [done|intros _; exact Hlt]].
    exists cur, sent. by apply held_back_ok.
Qed.

Lemma inner_loop_ok fuel p cur sent :
  pass_ok [] p cur sent → remaining p < fuel →
  (p_num_scheduled p < MAX_TRANSACTIONS_PER_SCHEDULING_PASS)%Z →
  wp (inner_loop pre_lock_filter (length (consume_work_senders (p_self p))) max_cu fuel p)
     (λ '(p', e), match e with
        | Some e => pass_failed p' e
        | None => (∃ cur' sent', pass_ok [] p' cur' sent') ∧ remaining p' ≤ remaining p ∧
            (pg_is_empty (w_prio_graph (p_window p)) = false → remaining p' < remaining p)
        end).
Proof.
  revert p cur sent. induction fuel as [|fuel IH]; intros p cur sent Hok Hfuel Hlt; [lia|]. simpl.
  destruct (pg_pop _) as [[x|] g'] eqn:Hpop.
  - pose proof (pop_ok _ _ _ _ _ Hok Hpop) as [_ Hrem].
    wp_step. eapply wp_mono; [by eapply schedule_one_ok|]. intros [p1 f] Hpost.
    destruct f; simpl in Hpost.
    + destruct Hpost as ((cur1 & sent1 & Hok1) & Hr1 & Hlt1). specialize (Hlt1 eq_refl).
      assert (length (consume_work_senders (p_self p)) = length (consume_work_senders (p_self p1))) as ->.
      { destruct (po_frame _ _ _ _ Hok) as (_ & _ & ->). by destruct (po_frame _ _ _ _ Hok1) as (_ & _ & ->). }
      eapply wp_mono; [eapply IH; [done|lia|done]|]. intros [p2 [e|]]; [done|].
      intros (? & ? & ?). split_and!; [done|lia|lia].
    + destruct Hpost as (Hex & Hr1 & _). wp_step. split_and!; [done|lia|lia].
    + by wp_step.
  - apply pg_pop_None in Hpop as [-> Hemp]. wp_step. split_and!; [|done|congruence].
    exists cur, sent. destruct p as [? ? []]. done.
Qed.

(** ** Refilling the window and unblocking *)

Lemma set_window_ok p cur sent w' dropped :
  pass_ok [] p cur sent →
  cont_ok (w_container w') (pg_waiting (w_prio_graph w') ++ p_unschedulable_ids p) →
  pg_popped (w_prio_graph w') ≡ₚ p_unblock_this_batch p →
  NoDup (heap_into_vec (priority_queue (w_container w')) ++ pg_waiting (w_prio_graph w') ++
         pg_popped (w_prio_graph w')) →
  p_queue p ++ p_waiting p ≡ₚ heap_into_vec (priority_queue (w_container w')) ++
                              pg_waiting (w_prio_graph w') ++ dropped →
  dropping (p_states p) (id_to_transaction_state (w_container w')) → (accept → dropped = []) →
  pass_ok [] (set_window p w') cur sent ∧ remaining (set_window p w') ≤ remaining p.
Proof.
  intros [] Hc Hp Hnd Hq Hd Ha.
  assert (remaining (set_window p w') ≤ remaining p) as Hr.
  { apply Permutation_length in Hq. rewrite !length_app in Hq. unfold remaining. simpl. lia. }
  split; [|done]. split; try done; simpl in *.
  - by eapply core_ok_dropping.
  - lia.
  - destruct po_history0 as (newF & dr & HF & Hq0 & Hn & Hacc). exists newF, (dropped ++ dr).
    split_and!; try done.
    + rewrite Hq0. simpl. rewrite app_assoc, Hq. solve_Permutation.
    + intros HA. by rewrite Ha, Hacc.
  - by eapply evolves_dropping.
Qed.

Lemma refill_ok fuel p cur sent b :
  pass_ok [] p cur sent → remaining p < fuel →
  wp (chunked_pops pre_graph_filter elapsed_us fuel (set_budget (p_window p) b))
     (λ w', pass_ok [] (set_window p w') cur sent ∧ remaining (set_window p w') ≤ remaining p).
Proof.
  intros Hok Hlt. pose proof Hok as [].
  eapply wp_mono; [eapply (chunked_pops_ok _ _ filter_length accept filter_accept _
                             (p_unschedulable_ids p)); simpl; [done|done|]|].
  { unfold remaining in Hlt. lia. }
  intros w' ((dropped & Hc & Hnd & Hp & Hq & Hd & Ha) & _). eapply set_window_ok; try done.
  by rewrite Hp.
Qed.

Lemma unblock_fold_ok l (g : G) :
  pg_popped g ≡ₚ l →
  wp (fold_res (λ g id, pg_unblock id g) g l)
     (λ g', pg_waiting g' ≡ₚ pg_waiting g ∧ pg_popped g' = []).
Proof.
  revert g. induction l as [|x l IH]; intros g Hl; simpl.
  { wp_step. split; [done|]. by apply Permutation_nil_r. }
  destruct (pg_unblock_ok x g) as (g1 & -> & Hw & Hp); [rewrite Hl; left|].
  wp_step. wp_step. eapply wp_mono; [apply IH|].
  { rewrite Hl in Hp. by apply Permutation_cons_inv in Hp. }
  intros g2 [Hw2 Hp2]. by rewrite Hw2.
Qed.

Lemma unblock_all_ok p cur sent :
  pass_ok [] p cur sent →
  wp (unblock_all p) (λ p', pass_ok [] p' cur sent ∧ remaining p' ≤ remaining p ∧ p_popped p' = []).
Proof.
  intros Hok. pose proof Hok as []. unfold unblock_all. wp_step.
  eapply wp_mono; [by apply unblock_fold_ok|]. intros g' [Hw Hp]. wp_step. split_and!; [|  |done].
  - split; try done; simpl in *.
    + eapply cont_ok_perm; [|done]. by rewrite Hw.
    + by rewrite Hp.
    + rewrite Hw, Hp, app_nil_r. rewrite app_assoc in po_nodup0. by eapply NoDup_drop_r.
    + unfold remaining in *. simpl. rewrite Hw. lia.
    + destruct po_history0 as (newF & dr & HF & Hq0 & Hn & Hacc). exists newF, dr.
      split_and!; try done. simpl in *. by rewrite Hw.
  - unfold remaining. simpl. by rewrite Hw.
Qed.

(** ** The outer loop *)

Lemma outer_loop_ok fuel0 fuel p cur sent :
  pass_ok [] p cur sent → p_popped p = [] → remaining p < fuel0 → remaining p < fuel →
  wp (outer_loop pre_graph_filter pre_lock_filter elapsed_us
        (length (consume_work_senders s0)) max_cu fuel0 fuel p)
     (λ '(p', e), match e with
        | Some e => pass_failed p' e
        | None => (∃ cur' sent', pass_ok [] p' cur' sent') ∧ p_popped p' = [] ∧
                  remaining p' ≤ remaining p
        end).
Proof.
  revert p cur sent. induction fuel as [|fuel IH]; intros p cur sent Hok Hpop Hf0 Hf; [lia|].
  simpl. case_decide as Hlt; [|wp_step; eauto].
  destruct (pg_is_empty _) eqn:Hemp; [wp_step; eauto|].
  assert (length (consume_work_senders s0) = length (consume_work_senders (p_self p))) as Hn
    by by destruct (po_frame _ _ _ _ Hok) as (_ & _ & ->).
  wp_step. rewrite Hn at 1. eapply wp_mono; [by eapply inner_loop_ok|].
  intros [p1 [e|]]; [intros; by wp_step|]. intros ((cur1 & sent1 & Hok1) & Hr1 & Hr1').
  specialize (Hr1' Hemp). wp_step. eapply wp_mono; [by eapply flush_ok|].
  intros [p2 [e|]]; [intros; by wp_step|].
  intros (cur2 & sent2 & Hok2 & _ & Hw2 & _).
  assert (remaining p2 = remaining p1) as Hr2 by (unfold remaining; by rewrite Hw2).
  wp_step. eapply wp_mono; [apply (refill_ok fuel0 p2 cur2 sent2); [done|lia]|]. intros w3 [Hok3 Hr3].
  wp_step. eapply wp_mono; [by eapply unblock_all_ok|]. intros p4 (Hok4 & Hr4 & Hpop4).
  eapply wp_mono; [eapply IH; [done|done|lia|lia]|]. intros [p5 [e|]]; [done|].
  intros (? & ? & ?). split_and!; [done|done|lia].
Qed.
End Steps.
End Pass.
End Loop.
