(* ===== verification/ScheduleSpec.v ===== *)
(** * A whole scheduling pass

    The end of [schedule] (ids pushed back into the queue) and the specification
    of the function as a whole: it does not panic, keeps the scheduler's
    invariant, and accounts for every id of the queue. *)
From S2P Require Import Prelude ThreadSets AccountLocks AccountLocksFacts LockTheorems Messages.
From S2P Require Import RwAccountSet Heap Container InFlight PrioGraph Channels Scheduler Flights.
From S2P Require Import SchedulerCore SchedulerOps SchedulePass ScheduleWindow ScheduleLoop.
Import AccountLocks RwAccountSet Container PrioGraphScheduler.
Set Default Proof Using "Type*".

Section Spec.
Context {Pubkey Tx H G S R : Type}.
Context `{Countable Pubkey} `{Transactions Pubkey Tx}.
Context `{MinMaxHeapLaws H TransactionPriorityId priority_id_le}.
Context `{PrioGraphLaws G TransactionPriorityId Pubkey}.
Context `{SenderLaws S (SchedulingBatch Tx)}.
Implicit Types (s : t Pubkey S R) (c : TransactionStateContainer Tx H) (g : G).
Implicit Types (cur : list (list (job Tx))) (sent : gmap TransactionBatchId (nat * list (job Tx))).
Abbreviation queue c := (heap_into_vec (priority_queue c)).

(** ** Back into the queue *)

Definition pushed_back (l U : list TransactionPriorityId) c c' : Prop :=
  cont_ok c' U ∧ queue c' ≡ₚ queue c ++ l ∧
  id_to_transaction_state c' = id_to_transaction_state c.

Lemma push_back_all_ok l U c :
  cont_ok c (l ++ U) →
  wp (fold_res (λ c id, '(c, _) ← push_id_into_queue c id; Ok c) c l) (pushed_back l U c).
Proof.
  revert c. induction l as [|x l IH]; intros c Hc; simpl.
  { wp_step. split_and!; [done|by rewrite app_nil_r|done]. }
  wp_step. wp_step. apply (push_back_ok _ _ _ _ Hc). intros c1 Hc1 Hq1 Hm1 _. wp_step.
  eapply wp_mono; [by apply IH|]. intros c2 (Hc2 & Hq2 & Hm2). split_and!; [done| |congruence].
  rewrite Hq2, Hq1. solve_Permutation.
Qed.

(** The graph hands back everything it still holds. *)
Lemma drain_graph_ok fuel c g U :
  cont_ok c (pg_waiting g ++ U) → pg_popped g = [] → length (pg_waiting g) < fuel →
  wp (drain_graph fuel c g) (λ '(c', _), pushed_back (pg_waiting g) U c c').
Proof.
  revert c g. induction fuel as [|fuel IH]; intros c g Hc Hp Hlt; [lia|]. simpl.
  rewrite pg_pop_and_unblock_eq. destruct (pg_pop g) as [[x|] g1] eqn:Hpop.
  - apply pg_pop_Some in Hpop as (_ & Hw & Hp1). rewrite Hp in Hp1.
    destruct (pg_unblock_ok x g1) as (g2 & -> & Hw2 & Hp2); [rewrite Hp1; left|]. simpl.
    assert (pg_popped g2 = []) as Hnil.
    { rewrite Hp1 in Hp2. symmetry in Hp2. apply Permutation_cons_inv in Hp2. by apply Permutation_nil_r. }
    rewrite <-Hw2 in Hw. rewrite Hw in Hc, Hlt. simpl in Hc, Hlt. wp_step. apply (push_back_ok _ _ _ _ Hc).
    intros c1 Hc1 Hq1 Hm1 _. eapply wp_mono; [apply IH; [done|done|lia]|].
    intros [c2 g3] (Hc2 & Hq2 & Hm2). split_and!; [done| |congruence].
    rewrite Hq2, Hq1, Hw. solve_Permutation.
  - apply pg_pop_None in Hpop as [-> Hemp]. simpl.
    destruct (pg_waiting g) as [|x l] eqn:Hw.
    + wp_step. split_and!; [done|by rewrite app_nil_r|done].
    + rewrite pg_progress in Hemp; [done|done|]. by rewrite Hw.
Qed.

(** ** The specification *)

(** Nothing is under construction between calls. *)
Definition idle s : list (list (job Tx)) := replicate (length (consume_work_senders s)) [].

(** The invariant between calls, [sent] being the batches handed out. *)
Record sched_ok s c sent : Prop := {
  so_core : core_ok s (id_to_transaction_state c) (idle s) sent;
  so_cont : cont_ok c [];
  so_delivered : delivered s sent
}.

Lemma njobs_replicate n : njobs (replicate n ([] : list (job Tx))) = 0.
Proof. unfold njobs. by induction n. Qed.

Lemma cur_flight_idle s : cur_flight (idle s) = [].
Proof. apply nil_length_inv. rewrite length_cur_flight. apply njobs_replicate. Qed.

Lemma flights_idle s sent : flights (idle s) sent = sent_flight sent.
Proof. unfold flights. by rewrite cur_flight_idle. Qed.

Lemma njobs_zero cur : njobs cur = 0 → cur = replicate (length cur) [].
Proof.
  unfold njobs. induction cur as [|js cur IH]; simpl; [done|]. rewrite length_app.
  destruct js; simpl; [|done]. intros Hz. f_equal. auto.
Qed.

Lemma batches_new_ok n : batches_ok (Batches_new (Tx:=Tx) n) (replicate n []).
Proof. unfold batches_ok, Batches_new. simpl. by rewrite !fmap_replicate. Qed.

(** What a pass reports and does: [newF] are the transactions it sent, with
    their threads, [dropped] those its filters rejected. *)
Definition scheduled (accept : Prop) s c sent s' c' (sm : SchedulingSummary) : Prop :=
  ∃ sent' newF dropped,
    sched_ok s' c' sent' ∧ sent_flight sent' ≡ₚ newF ++ sent_flight sent ∧
    queue c ≡ₚ queue c' ++ (j_pid <$> newF.*2) ++ dropped ∧
    Z.of_nat (length newF) = num_scheduled sm ∧ (accept → dropped = []).

(** A worker was gone: nothing conflicting was handed out, but [out] ids are
    left in the map without being queued. *)
Definition send_failed c s' c' (e : SchedulerError) : Prop :=
  e = DisconnectedSendChannel "consume work sender" ∧
  evolves (id_to_transaction_state c) (id_to_transaction_state c') ∧
  (∃ cur sent', core_ok s' (id_to_transaction_state c') cur sent') ∧ ∃ out, cont_ok c' out.

Section Schedule.
Context (MAX_BLOCK_UNITS : Z).
Context (pre_graph_filter : list Tx → list bool → list bool) (pre_lock_filter : Tx → bool).
Context (elapsed_us : list Tx → Z) (accept : Prop).
Context (filter_length : ∀ txs l, length (pre_graph_filter txs l) = length l).
Context (filter_accept : accept → ∀ txs l, Forall (λ b, b = true) (pre_graph_filter txs l)).
Context (lock_accept : accept → ∀ tx, pre_lock_filter tx = true).

Lemma unsaturated_threads_ok s m cur sent max_cu :
  core_ok s m cur sent →
  wp (unsaturated_threads s (length (consume_work_senders s)) max_cu) ThreadSet.wf.
Proof.
  intros Hc. pose proof (core_pos _ _ _ _ Hc) as Hn. unfold unsaturated_threads. wp_step.
  apply ThreadSetFacts.wp_any; [lia|]. intros all Hall _.
  apply (wp_fold_res _ (λ _, ThreadSet.wf)); [done|].
  intros pre t post ts Hl Hts.
  assert (t < length (consume_work_senders s)) as Ht.
  { assert (t ∈ seq 0 (length (consume_work_senders s))) as Hin%elem_of_seq; [|lia].
    rewrite Hl. apply elem_of_app. right. left. }
  destruct (lookup_lt_is_Some_2
    (InFlightTracker.cus_in_flight_per_thread (in_flight_tracker s)) t) as [x Hx].
  { by rewrite (InFlightTracker.ok_cus_len _ _ (core_tracker _ _ _ _ Hc)). }
  wp_step. eapply wp_vec_get; [exact Hx|]. case_decide; [|by wp_step].
  apply ThreadSetFacts.wp_remove; [done|lia|]. done.
Qed.

(** The state in which the loops start. *)
Definition pass_start s w ts : pass Pubkey Tx H G S R :=
  mkPass s (Batches_new (length (consume_work_senders s))) w ts []
    rw_default [] 0 0 0.

Lemma pass_start_ok s c sent w ts :
  sched_ok s c sent → (Z.of_nat (length (queue c)) ≤ next_batch_id s)%Z → ThreadSet.wf ts →
  refilled accept [] (mkWindow c (pg_new : G) (look_ahead_window_size s) 0 0) w →
  pass_ok s (queue c) (sent_flight sent) (id_to_transaction_state c) accept []
    (pass_start s w ts) (idle s) sent ∧
  remaining (pass_start s w ts) ≤ length (queue c).
Proof.
  intros [Hc Hcont Hd] Hid Hts (dropped & Hcw & Hnd & Hp & Hq & Hdr & Ha). simpl in *.
  rewrite pg_new_popped in Hp. rewrite pg_new_waiting, app_nil_r in Hq.
  assert (remaining (pass_start s w ts) ≤ length (queue c)) as Hr.
  { apply Permutation_length in Hq. rewrite !length_app in Hq. unfold remaining. simpl. lia. }
  split; [|done]. split; simpl; try done.
  - by eapply core_ok_dropping.
  - apply batches_new_ok.
  - by rewrite Hp.
  - unfold idle. rewrite njobs_replicate. done.
  - unfold idle. rewrite njobs_replicate. simpl. lia.
  - exists [], dropped. rewrite flights_idle. done.
  - eapply evolves_dropping; [apply evolves_refl|done].
Qed.

(** The last part of [schedule], once the loops are done and everything is sent. *)
Lemma finish_ok s c sent p cur fuel sent1 :
  pass_ok s (queue c) (sent_flight sent) (id_to_transaction_state c) accept [] p cur sent1 →
  njobs cur = 0 → pg_popped (w_prio_graph (p_window p)) = [] →
  length (pg_waiting (w_prio_graph (p_window p))) < fuel →
  wp (c ← fold_res (λ c id, '(c, _) ← push_id_into_queue c id; Ok c)
            (w_container (p_window p)) (p_unschedulable_ids p);
      '(c, _) ← drain_graph fuel c (w_prio_graph (p_window p));
      _ ← assert_res (bool_decide (p_num_scheduled p = p_num_sent p))
            "number of scheduled and sent transactions must match";
      Ok (p_self p, c,
          inl (mkSummary (p_num_scheduled p) (p_num_unschedulable p)
                 (w_num_filtered_out (p_window p)) (w_total_filter_time_us (p_window p)))))
     (λ '(s', c', r), match r with
        | inl sm => scheduled accept s c sent s' c' sm ∧ pass_frame s s' ∧
                    evolves (id_to_transaction_state c) (id_to_transaction_state c')
        | inr e => send_failed c s' c' e
        end).
Proof.
  intros [] Hz Hpop Hlt. simpl in *.
  wp_step. eapply wp_mono; [apply (push_back_all_ok _ (pg_waiting (w_prio_graph (p_window p))))|].
  { by rewrite Permutation_app_comm. }
  intros c1 (Hc1 & Hq1 & Hm1). wp_step.
  eapply wp_mono; [apply (drain_graph_ok _ _ _ []); [by rewrite app_nil_r|done|done]|].
  intros [c2 g2] (Hc2 & Hq2 & Hm2). wp_step. wp_step; [apply bool_decide_eq_true; lia|]. wp_step.
  rewrite Hm1 in Hm2. rewrite Hm2.
  assert (cur = idle (p_self p)) as ->.
  { rewrite (njobs_zero _ Hz). unfold idle. by rewrite (core_cur _ _ _ _ po_core). }
  destruct po_history as (newF & dropped & HF & Hq & Hn & Ha). rewrite flights_idle in HF.
  split_and!; [|done|done]. exists sent1, newF, dropped. split_and!; try done.
  - split; [by rewrite Hm2|done|done].
  - rewrite Hq, Hq2, Hq1. simpl. solve_Permutation.
Qed.

(** [schedule] never panics: its loops end within the fuel the queue length
    gives, its assertion holds, and the state it leaves satisfies the invariant
    again. *)
Lemma schedule_ok s c sent :
  sched_ok s c sent → (Z.of_nat (length (queue c)) ≤ next_batch_id s)%Z →
  wp (schedule (G:=G) MAX_BLOCK_UNITS pre_graph_filter pre_lock_filter elapsed_us s c)
     (λ '(s', c', r), match r with
        | inl sm => scheduled accept s c sent s' c' sm ∧ pass_frame s s' ∧
                    evolves (id_to_transaction_state c) (id_to_transaction_state c')
        | inr e => send_failed c s' c' e
        end).
Proof.
  intros Hs Hid. pose proof Hs as [Hc Hcont Hd]. pose proof (core_pos _ _ _ _ Hc) as Hn.
  unfold schedule. wp_step. wp_step; [apply bool_decide_eq_true; lia|]. wp_step.
  set (max_cu := (_ `div` _)%Z).
  eapply wp_mono; [by eapply unsaturated_threads_ok|]. intros ts Hts.
  destruct (ThreadSet.is_empty ts).
  { wp_step. split_and!; [|done|apply evolves_refl]. exists sent, [], [].
    split_and!; try done. simpl. by rewrite app_nil_r. }
  unfold len. rewrite heap_len_elems. set (fuel := Datatypes.S _). wp_step.
  eapply wp_mono; [apply (chunked_pops_ok _ _ filter_length accept filter_accept _ []); simpl|].
  - by rewrite pg_new_waiting.
  - rewrite pg_new_waiting, pg_new_popped, app_nil_r. destruct Hcont as [[Hnd _] _].
    rewrite app_nil_r in Hnd. by eapply NoDup_fmap_1.
  - unfold fuel. lia.
  - intros w [Hw _]. pose proof Hw as (_ & _ & _ & Hp & _). simpl in Hp.
    destruct (pass_start_ok s c sent w ts Hs Hid Hts Hw) as [Hok Hr].
    wp_step. eapply wp_mono; [eapply outer_loop_ok; try done|].
    + rewrite <-(pg_new_popped (G:=G) (Pubkey:=Pubkey)). exact Hp.
    + by apply Nat.lt_succ_r.
    + by apply Nat.lt_succ_r.
    + intros [p1 [e|]].
      { intros (-> & _ & Hev & Hcf & Hex). wp_step. split_and!; [done|done|done|eauto]. }
      intros ((cur1 & sent1 & Hok1) & Hpop1 & Hr1). wp_step.
      eapply wp_mono; [by eapply flush_ok|]. intros [p2 [e|]].
      { intros (-> & _ & Hev & Hcf & Hex). wp_step. split_and!; [done|done|done|eauto]. }
      intros (cur2 & sent2 & Hok2 & Hz & Hw2 & _). eapply finish_ok; [done|done|by rewrite Hw2|].
      rewrite Hw2. fold (pass_start s w ts) in Hr1. unfold remaining in Hr1 at 1. unfold fuel. lia.
Qed.
End Schedule.
End Spec.
