(* ===== verification/ScheduleProgress.v ===== *)
(** * Progress of a scheduling pass

    When nothing is in flight, a pass over a queue that is not empty schedules
    at least one transaction: the first one popped from the graph. *)
From S2P Require Import Prelude ThreadSets AccountLocks AccountLocksFacts LockTheorems Messages.
From S2P Require Import RwAccountSet Heap Container InFlight PrioGraph Channels Scheduler Flights.
From S2P Require Import SchedulerCore SchedulerOps SchedulePass ScheduleWindow ScheduleLoop.
From S2P Require Import ScheduleSpec.
Import AccountLocks RwAccountSet Container PrioGraphScheduler.
Set Default Proof Using "Type*".

(** ** The count of scheduled transactions does not fall *)
Section Counting.
Context {Pubkey Tx H G S R : Type}.
Context `{Countable Pubkey} `{Transactions Pubkey Tx}.
Context `{MinMaxHeap H TransactionPriorityId}.
Context `{PrioGraph G TransactionPriorityId Pubkey}.
Context `{Sender S (SchedulingBatch Tx)}.
Context (pre_graph_filter : list Tx → list bool → list bool) (pre_lock_filter : Tx → bool).
Context (elapsed_us : list Tx → Z) (n : nat) (max_cu : Z).
Implicit Types (p : pass Pubkey Tx H G S R).

Definition some_scheduled p : Prop := (1 ≤ p_num_scheduled p)%Z.

Lemma check_limits_num t p p' f :
  check_limits max_cu t p = Ok (p', f) → p_num_scheduled p' = p_num_scheduled p.
Proof using Type.
  unfold check_limits. intros He. res_split He as c1 Hc1. res_split He as c2 Hc2. res_split He as c3 Hc3.
  case_decide; [res_split He as ts Hts; destruct (ThreadSet.is_empty ts)|];
    repeat case_decide; by simplify_eq/=.
Qed.

Lemma commit_scheduled_num x i p p' f :
  commit_scheduled max_cu x i p = Ok (p', f) →
  p_num_scheduled p' = saturating_add u64_max (p_num_scheduled p) 1.
Proof using Type.
  unfold commit_scheduled. intros He. res_split He as b Hb. res_split He as l Hl.
  case_decide; [|by apply check_limits_num in He].
  res_split He as [[s' b'] r] Hs. destruct r; [by apply check_limits_num in He|by simplify_eq/=].
Qed.

Lemma schedule_one_num x p p' f :
  some_scheduled p → schedule_one pre_lock_filter n max_cu x p = Ok (p', f) → some_scheduled p'.
Proof using Type.
  unfold schedule_one, some_scheduled. intros Hp He. res_split He as [st store] Hst.
  res_split He as [[[st' bl] locks] r] Htry. destruct r as [info|[]].
  - apply commit_scheduled_num in He. simpl in He. rewrite He. unfold saturating_add, u64_max. lia.
  - res_split He as c Hc. by simplify_eq/=.
  - by simplify_eq/=.
Qed.

Lemma inner_loop_num fuel p p' e :
  some_scheduled p → inner_loop pre_lock_filter n max_cu fuel p = Ok (p', e) → some_scheduled p'.
Proof using Type.
  revert p. induction fuel as [|fuel IH]; intros p Hp He; simpl in He; [done|].
  destruct (pg_pop _) as [[x|] g]; [|by simplify_eq/=].
  res_split He as [p1 f] Hone. apply schedule_one_num in Hone; [|done]. destruct f; [eauto|by simplify_eq..].
Qed.

Lemma flush_num p p' e : flush p = Ok (p', e) → p_num_scheduled p' = p_num_scheduled p.
Proof using Type.
  unfold flush. intros He. res_split He as [[s b] r] Hs. destruct r; by simplify_eq/=.
Qed.

Lemma outer_loop_num fuel0 fuel p p' e :
  some_scheduled p →
  outer_loop pre_graph_filter pre_lock_filter elapsed_us n max_cu fuel0 fuel p = Ok (p', e) →
  some_scheduled p'.
Proof using Type.
  revert p. induction fuel as [|fuel IH]; intros p Hp He; simpl in He; case_decide; simplify_eq/=;
    try done; destruct (pg_is_empty _); simplify_eq/=; try done.
  res_split He as [p1 e1] Hin. apply inner_loop_num in Hin; [|done].
  destruct e1; [by simplify_eq|]. res_split He as [p2 e2] Hfl. apply flush_num in Hfl.
  destruct e2; [simplify_eq; unfold some_scheduled in *; by rewrite Hfl|].
  res_split He as w Hw. res_split He as p3 Hun. apply (IH p3); [|done].
  unfold unblock_all in Hun. res_split Hun as g Hg. simplify_eq/=.
  unfold some_scheduled in *. simpl. by rewrite Hfl.
Qed.
End Counting.

(** ** The first transaction *)
Section First.
Context {Pubkey Tx H G S R : Type}.
Context `{Countable Pubkey} `{Transactions Pubkey Tx}.
Context `{MinMaxHeapLaws H TransactionPriorityId priority_id_le}.
Context `{PrioGraphLaws G TransactionPriorityId Pubkey}.
Context `{SenderLaws S (SchedulingBatch Tx)}.
Implicit Types (s : t Pubkey S R) (c : TransactionStateContainer Tx H) (g : G).
Implicit Types (p : pass Pubkey Tx H G S R).
Implicit Types (cur : list (list (job Tx))) (sent : gmap TransactionBatchId (nat * list (job Tx))).
Abbreviation queue c := (heap_into_vec (priority_queue c)).

Lemma can_lock_idle s m cur sent w r t :
  core_ok s m cur sent → flights cur sent = [] → t < length (consume_work_senders s) →
  can_lock_all (account_locks s) w r t.
Proof.
  intros Hc Hf Ht. destruct (core_locks _ _ _ _ Hc) as [_ Hw Hr]. rewrite Hf in Hw, Hr. simpl in Hw, Hr.
  split_and!; [by rewrite (core_threads _ _ _ _ Hc)| |]; intros a _ t' _; by rewrite Hw, Hr.
Qed.

Lemma check_locks_default (tx : Tx) : check_locks rw_default tx = true.
Proof using Type. apply check_locks_spec. split; intros a _; [split|]; apply not_elem_of_empty. Qed.

Lemma unsaturated_idle s m cur sent max_cu :
  core_ok s m cur sent → sent_flight sent = [] → (0 < max_cu)%Z →
  wp (unsaturated_threads s (length (consume_work_senders s)) max_cu)
     (λ ts, ThreadSet.wf ts ∧ ThreadSet.is_empty ts = false).
Proof.
  intros Hc Hs Hmax. pose proof (core_pos _ _ _ _ Hc) as Hn. unfold unsaturated_threads. wp_step.
  apply ThreadSetFacts.wp_any; [lia|]. intros all Hall Hin.
  apply wp_mono with (λ ts, ts = all).
  - apply (wp_fold_res _ (λ _ ts, ts = all)); [done|]. intros pre t post ts Hl ->.
    assert (t < length (consume_work_senders s)) as Ht.
    { assert (t ∈ seq 0 (length (consume_work_senders s))) as Hin'%elem_of_seq; [|lia].
      rewrite Hl. apply elem_of_app. right. left. }
    destruct (lookup_lt_is_Some_2
      (InFlightTracker.cus_in_flight_per_thread (in_flight_tracker s)) t) as [x Hx].
    { by rewrite (InFlightTracker.ok_cus_len _ _ (core_tracker _ _ _ _ Hc)). }
    wp_step. eapply wp_vec_get; [exact Hx|]. apply (core_cus _ _ _ _ _ _ Hc) in Hx.
    rewrite Hs in Hx. simpl in Hx. subst x. rewrite decide_False by (unfold load; simpl; lia).
    by wp_step.
  - intros ts ->. split; [done|]. apply ThreadSetFacts.is_empty_false; [done|]. exists 0. split; [lia|].
    apply Hin. lia.
Qed.

Section Pass.
Context (s0 : t Pubkey S R) (q0 : list TransactionPriorityId) (F0 : list (nat * job Tx)).
Context (m0 : gmap TransactionId (TransactionState Tx)) (accept : Prop).
Context (pre_graph_filter : list Tx → list bool → list bool) (pre_lock_filter : Tx → bool).
Context (elapsed_us : list Tx → Z) (max_cu : Z).
Context (lock_accept : ∀ tx, pre_lock_filter tx = true).
Local Abbreviation pass_ok := (pass_ok s0 q0 F0 m0 accept).

(** Nothing is in flight and nothing was held back. *)
Lemma schedule_one_first p cur sent x g' p' f :
  pass_ok [] p cur sent → flights cur sent = [] → p_blocking_locks p = rw_default →
  pg_pop (w_prio_graph (p_window p)) = (Some x, g') → (0 ≤ p_num_scheduled p)%Z →
  schedule_one pre_lock_filter (length (consume_work_senders (p_self p))) max_cu x
    (set_window p (set_graph (p_window p) g')) = Ok (p', f) →
  some_scheduled p'.
Proof.
  intros Hok0 Hfl Hbl Hpop Hnum. destruct (pop_ok _ _ _ _ _ _ _ _ _ _ Hok0 Hpop) as [Hok _].
  unfold schedule_one. set (p1 := set_unblock _ _) in *. change (set_unblock _ _) with p1.
  change (p_self p) with (p_self p1). change (p_blocking_locks p) with (p_blocking_locks p1) in Hbl.
  change (p_num_scheduled p) with (p_num_scheduled p1) in Hnum. clearbody p1. clear Hok0 Hpop g'.
  destruct (hand_state _ _ _ _ _ _ _ _ _ Hok) as (j & <- & Hj). pose proof Hok as [].
  unfold get_mut_transaction_state. change (id (j_pid j)) with (j_id j). rewrite Hj. simpl.
  pose proof (try_schedule_ok pre_lock_filter (p_blocking_locks p1) _ _ _ _ _ j po_core po_batches Hj)
    as Hw. apply wp_elim in Hw as ([[[st bl'] locks'] r] & -> & Hpost). simpl.
  destruct r as [info|[]]; simpl in Hpost.
  - intros He%commit_scheduled_num. simpl in He. unfold some_scheduled. rewrite He.
    unfold saturating_add, u64_max. lia.
  - destruct Hpost as (_ & _ & _ & Hf). by rewrite lock_accept in Hf.
  - destruct Hpost as (_ & _ & _ & _ & [Hck|Hno]).
    + by rewrite Hbl, check_locks_default in Hck.
    + exfalso. apply (Hno 0). eapply can_lock_idle; [done|done|].
      pose proof (core_pos _ _ _ _ po_core). lia.
Qed.

Lemma inner_loop_first fuel p cur sent p' e :
  pass_ok [] p cur sent → flights cur sent = [] → p_blocking_locks p = rw_default →
  pg_is_empty (w_prio_graph (p_window p)) = false → (0 ≤ p_num_scheduled p)%Z →
  inner_loop pre_lock_filter (length (consume_work_senders (p_self p))) max_cu fuel p = Ok (p', e) →
  some_scheduled p'.
Proof.
  intros Hok Hfl Hbl Hne Hnum. destruct fuel as [|fuel]; [done|]. simpl.
  destruct (pg_pop _) as [[x|] g] eqn:Hpop; [|apply pg_pop_None in Hpop as [_ ?]; congruence].
  intros He. res_split He as [p1 f] Hone. eapply schedule_one_first in Hone; try done.
  destruct f; [by eapply inner_loop_num|by simplify_eq..].
Qed.

Lemma outer_loop_first fuel0 fuel p cur sent p' e :
  pass_ok [] p cur sent → flights cur sent = [] → p_blocking_locks p = rw_default →
  pg_is_empty (w_prio_graph (p_window p)) = false → p_num_scheduled p = 0%Z →
  outer_loop pre_graph_filter pre_lock_filter elapsed_us (length (consume_work_senders (p_self p)))
    max_cu fuel0 fuel p = Ok (p', e) →
  some_scheduled p'.
Proof.
  intros Hok Hfl Hbl Hne Hnum He.
  destruct fuel as [|fuel]; simpl in He; rewrite decide_True in He by (by rewrite Hnum);
    rewrite Hne in He; [done|].
  res_split He as [p1 e1] Hin. eapply inner_loop_first in Hin; [|done..|lia].
  destruct e1; [by simplify_eq|]. res_split He as [p2 e2] Hf. apply flush_num in Hf.
  assert (some_scheduled p2) as Hp2 by (unfold some_scheduled in *; by rewrite Hf).
  destruct e2; [by simplify_eq|]. res_split He as w Hw. res_split He as p3 Hun.
  eapply outer_loop_num; [|exact He].
  unfold unblock_all in Hun. res_split Hun as g Hg. by simplify_eq/=.
Qed.
End Pass.

(** The first window: the graph has something to pop. *)
Lemma first_window pre_graph_filter elapsed_us s c w :
  (∀ txs l, length (pre_graph_filter txs l) = length l) →
  (∀ txs l, Forall (λ b, b = true) (pre_graph_filter txs l)) →
  cont_ok c [] → queue c ≠ [] → (0 < look_ahead_window_size s)%Z →
  let w0 := mkWindow c (pg_new : G) (look_ahead_window_size s) 0 0 in
  chunked_pops pre_graph_filter elapsed_us (Datatypes.S (len c)) w0 = Ok w →
  refilled True [] w0 w ∧ pg_is_empty (w_prio_graph w) = false.
Proof.
  intros Hfl Hfa Hcont Hq Hlook w0 Hw.
  assert (wp (chunked_pops pre_graph_filter elapsed_us (Datatypes.S (len c)) w0)
    (λ w', refilled True [] w0 w' ∧ length (queue (w_container w')) ≤ length (queue c) ∧
      ((0 < w_budget w0)%Z → queue c ≠ [] → length (queue (w_container w')) < length (queue c))))
    as Hpops.
  { apply (chunked_pops_ok _ _ Hfl True (λ _, Hfa) _ [] w0); simpl.
    - by rewrite pg_new_waiting.
    - rewrite pg_new_waiting, pg_new_popped, app_nil_r. destruct Hcont as [[Hnd _] _].
      rewrite app_nil_r in Hnd. by eapply NoDup_fmap_1.
    - unfold len. rewrite heap_len_elems. lia. }
  rewrite Hw in Hpops. destruct Hpops as (Hr & _ & Hlt). specialize (Hlt Hlook Hq).
  split; [done|]. destruct Hr as (dropped & _ & _ & Hpop & Hperm & _ & Hd).
  rewrite (Hd I), app_nil_r in Hperm. simpl in Hperm, Hpop.
  rewrite pg_new_waiting, app_nil_r in Hperm. rewrite pg_new_popped in Hpop.
  apply pg_progress; [done|]. intros Hw0. rewrite Hw0, app_nil_r in Hperm.
  apply Permutation_length in Hperm. lia.
Qed.

(** A pass over a queue that is not empty, with nothing in flight and filters
    that accept. *)
Lemma schedule_progress MAX_BLOCK_UNITS pre_graph_filter pre_lock_filter elapsed_us
    s c sent s' c' sm :
  (∀ txs l, length (pre_graph_filter txs l) = length l) →
  (∀ txs l, Forall (λ b, b = true) (pre_graph_filter txs l)) → (∀ tx, pre_lock_filter tx = true) →
  sched_ok s c sent → (Z.of_nat (length (queue c)) ≤ next_batch_id s)%Z →
  sent_flight sent = [] → queue c ≠ [] → (0 < look_ahead_window_size s)%Z →
  (Z.of_nat (length (consume_work_senders s)) ≤ MAX_BLOCK_UNITS)%Z →
  schedule (G:=G) MAX_BLOCK_UNITS pre_graph_filter pre_lock_filter elapsed_us s c
    = Ok (s', c', inl sm) →
  (1 ≤ num_scheduled sm)%Z.
Proof.
  intros Hfl Hfa Hla Hs Hid Hsent Hq Hlook Hmax He. pose proof Hs as [Hc Hcont _].
  pose proof (core_pos _ _ _ _ Hc) as Hn. unfold schedule in He.
  res_split He as u0 Hu0. set (max_cu := (_ `div` _)%Z) in He.
  assert (0 < max_cu)%Z as Hcu by (apply Z.div_str_pos; lia).
  res_split He as ts Hts. pose proof (unsaturated_idle _ _ _ _ _ Hc Hsent Hcu) as Hun.
  rewrite Hts in Hun. destruct Hun as [Hwf Hne]. rewrite Hne in He.
  res_split He as w Hw.
  destruct (first_window _ _ _ _ _ Hfl Hfa Hcont Hq Hlook Hw) as [Hr Hemp].
  destruct (pass_start_ok pre_graph_filter pre_lock_filter elapsed_us True Hfl (λ _, Hfa)
    (λ _, Hla) s c sent w ts Hs Hid Hwf Hr) as [Hok _].
  res_split He as [p1 e1] Hout.
  eapply (outer_loop_first _ _ _ _ _ _ _ _ _ Hla _ _ (pass_start s w ts) (idle s) sent) in Hout;
    [|exact Hok|by rewrite flights_idle|done|done|done].
  destruct e1; [done|]. res_split He as [p2 e2] Hf. apply flush_num in Hf.
  destruct e2; [done|]. res_split He as c2 Hc2. res_split He as [c3 g3] Hc3.
  res_split He as u Hu. simplify_eq/=. unfold some_scheduled in Hout. by rewrite Hf.
Qed.
End First.
