(* ===== verification/ReceiveSpec.v ===== *)
(** * Receiving completed batches

    [try_receive_completed] and [receive_completed] against the scheduler's
    invariant: the locks and counters of the batch are released, its retryable
    transactions are queued again and the others forgotten. *)
From S2P Require Import Prelude ThreadSets AccountLocks AccountLocksFacts LockTheorems Messages.
From S2P Require Import RwAccountSet Heap Container InFlight PrioGraph Channels Scheduler Flights.
From S2P Require Import SchedulerCore SchedulerOps SchedulePass ScheduleLoop ScheduleSpec.
Import AccountLocks Container PrioGraphScheduler.
Set Default Proof Using "Type*".

Section Receive.
Context {Pubkey Tx H S R : Type}.
Context `{Countable Pubkey} `{Transactions Pubkey Tx}.
Context `{MinMaxHeapLaws H TransactionPriorityId priority_id_le}.
Context `{SenderLaws S (SchedulingBatch Tx)}.
Context `{ReceiverLaws R (SchedulingBatchResult Tx)}.
Implicit Types (s : t Pubkey S R) (c : TransactionStateContainer Tx H).
Implicit Types (sent : gmap TransactionBatchId (nat * list (job Tx))) (js : list (job Tx)).
Abbreviation queue c := (heap_into_vec (priority_queue c)).
Abbreviation on t js := ((λ j : job Tx, (t, j)) <$> js).

(** ** Releasing the locks of a batch *)

Lemma unlock_all_ok js (locks : ThreadAwareAccountLocks Pubkey) t (F : list (nat * job Tx)) :
  lock_inv (mkLockState locks (job_grant <$> (on t js ++ F))) →
  wp (fold_res (λ locks tx,
        unlock_accounts locks (write_account_locks tx) (read_account_locks tx) t) locks (j_tx <$> js))
     (λ locks', lock_inv (mkLockState locks' (job_grant <$> F)) ∧
                num_threads locks' = num_threads locks).
Proof.
  revert locks. induction js as [|j js IH]; intros locks Hl; simpl; [by wp_step|].
  change (on t (j :: js) ++ F) with ((t, j) :: (on t js ++ F)) in Hl. rewrite fmap_cons in Hl.
  destruct Hl as [Hwf Hw Hr]. cbn [table grants] in *. wp_step.
  eapply wp_mono; [apply (unlock_held locks _ (job_grant (t, j)) Hwf Hw Hr); left|].
  intros locks1 [Hwf1 Hd1]. eapply wp_mono; [apply IH|].
  - split; cbn [table grants]; [done|..]; intros a t'.
    + rewrite (delta_w _ _ _ _ Hd1), Hw, sumZ_cons. lia.
    + rewrite (delta_r _ _ _ _ Hd1), Hr, sumZ_cons. lia.
  - intros locks2 [Hl2 Hn2]. split; [done|]. rewrite Hn2. apply (delta_threads _ _ _ _ Hd1).
Qed.

(** The scheduler after the batch [b] came back, before its transactions are
    disposed of: they are still pending in the map. *)
Lemma complete_and_unlock_ok s m sent b t js :
  core_ok s m (idle s) sent → sent !! b = Some (t, js) →
  wp (complete_batch s b (j_tx <$> js)) (λ s', send_frame (set_account_locks s (account_locks s')) s' ∧
    consume_work_senders s' = consume_work_senders s ∧
    next_batch_id s' = next_batch_id s ∧
    num_threads (account_locks s') = num_threads (account_locks s) ∧
    lock_inv (mkLockState (account_locks s') (job_grant <$> sent_flight (delete b sent))) ∧
    InFlightTracker.ok (length (consume_work_senders s)) (in_flight_tracker s') ∧
    InFlightTracker.batches (in_flight_tracker s') = tracker_entry <$> delete b sent).
Proof.
  intros Hc Hb. pose proof Hc as []. unfold complete_batch. wp_step.
  assert (InFlightTracker.batches (in_flight_tracker s) !! b = Some (tracker_entry (t, js))) as Htr
    by by rewrite core_sent, lookup_fmap, Hb.
  eapply wp_mono; [eapply complete_batch_ok; [done|exact Htr]|].
  intros [tr i] (Htr' & -> & Hbs & Hgen). simpl. wp_step.
  rewrite flights_idle in core_locks.
  eapply wp_mono; [apply (unlock_all_ok js _ t (sent_flight (delete b sent)))|].
  { eapply lock_inv_perm; [|exact core_locks]. by rewrite (sent_flight_delete _ _ _ _ Hb). }
  intros locks' [Hl' Hn']. wp_step. simpl. split_and!; try done.
  - unfold next_batch_id. simpl. by rewrite Hgen.
  - rewrite Hbs, core_sent. by rewrite fmap_delete.
Qed.

(** ** The retry loop *)

(** The elements the loop visits, from index [k]. *)
Definition items (k : nat) js : list (nat * (TransactionId * Tx * MaxAge)) :=
  zip (seq k (length js)) (zip (zip (j_id <$> js) (j_tx <$> js)) ((max_age ∘ j_ttl) <$> js)).

(** The transactions retried: those the peekable iterator meets at their index. *)
Fixpoint retried (rs : list nat) (k : nat) js : list (job Tx) :=
  match js with
  | [] => []
  | j :: js =>
      match rs with
      | r :: rs' => if decide (r = k) then j :: retried rs' (Datatypes.S k) js
                    else retried rs (Datatypes.S k) js
      | [] => []
      end
  end.

Lemma retried_nil k js : retried [] k js = [].
Proof. by destruct js. Qed.

(** The map and the queue agree on the transactions that are pending. *)
Definition receiving c (P : list (job Tx)) : Prop :=
  P ≡ₚ pending_jobs (id_to_transaction_state c) ∧ cont_ok c [] ∧ fits (id_to_transaction_state c).

Lemma receiving_lookup c j P :
  receiving c (j :: P) →
  id_to_transaction_state c !! j_id j = Some (Pending (j_ttl j) (priority (j_pid j)) (j_cost j)).
Proof. intros (Hp & _). apply elem_of_pending_jobs. rewrite <-Hp. left. Qed.

Lemma pending_job_job (j : job Tx) :
  pending_job (j_id j) (Pending (j_ttl j) (priority (j_pid j)) (j_cost j)) = [j].
Proof. by destruct j as [[p i] ttl cost]. Qed.

(** A transaction that is not retried is forgotten. *)
Lemma receive_remove_ok c j P (Φ : TransactionStateContainer Tx H → Prop) :
  receiving c (j :: P) →
  (∀ c', receiving c' P → queue c' = queue c →
     heap_capacity (priority_queue c') = heap_capacity (priority_queue c) → Φ c') →
  wp (remove_by_id c (j_id j)) Φ.
Proof.
  intros Hrec HΦ. pose proof (receiving_lookup _ _ _ Hrec) as Hj.
  destruct Hrec as (Hp & [HM Hlen] & Hf). eapply remove_by_id_ok; [exact Hj|].
  apply HΦ; simpl; try done. split_and!; simpl.
  - rewrite (pending_jobs_delete _ _ _ Hj), pending_job_job in Hp. simpl in Hp.
    by apply Permutation_cons_inv in Hp.
  - split; [|done]. by eapply matches_delete_pending.
  - by apply fits_delete.
Qed.

(** A retried transaction is queued again; when the queue is full the least
    entry is dropped. *)
Lemma receive_retry_ok c j P :
  receiving c (j :: P) →
  wp (retry_transaction c (j_id j) (mkTTL (j_tx j) (max_age (j_ttl j)))) (λ c', receiving c' P ∧
    heap_capacity (priority_queue c') = heap_capacity (priority_queue c) ∧
    ∃ dropped, queue c ++ [j_pid j] ≡ₚ queue c' ++ dropped ∧
      (length (queue c) < heap_capacity (priority_queue c) → dropped = [])).
Proof.
  intros Hrec. pose proof (receiving_lookup _ _ _ Hrec) as Hj.
  destruct Hrec as (Hp & Hc & Hf).
  assert (mkTTL (j_tx j) (max_age (j_ttl j)) = j_ttl j) as -> by by destruct j as [? []].
  eapply wp_mono; [by eapply retry_transaction_ok|]. intros c' [Hc' (d & Hcap & Hpush)].
  set (m1 := <[j_id j := Unprocessed (j_ttl j) (priority (j_pid j)) (j_cost j)]> _) in *.
  assert (P ≡ₚ pending_jobs m1) as Hp1.
  { unfold m1. rewrite pending_jobs_insert. simpl.
    rewrite (pending_jobs_delete _ _ _ Hj), pending_job_job in Hp. simpl in Hp.
    by apply Permutation_cons_inv in Hp. }
  assert (fits m1) as Hf1 by (by eapply fits_update).
  assert (mkPriorityId (priority (j_pid j)) (j_id j) = j_pid j) as Hpid by by destruct j as [[] ? ?].
  rewrite Hpid in Hpush. simpl in *. destruct d.
  - destruct Hpush as (Hfull & v & Hv & _ & Hm).
    assert (∃ ttl cost, m1 !! id v = Some (Unprocessed ttl (priority v) cost)) as (ttl & cost & Hlv).
    { destruct Hc as [HM _]. rewrite app_nil_r in HM.
      apply (matches_insert _ _ (j_id j) (j_ttl j) (priority (j_pid j)) (j_cost j)) in HM;
        [|intros; congruence]. rewrite Hpid, Hv in HM. by eapply matches_lookup. }
    split_and!; [split_and!|done|exists [v]; split; [rewrite Permutation_app_comm; simpl; rewrite Hv; solve_Permutation|lia]].
    + rewrite Hm, Hp1. by rewrite (pending_jobs_delete _ _ _ Hlv).
    + done.
    + rewrite Hm. by apply fits_delete.
  - destruct Hpush as (Hroom & Hq & Hm). split_and!; [split_and!|done|exists []].
    + by rewrite Hm.
    + done.
    + by rewrite Hm.
    + split; [|done]. rewrite Hq. solve_Permutation.
Qed.

(** What disposing of [js] does to the queue: the retried ones are added, and
    only a full queue drops entries. *)
Definition requeued (R : list (job Tx)) c c' : Prop :=
  heap_capacity (priority_queue c') = heap_capacity (priority_queue c) ∧
  ∃ dropped, queue c ++ (j_pid <$> R) ≡ₚ queue c' ++ dropped ∧
    (length (queue c) + length R ≤ heap_capacity (priority_queue c) → dropped = []).

Lemma requeued_cons j Rj c c1 c2 dropped :
  heap_capacity (priority_queue c1) = heap_capacity (priority_queue c) →
  queue c ++ [j_pid j] ≡ₚ queue c1 ++ dropped →
  (length (queue c) < heap_capacity (priority_queue c) → dropped = []) →
  requeued Rj c1 c2 → requeued (j :: Rj) c c2.
Proof.
  intros Hcap Hq Hd (Hcap2 & d2 & Hq2 & Hd2). split; [congruence|].
  exists (d2 ++ dropped). split.
  - transitivity ((queue c ++ [j_pid j]) ++ (j_pid <$> Rj)); [rewrite <-app_assoc; done|].
    rewrite Hq. transitivity ((queue c1 ++ (j_pid <$> Rj)) ++ dropped); [solve_Permutation|].
    rewrite Hq2. solve_Permutation.
  - simpl. intros Hle. rewrite Hd by lia. rewrite app_nil_r. apply Hd2.
    rewrite Hcap. rewrite Hd, app_nil_r in Hq by lia.
    apply Permutation_length in Hq. rewrite length_app in Hq. simpl in Hq. lia.
Qed.

Lemma receive_fold_ok js k c rs P :
  receiving c (js ++ P) →
  wp (fold_res receive_one (c, rs) (items k js)) (λ '(c', _),
    receiving c' P ∧ requeued (retried rs k js) c c').
Proof.
  revert k c rs. induction js as [|j js IH]; intros k c rs Hrec; simpl.
  { wp_step. split; [done|]. split; [done|]. exists []. by rewrite !app_nil_r. }
  assert (∀ rs', wp (c ← remove_by_id c (j_id j); Ok (c, rs'))
      (λ st, wp (fold_res receive_one st (items (Datatypes.S k) js))
        (λ '(c', _), receiving c' P ∧ requeued (retried rs' (Datatypes.S k) js) c c'))) as Hskip.
  { intros rs'. wp_step. eapply receive_remove_ok; [exact Hrec|]. intros c1 Hrec1 Hq1 Hcap1.
    wp_step. eapply wp_mono; [by apply IH|]. intros [c2 rs2] [? (? & Hd)]. split; [done|].
    split; [congruence|]. by rewrite <-Hq1, <-Hcap1. }
  wp_step. destruct rs as [|r rs]; [rewrite <-(retried_nil (Datatypes.S k) js); apply Hskip|].
  simpl. case_decide as Hr; [|apply Hskip].
  wp_step. eapply wp_mono; [by apply receive_retry_ok|].
  intros c1 (Hrec1 & Hcap1 & dr & Hq1 & Hd1). wp_step.
  eapply wp_mono; [by apply IH|]. intros [c2 rs2] [? Hreq]. split; [done|].
  by eapply requeued_cons.
Qed.

Lemma items_enumerate js :
  enumerate (zip (zip (j_id <$> js) (j_tx <$> js)) ((max_age ∘ j_ttl) <$> js)) = items 0 js.
Proof.
  unfold enumerate, items. f_equal. rewrite !length_zip, !length_fmap. f_equal. lia.
Qed.

(** ** One batch *)

Lemma try_receive_completed_ok s c sent b t js rs r' :
  sched_ok s c sent → sent !! b = Some (t, js) →
  try_recv (finished_consume_work_receiver s) =
    (inl (mkBatchResult (batch_message b js) rs), r') →
  wp (try_receive_completed s c) (λ '(s', c', r),
    r = inl (length js, length rs) ∧ sched_ok s' c' (delete b sent) ∧
    finished_consume_work_receiver s' = r' ∧
    consume_work_senders s' = consume_work_senders s ∧ next_batch_id s' = next_batch_id s ∧
    requeued (retried rs 0 js) c c').
Proof.
  intros [Hc Hcont [Hd1 Hd2]] Hb Hrecv. unfold try_receive_completed. rewrite Hrecv. simpl.
  assert (core_ok (set_receiver s r') (id_to_transaction_state c) (idle (set_receiver s r')) sent) as Hc1
    by by destruct Hc; split.
  wp_step. eapply wp_mono; [by eapply complete_and_unlock_ok|].
  intros s' ((_ & Hrec & _) & Hse & Hne & Hnt & Hl & Htr & Hbs). simpl in *.
  rewrite items_enumerate. wp_step.
  assert (receiving c (js ++ (sent_flight (delete b sent)).*2)) as Hrec0.
  { pose proof (core_pending _ _ _ _ Hc) as Hp. rewrite flights_idle in Hp.
    split_and!; [|done|apply (core_fits _ _ _ _ Hc)].
    rewrite <-Hp, (sent_flight_delete _ _ _ _ Hb), fmap_app, <-list_fmap_compose.
    by rewrite list_fmap_id. }
  eapply wp_mono; [by apply receive_fold_ok|]. intros [c' rs'] [(Hp' & Hcont' & Hf') Hreq]. wp_step.
  rewrite length_fmap. split_and!; try done. split; [|done|].
  - split; rewrite ?Hse; try done.
    + rewrite Hnt. apply (core_threads _ _ _ _ Hc).
    + unfold idle. by rewrite length_replicate, Hse.
    + by rewrite flights_idle.
    + by rewrite flights_idle.
  - unfold delivered, in_log. rewrite Hse, Hne. split.
    + intros b1 t1 js1 [_ Hb1]%lookup_delete_Some. by apply Hd1.
    + intros t1 msg Hin. destruct (Hd2 _ _ Hin) as [Hlt Hmsg]. split; [done|].
      intros t2 js2 [_ Hb2]%lookup_delete_Some. by apply Hmsg.
Qed.

(** ** All batches that came back *)

(** The results waiting are for batches handed out, each at most once. *)
Fixpoint results_ok sent (msgs : list (SchedulingBatchResult Tx)) : Prop :=
  match msgs with
  | [] => True
  | msg :: msgs => ∃ b t js, sent !! b = Some (t, js) ∧ js ≠ [] ∧
      batch msg = batch_message b js ∧ results_ok (delete b sent) msgs
  end.

(** The batches still out once the results [msgs] are in. *)
Definition returned sent (msgs : list (SchedulingBatchResult Tx)) :
    gmap TransactionBatchId (nat * list (job Tx)) :=
  foldl (λ sent msg, delete (batch_id (batch msg)) sent) sent msgs.

Lemma receive_loop_ok fuel s c sent n k :
  sched_ok s c sent → results_ok sent (recv_pending (finished_consume_work_receiver s)) →
  length (recv_pending (finished_consume_work_receiver s)) < fuel →
  wp (receive_loop fuel s c n k) (λ '(s', c', r),
    sched_ok s' c' (returned sent (recv_pending (finished_consume_work_receiver s))) ∧
    recv_pending (finished_consume_work_receiver s') = [] ∧ next_batch_id s' = next_batch_id s ∧
    consume_work_senders s' = consume_work_senders s ∧
    ∀ e, r = inr e → e = DisconnectedRecvChannel "finished consume work").
Proof.
  revert s c sent n k. induction fuel as [|fuel IH]; intros s c sent n k Hs Hres Hlt; [lia|]. simpl.
  destruct (try_recv (finished_consume_work_receiver s)) as [[msg|e] r'] eqn:Hrecv.
  - pose proof (try_recv_ok _ _ _ Hrecv) as Hpend. rewrite Hpend in *. simpl in Hres, Hlt.
    destruct Hres as (b & t & js & Hb & Hjs & Hmsg & Hres).
    destruct msg as [bm rs]. simpl in Hmsg. subst bm. wp_step.
    eapply wp_mono; [by eapply try_receive_completed_ok|].
    intros [[s1 c1] r1] (-> & Hs1 & Hr1 & Hse1 & Hn1 & _). rewrite decide_False by by destruct js.
    eapply wp_mono; [apply (IH s1 c1 (delete b sent)); rewrite ?Hr1; [done|done|lia]|].
    intros [[s2 c2] r2]. rewrite Hr1, Hn1, Hse1. done.
  - pose proof (try_recv_err _ _ _ Hrecv) as [Hpend Hr'].
    unfold try_receive_completed. rewrite Hrecv. subst r'.
    assert (set_receiver s (finished_consume_work_receiver s) = s) as -> by by destruct s.
    rewrite Hpend. destruct e; simpl; wp_step; split_and!; try done.
    by intros e [= <-].
Qed.

Lemma results_ok_intro sent msgs :
  NoDup ((λ msg, batch_id (batch msg)) <$> msgs) →
  (∀ msg, msg ∈ msgs → ∃ t js, sent !! batch_id (batch msg) = Some (t, js) ∧ js ≠ [] ∧
     batch msg = batch_message (batch_id (batch msg)) js) →
  results_ok sent msgs.
Proof.
  revert sent. induction msgs as [|msg msgs IH]; intros sent Hnd Hin; simpl; [done|].
  apply NoDup_cons in Hnd as [Hfresh Hnd].
  destruct (Hin msg ltac:(left)) as (t & js & Hb & Hjs & Hmsg).
  exists (batch_id (batch msg)), t, js. split_and!; try done. apply IH; [done|].
  intros msg' Hmsg'. destruct (Hin msg' ltac:(by right)) as (t' & js' & ?).
  exists t', js'. rewrite lookup_delete_ne; [done|]. intros Heq. apply Hfresh.
  rewrite Heq. by apply (list_elem_of_fmap_2 (λ msg, batch_id (batch msg))).
Qed.

Lemma lookup_returned sent msgs b :
  is_Some (returned sent msgs !! b) ↔
  is_Some (sent !! b) ∧ b ∉ (λ msg, batch_id (batch msg)) <$> msgs.
Proof.
  revert sent. induction msgs as [|msg msgs IH]; intros sent; simpl.
  { split; [|tauto]. intros. split; [done|]. apply not_elem_of_nil. }
  unfold returned in IH. rewrite IH, not_elem_of_cons, lookup_delete_is_Some. naive_solver.
Qed.

(** With increasing indexes, as the workers report them, the transactions
    retried are those at the indexes given. *)
Lemma omap_shift (rs : list nat) k j js :
  (∀ r, r ∈ rs → k < r) →
  omap (λ r, (j :: js) !! (r - k)) rs = omap (λ r, js !! (r - Datatypes.S k)) rs.
Proof.
  induction rs as [|r rs IH]; intros Hlt; [done|]. csimpl.
  rewrite IH by (intros; apply Hlt; by right). pose proof (Hlt r ltac:(left)).
  by replace (r - k) with (Datatypes.S (r - Datatypes.S k)) by lia.
Qed.

Lemma retried_sorted rs k js :
  StronglySorted (<) rs → (∀ r, r ∈ rs → k ≤ r) →
  retried rs k js = omap (λ r, js !! (r - k)) rs.
Proof.
  revert rs k. induction js as [|j js IH]; intros rs k Hs Hge; simpl.
  { clear. induction rs as [|r rs IH]; csimpl; done. }
  destruct rs as [|r rs]; [done|]. inversion Hs as [|? ? Hs' Hall]; subst.
  rewrite Forall_forall in Hall. pose proof (Hge r ltac:(left)) as Hr. case_decide as Hk.
  - subst r. csimpl. rewrite Nat.sub_diag. csimpl. f_equal.
    rewrite omap_shift by done. apply IH; [done|]. intros r Hin. specialize (Hall r Hin). lia.
  - rewrite omap_shift.
    + apply IH; [done|]. intros r' [->|Hin]%elem_of_cons; [lia|]. specialize (Hall r' Hin). lia.
    + intros r' [->|Hin]%elem_of_cons; [lia|]. specialize (Hall r' Hin). lia.
Qed.
End Receive.
