(* ===== verification/System.v ===== *)
(** * The scheduler as a system

    The scheduler and its container under any interleaving of the calls its
    owner makes (transactions inserted, passes scheduled, results received) and
    of the workers returning results.  [in_flight] is what an observer sees of a
    batch a worker holds: it was delivered to the worker and its id is still
    tracked.  The lemmas lift the invariant to reachable states. *)
From S2P Require Import Prelude ThreadSets AccountLocks AccountLocksFacts LockTheorems Messages.
From S2P Require Import RwAccountSet Heap Container InFlight PrioGraph Channels Scheduler Flights.
From S2P Require Import SchedulerCore SchedulerOps SchedulePass ScheduleLoop ScheduleSpec.
From S2P Require Import ReceiveSpec.
Import AccountLocks RwAccountSet Container PrioGraphScheduler.
Set Default Proof Using "Type*".

Section System.
Context {Pubkey Tx H G S R : Type}.
Context `{Countable Pubkey} `{Transactions Pubkey Tx}.
Context `{MinMaxHeapLaws H TransactionPriorityId priority_id_le}.
Context `{!PrioGraph G TransactionPriorityId Pubkey, !PrioGraphLaws G TransactionPriorityId Pubkey}.
Context `{SenderLaws S (SchedulingBatch Tx)}.
Context `{ReceiverLaws R (SchedulingBatchResult Tx)}.
Context (MAX_BLOCK_UNITS : Z).
Abbreviation sys := (t Pubkey S R * TransactionStateContainer Tx H)%type.
Abbreviation queue c := (heap_into_vec (priority_queue c)).
Implicit Types (s : t Pubkey S R) (c : TransactionStateContainer Tx H).

(** A worker of thread [t] holds the batch [msg]. *)
Definition in_flight s (t : nat) (msg : SchedulingBatch Tx) : Prop :=
  in_log s t msg ∧ is_Some (InFlightTracker.batches (in_flight_tracker s) !! batch_id msg).

(** A fresh scheduler and container; no worker has been sent anything. *)
Definition sys_init (st : sys) : Prop :=
  ∃ senders receiver n, new senders receiver = Ok st.1 ∧ st.2 = with_capacity n ∧
    (∀ t sender, senders !! t = Some sender → sender_log sender = []).

Inductive sys_step : sys → sys → Prop :=
| sys_insert s c i ttl p cost c' dropped :
    id_to_transaction_state c !! i = None →
    fits (<[i := Unprocessed ttl p cost]> (id_to_transaction_state c)) →
    insert_new_transaction c i ttl p cost = Ok (c', dropped) →
    sys_step (s, c) (s, c')
| sys_schedule pre_graph_filter pre_lock_filter elapsed_us s c s' c' summary :
    (∀ txs l, length (pre_graph_filter txs l) = length l) →
    (Z.of_nat (length (queue c)) ≤ next_batch_id s)%Z →
    schedule (G:=G) MAX_BLOCK_UNITS pre_graph_filter pre_lock_filter elapsed_us s c =
      Ok (s', c', inl summary) →
    sys_step (s, c) (s', c')
| sys_results s c receiver :
    sys_step (s, c) (set_receiver s receiver, c)
| sys_receive s c thread msg rs r' s' c' n :
    try_recv (finished_consume_work_receiver s) = (inl (mkBatchResult msg rs), r') →
    in_flight s thread msg →
    try_receive_completed s c = Ok (s', c', inl n) →
    sys_step (s, c) (s', c').

Definition reachable (st : sys) : Prop := ∃ st0, sys_init st0 ∧ rtc sys_step st0 st.

(** ** The invariant of reachable states *)

Lemma init_ok s c : sys_init (s, c) → sched_ok s c ∅.
Proof.
  intros (senders & receiver & n & Hnew & Hc & Hlog). simpl in *. subst c.
  unfold new in Hnew. res_split Hnew as locks Hlocks. simplify_eq.
  pose proof (lock_inv_init _ _ Hlocks) as Hl.
  assert (num_threads locks = length senders) as Hn
    by (unfold AccountLocks.new in Hlocks; res_inv Hlocks; done).
  split; [|apply with_capacity_ok|].
  - split; simpl; try done.
    + apply length_replicate.
    + rewrite flights_idle. unfold sent_flight. by rewrite map_to_list_empty.
    + apply new_ok.
    + rewrite flights_idle. unfold sent_flight, pending_jobs. by rewrite !map_to_list_empty.
  - split; [by intros ? ? ? ?|]. intros t msg (sender & Hs & Hin). simpl in Hs.
    rewrite (Hlog _ _ Hs) in Hin. by apply not_elem_of_nil in Hin.
Qed.

(** A batch in flight is one of the batches handed out. *)
Lemma in_flight_sent s c sent t msg :
  sched_ok s c sent → in_flight s t msg →
  ∃ js, sent !! batch_id msg = Some (t, js) ∧ msg = batch_message (batch_id msg) js.
Proof.
  intros [Hc _ [_ Hd]] [Hlog [e He]]. rewrite (core_sent _ _ _ _ Hc), lookup_fmap in He.
  destruct (sent !! batch_id msg) as [[t' js]|] eqn:Hb; [|done].
  destruct (Hd _ _ Hlog) as [_ Hmsg]. destruct (Hmsg _ _ Hb) as [-> ->]. eauto.
Qed.

Lemma sent_in_flight s c sent b t js :
  sched_ok s c sent → sent !! b = Some (t, js) → in_flight s t (batch_message b js).
Proof.
  intros [Hc _ [Hd _]] Hb. split; [by apply Hd|]. simpl.
  rewrite (core_sent _ _ _ _ Hc), lookup_fmap, Hb. eauto.
Qed.

(** A new transaction does not disturb those in flight. *)
Lemma insert_ok s c sent i ttl p cost :
  sched_ok s c sent → id_to_transaction_state c !! i = None →
  fits (<[i := Unprocessed ttl p cost]> (id_to_transaction_state c)) →
  wp (insert_new_transaction c i ttl p cost) (λ '(c', dropped), sched_ok s c' sent ∧
    pushed (set_states c (<[i := Unprocessed ttl p cost]> (id_to_transaction_state c)))
      (mkPriorityId p i) c' dropped).
Proof.
  intros [Hc Hcont Hd] Hi Hf. eapply wp_mono; [by apply insert_new_transaction_ok|].
  intros [c' d] [Hcont' Hp]. split; [|done]. split; try done. pose proof Hcont as [HM _].
  rewrite app_nil_r in HM. set (m1 := <[i := _]> _) in *.
  assert (matches m1 (mkPriorityId p i :: queue c)) as HM1
    by (apply matches_insert; [done|intros; congruence]).
  assert (core_ok s m1 (idle s) sent) as Hc1.
  { destruct Hc. split; try done. unfold m1. rewrite core_pending, pending_jobs_insert. simpl.
    by rewrite delete_id. }
  destruct Hp as [_ Hp]. destruct d.
  - destruct Hp as (_ & v & Hv & _ & ->). simpl in *. rewrite Hv in HM1.
    destruct (matches_lookup _ _ _ HM1) as (ttl' & cost' & Hlv). by eapply core_ok_delete.
  - destruct Hp as (_ & _ & ->). done.
Qed.

Lemma set_receiver_ok s c sent r : sched_ok s c sent → sched_ok (set_receiver s r) c sent.
Proof. intros [[] Hcont Hd]. split; [by split|done|done]. Qed.

Lemma step_ok s c s' c' sent :
  sys_step (s, c) (s', c') → sched_ok s c sent → ∃ sent', sched_ok s' c' sent'.
Proof.
  intros Hstep Hs. inversion Hstep; subst.
  - pose proof (insert_ok s' c sent i ttl p cost Hs ltac:(done) ltac:(done)) as Hw.
    match goal with E : insert_new_transaction _ _ _ _ _ = _ |- _ => rewrite E in Hw end.
    destruct Hw as [Hw _]. eauto.
  - pose proof (schedule_ok MAX_BLOCK_UNITS pre_graph_filter pre_lock_filter elapsed_us False
      ltac:(done) ltac:(done) ltac:(done) s c sent Hs ltac:(done)) as Hw.
    match goal with E : schedule _ _ _ _ _ _ = _ |- _ => rewrite E in Hw end.
    destruct Hw as [(sent' & _ & _ & Hs' & _) _]. eauto.
  - exists sent. by apply set_receiver_ok.
  - destruct (in_flight_sent s c sent thread msg Hs) as (js & Hb & Hmsg); [done|].
    rewrite Hmsg in *. pose proof (try_receive_completed_ok s c sent (batch_id msg) thread js rs r'
      Hs Hb ltac:(done)) as Hw.
    match goal with E : try_receive_completed _ _ = _ |- _ => rewrite E in Hw end.
    destruct Hw as (_ & Hs' & _). eauto.
Qed.

Lemma reachable_ok s c : reachable (s, c) → ∃ sent, sched_ok s c sent.
Proof.
  intros ([s0 c0] & Hinit & Hsteps). apply init_ok in Hinit.
  assert (∃ sent, sched_ok s0 c0 sent) as Hex by eauto. clear Hinit.
  remember (s0, c0) as st0 eqn:E0. remember (s, c) as st eqn:E. revert s0 c0 E0 Hex.
  induction Hsteps as [|st0 [s1 c1] st Hstep _ IH]; intros s0 c0 E0 [sent Hs]; simplify_eq; [eauto|].
  eapply IH; [done|done|]. by eapply step_ok.
Qed.

(** The size of the window does not change. *)
Lemma receive_window s c s' c' n :
  try_receive_completed s c = Ok (s', c', n) → look_ahead_window_size s' = look_ahead_window_size s.
Proof using Type.
  unfold try_receive_completed. intros He.
  destruct (try_recv _) as [[[[b ids txs ages] rs]|[]] r']; [|by simplify_eq/=..].
  res_split He as s1 Hs1. res_split He as [c1 l] Hc1. simplify_eq/=.
  unfold complete_batch in Hs1. res_split Hs1 as [tr t] Htr. res_split Hs1 as l2 Hl2. by simplify_eq/=.
Qed.

Lemma step_window s c s' c' sent :
  sys_step (s, c) (s', c') → sched_ok s c sent → look_ahead_window_size s' = look_ahead_window_size s.
Proof.
  intros Hstep Hs. inversion Hstep; subst; [done| |done|by eapply receive_window].
  pose proof (schedule_ok MAX_BLOCK_UNITS pre_graph_filter pre_lock_filter elapsed_us False
    ltac:(done) ltac:(done) ltac:(done) s c sent Hs ltac:(done)) as Hw.
  match goal with E : schedule _ _ _ _ _ _ = _ |- _ => rewrite E in Hw end.
  by destruct Hw as [_ [(_ & ? & _) _]].
Qed.

Lemma reachable_window s c : reachable (s, c) → look_ahead_window_size s = 2048%Z.
Proof.
  intros ([s0 c0] & Hinit & Hsteps).
  assert (look_ahead_window_size s0 = 2048%Z) as Hw0.
  { destruct Hinit as (senders & receiver & n & Hnew & _). unfold new in Hnew.
    res_split Hnew as locks Hlocks. by simplify_eq/=. }
  apply init_ok in Hinit. assert (∃ sent, sched_ok s0 c0 sent) as Hex by eauto. clear Hinit.
  remember (s0, c0) as st0 eqn:E0. remember (s, c) as st eqn:E. revert s0 c0 E0 Hex Hw0.
  induction Hsteps as [|st0 [s1 c1] st Hstep _ IH]; intros s0 c0 E0 [sent Hs] Hw0; simplify_eq; [done|].
  eapply IH; [done|done|by eapply step_ok|]. by rewrite (step_window _ _ _ _ _ Hstep Hs).
Qed.

(** ** Flights of reachable states *)

Lemma sent_flight_elem (sent : gmap TransactionBatchId (nat * list (job Tx))) t j :
  (t, j) ∈ sent_flight sent ↔ ∃ b js, sent !! b = Some (t, js) ∧ j ∈ js.
Proof.
  unfold sent_flight. rewrite list_elem_of_bind. split.
  - intros ([b [t' js]] & Hx & Hb%elem_of_map_to_list). simpl in Hx.
    apply list_elem_of_fmap in Hx as (j' & [= -> ->] & Hj). eauto.
  - intros (b & js & Hb & Hj). exists (b, (t, js)). simpl. split.
    + by apply (list_elem_of_fmap_2 (λ j, (t, j))).
    + by apply elem_of_map_to_list.
Qed.

(** A transaction of a batch in flight holds its locks. *)
Lemma in_flight_grant s c sent t msg tx :
  sched_ok s c sent → in_flight s t msg → tx ∈ transactions msg →
  mkGrant (write_account_locks tx) (read_account_locks tx) t ∈ job_grant <$> sent_flight sent.
Proof.
  intros Hs Hf Htx. destruct (in_flight_sent _ _ _ _ _ Hs Hf) as (js & Hb & Hmsg).
  rewrite Hmsg in Htx. simpl in Htx. apply list_elem_of_fmap in Htx as (j & -> & Hj).
  apply (list_elem_of_fmap_2 job_grant _ (t, j)), sent_flight_elem. eauto.
Qed.

(** The pending transactions are those of the batches in flight. *)
Lemma pending_in_flight s c sent i :
  sched_ok s c sent →
  (∃ ttl p cost, id_to_transaction_state c !! i = Some (Pending ttl p cost)) ↔
  ∃ t msg, in_flight s t msg ∧ i ∈ ids msg.
Proof.
  intros Hs. pose proof (core_pending _ _ _ _ (so_core _ _ _ Hs)) as Hp. rewrite flights_idle in Hp.
  split.
  - intros (ttl & p & cost & Hi).
    assert (mkJob (mkPriorityId p i) ttl cost ∈ pending_jobs (id_to_transaction_state c)) as Hj
      by by apply elem_of_pending_jobs.
    rewrite <-Hp in Hj. apply list_elem_of_fmap in Hj as ([t j] & Hj & Hin). simpl in Hj.
    apply sent_flight_elem in Hin as (b & js & Hb & Hjs).
    exists t, (batch_message b js). split; [by eapply sent_in_flight|].
    simpl. subst j. apply (list_elem_of_fmap_2 j_id _ _ Hjs).
  - intros (t & msg & Hf & Hi). destruct (in_flight_sent _ _ _ _ _ Hs Hf) as (js & Hb & Hmsg).
    rewrite Hmsg in Hi. simpl in Hi. apply list_elem_of_fmap in Hi as (j & -> & Hj).
    assert (j ∈ pending_jobs (id_to_transaction_state c)) as Hpj.
    { rewrite <-Hp. apply (list_elem_of_fmap_2 snd _ (t, j)), sent_flight_elem. eauto. }
    apply elem_of_pending_jobs in Hpj. eauto.
Qed.

(** After batch [msg] was received exactly it is no longer in flight. *)
Lemma in_flight_delete s c s' c' sent t msg :
  sched_ok s c sent → in_flight s t msg → sched_ok s' c' (delete (batch_id msg) sent) →
  consume_work_senders s' = consume_work_senders s →
  ∀ t' m, in_flight s' t' m ↔ in_flight s t' m ∧ batch_id m ≠ batch_id msg.
Proof.
  intros Hs Hf Hs' Hse t' m. unfold in_flight, in_log. rewrite Hse.
  rewrite (core_sent _ _ _ _ (so_core _ _ _ Hs)), (core_sent _ _ _ _ (so_core _ _ _ Hs')).
  rewrite !lookup_fmap, !fmap_is_Some. destruct (decide (batch_id m = batch_id msg)) as [->|Hne].
  - rewrite lookup_delete_eq. split; [by intros [_ [? ?]]|naive_solver].
  - rewrite lookup_delete_ne by done. naive_solver.
Qed.

(** ** What a received batch gives back *)

(** The cost a pending transaction is counted with. *)
Definition pending_cost c (i : TransactionId) : Z :=
  match id_to_transaction_state c !! i with Some (Pending _ _ cost) => cost | _ => 0%Z end.

(** A share that only thread [t] loses. *)
Definition only_on (t t' : nat) (x : Z) : Z := if decide (t' = t) then x else 0%Z.

(** [s'] is [s] after thread [t] gave back batch [msg]: each count of the lock
    table drops by what the transactions of the batch held, the batch is the
    only one no longer tracked, and the counters of thread [t] drop by its
    length and its cost.  Every other lock and counter is the one of [s]. *)
Record gives_back s c (t : nat) (msg : SchedulingBatch Tx) s' : Prop := {
  gb_write a t' : wcount (account_locks s') a t' =
    (wcount (account_locks s) a t' -
     sumZ (λ tx, only_on t t' (occ a (write_account_locks tx))) (transactions msg))%Z;
  gb_read a t' : rcount (account_locks s') a t' =
    (rcount (account_locks s) a t' -
     sumZ (λ tx, only_on t t' (occ a (read_account_locks tx))) (transactions msg))%Z;
  gb_batches : InFlightTracker.batches (in_flight_tracker s') =
    delete (batch_id msg) (InFlightTracker.batches (in_flight_tracker s));
  gb_num t' : InFlightTracker.num_in_flight_per_thread (in_flight_tracker s') !! t' =
    (λ x, x - only_on t t' (Z.of_nat (length (ids msg))))%Z <$>
      InFlightTracker.num_in_flight_per_thread (in_flight_tracker s) !! t';
  gb_cus t' : InFlightTracker.cus_in_flight_per_thread (in_flight_tracker s') !! t' =
    (λ x, x - only_on t t' (sumZ (pending_cost c) (ids msg)))%Z <$>
      InFlightTracker.cus_in_flight_per_thread (in_flight_tracker s) !! t'
}.

Lemma counters_drop (v v' : list Z) (f f' g : nat → Z) :
  length v' = length v → (∀ i x, v !! i = Some x → x = f i) →
  (∀ i x, v' !! i = Some x → x = f' i) → (∀ i, f' i = f i - g i)%Z →
  ∀ i, v' !! i = (λ x, x - g i)%Z <$> v !! i.
Proof.
  intros Hlen Hv Hv' Hf i. destruct (v !! i) as [x|] eqn:Hx; simpl.
  - destruct (lookup_lt_is_Some_2 v' i) as [y Hy]; [rewrite Hlen; by eapply lookup_lt_Some|].
    rewrite Hy, (Hv' _ _ Hy), Hf, (Hv _ _ Hx). done.
  - apply lookup_ge_None. rewrite Hlen. by apply lookup_ge_None.
Qed.

Lemma load_delete (f : job Tx → Z) t sent b t1 js :
  sent !! b = Some (t1, js) →
  load f t (sent_flight (delete b sent)) =
  (load f t (sent_flight sent) - only_on t1 t (sumZ f js))%Z.
Proof.
  intros Hb. rewrite (sent_flight_delete _ _ _ _ Hb), load_app. unfold only_on. case_decide as Ht.
  - subst. rewrite load_same. lia.
  - rewrite load_other by done. lia.
Qed.

(** The counts of the lock table, for the write as for the read locks. *)
Lemma held_delete (f : grant → list Pubkey) (k : Tx → list Pubkey) sent b t js a t' :
  (∀ x : nat * job Tx, f (job_grant x) = k (j_tx x.2)) → sent !! b = Some (t, js) →
  sumZ (λ g, held_by (f g) (g_thread g) a t') (job_grant <$> sent_flight (delete b sent)) =
  (sumZ (λ g, held_by (f g) (g_thread g) a t') (job_grant <$> sent_flight sent) -
   sumZ (λ tx, only_on t t' (occ a (k tx))) (j_tx <$> js))%Z.
Proof.
  intros Hf Hb. rewrite (sent_flight_delete _ _ _ _ Hb), fmap_app, sumZ_app.
  rewrite <-list_fmap_compose, !sumZ_fmap.
  rewrite (sumZ_ext ((λ g, held_by (f g) (g_thread g) a t') ∘ (job_grant ∘ λ j, (t, j)))
    ((λ tx, only_on t t' (occ a (k tx))) ∘ j_tx)); [lia|].
  intros j _. unfold compose. by rewrite Hf.
Qed.

Lemma sent_cost s c sent b t js :
  sched_ok s c sent → sent !! b = Some (t, js) →
  sumZ (pending_cost c) (j_id <$> js) = sumZ j_cost js.
Proof.
  intros Hs Hb. rewrite sumZ_fmap. apply sumZ_ext. intros j Hj. unfold compose, pending_cost.
  pose proof (core_pending _ _ _ _ (so_core _ _ _ Hs)) as Hp. rewrite flights_idle in Hp.
  assert (j ∈ pending_jobs (id_to_transaction_state c)) as Hpj.
  { rewrite <-Hp. apply (list_elem_of_fmap_2 snd _ (t, j)), sent_flight_elem. eauto. }
  apply elem_of_pending_jobs in Hpj. by rewrite Hpj.
Qed.

Lemma delete_gives_back s c s' c' sent t msg :
  sched_ok s c sent → in_flight s t msg → sched_ok s' c' (delete (batch_id msg) sent) →
  consume_work_senders s' = consume_work_senders s → gives_back s c t msg s'.
Proof.
  intros Hs Hf Hs' Hse. destruct (in_flight_sent _ _ _ _ _ Hs Hf) as (js & Hb & Hmsg).
  pose proof (so_core _ _ _ Hs) as Hc. pose proof (so_core _ _ _ Hs') as Hc'.
  pose proof (core_locks _ _ _ _ Hc) as Hl. pose proof (core_locks _ _ _ _ Hc') as Hl'.
  rewrite flights_idle in Hl, Hl'. destruct (core_tracker _ _ _ _ Hc) as [Hn1 Hn2 _ _ _ _ _].
  destruct (core_tracker _ _ _ _ Hc') as [Hn1' Hn2' _ _ _ _ _]. rewrite Hse in Hn1', Hn2'.
  pose proof (sent_cost _ _ _ _ _ _ Hs Hb) as Hcost. rewrite Hmsg. split; simpl.
  - intros a t'. rewrite (inv_w _ Hl'), (inv_w _ Hl). by apply (held_delete g_write).
  - intros a t'. rewrite (inv_r _ Hl'), (inv_r _ Hl). by apply (held_delete g_read).
  - rewrite (core_sent _ _ _ _ Hc), (core_sent _ _ _ _ Hc'). apply fmap_delete.
  - apply (counters_drop _ _ (λ i, load (λ _, 1%Z) i (sent_flight sent))
      (λ i, load (λ _, 1%Z) i (sent_flight (delete (batch_id msg) sent)))); [congruence|..].
    + intros i x. by eapply core_num.
    + intros i x. by eapply core_num.
    + intros i. by rewrite (load_delete _ _ _ _ _ _ Hb), sumZ_length, length_fmap.
  - apply (counters_drop _ _ (λ i, load j_cost i (sent_flight sent))
      (λ i, load j_cost i (sent_flight (delete (batch_id msg) sent)))); [congruence|..].
    + intros i x. by eapply core_cus.
    + intros i x. by eapply core_cus.
    + intros i. by rewrite (load_delete _ _ _ _ _ _ Hb), Hcost.
Qed.

(** The queue of a container in order. *)
Lemma cont_ok_queue c :
  cont_ok c [] →
  NoDup (id <$> queue c) ∧ length (queue c) ≤ heap_capacity (priority_queue c) ∧
  ∀ x, x ∈ queue c ↔
    ∃ ttl cost, id_to_transaction_state c !! id x = Some (Unprocessed ttl (priority x) cost).
Proof.
  intros [(Hnd & Hm & _) Hlen]. rewrite app_nil_r in Hnd, Hm. split_and!; [done| |done].
  simpl in Hlen. lia.
Qed.

(** The batches in flight on one thread. *)
Lemma thread_batches (sent : gmap TransactionBatchId (nat * list (job Tx))) t :
  let l := filter (λ x, x.2.1 = t) (map_to_list sent) in
  load (λ _, 1%Z) t (sent_flight sent) = sumZ (λ x, Z.of_nat (length x.2.2)) l.
Proof.
  simpl. unfold sent_flight. induction (map_to_list sent) as [|[b [t' js]] l IH]; [done|].
  rewrite bind_cons, load_app, IH, filter_cons. simpl. case_decide as Ht.
  - subst t'. rewrite load_same, sumZ_length. done.
  - rewrite load_other by done. lia.
Qed.

(** No batch in flight: nothing was handed out. *)
Lemma quiet_sent s c sent :
  sched_ok s c sent → (∀ t msg, ¬ in_flight s t msg) → sent = ∅.
Proof.
  intros Hs Hno. apply map_empty. intros b. destruct (sent !! b) as [[t js]|] eqn:Hb; [|done].
  exfalso. by eapply Hno, sent_in_flight.
Qed.

(** A transaction in flight is not queued. *)
Lemma in_flight_not_queued s c sent t msg x :
  sched_ok s c sent → in_flight s t msg → id x ∈ ids msg → x ∈ queue c → False.
Proof.
  intros Hs Hf Hi Hx.
  destruct (proj2 (pending_in_flight s c sent (id x) Hs)) as (ttl & p & cost & Hp); [eauto|].
  destruct (cont_ok_queue _ (so_cont _ _ _ Hs)) as (_ & _ & Hq).
  apply Hq in Hx as (? & ? & Hu). congruence.
Qed.

(** Once its batch is back, a transaction that is not queued is gone. *)
Lemma received_gone s c s' c' sent t msg i :
  sched_ok s c sent → in_flight s t msg → sched_ok s' c' (delete (batch_id msg) sent) →
  i ∈ ids msg → (∀ x, id x = i → x ∉ queue c') → id_to_transaction_state c' !! i = None.
Proof.
  intros Hs Hf Hs' Hi Hq. destruct (in_flight_sent _ _ _ _ _ Hs Hf) as (js & Hb & Hmsg).
  destruct (so_cont _ _ _ Hs') as [(_ & Hm' & Htr') _]. rewrite app_nil_r in Hm'.
  destruct (id_to_transaction_state c' !! i) as [[ttl p cost|ttl p cost|]|] eqn:Hst; [| | |done].
  - exfalso. apply (Hq (mkPriorityId p i)); [done|]. apply Hm'. simpl. eauto.
  - exfalso. pose proof (core_pending _ _ _ _ (so_core _ _ _ Hs)) as Hp.
    pose proof (core_pending _ _ _ _ (so_core _ _ _ Hs')) as Hp'. rewrite flights_idle in Hp, Hp'.
    pose proof (NoDup_pending_jobs (id_to_transaction_state c)) as Hnd.
    rewrite <-Hp, (sent_flight_delete _ _ _ _ Hb), !fmap_app in Hnd.
    rewrite <-list_fmap_compose in Hnd. apply NoDup_app in Hnd as (_ & Hdisj & _).
    apply (Hdisj i).
    + rewrite Hmsg in Hi. simpl in Hi. rewrite <-list_fmap_compose. exact Hi.
    + rewrite Hp'. apply (list_elem_of_fmap_2 j_id _ (mkJob (mkPriorityId p i) ttl cost)).
      by apply elem_of_pending_jobs.
  - by apply Htr' in Hst.
Qed.

(** ** Inserting a batch of new transactions *)

Abbreviation entry := (Tx * TransactionId * MaxAge)%type.

(** The counters have room for the transactions of [l] on top of [m]. *)
Definition room (m : gmap TransactionId (TransactionState Tx)) (l : list entry) : Prop :=
  (total key_weight m + sumZ (λ x, Z.of_nat (length (account_keys x.1.1))) l ≤ u32_max)%Z ∧
  (total cost_weight m + 100 * Z.of_nat (length l) ≤ u64_max)%Z ∧
  (total one_weight m + Z.of_nat (length l) ≤ u64_max)%Z.

Lemma total_fresh w (m : gmap TransactionId (TransactionState Tx)) i st :
  m !! i = None → total w (<[i := st]> m) = (state_weight w st + total w m)%Z.
Proof. apply msum_insert. Qed.

Lemma room_fits m (x : entry) l :
  fits m → m !! x.1.2 = None → room m (x :: l) →
  fits (<[x.1.2 := Unprocessed (mkTTL x.1.1 x.2) 0 100]> m).
Proof.
  intros [] Hi (Hk & Hc & Hn). rewrite sumZ_cons, length_cons in *.
  assert (0 ≤ sumZ (λ x : entry, Z.of_nat (length (account_keys x.1.1))) l)%Z
    by (apply sumZ_nonneg; intros; lia).
  split; rewrite ?total_fresh by done; simpl; unfold key_weight, cost_weight, one_weight in *; simpl;
    [lia..|].
  intros j st [[<- <-]|[_ Hj]]%lookup_insert_Some; [simpl; lia|by eapply fits_nonneg].
Qed.

Lemma room_step m m' (x : entry) l :
  m !! x.1.2 = None → weight_ok cost_weight m →
  (m' = <[x.1.2 := Unprocessed (mkTTL x.1.1 x.2) 0 100]> m ∨
   ∃ i, m' = delete i (<[x.1.2 := Unprocessed (mkTTL x.1.1 x.2) 0 100]> m)) →
  room m (x :: l) → room m' l.
Proof.
  intros Hi Hw Hm (Hk & Hc & Hn). rewrite sumZ_cons, length_cons in *.
  set (m1 := <[x.1.2 := _]> m) in *.
  assert (weight_ok cost_weight m1) as Hw1.
  { intros j st [[<- <-]|[_ Hj]]%lookup_insert_Some; [simpl; unfold cost_weight; lia|by eapply Hw]. }
  assert (∀ w, weight_ok w m1 → (total w m' ≤ total w m1)%Z) as Hle.
  { intros w Hwok. destruct Hm as [->|[i ->]]; [done|by apply total_delete]. }
  pose proof (Hle key_weight (key_weight_ok _)) as Lk. pose proof (Hle cost_weight Hw1) as Lc.
  pose proof (Hle one_weight (one_weight_ok _)) as Ln.
  unfold m1 in *. rewrite total_fresh in Lk, Lc, Ln by done. simpl in *.
  unfold room. unfold key_weight, cost_weight, one_weight in *. simpl in *. split_and!; lia.
Qed.

Lemma insert_batch_ok s c sent (l : list entry) :
  sched_ok s c sent → NoDup ((λ x, x.1.2) <$> l) →
  (∀ x, x ∈ l → id_to_transaction_state c !! x.1.2 = None) → room (id_to_transaction_state c) l →
  wp (fold_res (λ c '(tx, tx_id, max_age),
        '(c, _) ← insert_new_transaction c tx_id (mkTTL tx max_age) 0 100; Ok c) c l)
     (λ c', sched_ok s c' sent ∧ rtc sys_step (s, c) (s, c') ∧
            heap_capacity (priority_queue c') = heap_capacity (priority_queue c)).
Proof.
  revert c. induction l as [|[[tx i] a] l IH]; intros c Hs Hnd Hfresh Hroom.
  { apply wp_ok. split_and!; done. }
  pose proof (Hfresh (tx, i, a) ltac:(left)) as Hi. simpl in Hi.
  pose proof (core_fits _ _ _ _ (so_core _ _ _ Hs)) as Hf.
  pose proof (room_fits _ (tx, i, a) l Hf Hi Hroom) as Hf1. simpl in Hf1.
  apply NoDup_cons in Hnd as [Hni Hnd]. cbn [fold_res]. wp_step. wp_step.
  pose proof (insert_ok s c sent i (mkTTL tx a) 0 100 Hs Hi Hf1) as Hins.
  apply wp_elim in Hins as ([c1 d] & Heq & Hs1 & Hpush). rewrite Heq. simpl.
  assert (id_to_transaction_state c1 = <[i := Unprocessed (mkTTL tx a) 0 100]> (id_to_transaction_state c) ∨
    ∃ j, id_to_transaction_state c1 =
         delete j (<[i := Unprocessed (mkTTL tx a) 0 100]> (id_to_transaction_state c))) as Hm1.
  { destruct Hpush as [_ Hp]. destruct d; [destruct Hp as (_ & v & _ & _ & ->); eauto|].
    destruct Hp as (_ & _ & ->). eauto. }
  wp_step. wp_step. eapply wp_mono; [apply IH|].
  - done.
  - done.
  - intros x Hx. assert (x.1.2 ≠ i) as Hne.
    { intros Heq'. apply Hni. simpl. rewrite <-Heq'. exact (list_elem_of_fmap_2 _ _ _ Hx). }
    pose proof (Hfresh x ltac:(by right)) as Hx0.
    destruct Hm1 as [->|[j ->]]; [by rewrite lookup_insert_ne|].
    apply lookup_delete_None. right. by rewrite lookup_insert_ne.
  - eapply (room_step _ _ (tx, i, a)); [done|apply (fits_nonneg _ Hf)|done|done].
  - intros c2 (Hs2 & Hsteps & Hcap). split_and!; [done| |].
    + eapply rtc_l; [|exact Hsteps]. by eapply sys_insert.
    + rewrite Hcap. by destruct Hpush as [-> _].
Qed.
End System.
