(* ===== verification/Demo.v ===== *)
(** * A concrete scheduler

    The interfaces instantiated: transactions as lists of account numbers with
    a write flag, the heap, the graph and the channels by their list
    implementations.  A short run of a scheduler with two workers provides the
    reachable states at which the system's theorems are evaluated. *)
From S2P Require Import Prelude ThreadSets AccountLocks Messages RwAccountSet Heap Container.
From S2P Require Import InFlight PrioGraph Channels Scheduler Flights SchedulerCore System.
Import AccountLocks RwAccountSet Container PrioGraphScheduler.

Module Demo.
Definition Tx : Type := list (nat * bool).
#[global] Instance transactions : Transactions nat Tx := {|
  account_keys := fmap fst;
  is_writable tx i := match tx !! i with Some (_, b) => b | None => false end
|}.
Definition Heap : Type := ListHeap.t TransactionPriorityId.
#[global] Instance heap : MinMaxHeap Heap TransactionPriorityId := ListHeap.ops priority_id_le.
#[global] Instance heap_laws : MinMaxHeapLaws Heap TransactionPriorityId priority_id_le :=
  ListHeap.laws priority_id_le.
Definition Graph : Type := QueueGraph.t TransactionPriorityId nat.
#[global] Instance graph : PrioGraph Graph TransactionPriorityId nat := QueueGraph.ops.
#[global] Instance graph_laws : PrioGraphLaws Graph TransactionPriorityId nat := QueueGraph.laws.
Definition Sdr : Type := Queue.t (SchedulingBatch Tx).
#[global] Instance sender : Sender Sdr (SchedulingBatch Tx) := Queue.sender.
#[global] Instance sender_laws : SenderLaws Sdr (SchedulingBatch Tx) := Queue.sender_laws.
Definition Rcv : Type := Queue.t (SchedulingBatchResult Tx).
#[global] Instance receiver : Receiver Rcv (SchedulingBatchResult Tx) := Queue.receiver.
#[global] Instance receiver_laws : ReceiverLaws Rcv (SchedulingBatchResult Tx) :=
  Queue.receiver_laws.

Abbreviation scheduler := (PrioGraphScheduler.t nat Sdr Rcv).
Abbreviation container := (TransactionStateContainer Tx Heap).

Definition unwrap_or {A} (d : A) (m : res A) : A := match m with Ok a => a | Panic _ => d end.

(** Filters that accept everything, and no time. *)
Definition pass_all (txs : list Tx) (l : list bool) : list bool := replicate (length l) true.
Definition lock_all (tx : Tx) : bool := true.
Definition no_time (txs : list Tx) : Z := 0.
Definition BLOCK_UNITS : Z := 48000000.

Definition age : MaxAge := mkMaxAge 0 0.
(** Two transactions that write accounts 1 and 2, both reading account 3. *)
Definition tx1 : Tx := [(1, true); (3, false)].
Definition tx2 : Tx := [(2, true); (3, false)].

Definition idle_receiver : Rcv := Queue.mk true [].
Definition nothing : scheduler :=
  PrioGraphScheduler.mk (InFlightTracker.new 0) (mkLocks 0 ∅) [] idle_receiver 0.

Definition s0 : scheduler :=
  unwrap_or nothing (PrioGraphScheduler.new [Queue.mk true []; Queue.mk true []] idle_receiver).
Definition c0 : container := with_capacity 4.
Definition insert (c : container) (i : Z) (tx : Tx) (p : Z) : container :=
  (unwrap_or (c, false) (insert_new_transaction c (mkTxId i) (mkTTL tx age) p 100)).1.
Definition c1 : container := insert c0 10 tx1 5.
Definition c2 : container := insert c1 11 tx2 7.

Definition run (s : scheduler) (c : container) :
    scheduler * container * (SchedulingSummary + SchedulerError) :=
  unwrap_or (s, c, inr (DisconnectedSendChannel ""))
    (schedule (G:=Graph) BLOCK_UNITS pass_all lock_all no_time s c).
(** Both are scheduled, on different threads. *)
Definition s3 : scheduler := (run s0 c2).1.1.
Definition c3 : container := (run s0 c2).1.2.

(** The first worker returns its batch, asking for a retry. *)
Definition first_id : TransactionBatchId := mkBatchId u64_max.
Definition msg0 : SchedulingBatch Tx := mkBatch first_id [mkTxId 11] [tx2] [age].
Definition msg1 : SchedulingBatch Tx := mkBatch (mkBatchId (u64_max - 1)) [mkTxId 10] [tx1] [age].
Definition s4 : scheduler := set_receiver s3 (Queue.mk true [mkBatchResult msg0 [0]]).
Definition received : scheduler * container * ((nat * nat) + SchedulerError) :=
  unwrap_or (s4, c3, inl (0, 0)) (try_receive_completed s4 c3).
Definition s5 : scheduler := received.1.1.
Definition c5 : container := received.1.2.

(** ** The states of the run are reachable *)

Abbreviation reachable := (reachable (G:=Graph) BLOCK_UNITS).
Abbreviation sys_step := (sys_step (G:=Graph) BLOCK_UNITS).

Lemma init0 : sys_init (s0, c0).
Proof.
  exists [Queue.mk true []; Queue.mk true []], idle_receiver, 4. split_and!; [done|done|].
  intros [|[|t]] x Hx; simplify_eq/=; done.
Qed.

(** Bounds on small maps are decided by evaluation. *)
Lemma fits_small (m : gmap TransactionId (TransactionState Tx)) :
  (total key_weight m <=? u32_max)%Z = true → (total cost_weight m <=? u64_max)%Z = true →
  (total one_weight m <=? u64_max)%Z = true →
  forallb (λ x, 0 <=? state_weight cost_weight x.2)%Z (map_to_list m) = true → fits m.
Proof.
  intros Hk Hc Hn Hw. split; [by apply Z.leb_le..|].
  intros i st Hi. rewrite forallb_forall in Hw. apply Z.leb_le. apply (Hw (i, st)).
  by apply list_elem_of_In, elem_of_map_to_list.
Qed.

Lemma step1 s : sys_step (s, c0) (s, c1).
Proof.
  apply (sys_insert _ s c0 (mkTxId 10) (mkTTL tx1 age) 5 100 c1 false);
    [done|apply fits_small; vm_compute; reflexivity|vm_compute; reflexivity].
Qed.
Lemma step2 s : sys_step (s, c1) (s, c2).
Proof.
  apply (sys_insert _ s c1 (mkTxId 11) (mkTTL tx2 age) 7 100 c2 false);
    [vm_compute; reflexivity|apply fits_small; vm_compute; reflexivity|vm_compute; reflexivity].
Qed.

Lemma pass_all_length txs l : length (pass_all txs l) = length l.
Proof. apply length_replicate. Qed.

Definition summary3 : SchedulingSummary := mkSummary 2 0 0 0.

Lemma step3 : sys_step (s0, c2) (s3, c3).
Proof.
  apply (sys_schedule _ pass_all lock_all no_time s0 c2 s3 c3 summary3);
    [apply pass_all_length|vm_compute; discriminate|vm_compute; reflexivity].
Qed.
Lemma step4 : sys_step (s3, c3) (s4, c3).
Proof. apply sys_results. Qed.

Lemma flight3 : in_flight s3 0 msg0 ∧ in_flight s3 1 msg1.
Proof.
  split; (split; [eexists; split; [vm_compute; reflexivity|]|]).
  - vm_compute. left.
  - vm_compute. eauto.
  - vm_compute. left.
  - vm_compute. eauto.
Qed.

Lemma step5 : sys_step (s4, c3) (s5, c5).
Proof.
  apply (sys_receive _ s4 c3 0 msg0 [0] (Queue.mk true []) s5 c5 (1, 1));
    [done|apply flight3|vm_compute; reflexivity].
Qed.

Lemma reachable0 : reachable (s0, c0).
Proof. exists (s0, c0). split; [apply init0|done]. Qed.
Lemma reachable2 : reachable (s0, c2).
Proof.
  exists (s0, c0). split; [apply init0|]. eapply rtc_l; [apply step1|].
  by eapply rtc_l; [apply step2|].
Qed.
Lemma reachable3 : reachable (s3, c3).
Proof.
  destruct reachable2 as (st & Hi & Hr). exists st. split; [done|].
  eapply rtc_r; [done|apply step3].
Qed.
Lemma reachable4 : reachable (s4, c3).
Proof.
  destruct reachable3 as (st & Hi & Hr). exists st. split; [done|].
  eapply rtc_r; [done|apply step4].
Qed.
Lemma reachable5 : reachable (s5, c5).
Proof.
  destruct reachable4 as (st & Hi & Hr). exists st. split; [done|].
  eapply rtc_r; [done|apply step5].
Qed.

(** Nothing is in flight at first. *)
Lemma quiet0 t msg : ¬ in_flight s0 t msg.
Proof.
  intros [(x & Hx & Hin) _]. destruct t as [|[|t]]; vm_compute in Hx; [| |done];
    injection Hx as <-; by apply not_elem_of_nil in Hin.
Qed.

(** The same run with workers that are gone. *)
Definition g0 : scheduler :=
  unwrap_or nothing (PrioGraphScheduler.new [Queue.mk false []; Queue.mk false []] idle_receiver).
Definition g3 : scheduler := (run g0 c2).1.1.
Definition d3 : container := (run g0 c2).1.2.

Lemma reachable_gone : reachable (g0, c2).
Proof.
  exists (g0, c0). split.
  - exists [Queue.mk false []; Queue.mk false []], idle_receiver, 4. split_and!; [done|done|].
    intros [|[|t]] x Hx; simplify_eq/=; done.
  - eapply rtc_l; [apply step1|]. by eapply rtc_l; [apply step2|].
Qed.
End Demo.
