(* ===== verification/SchedulerTests.v ===== *)
(** * The unit tests of the scheduler, run on the model

    The [tests] modules of [scheduler/src/impls/prio_graph_scheduler]: every
    test is a program of the model's operations whose assertions may panic, and
    is evaluated.  Fresh keys are numbers, and a transfer is the list of its
    accounts with their writable flags, in the order of a compiled message: the
    payer, the receivers, then the programs it calls. *)
From S2P Require Import Prelude ThreadSets AccountLocks Messages RwAccountSet Heap Container.
From S2P Require Import InFlight PrioGraph Channels Scheduler Flights SchedulerCore.

(** Keys are binary numbers; heap, graph and channels are the list implementations. *)
Definition Tx : Type := list (N * bool).
#[local] Instance transactions : Transactions N Tx := {|
  account_keys := fmap fst;
  is_writable tx i := match tx !! i with Some (_, b) => b | None => false end
|}.
Definition Heap : Type := ListHeap.t TransactionPriorityId.
#[local] Instance heap : MinMaxHeap Heap TransactionPriorityId := ListHeap.ops priority_id_le.
Definition Graph : Type := QueueGraph.t TransactionPriorityId N.
#[local] Instance graph : PrioGraph Graph TransactionPriorityId N := QueueGraph.ops.
Definition Sdr : Type := Queue.t (SchedulingBatch Tx).
#[local] Instance sender : Sender Sdr (SchedulingBatch Tx) := Queue.sender.
Definition Rcv : Type := Queue.t (SchedulingBatchResult Tx).
#[local] Instance receiver : Receiver Rcv (SchedulingBatchResult Tx) := Queue.receiver.
Abbreviation scheduler := (PrioGraphScheduler.t N Sdr Rcv).
Abbreviation container := (Container.TransactionStateContainer Tx Heap).
Definition no_time (txs : list Tx) : Z := 0.
(** [MAX_BLOCK_UNITS] of [solana_cost_model] *)
Definition BLOCK_UNITS : Z := 48000000.

(** [should_panic(expected = …)]: the message contains the expected text. *)
Fixpoint has_prefix (p s : string) : bool :=
  match p, s with
  | EmptyString, _ => true
  | String a p, String b s => bool_decide (a = b) && has_prefix p s
  | _, _ => false
  end.
Fixpoint has_substring (p s : string) : bool :=
  has_prefix p s || match s with EmptyString => false | String _ s => has_substring p s end.
Definition should_panic {A} (expected : string) (t : res A) : bool :=
  match t with Ok _ => false | Panic msg => has_substring expected msg end.
Inductive test :=
| passes (t : res unit)
| panics (expected : string) {A : Type} (t : res A).
Definition test_ok (t : test) : bool :=
  match t with
  | passes t => passed t
  | panics expected t => should_panic expected t
  end.

(** ** [thread_aware_account_locks.rs] *)
Module LockTests.
Import AccountLocks.
Abbreviation locks := (ThreadAwareAccountLocks N).

Definition TEST_NUM_THREADS : nat := 4.
Definition TEST_ANY_THREADS : res ThreadSet.t := ThreadSet.any TEST_NUM_THREADS.
Definition test_thread_selector (thread_set : ThreadSet.t) : res ThreadId :=
  l ← ThreadSet.contained_threads_iter thread_set; expect (head l) "called `Option::unwrap()` on a `None` value".
Definition pk1 : N := 1.
Definition pk2 : N := 2.
Definition fresh : res locks := new TEST_NUM_THREADS.

Definition test_too_few_num_threads : res locks := new 0.
Definition test_too_many_num_threads : res locks := new (MAX_THREADS + 1).

Definition test_try_lock_accounts_none : res unit :=
  l ← fresh; l ← read_lock_account l pk1 2; l ← read_lock_account l pk1 3;
  any ← TEST_ANY_THREADS;
  '(_, r) ← try_lock_accounts l [pk1] [pk2] any test_thread_selector; assert_eq r None.
Definition test_try_lock_accounts_one : res unit :=
  l ← fresh; l ← write_lock_account l pk2 3;
  any ← TEST_ANY_THREADS;
  '(_, r) ← try_lock_accounts l [pk1] [pk2] any test_thread_selector; assert_eq r (Some 3).
Definition test_try_lock_accounts_multiple : res unit :=
  l ← fresh; l ← read_lock_account l pk2 0; l ← read_lock_account l pk2 0;
  any ← TEST_ANY_THREADS; zero ← ThreadSet.only 0;
  '(_, r) ← try_lock_accounts l [pk1] [pk2] (ThreadSet.sub any zero) test_thread_selector;
  assert_eq r (Some 1).
Definition test_try_lock_accounts_any : res unit :=
  l ← fresh; any ← TEST_ANY_THREADS;
  '(_, r) ← try_lock_accounts l [pk1] [pk2] any test_thread_selector; assert_eq r (Some 0).

(** [assert_eq!(locks.accounts_schedulable_threads(w, r), …)] *)
Definition assert_schedulable (l : locks) (w r : list N) (expected : option ThreadSet.t) : res unit :=
  o ← accounts_schedulable_threads l w r; assert_eq o expected.

Definition test_accounts_schedulable_threads_no_outstanding_locks : res unit :=
  l ← fresh; any ← TEST_ANY_THREADS;
  _ ← assert_schedulable l [pk1] [] (Some any); assert_schedulable l [] [pk1] (Some any).
Definition test_accounts_schedulable_threads_outstanding_write_only : res unit :=
  l ← fresh; l ← write_lock_account l pk1 2; two ← ThreadSet.only 2;
  _ ← assert_schedulable l [pk1; pk2] [] (Some two); assert_schedulable l [] [pk1; pk2] (Some two).
Definition test_accounts_schedulable_threads_outstanding_read_only : res unit :=
  l ← fresh; l ← read_lock_account l pk1 2; two ← ThreadSet.only 2; any ← TEST_ANY_THREADS;
  _ ← assert_schedulable l [pk1; pk2] [] (Some two); _ ← assert_schedulable l [] [pk1; pk2] (Some any);
  l ← read_lock_account l pk1 0;
  _ ← assert_schedulable l [pk1; pk2] [] None; assert_schedulable l [] [pk1; pk2] (Some any).
Definition test_accounts_schedulable_threads_outstanding_mixed : res unit :=
  l ← fresh; l ← read_lock_account l pk1 2; l ← write_lock_account l pk1 2; two ← ThreadSet.only 2;
  _ ← assert_schedulable l [pk1; pk2] [] (Some two); assert_schedulable l [] [pk1; pk2] (Some two).

Definition test_write_lock_account_write_conflict_panic : res locks :=
  l ← fresh; l ← write_lock_account l pk1 0; write_lock_account l pk1 1.
Definition test_write_lock_account_read_conflict_panic : res locks :=
  l ← fresh; l ← read_lock_account l pk1 0; write_lock_account l pk1 1.
Definition test_write_unlock_account_not_locked : res locks :=
  l ← fresh; write_unlock_account l pk1 0.
Definition test_write_unlock_account_thread_mismatch : res locks :=
  l ← fresh; l ← write_lock_account l pk1 1; write_unlock_account l pk1 0.
Definition test_read_lock_account_write_conflict_panic : res locks :=
  l ← fresh; l ← write_lock_account l pk1 0; read_lock_account l pk1 1.
Definition test_read_unlock_account_not_locked : res locks :=
  l ← fresh; read_unlock_account l pk1 1.
Definition test_read_unlock_account_thread_mismatch : res locks :=
  l ← fresh; l ← read_lock_account l pk1 0; read_unlock_account l pk1 1.

Definition test_write_locking : res unit :=
  l ← fresh; l ← write_lock_account l pk1 1; l ← write_lock_account l pk1 1;
  l ← write_unlock_account l pk1 1; l ← write_unlock_account l pk1 1;
  assert_that (bool_decide (size (AccountLocks.locks l) = 0)).
Definition test_read_locking : res unit :=
  l ← fresh; l ← read_lock_account l pk1 1; l ← read_lock_account l pk1 1;
  l ← read_unlock_account l pk1 1; l ← read_unlock_account l pk1 1;
  assert_that (bool_decide (size (AccountLocks.locks l) = 0)).
Definition test_lock_accounts_invalid_thread : res locks :=
  l ← fresh; lock_accounts l [pk1] [] TEST_NUM_THREADS.

(** The assertions on a set between the updates; [member] is the test of each index. *)
Definition assert_set (s : ThreadSet.t) (n : nat) (one : option ThreadId) (member : nat → bool) : res unit :=
  _ ← assert_that (eqb (ThreadSet.is_empty s) (n =? 0));
  _ ← assert_eq (ThreadSet.num_threads s) n;
  _ ← assert_eq (ThreadSet.only_one_contained s) one;
  fold_res (λ _ i, b ← ThreadSet.contains s i; assert_eq b (member i)) () (seq 0 MAX_THREADS).
Definition test_thread_set : res unit :=
  let s := ThreadSet.none in
  _ ← assert_set s 0 None (λ _, false);
  s ← ThreadSet.insert s 4;
  _ ← assert_set s 1 (Some 4) (λ i, i =? 4);
  s ← ThreadSet.insert s 2;
  _ ← assert_set s 2 None (λ i, (i =? 2) || (i =? 4));
  s ← ThreadSet.remove s 4;
  assert_set s 1 (Some 2) (λ i, i =? 2).
Definition test_thread_set_any_zero : res unit :=
  any ← ThreadSet.any 0; assert_eq (ThreadSet.num_threads any) 0.
Definition test_thread_set_any_max : res unit :=
  any ← ThreadSet.any MAX_THREADS; assert_eq (ThreadSet.num_threads any) MAX_THREADS.

(** In the order of the source *)
Definition try_lock_tests : list test :=
  [panics "num threads must be > 0" test_too_few_num_threads;
   panics "num threads must be <=" test_too_many_num_threads;
   passes test_try_lock_accounts_none; passes test_try_lock_accounts_one;
   passes test_try_lock_accounts_multiple; passes test_try_lock_accounts_any].
Definition schedulable_threads_tests : list test :=
  [passes test_accounts_schedulable_threads_no_outstanding_locks;
   passes test_accounts_schedulable_threads_outstanding_write_only;
   passes test_accounts_schedulable_threads_outstanding_read_only;
   passes test_accounts_schedulable_threads_outstanding_mixed].
Definition lock_account_tests : list test :=
  [panics "outstanding write lock must be on same thread" test_write_lock_account_write_conflict_panic;
   panics "outstanding read lock must be on same thread" test_write_lock_account_read_conflict_panic;
   panics "write lock must exist" test_write_unlock_account_not_locked;
   panics "outstanding write lock must be on same thread" test_write_unlock_account_thread_mismatch;
   panics "outstanding write lock must be on same thread" test_read_lock_account_write_conflict_panic;
   panics "read lock must exist" test_read_unlock_account_not_locked;
   panics "outstanding read lock must be on same thread" test_read_unlock_account_thread_mismatch;
   passes test_write_locking; passes test_read_locking;
   panics "thread_id must be < num_threads" test_lock_accounts_invalid_thread].
Definition thread_set_tests : list test :=
  [passes test_thread_set; passes test_thread_set_any_zero; passes test_thread_set_any_max].
End LockTests.

Example lock_tests_pass :
  forallb test_ok (LockTests.try_lock_tests ++ LockTests.schedulable_threads_tests ++
                   LockTests.lock_account_tests ++ LockTests.thread_set_tests) = true.
Proof. vm_compute. reflexivity. Qed.

(** ** [read_write_account_set.rs] *)
Module RwTests.
Import RwAccountSet.

(** The payer, a key read, and the addresses of a table: one written, one read. *)
Definition tx : Tx := [(1, true); (2, false); (3, true); (4, false)]%N.

Definition test_check_and_take_locks (conflict_index : nat) (writes expectation : bool) : res unit :=
  conflict_key ← expect (account_keys tx !! conflict_index) "called `Option::unwrap()` on a `None` value";
  let account_locks := ((if writes then add_write else add_read) rw_default conflict_key).1 in
  _ ← assert_eq expectation (check_locks account_locks tx);
  assert_eq expectation (take_locks account_locks tx).2.
Definition test_check_and_take_locks_write_write_conflict : res unit :=
  _ ← test_check_and_take_locks 0 true false; test_check_and_take_locks 2 true false.
Definition test_check_and_take_locks_read_write_conflict : res unit :=
  _ ← test_check_and_take_locks 0 false false; test_check_and_take_locks 2 false false.
Definition test_check_and_take_locks_write_read_conflict : res unit :=
  _ ← test_check_and_take_locks 1 true false; test_check_and_take_locks 3 true false.
Definition test_check_and_take_locks_read_read_non_conflict : res unit :=
  _ ← test_check_and_take_locks 1 false true; test_check_and_take_locks 3 false true.

Definition none : ReadWriteAccountSet N := rw_default.
Definition test_write_write_conflict : res unit :=
  _ ← assert_that (can_write none 1%N);
  assert_that (negb (can_write (add_write none 1%N).1 1%N)).
Definition test_read_write_conflict : res unit :=
  _ ← assert_that (can_read none 1%N);
  let account_locks := (add_read none 1%N).1 in
  _ ← assert_that (negb (can_write account_locks 1%N)); assert_that (can_read account_locks 1%N).
Definition test_write_read_conflict : res unit :=
  _ ← assert_that (can_write none 1%N);
  let account_locks := (add_write none 1%N).1 in
  _ ← assert_that (negb (can_write account_locks 1%N)); assert_that (negb (can_read account_locks 1%N)).
Definition test_read_read_non_conflict : res unit :=
  _ ← assert_that (can_read none 1%N);
  assert_that (can_read (add_read none 1%N).1 1%N).
Definition test_write_write_different_keys : res unit :=
  _ ← assert_that (can_write none 1%N);
  let account_locks := (add_write none 1%N).1 in
  _ ← assert_that (can_write account_locks 2%N); assert_that (can_read account_locks 2%N).

Definition rw_set_tests : list test :=
  [passes test_check_and_take_locks_write_write_conflict;
   passes test_check_and_take_locks_read_write_conflict;
   passes test_check_and_take_locks_write_read_conflict;
   passes test_check_and_take_locks_read_read_non_conflict; passes test_write_write_conflict;
   passes test_read_write_conflict; passes test_write_read_conflict;
   passes test_read_read_non_conflict; passes test_write_write_different_keys].
End RwTests.

Example rw_set_tests_pass : forallb test_ok RwTests.rw_set_tests = true.
Proof. vm_compute. reflexivity. Qed.

(** ** [transaction_state.rs] *)
Module StateTests.
Definition SLOT_MAX : Z := u64_max.
Definition max_age : MaxAge := mkMaxAge SLOT_MAX SLOT_MAX.
Definition TEST_TRANSACTION_COST : Z := 5000.
(** A transfer of the payer 1 to 2, with the system and compute budget programs *)
Definition transfer : Tx := [(1, true); (2, true); (100, false); (101, false)]%N.

Definition create_transaction_state (compute_unit_price : Z) : TransactionState Tx :=
  state_new (mkTTL transfer max_age) compute_unit_price TEST_TRANSACTION_COST.
Definition is_unprocessed (s : TransactionState Tx) : bool :=
  match s with Unprocessed _ _ _ => true | _ => false end.
Definition is_pending (s : TransactionState Tx) : bool :=
  match s with Pending _ _ _ => true | _ => false end.
#[local] Instance max_age_eq_dec : EqDecision MaxAge.
Proof. solve_decision. Defined.

Definition test_transition_to_pending_panic : res unit :=
  '(s, _) ← transition_to_pending (create_transaction_state 0);
  _ ← transition_to_pending s; Ok ().
Definition test_transition_to_pending : res unit :=
  let s := create_transaction_state 0 in
  _ ← assert_that (is_unprocessed s);
  '(s, _) ← transition_to_pending s; assert_that (is_pending s).
Definition test_transition_to_unprocessed_panic : res unit :=
  let s := create_transaction_state 0 in
  ttl ← transaction_ttl s; _ ← transition_to_unprocessed s ttl; Ok ().
Definition test_transition_to_unprocessed : res unit :=
  let s := create_transaction_state 0 in
  _ ← assert_that (is_unprocessed s);
  '(s, ttl) ← transition_to_pending s; _ ← assert_that (is_pending s);
  s ← transition_to_unprocessed s ttl; assert_that (is_unprocessed s).
Definition test_priority : res unit :=
  let priority := 15%Z in
  let s := create_transaction_state priority in
  p ← state_priority s; _ ← assert_eq p priority;
  '(s, ttl) ← transition_to_pending s; p ← state_priority s; _ ← assert_eq p priority;
  s ← transition_to_unprocessed s ttl; p ← state_priority s; assert_eq p priority.
Definition test_transaction_ttl_panic : res unit :=
  let s := create_transaction_state 0 in
  ttl ← transaction_ttl s; _ ← assert_that (is_unprocessed s);
  _ ← assert_eq (Messages.max_age ttl) max_age;
  '(s, _) ← transition_to_pending s; _ ← assert_that (is_pending s);
  _ ← transaction_ttl s; Ok ().
Definition test_transaction_ttl : res unit :=
  let s := create_transaction_state 0 in
  ttl ← transaction_ttl s; _ ← assert_that (is_unprocessed s);
  _ ← assert_eq (Messages.max_age ttl) max_age;
  '(s, ttl) ← transition_to_pending s; _ ← assert_that (is_pending s);
  s ← transition_to_unprocessed s ttl; ttl ← transaction_ttl s;
  _ ← assert_that (is_unprocessed s); assert_eq (Messages.max_age ttl) max_age.

Definition state_tests : list test :=
  [panics "already pending" test_transition_to_pending_panic; passes test_transition_to_pending;
   panics "already unprocessed" test_transition_to_unprocessed_panic;
   passes test_transition_to_unprocessed; passes test_priority;
   panics "transaction is pending" test_transaction_ttl_panic; passes test_transaction_ttl].
End StateTests.

Example state_tests_pass : forallb test_ok StateTests.state_tests = true.
Proof. vm_compute. reflexivity. Qed.

(** ** [transaction_state_container.rs], [in_flight_tracker.rs] and
    [transaction_priority_id.rs] *)
Module ContainerTests.
Import Container.

Definition test_transaction (priority : Z) : SanitizedTransactionTTL Tx * Z * Z :=
  (mkTTL StateTests.transfer StateTests.max_age, priority, StateTests.TEST_TRANSACTION_COST).
Definition push_to_container (c : container) (num : nat) : res container :=
  fold_res (λ c i,
      let id := Z.of_nat i in
      let '(ttl, priority, cost) := test_transaction id in
      '(c, _) ← insert_new_transaction c (mkTxId id) ttl priority cost; Ok c)
    c (seq 0 num).

Definition test_is_empty : res unit :=
  let c := with_capacity 1 in
  _ ← assert_that (is_empty c); c ← push_to_container c 1; assert_that (negb (is_empty c)).
Definition test_priority_queue_capacity : res unit :=
  c ← push_to_container (with_capacity 1) 5;
  _ ← assert_eq (heap_len (priority_queue c)) 1;
  _ ← assert_eq (size (id_to_transaction_state c)) 1;
  s ← expect (head (map_to_list (id_to_transaction_state c))) "called `Option::unwrap()` on a `None` value";
  p ← state_priority s.2; assert_eq p 4%Z.
Definition test_get_mut_transaction_state : res unit :=
  c ← push_to_container (with_capacity 5) 5;
  let existing_id := mkTxId 3 in
  let non_existing_id := mkTxId 7 in
  _ ← assert_that (bool_decide (is_Some (get_mut_transaction_state c existing_id)));
  _ ← assert_that (bool_decide (is_Some (get_mut_transaction_state c existing_id)));
  assert_that (negb (bool_decide (is_Some (get_mut_transaction_state c non_existing_id)))).

Import InFlightTracker.
Definition test_in_flight_tracker_untracked_batch : res unit :=
  _ ← complete_batch (new 2) (mkBatchId 5); Ok ().
Definition assert_in_flight (tr : t) (num cus : list Z) : res unit :=
  _ ← assert_eq (num_in_flight_per_thread tr) num; assert_eq (cus_in_flight_per_thread tr) cus.
Definition test_in_flight_tracker : res unit :=
  '(tr, batch_id_0) ← track_batch (new 2) 2 10000 0;
  _ ← assert_in_flight tr [2; 0]%Z [10000; 0]%Z;
  '(tr, batch_id_1) ← track_batch tr 1 15000 1;
  _ ← assert_in_flight tr [2; 1]%Z [10000; 15000]%Z;
  '(tr, _) ← complete_batch tr batch_id_0;
  _ ← assert_in_flight tr [0; 1]%Z [0; 15000]%Z;
  '(tr, _) ← complete_batch tr batch_id_1;
  assert_in_flight tr [0; 0]%Z [0; 0]%Z.

(** [id1 < id2] of the derived order *)
Definition le (x y : TransactionPriorityId) : bool := bool_decide (priority_id_le x y).
Definition lt (x y : TransactionPriorityId) : bool := le x y && negb (le y x).
Definition test_transaction_priority_id_ordering : res unit :=
  let id p i := mkPriorityId p (mkTxId i) in
  _ ← assert_that (lt (id 1 1) (id 2 1) && le (id 1 1) (id 2 1))%Z;
  _ ← assert_that (lt (id 1 1) (id 1 2) && le (id 1 1) (id 1 2))%Z;
  _ ← assert_eq (id 1 1)%Z (id 1 1)%Z;
  assert_that (le (id 1 1) (id 1 1))%Z.

Definition container_tests : list test :=
  [passes test_is_empty; passes test_priority_queue_capacity; passes test_get_mut_transaction_state].
Definition in_flight_tests : list test :=
  [panics "is not being tracked" test_in_flight_tracker_untracked_batch; passes test_in_flight_tracker].
End ContainerTests.

Example container_tests_pass :
  forallb test_ok (ContainerTests.container_tests ++ ContainerTests.in_flight_tests ++
                   [passes ContainerTests.test_transaction_priority_id_ordering]) = true.
Proof. vm_compute. reflexivity. Qed.

(** ** [scheduler.rs] *)
Module ScheduleTests.
Import PrioGraphScheduler Container.

Definition create_test_frame (num_threads : nat) : res scheduler :=
  new (replicate num_threads (Queue.mk true [])) (Queue.mk true []).
(** The payer and the receivers are written, the programs read. *)
Definition prioritized_tranfers (from : N) (to : list N) (lamports priority : Z) : Tx :=
  (from, true) :: ((λ k, (k, true)) <$> to) ++ [(1000%N, false); (1001%N, false)].
Definition info (from : N) (to : list N) (lamports price : Z) : N * list N * Z * Z :=
  (from, to, lamports, price).
Definition create_container (tx_infos : list (N * list N * Z * Z)) : res container :=
  fold_res (λ c '(index, (from, to, lamports, compute_unit_price)),
      let ttl := mkTTL (prioritized_tranfers from to lamports compute_unit_price) StateTests.max_age in
      '(c, _) ← insert_new_transaction c (mkTxId (Z.of_nat index)) ttl compute_unit_price
                  StateTests.TEST_TRANSACTION_COST;
      Ok c)
    (with_capacity (10 * 1024)) (enumerate tx_infos).

(** [try_iter] on the receiver of a worker: the batches, and the channel emptied *)
Definition collect_work (s : scheduler) (i : nat) : res (scheduler * list (SchedulingBatch Tx)) :=
  q ← vec_get (consume_work_senders s) i;
  ss ← vec_set (consume_work_senders s) i (Queue.mk (Queue.connected q) []);
  Ok (set_senders s ss, Queue.queue q).
Definition work_ids (l : list (SchedulingBatch Tx)) : list (list Z) := (λ b, tx_value <$> Messages.ids b) <$> l.
Definition assert_work (s : scheduler) (i : nat) (expected : list (list Z)) : res scheduler :=
  '(s, work) ← collect_work s i; _ ← assert_eq (work_ids work) expected; Ok s.

Definition test_pre_graph_filter (txs : list Tx) (results : list bool) : list bool :=
  replicate (length results) true.
Definition test_pre_lock_filter (tx : Tx) : bool := true.
Definition run_schedule (filter : Tx → bool) (s : scheduler) (c : container) :
    res (scheduler * container * (SchedulingSummary + SchedulerError)) :=
  schedule (G:=Graph) BLOCK_UNITS test_pre_graph_filter filter no_time s c.
(** [schedule(…).unwrap()], then the assertions on the summary *)
Definition schedule_expect (filter : Tx → bool) (s : scheduler) (c : container) (scheduled unschedulable : Z) :
    res (scheduler * container) :=
  '(s, c, r) ← run_schedule filter s c;
  match r with
  | inl summary =>
      _ ← assert_eq (num_scheduled summary) scheduled;
      _ ← assert_eq (num_unschedulable summary) unschedulable; Ok (s, c)
  | inr _ => Panic "called `Result::unwrap()` on an `Err` value"
  end.

Definition test_schedule_disconnected_channel : res unit :=
  s ← create_test_frame 1;
  c ← create_container [info 1 [2]%N 1 1];
  let s := set_senders s [Queue.mk false []] in
  '(_, _, r) ← run_schedule test_pre_lock_filter s c;
  match r with inr (DisconnectedSendChannel _) => Ok () | _ => Panic "assertion failed" end.
Definition test_schedule_single_threaded_no_conflicts : res unit :=
  s ← create_test_frame 1;
  c ← create_container [info 1 [2]%N 1 1; info 3 [4]%N 2 2];
  '(s, c) ← schedule_expect test_pre_lock_filter s c 2 0;
  _ ← assert_work s 0 [[1; 0]]%Z; Ok ().
Definition test_schedule_single_threaded_conflict : res unit :=
  s ← create_test_frame 1;
  c ← create_container [info 1 [2]%N 1 1; info 3 [2]%N 1 2];
  '(s, c) ← schedule_expect test_pre_lock_filter s c 2 0;
  _ ← assert_work s 0 [[1]; [0]]%Z; Ok ().
Definition test_schedule_consume_single_threaded_multi_batch : res unit :=
  s ← create_test_frame 1;
  c ← create_container ((λ i, info (2000 + 2 * N.of_nat i) [2001 + 2 * N.of_nat i]%N (Z.of_nat i) 1) <$>
                          seq 0 (4 * TARGET_NUM_TRANSACTIONS_PER_BATCH));
  '(s, c) ← schedule_expect test_pre_lock_filter s c
              (Z.of_nat (4 * TARGET_NUM_TRANSACTIONS_PER_BATCH)) 0;
  '(s, work) ← collect_work s 0;
  assert_eq ((λ b, length (Messages.ids b)) <$> work) (replicate 4 TARGET_NUM_TRANSACTIONS_PER_BATCH).
Definition test_schedule_simple_thread_selection : res unit :=
  s ← create_test_frame 2;
  c ← create_container ((λ i, info (10 + 2 * N.of_nat i) [11 + 2 * N.of_nat i]%N 1 (Z.of_nat i)) <$> seq 0 4);
  '(s, c) ← schedule_expect test_pre_lock_filter s c 4 0;
  s ← assert_work s 0 [[3; 1]]%Z; _ ← assert_work s 1 [[2; 0]]%Z; Ok ().

Definition with_look_ahead (s : scheduler) (n : Z) : scheduler :=
  PrioGraphScheduler.mk (in_flight_tracker s) (account_locks s) (consume_work_senders s) (finished_consume_work_receiver s) n.
(** [finished_work_sender.send(…)] *)
Definition finish (s : scheduler) (r : SchedulingBatchResult Tx) : scheduler :=
  let q := finished_consume_work_receiver s in
  set_receiver s (Queue.mk (Queue.connected q) (Queue.queue q ++ [r])).
Definition test_schedule_priority_guard : res unit :=
  s ← create_test_frame 2;
  let s := with_look_ahead s 2 in
  c ← create_container
        [info 10 [11]%N 1 6; info 12 [13]%N 1 5; info 14 [15]%N 1 4; info 16 [17]%N 1 3; info 11 [12]%N 1 2;
         info 12 [13]%N 1 1];
  '(s, c) ← schedule_expect test_pre_lock_filter s c 4 2;
  '(s, thread_0_work) ← collect_work s 0;
  _ ← assert_eq (work_ids thread_0_work) [[0]; [2]]%Z;
  s ← assert_work s 1 [[1]; [3]]%Z;
  '(s, c) ← schedule_expect test_pre_lock_filter s c 0 2;
  batch ← expect (head thread_0_work) "called `Option::unwrap()` on a `None` value";
  let s := finish s (mkBatchResult batch []) in
  '(s, c, r) ← receive_completed s c;
  _ ← match r with inl _ => Ok () | inr _ => Panic "called `Result::unwrap()` on an `Err` value" end;
  '(s, c) ← schedule_expect test_pre_lock_filter s c 2 0;
  _ ← assert_work s 1 [[4]; [5]]%Z; Ok ().
Definition test_schedule_pre_lock_filter : res unit :=
  s ← create_test_frame 1;
  c ← create_container [info 1 [5]%N 1 1; info 2 [5]%N 1 2; info 3 [5]%N 1 3];
  let pre_lock_filter (tx : Tx) := negb (bool_decide (head (account_keys tx) = Some 2%N)) in
  '(s, c) ← schedule_expect pre_lock_filter s c 2 0;
  _ ← assert_work s 0 [[2]; [0]]%Z; Ok ().

Definition schedule_tests : list test :=
  [passes test_schedule_disconnected_channel; passes test_schedule_single_threaded_no_conflicts;
   passes test_schedule_single_threaded_conflict;
   passes test_schedule_consume_single_threaded_multi_batch;
   passes test_schedule_simple_thread_selection].
Definition schedule_order_tests : list test :=
  [passes test_schedule_priority_guard; passes test_schedule_pre_lock_filter].
End ScheduleTests.

Example schedule_tests_pass :
  forallb test_ok (ScheduleTests.schedule_tests ++ ScheduleTests.schedule_order_tests) = true.
Proof. vm_compute. reflexivity. Qed.
