(* ===== verification/ComponentTheorems.v ===== *)
(** * Components of the scheduler: correctness

    The properties of thread sets, the look-ahead account set, the container,
    the in-flight tracker and the identifiers, each on its own. *)
From S2P Require Import Prelude ThreadSets Messages RwAccountSet Heap Container InFlight Demo.
Import RwAccountSet Container.
Set Default Proof Using "Type*".

(** ** Thread sets refine finite sets *)

Definition threads (s : ThreadSet.t) : gset nat := list_to_set (set_bits (ThreadSet.bits s)).

Lemma elem_of_threads s i : ThreadSet.wf s → i ∈ threads s ↔ i ∈ s.
Proof. intros Hs. unfold threads. rewrite elem_of_list_to_set. by apply ThreadSetFacts.elem_of_bits. Qed.

Lemma size_threads s : size (threads s) = ThreadSet.num_threads s.
Proof. unfold threads. by rewrite size_list_to_set by apply NoDup_set_bits. Qed.

(** C12: a 64-bit thread set is a finite set of thread numbers.  Each operation
    of [ThreadSet] on well-formed sets and threads below 64 returns without
    panicking and computes the set operation it is named after; the count and
    the emptiness test are exact. *)
Theorem thread_set_refines s1 s2 t n :
  ThreadSet.wf s1 → ThreadSet.wf s2 → t < 64 → n ≤ 64 →
  threads ThreadSet.none = ∅ ∧
  wp (ThreadSet.any n) (λ s, ThreadSet.wf s ∧ threads s = set_seq 0 n) ∧
  wp (ThreadSet.only t) (λ s, ThreadSet.wf s ∧ threads s = {[t]}) ∧
  wp (ThreadSet.insert s1 t) (λ s, ThreadSet.wf s ∧ threads s = {[t]} ∪ threads s1) ∧
  wp (ThreadSet.remove s1 t) (λ s, ThreadSet.wf s ∧ threads s = threads s1 ∖ {[t]}) ∧
  (ThreadSet.wf (ThreadSet.bitand s1 s2) ∧
   threads (ThreadSet.bitand s1 s2) = threads s1 ∩ threads s2) ∧
  (ThreadSet.wf (ThreadSet.sub s1 s2) ∧ threads (ThreadSet.sub s1 s2) = threads s1 ∖ threads s2) ∧
  ThreadSet.contains s1 t = Ok (bool_decide (t ∈ threads s1)) ∧
  ThreadSet.num_threads s1 = size (threads s1) ∧
  (ThreadSet.is_empty s1 = true ↔ threads s1 = ∅) ∧
  (ThreadSet.only_one_contained s1 = Some t ↔ threads s1 = {[t]}).
Proof.
  intros H1 H2 Ht Hn. split_and!.
  - done.
  - apply ThreadSetFacts.wp_any; [done|]. intros s Hs Hm. split; [done|]. apply set_eq. intros i.
    rewrite elem_of_threads, Hm, elem_of_set_seq by done. lia.
  - apply ThreadSetFacts.wp_only; [done|]. intros s Hs Hm. split; [done|]. apply set_eq. intros i.
    by rewrite elem_of_threads, Hm, elem_of_singleton.
  - apply ThreadSetFacts.wp_insert; [done|done|]. intros s Hs Hm. split; [done|]. apply set_eq. intros i.
    by rewrite elem_of_union, elem_of_singleton, !elem_of_threads, Hm.
  - apply ThreadSetFacts.wp_remove; [done|done|]. intros s Hs Hm. split; [done|]. apply set_eq. intros i.
    by rewrite elem_of_difference, elem_of_singleton, !elem_of_threads, Hm.
  - by apply ThreadSetFacts.bitand_wf.
  - apply set_eq. intros i. rewrite elem_of_intersection, !elem_of_threads; [|done|done|].
    + apply ThreadSetFacts.elem_of_bitand.
    + by apply ThreadSetFacts.bitand_wf.
  - by apply ThreadSetFacts.sub_wf.
  - apply set_eq. intros i. rewrite elem_of_difference, !elem_of_threads;
      [|done|done|by apply ThreadSetFacts.sub_wf].
    destruct (decide (i < 64)) as [Hi|Hi]; [by apply ThreadSetFacts.elem_of_sub|].
    split; [intros Hin; eapply ThreadSetFacts.elem_of_lt in Hin; [lia|by apply ThreadSetFacts.sub_wf]|].
    intros [Hin _]. apply ThreadSetFacts.elem_of_lt in Hin; [lia|done].
  - rewrite ThreadSetFacts.contains_ok by done. f_equal. apply bool_decide_ext.
    by rewrite elem_of_threads.
  - by rewrite size_threads.
  - rewrite ThreadSetFacts.is_empty_spec by done. rewrite set_eq. setoid_rewrite elem_of_threads; [|done].
    split; [intros Hno i; split; [by intros ?%Hno|set_solver]|intros He i Hi%He; set_solver].
  - rewrite ThreadSetFacts.only_one_contained_Some by done. rewrite set_eq.
    setoid_rewrite elem_of_threads; [|done]. setoid_rewrite elem_of_singleton. naive_solver.
Qed.

(** ** The look-ahead account set *)

Section RwTheorems.
Context {Pubkey Tx : Type} `{Countable Pubkey} `{Transactions Pubkey Tx}.

(** Taking the locks of several transactions, one after the other. *)
Definition take_all (s : ReadWriteAccountSet Pubkey) (ms : list Tx) : ReadWriteAccountSet Pubkey :=
  foldl (λ s m, (take_locks s m).1) s ms.

(** the blocking set blocks exactly the transactions that conflict with
    one held back.  After the locks of any transactions were taken from an
    empty set, [check_locks] accepts a transaction if and only if it conflicts
    with none of them. *)
Theorem check_locks_exact (held : list Tx) (m : Tx) :
  check_locks (take_all rw_default held) m = true ↔ ∀ m', m' ∈ held → ¬ tx_conflict m' m.
Proof.
  unfold take_all.
  enough (∀ s, check_locks (foldl (λ s m, (take_locks s m).1) s held) m = true ↔
    check_locks s m = true ∧ ∀ m', m' ∈ held → ¬ tx_conflict m' m) as Hs.
  { rewrite Hs. split; [tauto|]. intros Hno. split; [|done]. apply check_locks_spec.
    split; intros; simpl; [split|]; apply not_elem_of_empty. }
  induction held as [|m1 held IH]; intros s; simpl.
  - split; [|tauto]. intros. split; [done|]. by intros ? ?%not_elem_of_nil.
  - rewrite IH, check_locks_take. setoid_rewrite elem_of_cons. naive_solver.
Qed.

(** on a transaction without duplicate accounts, [take_locks] reports what
    [check_locks] would have answered before. *)
Theorem take_locks_reports_check (s : ReadWriteAccountSet Pubkey) (m : Tx) :
  NoDup (account_keys m) → (take_locks s m).2 = check_locks s m.
Proof. apply take_locks_flag. Qed.
End RwTheorems.

(** ** The container *)

Section ContainerTheorems.
Context {Tx H : Type} `{MinMaxHeapLaws H TransactionPriorityId priority_id_le}.
Implicit Types (c : TransactionStateContainer Tx H).
Abbreviation queue c := (heap_into_vec (priority_queue c)).

(** inserting a new transaction.  On a consistent container and a fresh
    id, [insert_new_transaction] does not panic and keeps the container
    consistent and its capacity fixed.  With room left the transaction is
    queued and nothing is dropped; a full queue drops, from queue and map, the
    least entry in (priority, id) order, possibly the new one, and only then
    the call returns [true]. *)
Theorem insert_new_transaction_spec c i ttl p cost :
  cont_ok c [] → id_to_transaction_state c !! i = None →
  let m1 := <[i := Unprocessed ttl p cost]> (id_to_transaction_state c) in
  let x := mkPriorityId p i in
  ∃ c' dropped, insert_new_transaction c i ttl p cost = Ok (c', dropped) ∧ cont_ok c' [] ∧
    heap_capacity (priority_queue c') = heap_capacity (priority_queue c) ∧
    if dropped : bool then
      length (queue c) = heap_capacity (priority_queue c) ∧
      ∃ v, x :: queue c ≡ₚ v :: queue c' ∧ id_to_transaction_state c' = delete (id v) m1 ∧
        ∀ y, y ∈ x :: queue c → priority_id_le v y
    else
      length (queue c) < heap_capacity (priority_queue c) ∧
      queue c' ≡ₚ x :: queue c ∧ id_to_transaction_state c' = m1.
Proof.
  intros Hc Hi m1 x.
  destruct (wp_elim _ _ (insert_new_transaction_ok c i ttl p cost Hc Hi))
    as ([c' d] & Heq & Hc' & Hcap & Hp).
  exists c', d. split_and!; try done. destruct d; naive_solver.
Qed.

(** [pop] takes the greatest entry in (priority, id) order out of the
    queue and leaves the map alone; it answers [None] exactly on an empty
    queue. *)
Theorem pop_greatest c :
  cont_ok c [] →
  match pop c with
  | (None, c') => c' = c ∧ queue c = []
  | (Some x, c') =>
      queue c ≡ₚ x :: queue c' ∧ (∀ y, y ∈ queue c → priority_id_le y x) ∧
      id_to_transaction_state c' = id_to_transaction_state c ∧ cont_ok c' [x]
  end.
Proof.
  intros Hc. destruct (pop c) as [[x|] c'] eqn:Hpop.
  - apply (pop_Some c x c' []) in Hpop as (? & ? & ? & _ & ?); done.
  - by apply pop_None.
Qed.

(** a popped transaction that is made pending and then retried is back in
    the queue with its priority, and the map is what it was; nothing else is
    dropped. *)
Theorem pending_retry_roundtrip c x c1 ttl cost :
  cont_ok c [] → pop c = (Some x, c1) →
  id_to_transaction_state c !! id x = Some (Unprocessed ttl (priority x) cost) →
  ∃ c2, transition_to_pending (Unprocessed ttl (priority x) cost) =
          Ok (Pending ttl (priority x) cost, ttl) ∧
    retry_transaction
      (set_states c1 (<[id x := Pending ttl (priority x) cost]> (id_to_transaction_state c1)))
      (id x) ttl = Ok c2 ∧
    queue c2 ≡ₚ queue c ∧ id_to_transaction_state c2 = id_to_transaction_state c.
Proof.
  intros Hc Hpop Hx. apply (pop_Some c x c1 []) in Hpop as (Hq & _ & Hm & Hcap & Hc1); [|done].
  pose proof (cont_ok_pending c1 x [] ttl (priority x) cost Hc1) as Hc1'.
  set (c1' := set_states c1 _) in *.
  destruct (wp_elim _ _ (retry_transaction_ok c1' (id x) ttl ttl (priority x) cost Hc1'
    ltac:(apply lookup_insert_eq))) as (c2 & Heq & _ & d & Hcap2 & Hp).
  exists c2. split_and!; [done|exact Heq|..]; destruct d; simpl in Hp.
  - destruct Hp as (Hfull & _). destruct Hc as [_ Hlen]. rewrite Hq in Hlen. simpl in *. lia.
  - destruct Hp as (_ & Hq2 & _). rewrite Hq2, Hq. by destruct x.
  - destruct Hp as (Hfull & _). destruct Hc as [_ Hlen]. rewrite Hq in Hlen. simpl in *. lia.
  - destruct Hp as (_ & _ & ->). rewrite insert_insert_eq, Hm. by apply insert_id.
Qed.
End ContainerTheorems.

(** ** The in-flight tracker *)

Section TrackerTheorems.
Import InFlightTracker.

(** Any sequence of calls that return, with sizes that are [usize] and [u64],
    before the generator has handed out all its ids. *)
Inductive tracker_step : InFlightTracker.t → InFlightTracker.t → Prop :=
| step_track tr num cus i tr' b :
    (0 ≤ num)%Z → (0 ≤ cus)%Z → (0 < IdGenerator.next_id (batch_id_generator tr))%Z →
    track_batch tr num cus i = Ok (tr', b) → tracker_step tr tr'
| step_complete tr b tr' i :
    complete_batch tr b = Ok (tr', i) → tracker_step tr tr'.

Lemma vec_add_Ok v i x v' :
  vec_add v i x = Ok v' → ∃ y, v !! i = Some y ∧ (y + x ≤ u64_max)%Z.
Proof.
  unfold vec_add. intros Hv. res_split Hv as y Hy. res_split Hv as z Hz.
  apply checked_add_Ok in Hz. apply expect_Ok in Hy. exists y. split; [done|lia].
Qed.

Lemma tracker_step_ok n tr tr' :
  tracker_step tr tr' → InFlightTracker.ok n tr → InFlightTracker.ok n tr'.
Proof.
  intros Hstep Hok. destruct Hstep as [tr num cus i tr' b Hn Hc Hid Heq|tr b tr' i Heq].
  - pose proof Heq as Heq'. unfold track_batch in Heq'. simpl in Heq'.
    res_split Heq' as v1 Hv1. res_split Heq' as v2 Hv2.
    apply vec_add_Ok in Hv1 as (y1 & Hy1 & Hle1). apply vec_add_Ok in Hv2 as (y2 & Hy2 & Hle2).
    pose proof (track_batch_ok n tr num cus i Hok) as Hw. rewrite Heq in Hw.
    apply Hw; try done.
    + rewrite <-(ok_num_len _ _ Hok). by eapply lookup_lt_Some.
    + by rewrite <-(ok_num _ _ Hok _ _ Hy1).
    + by rewrite <-(ok_cus _ _ Hok _ _ Hy2).
  - destruct (batches tr !! b) as [e|] eqn:Hb; [|unfold complete_batch in Heq; by rewrite Hb in Heq].
    pose proof (complete_batch_ok n tr b e Hok Hb) as Hw. rewrite Heq in Hw. apply Hw.
Qed.

Lemma tracker_reachable_ok n tr : rtc tracker_step (new n) tr → InFlightTracker.ok n tr.
Proof.
  intros Hsteps. pose proof (new_ok n) as Hok. revert Hok.
  induction Hsteps; eauto using tracker_step_ok.
Qed.

(** the in-flight counters are exact.  After any sequence of
    [track_batch] and [complete_batch] calls, the two counters of a thread are
    the sums, over the batches tracked for it, of their transactions and of
    their compute units. *)
Theorem tracker_counts_exact n tr i x y :
  rtc tracker_step (new n) tr →
  num_in_flight_per_thread tr !! i = Some x → cus_in_flight_per_thread tr !! i = Some y →
  x = msum (on_thread i num_transactions) (batches tr) ∧
  y = msum (on_thread i total_cus) (batches tr).
Proof.
  intros Hok%tracker_reachable_ok Hx Hy.
  split; [by apply (ok_num _ _ Hok)|by apply (ok_cus _ _ Hok)].
Qed.

Lemma vec_sub_add v i y z :
  v !! i = Some y → (0 ≤ y)%Z → vec_sub (<[i := (y + z)%Z]> v) i z = Ok v.
Proof.
  intros Hy Hp. assert (i < length v) by by eapply lookup_lt_Some.
  unfold vec_sub, vec_get, vec_set. rewrite list_lookup_insert_eq by done. simpl.
  unfold checked_sub. rewrite (proj2 (Z.leb_le _ _)) by lia. simpl. f_equal.
  rewrite list_insert_insert_eq, Z.add_simpl_r. by apply list_insert_id.
Qed.

(** [complete_batch] undoes [track_batch].  The id it returns was not in
    use; completing it gives back the thread and restores the counters and the
    batches; completing it a second time panics. *)
Theorem track_complete_roundtrip n tr num cus i tr' b :
  rtc tracker_step (new n) tr → (0 ≤ num)%Z → (0 ≤ cus)%Z →
  (0 < IdGenerator.next_id (batch_id_generator tr))%Z →
  track_batch tr num cus i = Ok (tr', b) →
  batches tr !! b = None ∧
  ∃ tr'', complete_batch tr' b = Ok (tr'', i) ∧ batches tr'' = batches tr ∧
    num_in_flight_per_thread tr'' = num_in_flight_per_thread tr ∧
    cus_in_flight_per_thread tr'' = cus_in_flight_per_thread tr ∧
    complete_batch tr'' b = Panic "batch id is not being tracked".
Proof.
  intros Hok%tracker_reachable_ok Hn Hc Hid Heq. pose proof (fresh_batch_id _ _ Hok) as Hfresh.
  unfold track_batch in Heq. simpl in Heq.
  res_split Heq as v1 Hv1. res_split Heq as v2 Hv2. injection Heq as <- <-.
  split; [done|]. unfold vec_add in Hv1, Hv2.
  res_split Hv1 as y1 Hy1. res_split Hv1 as z1 Hz1. res_split Hv2 as y2 Hy2. res_split Hv2 as z2 Hz2.
  apply expect_Ok in Hy1, Hy2. apply checked_add_Ok in Hz1 as [_ ->], Hz2 as [_ ->].
  unfold vec_set in Hv1, Hv2. rewrite Hy1 in Hv1. rewrite Hy2 in Hv2. simplify_eq.
  assert (0 ≤ y1 ∧ 0 ≤ y2)%Z as [Hp1 Hp2].
  { rewrite (ok_num _ _ Hok _ _ Hy1), (ok_cus _ _ Hok _ _ Hy2).
    split; apply msum_nonneg; intros b e Hb; unfold on_thread; destruct (ok_entry _ _ Hok _ _ Hb)
      as (_ & ? & ?); case_decide; lia. }
  eexists. unfold complete_batch at 1. simpl. rewrite lookup_insert_eq. simpl.
  rewrite !vec_sub_add by done. simpl. split; [done|]. simpl. rewrite delete_insert_id by done.
  split_and!; try done. unfold complete_batch. simpl. by rewrite Hfresh.
Qed.
End TrackerTheorems.

(** ** Identifiers *)

(** the ids handed out are distinct.  The first [n] ids of a fresh
    generator, for any [n] up to 2^64, are pairwise different [u64] values. *)
Theorem gen_distinct n :
  (Z.of_nat n ≤ 2 ^ 64)%Z →
  NoDup (IdGenerator.gen_n n IdGenerator.default).1 ∧
  Forall u64 (IdGenerator.gen_n n IdGenerator.default).1.
Proof.
  intros Hn. rewrite gen_n_spec by (simpl; unfold u64, u64_max in *; lia). split.
  - apply NoDup_fmap_2_strong; [|apply NoDup_seq]. intros x y _ _ Hxy. lia.
  - apply Forall_fmap, Forall_forall. intros i Hi%elem_of_seq. unfold u64, compose. simpl.
    unfold u64_max in *. lia.
Qed.

(** ** The theorems at concrete inputs *)

Module ComponentWitnesses.
Import Demo.

Definition set5 : ThreadSet.t := ThreadSet.mk 5.
Definition set6 : ThreadSet.t := ThreadSet.mk 6.

Lemma thread_set_refines_witness :
  threads (ThreadSet.bitand set5 set6) = threads set5 ∩ threads set6 ∧
  threads (ThreadSet.sub set5 set6) = threads set5 ∖ threads set6.
Proof.
  destruct (thread_set_refines set5 set6 1 3)
    as (_ & _ & _ & _ & _ & [_ Hand] & [_ Hsub] & _);
    [vm_compute; split; discriminate|vm_compute; split; discriminate|lia|lia|].
  by split.
Defined.

Lemma take_locks_reports_check_witness :
  (take_locks (take_locks rw_default tx2).1 tx1).2 = check_locks (take_locks rw_default tx2).1 tx1.
Proof.
  apply take_locks_reports_check. apply NoDup_cons. split.
  - intros H%list_elem_of_singleton. discriminate H.
  - apply NoDup_singleton.
Defined.

(** The containers of the run are consistent. *)
Lemma cont_ok1 : cont_ok c1 [].
Proof.
  pose proof (insert_new_transaction_ok c0 (mkTxId 10) (mkTTL tx1 age) 5 100
    (with_capacity_ok 4) (lookup_empty _)) as Hw.
  change (insert_new_transaction c0 _ _ _ _) with (Ok (c1, false)) in Hw. apply Hw.
Qed.
Lemma cont_ok2 : cont_ok c2 [].
Proof.
  pose proof (insert_new_transaction_ok c1 (mkTxId 11) (mkTTL tx2 age) 7 100 cont_ok1
    ltac:(vm_compute; reflexivity)) as Hw.
  change (insert_new_transaction c1 _ _ _ _) with (Ok (c2, false)) in Hw. apply Hw.
Qed.

Lemma insert_new_transaction_spec_witness : ∃ c' dropped,
  insert_new_transaction c1 (mkTxId 11) (mkTTL tx2 age) 7 100 = Ok (c', dropped) ∧ cont_ok c' [].
Proof.
  destruct (insert_new_transaction_spec c1 (mkTxId 11) (mkTTL tx2 age) 7 100 cont_ok1)
    as (c' & d & Heq & Hc' & _); [vm_compute; reflexivity|]. by exists c', d.
Defined.

Lemma pop_greatest_witness :
  heap_into_vec (priority_queue c2) ≡ₚ
    mkPriorityId 7 (mkTxId 11) :: heap_into_vec (priority_queue (pop c2).2) ∧
  (∀ y, y ∈ heap_into_vec (priority_queue c2) → priority_id_le y (mkPriorityId 7 (mkTxId 11))).
Proof. destruct (pop_greatest c2 cont_ok2) as (Hq & Hmax & _). split; [exact Hq|exact Hmax]. Defined.

Lemma pending_retry_roundtrip_witness : ∃ c',
  transition_to_pending (Unprocessed (mkTTL tx2 age) 7 100) =
    Ok (Pending (mkTTL tx2 age) 7 100, mkTTL tx2 age) ∧
  retry_transaction
    (set_states (pop c2).2
       (<[mkTxId 11 := Pending (mkTTL tx2 age) 7 100]> (id_to_transaction_state (pop c2).2)))
    (mkTxId 11) (mkTTL tx2 age) = Ok c' ∧
  heap_into_vec (priority_queue c') ≡ₚ heap_into_vec (priority_queue c2) ∧
  id_to_transaction_state c' = id_to_transaction_state c2.
Proof.
  apply (pending_retry_roundtrip c2 (mkPriorityId 7 (mkTxId 11)) (pop c2).2 (mkTTL tx2 age) 100
    cont_ok2); vm_compute; reflexivity.
Defined.

(** A tracker with one batch of three transactions on thread 1. *)
Definition tracker0 : InFlightTracker.t := InFlightTracker.new 2.
Definition tracker1 : InFlightTracker.t :=
  match InFlightTracker.track_batch tracker0 3 250 1 with Ok (tr, _) => tr | Panic _ => tracker0 end.
Definition id0 : TransactionBatchId := mkBatchId u64_max.

Lemma tracker1_reachable : rtc tracker_step tracker0 tracker1.
Proof.
  eapply rtc_l; [|apply rtc_refl].
  apply (step_track tracker0 3 250 1 tracker1 id0); [lia|lia|done|vm_compute; reflexivity].
Qed.

Lemma tracker_counts_exact_witness :
  3%Z = msum (InFlightTracker.on_thread 1 InFlightTracker.num_transactions)
          (InFlightTracker.batches tracker1) ∧
  250%Z = msum (InFlightTracker.on_thread 1 InFlightTracker.total_cus)
            (InFlightTracker.batches tracker1).
Proof. apply (tracker_counts_exact 2 tracker1 1 3 250 tracker1_reachable); vm_compute; reflexivity. Defined.

Lemma track_complete_roundtrip_witness :
  InFlightTracker.batches tracker0 !! id0 = None ∧
  ∃ tr'', InFlightTracker.complete_batch tracker1 id0 = Ok (tr'', 1) ∧
    InFlightTracker.batches tr'' = InFlightTracker.batches tracker0 ∧
    InFlightTracker.num_in_flight_per_thread tr'' = InFlightTracker.num_in_flight_per_thread tracker0 ∧
    InFlightTracker.cus_in_flight_per_thread tr'' = InFlightTracker.cus_in_flight_per_thread tracker0 ∧
    InFlightTracker.complete_batch tr'' id0 = Panic "batch id is not being tracked".
Proof.
  apply (track_complete_roundtrip 2 tracker0 3 250 1 tracker1 id0);
    [apply rtc_refl|lia|lia|done|vm_compute; reflexivity].
Defined.

Lemma gen_distinct_witness :
  NoDup (IdGenerator.gen_n 3 IdGenerator.default).1 ∧
  Forall u64 (IdGenerator.gen_n 3 IdGenerator.default).1.
Proof. apply (gen_distinct 3). vm_compute. discriminate. Defined.
End ComponentWitnesses.
