(* ===== verification/SchedulerTheorems.v ===== *)
(** * Scheduler: correctness

    What the prio-graph scheduler promises, in every reachable state of the
    system it runs in. *)
From S2P Require Import Prelude ThreadSets AccountLocks AccountLocksFacts LockTheorems Messages.
From S2P Require Import RwAccountSet Heap Container InFlight PrioGraph Channels Scheduler Flights.
From S2P Require Import SchedulerCore SchedulerOps SchedulePass ScheduleLoop ScheduleSpec.
From S2P Require Import ScheduleProgress ReceiveSpec System Demo.
Import AccountLocks RwAccountSet Container PrioGraphScheduler.
Set Default Proof Using "Type*".

Section Theorems.
Context {Pubkey Tx H G S R : Type}.
Context `{Countable Pubkey} `{Transactions Pubkey Tx}.
Context `{MinMaxHeapLaws H TransactionPriorityId priority_id_le}.
Context `{!PrioGraph G TransactionPriorityId Pubkey, !PrioGraphLaws G TransactionPriorityId Pubkey}.
Context `{SenderLaws S (SchedulingBatch Tx)}.
Context `{ReceiverLaws R (SchedulingBatchResult Tx)}.
Context (MAX_BLOCK_UNITS : Z).
Abbreviation queue c := (heap_into_vec (priority_queue c)).
Abbreviation reachable := (reachable (G:=G) MAX_BLOCK_UNITS).
Abbreviation sched := (schedule (G:=G) MAX_BLOCK_UNITS).
Implicit Types (s : t Pubkey S R) (c : TransactionStateContainer Tx H).

(** C1: transactions held by different workers never conflict.  In every
    reachable state, if one worker holds a transaction that writes an account,
    no transaction held by another worker reads or writes it. *)
Theorem in_flight_never_conflict s c t1 t2 msg1 msg2 tx1 tx2 :
  reachable (s, c) → in_flight s t1 msg1 → in_flight s t2 msg2 → t1 ≠ t2 →
  tx1 ∈ transactions msg1 → tx2 ∈ transactions msg2 → ¬ tx_conflict tx1 tx2.
Proof.
  intros [sent Hs]%reachable_ok Hf1 Hf2 Hne Htx1 Htx2 (a & Ha).
  pose proof (core_locks _ _ _ _ (so_core _ _ _ Hs)) as Hl. rewrite flights_idle in Hl.
  pose proof (in_flight_grant _ _ _ _ _ _ Hs Hf1 Htx1) as Hg1.
  pose proof (in_flight_grant _ _ _ _ _ _ Hs Hf2 Htx2) as Hg2.
  destruct (inv_held _ _ a Hl Hg1) as [Hw1 Hr1]. destruct (inv_held _ _ a Hl Hg2) as [Hw2 Hr2].
  simpl in *. pose proof (write_excludes _ a t1 t2 (inv_wf _ Hl)) as Hx1.
  pose proof (write_excludes _ a t2 t1 (inv_wf _ Hl)) as Hx2. simpl in *.
  destruct Ha as [[Ha1 [Ha2|Ha2]]|[Ha1 Ha2]].
  - specialize (Hx1 (Hw1 Ha1) (not_eq_sym Hne)). specialize (Hw2 Ha2). lia.
  - specialize (Hx1 (Hw1 Ha1) (not_eq_sym Hne)). specialize (Hr2 Ha2). lia.
  - specialize (Hx2 (Hw2 Ha2) Hne). specialize (Hr1 Ha1). lia.
Qed.

(** C2: a scheduling pass never panics: every loop of [schedule] ends, every
    index and every arithmetic operation is in range, the unlock and unblock
    calls are legal, and the final assertion that as many transactions were
    sent as scheduled holds.  The state it leaves is reachable again, unless a
    worker was gone.  This is for containers whose transactions' accounts and
    costs add up within the widths of the counters, which reachable states
    keep to, for a graph filter that gives one verdict per transaction, and as
    long as there is a free batch id for each queued transaction. *)
Theorem schedule_never_panics pre_graph_filter pre_lock_filter elapsed_us s c :
  reachable (s, c) → (∀ txs l, length (pre_graph_filter txs l) = length l) →
  (Z.of_nat (length (queue c)) ≤ next_batch_id s)%Z →
  ∃ s' c' r, sched pre_graph_filter pre_lock_filter elapsed_us s c = Ok (s', c', r) ∧
    match r with
    | inl _ => reachable (s', c')
    | inr e => e = DisconnectedSendChannel "consume work sender"
    end.
Proof.
  intros Hr Hlen Hid. destruct (reachable_ok _ _ _ Hr) as [sent Hs].
  pose proof (schedule_ok MAX_BLOCK_UNITS pre_graph_filter pre_lock_filter elapsed_us False
    Hlen ltac:(done) ltac:(done) s c sent Hs Hid) as Hw.
  apply wp_elim in Hw as ([[s' c'] r] & Heq & Hpost). exists s', c', r. split; [done|].
  destruct r as [sm|e]; [|by destruct Hpost].
  destruct Hr as (st0 & Hi & Hsteps). exists st0. split; [done|].
  eapply rtc_r; [done|]. by eapply sys_schedule.
Qed.

(** C3: a pass neither loses nor duplicates transactions.  With filters that
    accept everything, the queue before the pass is a permutation of the queue
    after it and of the ids sent; their number is the one reported, and each
    of them is in flight on a thread. *)
Theorem schedule_conserves pre_graph_filter pre_lock_filter elapsed_us s c s' c' sm :
  reachable (s, c) → (∀ txs l, pre_graph_filter txs l = replicate (length l) true) →
  (∀ tx, pre_lock_filter tx = true) →
  (Z.of_nat (length (queue c)) ≤ next_batch_id s)%Z →
  sched pre_graph_filter pre_lock_filter elapsed_us s c = Ok (s', c', inl sm) →
  ∃ new : list (nat * TransactionPriorityId),
    queue c ≡ₚ queue c' ++ new.*2 ∧ num_scheduled sm = Z.of_nat (length new) ∧
    ∀ t x, (t, x) ∈ new → ∃ msg, in_flight s' t msg ∧ id x ∈ ids msg.
Proof.
  intros [sent Hs]%reachable_ok Hg Hl Hid Heq.
  pose proof (schedule_ok MAX_BLOCK_UNITS pre_graph_filter pre_lock_filter elapsed_us True
    ltac:(intros; by rewrite Hg, length_replicate)
    ltac:(intros; rewrite Hg; by apply Forall_replicate) ltac:(auto) s c sent Hs Hid) as Hw.
  rewrite Heq in Hw. destruct Hw as [(sent' & newF & dropped & Hs' & HF & Hq & Hn & Hd) _].
  exists (prod_map (λ t, t) j_pid <$> newF). rewrite (Hd I), app_nil_r in Hq. split_and!.
  - rewrite Hq. by rewrite <-!list_fmap_compose.
  - by rewrite length_fmap.
  - intros t x ([t' j] & [= -> ->] & Hin)%list_elem_of_fmap.
    assert ((t', j) ∈ sent_flight sent') as Hj by (rewrite HF; apply elem_of_app; by left).
    apply sent_flight_elem in Hj as (b & js & Hb & Hj). exists (batch_message b js).
    split; [by eapply sent_in_flight|]. simpl. apply (list_elem_of_fmap_2 j_id _ _ Hj).
Qed.

(** C5: the container and the workers agree.  In every reachable state a
    transaction is pending in the container exactly when a worker holds it. *)
Theorem pending_iff_in_flight s c i :
  reachable (s, c) →
  (∃ ttl p cost, id_to_transaction_state c !! i = Some (Pending ttl p cost)) ↔
  ∃ t msg, in_flight s t msg ∧ i ∈ ids msg.
Proof. intros [sent Hs]%reachable_ok. by apply (pending_in_flight s c sent). Qed.

(** C8: in every reachable state the queue holds exactly the unprocessed
    transactions of the map, with their priority, no id twice, and no more than
    its capacity. *)
Theorem queue_iff_unprocessed s c :
  reachable (s, c) →
  NoDup (id <$> queue c) ∧ length (queue c) ≤ heap_capacity (priority_queue c) ∧
  ∀ x, x ∈ queue c ↔
    ∃ ttl cost, id_to_transaction_state c !! id x = Some (Unprocessed ttl (priority x) cost).
Proof. intros [sent Hs]%reachable_ok. apply cont_ok_queue, (so_cont _ _ _ Hs). Qed.

(** C6: receiving the result of a batch in flight never panics, leads to a
    reachable state, takes exactly this batch out of flight and gives back
    exactly what it held: for every account and thread the write and read lock
    counts drop by the locks of the batch's transactions on its own thread, the
    in-flight counters of that thread drop by the number and the cost of its
    transactions, and every other lock, counter and tracked batch stays. *)
Theorem receive_never_panics s c t msg rs r' :
  reachable (s, c) → in_flight s t msg →
  try_recv (finished_consume_work_receiver s) = (inl (mkBatchResult msg rs), r') →
  ∃ s' c', try_receive_completed s c = Ok (s', c', inl (length (ids msg), length rs)) ∧
    reachable (s', c') ∧
    (∀ t' m, in_flight s' t' m ↔ in_flight s t' m ∧ batch_id m ≠ batch_id msg) ∧
    gives_back s c t msg s'.
Proof.
  intros Hr Hf Hrecv. destruct (reachable_ok _ _ _ Hr) as [sent Hs].
  destruct (in_flight_sent _ _ _ _ _ Hs Hf) as (js & Hb & Hmsg).
  assert (length (ids msg) = length js) as Hlen by (rewrite Hmsg; simpl; by rewrite length_fmap).
  pose proof Hrecv as Hrecv'. rewrite Hmsg in Hrecv'.
  pose proof (try_receive_completed_ok s c sent _ t js rs r' Hs Hb Hrecv') as Hw.
  apply wp_elim in Hw as ([[s' c'] r] & Heq & -> & Hs' & _ & Hse & _). exists s', c'.
  rewrite Hlen. split_and!; [done| |by eapply in_flight_delete|by eapply delete_gives_back].
  destruct Hr as (st0 & Hi & Hsteps). exists st0. split; [done|].
  eapply rtc_r; [done|]. eapply (sys_receive _ s c t msg rs r'); [done|done|]. exact Heq.
Qed.

(** C7: retried transactions go back to the queue and the others are forgotten.
    When the result of a batch in flight lists increasing indexes and the queue
    has room, the ids at these indexes, and no others, are queued again, and
    every other transaction of the batch leaves the container. *)
Theorem receive_requeues s c t msg rs r' s' c' n :
  reachable (s, c) → in_flight s t msg →
  try_recv (finished_consume_work_receiver s) = (inl (mkBatchResult msg rs), r') →
  StronglySorted (<) rs → length (queue c) + length rs ≤ heap_capacity (priority_queue c) →
  try_receive_completed s c = Ok (s', c', n) →
  ∃ back, queue c' ≡ₚ queue c ++ back ∧ id <$> back = omap (λ i, ids msg !! i) rs ∧
    ∀ i, i ∈ ids msg → i ∉ id <$> back → id_to_transaction_state c' !! i = None.
Proof.
  intros [sent Hs]%reachable_ok Hf Hrecv Hsort Hroom Heq.
  destruct (in_flight_sent _ _ _ _ _ Hs Hf) as (js & Hb & Hmsg).
  pose proof Hrecv as Hrecv'. rewrite Hmsg in Hrecv'.
  pose proof (try_receive_completed_ok s c sent _ t js rs r' Hs Hb Hrecv') as Hw.
  rewrite Heq in Hw. destruct Hw as (-> & Hs' & _ & _ & _ & _ & dropped & Hq & Hd).
  rewrite retried_sorted in Hq, Hd by (auto with lia).
  assert (omap (λ r, js !! (r - 0)) rs = omap (λ r, js !! r) rs) as Hom
    by (apply omap_pointwise; intros; by rewrite Nat.sub_0_r).
  rewrite Hom in Hq, Hd. rewrite Hd, app_nil_r in Hq
    by (etrans; [apply Nat.add_le_mono_l, length_omap_le|done]).
  set (back := j_pid <$> omap (λ r, js !! r) rs) in *. exists back. split_and!; [by symmetry| |].
  - unfold back. rewrite Hmsg. simpl. rewrite <-list_fmap_compose, list_fmap_omap.
    apply omap_pointwise. intros r. by rewrite list_lookup_fmap.
  - intros i Hi Hback. apply (received_gone s c s' c' sent t msg i Hs Hf Hs' Hi).
    intros x Hx. rewrite <-Hq, elem_of_app. intros [Hxc|Hxb].
    + apply (in_flight_not_queued s c sent t msg x); [done|done|by rewrite Hx|done].
    + apply Hback. rewrite <-Hx. by apply list_elem_of_fmap_2.
Qed.

(** at rest nothing is locked.  In a reachable state with no batch in
    flight the lock table is empty, no thread has compute units or transactions
    counted against it, and no transaction is pending. *)
Theorem quiescent_unlocked s c :
  reachable (s, c) → (∀ t msg, ¬ in_flight s t msg) →
  locks (account_locks s) = ∅ ∧
  (∀ t x, InFlightTracker.cus_in_flight_per_thread (in_flight_tracker s) !! t = Some x → x = 0%Z) ∧
  (∀ t x, InFlightTracker.num_in_flight_per_thread (in_flight_tracker s) !! t = Some x → x = 0%Z) ∧
  pending_jobs (id_to_transaction_state c) = [].
Proof.
  intros [sent Hs]%reachable_ok Hno. pose proof (quiet_sent _ _ _ Hs Hno) as ->.
  pose proof (so_core _ _ _ Hs) as Hc.
  assert (sent_flight (∅ : gmap TransactionBatchId (nat * list (job Tx))) = []) as Hnil
    by (unfold sent_flight; by rewrite map_to_list_empty).
  destruct Hc as [Hn Hcur Hl Htr Hse Hp Hf] eqn:E. clear E. rewrite flights_idle, Hnil in Hl, Hp.
  split_and!.
  - assert (account_locks s = mkLocks (num_threads (account_locks s)) ∅) as ->; [|done].
    apply locks_ext; [apply (inv_wf _ Hl)|apply new_wf, (wf_threads _ (inv_wf _ Hl))|done|..];
      intros a t; [exact (inv_w _ Hl a t)|exact (inv_r _ Hl a t)].
  - intros t x Hx. rewrite (core_cus _ _ _ _ _ _ Hc Hx), Hnil. done.
  - intros t x Hx. rewrite (core_num _ _ _ _ _ _ Hc Hx), Hnil. done.
  - symmetry in Hp. by apply Permutation_nil_r.
Qed.

(** the in-flight counters count what the workers hold.  In a reachable
    state, the number counted for a thread is the number of transactions of the
    batches its worker holds, each batch once. *)
Theorem num_in_flight_exact s c t x :
  reachable (s, c) →
  InFlightTracker.num_in_flight_per_thread (in_flight_tracker s) !! t = Some x →
  ∃ msgs, NoDup (batch_id <$> msgs) ∧ (∀ msg, msg ∈ msgs ↔ in_flight s t msg) ∧
    x = sumZ (λ msg, Z.of_nat (length (ids msg))) msgs.
Proof.
  intros [sent Hs]%reachable_ok Hx. pose proof (so_core _ _ _ Hs) as Hc.
  rewrite (core_num _ _ _ _ _ _ Hc Hx), thread_batches.
  set (l := filter _ _). exists ((λ x, batch_message x.1 x.2.2) <$> l). split_and!.
  - rewrite <-list_fmap_compose. apply (sublist_NoDup _ (map_to_list sent).*1).
    + apply NoDup_fst_map_to_list.
    + apply fmap_sublist, sublist_filter.
  - intros msg. rewrite list_elem_of_fmap. split.
    + intros ([b [t' js]] & -> & Hin). apply list_elem_of_filter in Hin as [Ht Hb%elem_of_map_to_list].
      simpl in *. subst t'. by eapply sent_in_flight.
    + intros Hf. destruct (in_flight_sent _ _ _ _ _ Hs Hf) as (js & Hb & Hmsg).
      exists (batch_id msg, (t, js)). split; [done|]. apply list_elem_of_filter.
      split; [done|]. by apply elem_of_map_to_list.
  - rewrite sumZ_fmap. apply sumZ_ext. intros y _. unfold compose. simpl. by rewrite length_fmap.
Qed.

(** the decision for one transaction.  In a reachable state,
    [try_schedule_transaction] on an unprocessed transaction drops it exactly
    when the filter rejects it, holds it back, with its accounts added to the
    blocking set and nothing locked, exactly when it conflicts with a
    transaction held back before or no thread can take all its locks, and
    otherwise gives it to a thread that can take them all and has the fewest
    compute units, then transactions, in flight among those. *)
Theorem try_schedule_decides s c i ttl p cost plf bl :
  let n := length (consume_work_senders s) in
  let tr := in_flight_tracker s in
  let b := Batches_new (Tx:=Tx) n in
  let tx := transaction ttl in
  let able t := can_lock_all (account_locks s) (write_account_locks tx) (read_account_locks tx) t in
  let cus t := default 0%Z (InFlightTracker.cus_in_flight_per_thread tr !! t) in
  let num t := default 0%Z (InFlightTracker.num_in_flight_per_thread tr !! t) in
  reachable (s, c) → id_to_transaction_state c !! i = Some (Unprocessed ttl p cost) →
  ∃ st bl' locks' r,
    try_schedule_transaction (Unprocessed ttl p cost) plf bl (account_locks s) n
      (λ ts, select_thread ts (b_total_cus b)
               (InFlightTracker.cus_in_flight_per_thread tr) (b_transactions b)
               (InFlightTracker.num_in_flight_per_thread tr)) = Ok (st, bl', locks', r) ∧
    match r with
    | inr Filtered =>
        plf tx = false ∧ st = Unprocessed ttl p cost ∧ bl' = bl ∧ locks' = account_locks s
    | inr UnschedulableConflicts =>
        plf tx = true ∧ (check_locks bl tx = false ∨ ∀ t, ¬ able t) ∧
        st = Unprocessed ttl p cost ∧ bl' = (take_locks bl tx).1 ∧ locks' = account_locks s
    | inl info =>
        plf tx = true ∧ check_locks bl tx = true ∧ able (i_thread_id info) ∧
        (∀ t, able t → no_more_loaded cus num (i_thread_id info) t) ∧
        st = Pending ttl p cost ∧ bl' = bl ∧ i_transaction info = tx ∧ i_cost info = cost
    end.
Proof.
  intros n tr b tx able cus num [sent Hs]%reachable_ok Hi. pose proof (so_core _ _ _ Hs) as Hc.
  pose proof (try_schedule_ok plf bl s _ _ sent b (mkJob (mkPriorityId p i) ttl cost)
    Hc (batches_new_ok n) Hi) as Hw.
  apply wp_elim in Hw as ([[[st bl'] locks'] r] & Heq & Hpost). exists st, bl', locks', r.
  split; [exact Heq|]. unfold try_schedule_post in Hpost. destruct r as [info|[]].
  - destruct Hpost as (t & -> & -> & -> & Hplf & Hck & Hable & Hmin & _). simpl.
    split_and!; try done. intros t' Ht'. specialize (Hmin t' Ht'). rewrite flights_idle in Hmin.
    destruct Hable as (Hlt & _), Ht' as (Hlt' & _). rewrite (core_threads _ _ _ _ Hc) in Hlt, Hlt'.
    unfold no_more_loaded, cus, num, tr.
    by rewrite !(core_cus_default _ _ _ _ _ Hc), !(core_num_default _ _ _ _ _ Hc) by done.
  - naive_solver.
  - naive_solver.
Qed.

(** when a worker is gone.  If [schedule] reports a disconnected worker,
    no transaction that was pending changed, every other one is unchanged,
    gone, or pending as it was; but the ids the pass had taken from the queue
    are not put back: the unprocessed transactions are those queued together
    with some stranded ones. *)
Theorem disconnected_send pre_graph_filter pre_lock_filter elapsed_us s c s' c' e :
  reachable (s, c) → (∀ txs l, length (pre_graph_filter txs l) = length l) →
  (Z.of_nat (length (queue c)) ≤ next_batch_id s)%Z →
  sched pre_graph_filter pre_lock_filter elapsed_us s c = Ok (s', c', inr e) →
  e = DisconnectedSendChannel "consume work sender" ∧
  evolves (id_to_transaction_state c) (id_to_transaction_state c') ∧
  ∃ stranded, NoDup (id <$> queue c' ++ stranded) ∧ ∀ x, x ∈ queue c' ++ stranded ↔
    ∃ ttl cost, id_to_transaction_state c' !! id x = Some (Unprocessed ttl (priority x) cost).
Proof.
  intros [sent Hs]%reachable_ok Hlen Hid Heq.
  pose proof (schedule_ok MAX_BLOCK_UNITS pre_graph_filter pre_lock_filter elapsed_us False
    Hlen ltac:(done) ltac:(done) s c sent Hs Hid) as Hw.
  rewrite Heq in Hw. destruct Hw as (-> & Hev & _ & out & [(Hnd & Hm & _) _]).
  split_and!; [done|done|]. exists out. done.
Qed.

(** [receive_completed] takes in every result that is waiting.  If they
    are results of distinct non-empty batches in flight, the loop ends without
    panicking, no result is left, and exactly these batches are no longer in
    flight. *)
Theorem receive_completed_total s c :
  reachable (s, c) →
  NoDup ((λ msg, batch_id (batch msg)) <$> recv_pending (finished_consume_work_receiver s)) →
  (∀ msg, msg ∈ recv_pending (finished_consume_work_receiver s) →
     ids (batch msg) ≠ [] ∧ ∃ t, in_flight s t (batch msg)) →
  ∃ s' c' r, receive_completed s c = Ok (s', c', r) ∧
    recv_pending (finished_consume_work_receiver s') = [] ∧
    ∀ t m, in_flight s' t m ↔ in_flight s t m ∧
      batch_id m ∉ (λ msg, batch_id (batch msg)) <$> recv_pending (finished_consume_work_receiver s).
Proof.
  intros [sent Hs]%reachable_ok Hnd Hin.
  assert (results_ok sent (recv_pending (finished_consume_work_receiver s))) as Hres.
  { apply results_ok_intro; [done|]. intros msg Hmsg. destruct (Hin msg Hmsg) as [Hne [t Hf]].
    destruct (in_flight_sent _ _ _ _ _ Hs Hf) as (js & Hb & Heq). exists t, js.
    split_and!; [done| |done]. intros ->. apply Hne. rewrite Heq. done. }
  pose proof (receive_loop_ok (Datatypes.S (length (recv_pending (finished_consume_work_receiver s))))
    s c sent 0 0 Hs Hres ltac:(lia)) as Hw.
  apply wp_elim in Hw as ([[s' c'] r] & Heq & Hs' & Hpend & _ & Hse & _).
  exists s', c', r. split_and!; [exact Heq|done|]. intros t m. unfold in_flight, in_log. rewrite Hse.
  rewrite (core_sent _ _ _ _ (so_core _ _ _ Hs)), (core_sent _ _ _ _ (so_core _ _ _ Hs')).
  rewrite !lookup_fmap, !fmap_is_Some, lookup_returned. naive_solver.
Qed.

(** the scheduler's entry point.  [schedule_batch] on a batch of new
    transactions with distinct ids, within the bounds of the counters, never
    panics; unless a worker is gone it leads to a reachable state again. *)
Theorem schedule_batch_never_panics elapsed_us (w : Wrapper Pubkey Tx H S R) txs :
  reachable (inner w, wrapped_container w) →
  let l := zip (zip (transactions txs) (ids txs)) (max_ages txs) in
  NoDup ((λ x, x.1.2) <$> l) →
  (∀ x, x ∈ l → id_to_transaction_state (wrapped_container w) !! x.1.2 = None) →
  room (id_to_transaction_state (wrapped_container w)) l →
  (Z.of_nat (heap_capacity (priority_queue (wrapped_container w))) ≤ next_batch_id (inner w))%Z →
  ∃ w' r, schedule_batch (G:=G) MAX_BLOCK_UNITS elapsed_us w txs = Ok (w', r) ∧
    match r with
    | inl _ => reachable (inner w', wrapped_container w')
    | inr e => e = DisconnectedSendChannel "consume work sender"
    end.
Proof.
  intros Hr l Hnd Hfresh Hroom Hid. destruct (reachable_ok _ _ _ Hr) as [sent Hs].
  pose proof (insert_batch_ok MAX_BLOCK_UNITS _ _ _ _ Hs Hnd Hfresh Hroom) as Hw.
  apply wp_elim in Hw as (c1 & Heq & Hs1 & Hsteps & Hcap). unfold schedule_batch.
  replace (insert_batch (wrapped_container w) txs) with (Ok c1) by (symmetry; exact Heq). simpl.
  destruct (cont_ok_queue _ (so_cont _ _ _ Hs1)) as (_ & Hlen & _).
  pose proof (schedule_ok MAX_BLOCK_UNITS (λ _ result, replicate (length result) true) (λ _, true)
    elapsed_us False ltac:(intros; apply length_replicate) ltac:(done) ltac:(done) _ c1 sent Hs1
    ltac:(lia)) as Hw.
  apply wp_elim in Hw as ([[s' c'] r] & Hsch & Hpost). rewrite Hsch. simpl.
  eexists _, _. split; [done|]. destruct r as [sm|e]; [|by destruct Hpost]. simpl.
  destruct Hr as (st0 & Hi & Hs0). exists st0. split; [done|].
  etrans; [exact Hs0|]. eapply rtc_r; [exact Hsteps|].
  eapply sys_schedule; [| |exact Hsch]; [intros; apply length_replicate|lia].
Qed.
(** C4: An idle scheduler makes progress.  In a reachable state with no batch in
    flight and transactions queued, a pass with filters that accept everything
    returns, and it schedules at least one transaction unless a worker is gone.
    The block must have at least one compute unit per thread, and each queued
    transaction a free batch id. *)
Theorem idle_pass_progresses pre_graph_filter pre_lock_filter elapsed_us s c :
  reachable (s, c) → (∀ txs l, pre_graph_filter txs l = replicate (length l) true) →
  (∀ tx, pre_lock_filter tx = true) →
  (Z.of_nat (length (queue c)) ≤ next_batch_id s)%Z →
  (Z.of_nat (length (consume_work_senders s)) ≤ MAX_BLOCK_UNITS)%Z →
  (∀ t msg, ¬ in_flight s t msg) → queue c ≠ [] →
  ∃ s' c' r, sched pre_graph_filter pre_lock_filter elapsed_us s c = Ok (s', c', r) ∧
    match r with
    | inl sm => (1 ≤ num_scheduled sm)%Z
    | inr e => e = DisconnectedSendChannel "consume work sender"
    end.
Proof.
  intros Hr Hg Hl Hid Hmax Hidle Hq. pose proof (reachable_window _ _ _ Hr) as Hwin.
  destruct (reachable_ok _ _ _ Hr) as [sent Hs].
  assert (sent_flight sent = []) as Hsent.
  { destruct (sent_flight sent) as [|[t j] l] eqn:Hsf; [done|]. exfalso.
    assert ((t, j) ∈ sent_flight sent) as (b & js & Hb & _)%sent_flight_elem by (rewrite Hsf; left).
    eapply Hidle. by eapply sent_in_flight. }
  pose proof (schedule_ok MAX_BLOCK_UNITS pre_graph_filter pre_lock_filter elapsed_us False
    ltac:(intros; by rewrite Hg, length_replicate) ltac:(done) ltac:(done) s c sent Hs Hid) as Hw.
  apply wp_elim in Hw as ([[s' c'] r] & Heq & Hpost). exists s', c', r. split; [done|].
  destruct r as [sm|e]; [|by destruct Hpost].
  eapply schedule_progress; [..|exact Heq]; try done.
  - intros. by rewrite Hg, length_replicate.
  - intros. rewrite Hg. by apply Forall_replicate.
  - by rewrite Hwin.
Qed.
End Theorems.

(** ** The theorems at the states of the concrete run *)

Module SchedulerWitnesses.
Import Demo.

Lemma in_flight_never_conflict_witness : ¬ tx_conflict tx2 tx1.
Proof.
  apply (in_flight_never_conflict BLOCK_UNITS s3 c3 0 1 msg0 msg1);
    [apply reachable3|apply flight3|apply flight3|done|left|left].
Defined.

Lemma schedule_never_panics_witness : ∃ s' c' r,
  schedule (G:=Graph) BLOCK_UNITS pass_all lock_all no_time s0 c2 = Ok (s', c', r) ∧
  match r with
  | inl _ => reachable (s', c')
  | inr e => e = DisconnectedSendChannel "consume work sender"
  end.
Proof.
  apply (schedule_never_panics BLOCK_UNITS pass_all lock_all no_time s0 c2);
    [apply reachable2|apply pass_all_length|vm_compute; discriminate].
Defined.

Lemma schedule_conserves_witness : ∃ new : list (nat * TransactionPriorityId),
  heap_into_vec (priority_queue c2) ≡ₚ heap_into_vec (priority_queue c3) ++ new.*2 ∧
  2%Z = Z.of_nat (length new) ∧
  ∀ t x, (t, x) ∈ new → ∃ msg, in_flight s3 t msg ∧ id x ∈ ids msg.
Proof.
  apply (schedule_conserves BLOCK_UNITS pass_all lock_all no_time s0 c2 s3 c3 summary3);
    [apply reachable2|done|done|vm_compute; discriminate|vm_compute; reflexivity].
Defined.

Lemma idle_pass_progresses_witness :
  ∃ s' c' r, schedule (G:=Graph) BLOCK_UNITS pass_all lock_all no_time s0 c2 = Ok (s', c', r) ∧
    match r with
    | inl sm => (1 ≤ num_scheduled sm)%Z
    | inr e => e = DisconnectedSendChannel "consume work sender"
    end.
Proof.
  apply (idle_pass_progresses BLOCK_UNITS pass_all lock_all no_time s0 c2);
    [apply reachable2|done|done|vm_compute; discriminate|vm_compute; discriminate| |vm_compute; discriminate].
  intros t msg [_ [? Hb]]. vm_compute in Hb. discriminate.
Defined.

Lemma pending_iff_in_flight_witness :
  (∃ ttl p cost, id_to_transaction_state c3 !! mkTxId 10 = Some (Pending ttl p cost)) ↔
  ∃ t msg, in_flight s3 t msg ∧ mkTxId 10 ∈ ids msg.
Proof. apply (pending_iff_in_flight BLOCK_UNITS s3 c3 (mkTxId 10)), reachable3. Defined.

Lemma queue_iff_unprocessed_witness :
  NoDup (id <$> heap_into_vec (priority_queue c2)) ∧
  length (heap_into_vec (priority_queue c2)) ≤ heap_capacity (priority_queue c2) ∧
  ∀ x, x ∈ heap_into_vec (priority_queue c2) ↔
    ∃ ttl cost, id_to_transaction_state c2 !! id x = Some (Unprocessed ttl (priority x) cost).
Proof. apply (queue_iff_unprocessed BLOCK_UNITS s0 c2), reachable2. Defined.

Lemma receive_never_panics_witness :
  rcount (account_locks s4) 3 0 = 1%Z ∧ rcount (account_locks s4) 3 1 = 1%Z ∧
  ∃ s' c', try_receive_completed s4 c3 = Ok (s', c', inl (1, 1)) ∧ reachable (s', c') ∧
    (∀ t' m, in_flight s' t' m ↔ in_flight s4 t' m ∧ batch_id m ≠ first_id) ∧
    rcount (account_locks s') 3 0 = 0%Z ∧ rcount (account_locks s') 3 1 = 1%Z ∧
    InFlightTracker.num_in_flight_per_thread (in_flight_tracker s') !! 0 = Some 0%Z ∧
    InFlightTracker.num_in_flight_per_thread (in_flight_tracker s') !! 1 = Some 1%Z.
Proof.
  split; [vm_compute; done|]. split; [vm_compute; done|].
  destruct (receive_never_panics BLOCK_UNITS s4 c3 0 msg0 [0] (Queue.mk true []))
    as (s' & c' & Heq & Hr & Hf & Hg); [apply reachable4|apply flight3|done|].
  exists s', c'. split; [exact Heq|]. split; [exact Hr|]. split; [exact Hf|].
  rewrite !(gb_read _ _ _ _ _ Hg), !(gb_num _ _ _ _ _ Hg).
  clear. vm_compute. repeat split.
Defined.

Lemma receive_requeues_witness : ∃ back,
  heap_into_vec (priority_queue c5) ≡ₚ heap_into_vec (priority_queue c3) ++ back ∧
  id <$> back = [mkTxId 11] ∧
  ∀ i, i ∈ ids msg0 → i ∉ id <$> back → id_to_transaction_state c5 !! i = None.
Proof.
  apply (receive_requeues BLOCK_UNITS s4 c3 0 msg0 [0] (Queue.mk true []) s5 c5 (inl (1, 1)));
    [apply reachable4|apply flight3|done|repeat constructor|vm_compute; lia|vm_compute; reflexivity].
Defined.

Lemma quiescent_unlocked_witness :
  locks (account_locks s0) = ∅ ∧
  (∀ t x, InFlightTracker.cus_in_flight_per_thread (in_flight_tracker s0) !! t = Some x → x = 0%Z) ∧
  (∀ t x, InFlightTracker.num_in_flight_per_thread (in_flight_tracker s0) !! t = Some x → x = 0%Z) ∧
  pending_jobs (id_to_transaction_state c2) = [].
Proof. apply (quiescent_unlocked BLOCK_UNITS s0 c2); [apply reachable2|apply quiet0]. Defined.

Lemma num_in_flight_exact_witness : ∃ msgs : list (SchedulingBatch Tx),
  NoDup (batch_id <$> msgs) ∧ (∀ msg, msg ∈ msgs ↔ in_flight s3 0 msg) ∧
  1%Z = sumZ (λ msg, Z.of_nat (length (ids msg))) msgs.
Proof.
  apply (num_in_flight_exact BLOCK_UNITS s3 c3 0 1); [apply reachable3|vm_compute; reflexivity].
Defined.

Lemma try_schedule_decides_witness : ∃ st bl' locks' r,
  try_schedule_transaction (Unprocessed (mkTTL tx1 age) 5 100) lock_all rw_default
    (account_locks s0) 2
    (λ ts, select_thread ts [0%Z; 0%Z] [0%Z; 0%Z] ([[]; []] : list (list Tx)) [0%Z; 0%Z]) =
  Ok (st, bl', locks', r) ∧ r = inl (mkInfo 0 tx1 age 100).
Proof.
  destruct (try_schedule_decides BLOCK_UNITS s0 c2 (mkTxId 10) (mkTTL tx1 age) 5 100 lock_all
    rw_default reachable2) as (st & bl' & locks' & r & Heq & _); [vm_compute; reflexivity|].
  exists st, bl', locks', r. split; [exact Heq|].
  apply (f_equal (λ m, match m with Ok (_, _, _, r) => Some r | Panic _ => None end)) in Heq.
  vm_compute in Heq. by injection Heq as <-.
Defined.

Lemma disconnected_send_witness :
  DisconnectedSendChannel "consume work sender" = DisconnectedSendChannel "consume work sender" ∧
  evolves (id_to_transaction_state c2) (id_to_transaction_state d3) ∧
  ∃ stranded, NoDup (id <$> heap_into_vec (priority_queue d3) ++ stranded) ∧
    ∀ x, x ∈ heap_into_vec (priority_queue d3) ++ stranded ↔
      ∃ ttl cost, id_to_transaction_state d3 !! id x = Some (Unprocessed ttl (priority x) cost).
Proof.
  apply (disconnected_send BLOCK_UNITS pass_all lock_all no_time g0 c2 g3 d3);
    [apply reachable_gone|apply pass_all_length|vm_compute; discriminate|vm_compute; reflexivity].
Defined.

Lemma receive_completed_total_witness : ∃ s' c' r,
  receive_completed s4 c3 = Ok (s', c', r) ∧
  recv_pending (finished_consume_work_receiver s') = [] ∧
  ∀ t m, in_flight s' t m ↔ in_flight s4 t m ∧
    batch_id m ∉ (λ msg, batch_id (batch msg)) <$>
      recv_pending (finished_consume_work_receiver s4).
Proof.
  apply (receive_completed_total BLOCK_UNITS s4 c3); [apply reachable4| |].
  - apply NoDup_singleton.
  - intros msg ->%list_elem_of_singleton. split; [done|]. exists 0. apply flight3.
Defined.

Lemma schedule_batch_never_panics_witness : ∃ w' r,
  schedule_batch (G:=Graph) BLOCK_UNITS no_time (mkWrapper s0 c0)
    (mkBatch first_id [mkTxId 10; mkTxId 11] [tx1; tx2] [age; age]) = Ok (w', r) ∧
  match r with
  | inl _ => reachable (inner w', wrapped_container w')
  | inr e => e = DisconnectedSendChannel "consume work sender"
  end.
Proof.
  apply (schedule_batch_never_panics BLOCK_UNITS no_time (mkWrapper s0 c0)).
  - apply reachable0.
  - vm_compute. repeat constructor; set_solver.
  - intros x _. apply lookup_empty.
  - split_and!; vm_compute; discriminate.
  - vm_compute. discriminate.
Defined.
End SchedulerWitnesses.

(** ** What the code does where its comments say otherwise *)

Module Divergences.
Import Demo.

(** Four transactions on four accounts, each of cost 100. *)
Definition four : container :=
  insert (insert (insert (insert c0 1 [(1, true)] 0) 2 [(2, true)] 0) 3 [(3, true)] 0)
    4 [(4, true)] 0.

(** With two threads of 100 compute units each, the first two transactions
    saturate both; all four are scheduled in the same pass, because the set of
    unsaturated threads is not consulted when a thread is chosen and the [break]
    only leaves the inner loop. *)
Example saturated_threads_keep_receiving :
  match schedule (G:=Graph) 200 pass_all lock_all no_time s0 four with
  | Ok (s, _, inl sm) => num_scheduled sm = 4%Z ∧
      InFlightTracker.cus_in_flight_per_thread (in_flight_tracker s) = [200%Z; 200%Z]
  | _ => False
  end.
Proof. vm_compute. split; reflexivity. Qed.

(** Two transactions that write the same account. *)
Definition same : container := insert (insert c0 1 [(1, true)] 0) 2 [(1, true)] 0.

(** When a worker is gone, ids the pass had taken from the queue stay behind:
    transaction 1, which waited for transaction 2, is unprocessed in the map
    but no longer queued. *)
Example disconnected_send_strands :
  match schedule (G:=Graph) BLOCK_UNITS pass_all lock_all no_time g0 same with
  | Ok (_, c, inr _) =>
      heap_into_vec (priority_queue c) = [] ∧
      match id_to_transaction_state c !! mkTxId 1 with Some (Unprocessed _ _ _) => True | _ => False end
  | _ => False
  end.
Proof. vm_compute. split; [reflexivity|exact I]. Qed.

(** A second transaction with an id already in the container leaves an id in
    the queue whose state is gone; looking it up then panics. *)
Example duplicate_id_breaks_container :
  match insert_new_transaction (with_capacity 1 : container) (mkTxId 1) (mkTTL tx1 age) 0 100 with
  | Ok (c, _) =>
      match insert_new_transaction c (mkTxId 1) (mkTTL tx2 age) 0 100 with
      | Ok (c, _) =>
          match pop c with
          | (Some x, c) => ttl_unwrap c x = Panic "called `Option::unwrap()` on a `None` value"
          | _ => False
          end
      | Panic _ => False
      end
  | Panic _ => False
  end.
Proof. vm_compute. reflexivity. Qed.
End Divergences.
