(* ===== verification/NoLock.v ===== *)
(** * The lock-free scheduler

    [scheduler/src/impls/no_lock_scheduler/mod.rs]: a batch is cut into chunks
    of 64 transactions that go round robin to the workers, without looking at
    the accounts they touch. *)
From S2P Require Import Prelude Messages Channels Scheduler.
Set Default Proof Using "Type*".

Definition exec_batch : nat := 64.

Module NoLockScheduler.
Section Defs.
Context {Tx S R : Type} `{Sender S (SchedulingBatch Tx)}.

Record t := mk { thread_num : nat; task_senders : list S }.

Definition new (schedule_task_senders : list S) (_ : R) : t :=
  mk (length schedule_task_senders) schedule_task_senders.

(** One iteration of the [for_each], for chunk number [i]. *)
Definition send_chunk (txs : SchedulingBatch Tx) (s : t) (x : nat * list Tx) : res t :=
  let '(i, chunk) := x in
  _ ← assert_res (bool_decide (thread_num s ≠ 0))
        "attempt to calculate the remainder with a divisor of zero";
  let value := Z.to_nat (batch_value (batch_id txs)) in
  let worker_id := (value mod thread_num s + i) mod thread_num s in
  ids ← vec_slice (ids txs) (i * exec_batch) ((i + 1) * exec_batch);
  let batch := mkBatch (batch_id txs) ids chunk [] in
  sender ← vec_get (task_senders s) worker_id;
  sender ← expect (send sender batch) "called `Result::unwrap()` on an `Err` value";
  senders ← vec_set (task_senders s) worker_id sender;
  Ok (mk (thread_num s) senders).

Definition schedule_batch (s : t) (txs : SchedulingBatch Tx) :
    res (t * (unit + SchedulerError)) :=
  s ← fold_res (send_chunk txs) s (enumerate (chunks exec_batch (transactions txs)));
  Ok (s, inl ()).

Definition receive_complete (s : t) : res (t * (unit + SchedulerError)) := Ok (s, inl ()).

(** ** What a batch amounts to *)

(** Chunk [i] of a batch, as a batch of its own. *)
Definition chunk_batch (txs : SchedulingBatch Tx) (i : nat) : SchedulingBatch Tx :=
  mkBatch (batch_id txs) (take exec_batch (drop (i * exec_batch) (ids txs)))
    (take exec_batch (drop (i * exec_batch) (transactions txs))) [].

Definition worker_of (n : nat) (txs : SchedulingBatch Tx) (i : nat) : nat :=
  (Z.to_nat (batch_value (batch_id txs)) + i) mod n.

(** The chunks with numbers in [js] that worker [w] of [n] receives. *)
Definition share (n : nat) (txs : SchedulingBatch Tx) (js : list nat) (w : nat) :
    list (SchedulingBatch Tx) :=
  chunk_batch txs <$> filter (λ i, worker_of n txs i = w) js.

Definition num_chunks (txs : SchedulingBatch Tx) : nat :=
  length (chunks exec_batch (transactions txs)).

(** After the chunks [js], every worker's channel holds its share on top of
    what it held. *)
Definition shared (live : S → Prop) (txs : SchedulingBatch Tx) (ss : list S) (js : list nat)
    (s : t) : Prop :=
  thread_num s = length ss ∧
  Forall2 (λ '(w, x) y, live y ∧ sender_log y = sender_log x ++ share (length ss) txs js w)
    (enumerate ss) (task_senders s).
End Defs.
Arguments t : clear implicits.
End NoLockScheduler.
Import NoLockScheduler.

Section Lemmas.
Context {Tx S : Type} `{SenderLaws S (SchedulingBatch Tx)}.
Context (live : S → Prop).
Hypothesis live_send : ∀ s m, live s → ∃ s', send s m = Some s' ∧ live s'.
Implicit Types (txs : SchedulingBatch Tx).

Lemma enumerate_lookup {A} (l : list A) i x :
  enumerate l !! i = Some x ↔ x.1 = i ∧ l !! i = Some x.2.
Proof.
  unfold enumerate. rewrite lookup_zip_with_Some. split.
  - intros (j & y & -> & [-> ?]%lookup_seq & ?). done.
  - destruct x as [j y]. intros [Hj Hy]; simpl in *; subst j.
    exists i, y. split_and!; [done| |done]. apply lookup_seq.
    split; [done|]. by eapply lookup_lt_Some.
Qed.

Lemma enumerate_length {A} (l : list A) : length (enumerate l) = length l.
Proof. unfold enumerate. rewrite length_zip_with, length_seq. lia. Qed.

Lemma share_snoc n txs js i w :
  share n txs (js ++ [i]) w =
  share n txs js w ++ (if decide (worker_of n txs i = w) then [chunk_batch txs i] else []).
Proof.
  unfold share. rewrite filter_app, fmap_app. f_equal.
  rewrite filter_cons. by case_decide.
Qed.

(** One iteration, where the slice of ids is in range. *)
Lemma send_chunk_ok txs ss s js i :
  shared live txs ss js s → ss ≠ [] → length (ids txs) = length (transactions txs) →
  (i + 1) * exec_batch ≤ length (transactions txs) →
  wp (send_chunk txs s (i, take exec_batch (drop (i * exec_batch) (transactions txs))))
     (shared live txs ss (js ++ [i])).
Proof.
  intros [Hn Hss] Hne Hids Hi. unfold send_chunk. rewrite Hn.
  assert (length ss ≠ 0) as Hn0 by (by intros ?%nil_length_inv).
  assert ((Z.to_nat (batch_value (batch_id txs)) mod length ss + i) mod length ss
          = worker_of (length ss) txs i) as ->.
  { unfold worker_of. by rewrite Nat.Div0.add_mod_idemp_l. }
  assert (worker_of (length ss) txs i < length ss) as Hw by (by apply Nat.mod_upper_bound).
  destruct (lookup_lt_is_Some_2 _ _ Hw) as [x Hx].
  destruct (Forall2_lookup_l _ _ _ (worker_of (length ss) txs i) (worker_of (length ss) txs i, x) Hss)
    as (y & Hy & Hlive & Hlog); [by apply enumerate_lookup|].
  do 2 wp_step; [by apply bool_decide_eq_true|].
  wp_step. unfold vec_slice. rewrite decide_True by lia. wp_step.
  replace ((i + 1) * exec_batch - i * exec_batch) with exec_batch by lia.
  wp_step. eapply wp_vec_get; [done|]. wp_step.
  destruct (live_send y (chunk_batch txs i) Hlive) as (y' & Hsend & Hlive').
  eapply wp_expect; [exact Hsend|]. wp_step. wp_step.
  { by eapply lookup_lt_Some. }
  wp_step. split; [done|]. cbn [task_senders].
  apply Forall2_same_length_lookup. split.
  { rewrite length_insert. by eapply Forall2_length. }
  intros w [w' z] z' Hz Hz'. pose proof Hz as [Hw' _]%enumerate_lookup; simpl in Hw'; subst w'.
  rewrite share_snoc. destruct (decide (worker_of (length ss) txs i = w)) as [<-|Hne'].
  - rewrite list_lookup_insert_eq in Hz' by (by eapply lookup_lt_Some). injection Hz' as <-.
    split; [done|]. rewrite (send_log _ _ _ Hsend), Hlog.
    apply enumerate_lookup in Hz as [_ Hz]. simpl in Hz. assert (x = z) as -> by congruence.
    by rewrite app_assoc.
  - rewrite list_lookup_insert_ne in Hz' by done. rewrite app_nil_r.
    apply (Forall2_lookup_lr _ _ _ _ _ _ Hss Hz Hz').
Qed.

Lemma shared_init txs ss : Forall live ss → shared live txs ss [] (mk (length ss) ss).
Proof.
  intros Hl. split; [done|]. apply Forall2_same_length_lookup.
  split; [apply enumerate_length|]. intros w [w' x] y [_ Hx]%enumerate_lookup Hy.
  simpl in Hx, Hy. assert (x = y) as -> by congruence.
  rewrite app_nil_r. split; [|done]. by eapply Forall_lookup_1 in Hl.
Qed.

Lemma schedule_batch_delivers txs ss :
  ss ≠ [] → Forall live ss → length (ids txs) = length (transactions txs) →
  (exec_batch | length (transactions txs)) →
  wp (schedule_batch (mk (length ss) ss) txs)
     (λ '(s, r), r = inl () ∧ shared live txs ss (seq 0 (num_chunks txs)) s).
Proof.
  intros Hne Hl Hids [k Hk]. unfold schedule_batch. wp_step.
  eapply wp_mono.
  - apply (wp_fold_res _ (λ pre s, shared live txs ss (pre.*1) s)); [by apply shared_init|].
    intros pre [i chunk] post s Heq Hs. rewrite fmap_app. simpl.
    assert (enumerate (chunks exec_batch (transactions txs)) !! length pre = Some (i, chunk))
      as [_ Hc]%enumerate_lookup.
    { rewrite Heq. by apply list_lookup_middle. }
    simpl in Hc. rewrite chunks_lookup in Hc by (unfold exec_batch; lia).
    assert (i = length pre) as ->.
    { assert (enumerate (chunks exec_batch (transactions txs)) !! length pre = Some (i, chunk))
        as [? _]%enumerate_lookup; [|done]. rewrite Heq. by apply list_lookup_middle. }
    case_decide; [|done]. injection Hc as <-. apply send_chunk_ok; try done.
    unfold exec_batch in *. lia.
  - intros s Hs. wp_step. split; [done|].
    enough ((enumerate (chunks exec_batch (transactions txs))).*1 = seq 0 (num_chunks txs))
      as <- by done.
    unfold enumerate. rewrite fst_zip; [done|]. by rewrite length_seq.
Qed.

(** A last chunk that is not full makes the slice of ids run out of range. *)
Lemma schedule_batch_partial txs s :
  length (ids txs) = length (transactions txs) → ¬ (exec_batch | length (transactions txs)) →
  ∃ msg, schedule_batch s txs = Panic msg.
Proof.
  intros Hids Hk. destruct (schedule_batch s txs) as [[s' r]|msg] eqn:Hs; [exfalso|by exists msg].
  unfold schedule_batch in Hs. res_split Hs as s1 Hf. clear Hs. apply Hk.
  set (n := length (transactions txs)) in *.
  assert (∀ i, i * exec_batch < n → (i + 1) * exec_batch ≤ n) as Hall.
  { intros i Hi. set (q := (i, take exec_batch (drop (i * exec_batch) (transactions txs)))).
    assert (q ∈ enumerate (chunks exec_batch (transactions txs))) as Hq.
    { apply list_elem_of_lookup. exists i. apply enumerate_lookup. split; [done|].
      rewrite chunks_lookup by (unfold exec_batch; lia). by rewrite decide_True. }
    apply (fold_res_inv _ (λ pre _, q ∈ pre → (i + 1) * exec_batch ≤ n) _ _ _ Hf); [|..|done].
    { by intros ?%elem_of_nil. }
    intros pre x post s2 s3 _ IH Hstep [Hin|Hx%list_elem_of_singleton]%elem_of_app; [by auto|].
    subst x.
    unfold send_chunk, q in Hstep. res_split Hstep as ? _. res_split Hstep as ids' Hsl.
    unfold vec_slice in Hsl. case_decide; [|done]. lia. }
  exists (n / exec_batch). pose proof (Hall (n / exec_batch)) as Hlast.
  pose proof (Nat.div_mod_eq n exec_batch). unfold exec_batch in *.
  pose proof (Nat.mod_upper_bound n 64). lia.
Qed.
End Lemmas.
