(* ===== verification/WorkerStatus.v ===== *)
(** * Worker status slices and thread load

    [scheduler/src/status_slicing.rs]: the slices of time workers report, the
    merging of overlapping time windows, and the load summary.  An [f64] is an
    IEEE 754 binary64 value of the Standard Library's [SpecFloat]. *)
From Stdlib Require Import SpecFloat.
From S2P Require Import Prelude.

(** ** [f64] *)
Module F64.
Definition t := spec_float.
Definition of_u64 (x : Z) : t := binary_normalize 53 1024 x 0 false.
Definition add : t → t → t := SFadd 53 1024.
Definition mul : t → t → t := SFmul 53 1024.
Definition div : t → t → t := SFdiv 53 1024.
Definition zero : t := S754_zero false.
Definition nan : t := S754_nan.
End F64.

(** ** Slices *)

Inductive SvmWorkerSlicingStatus :=
| Active (start end_ : Z)
| Idle (start end_ : Z).

Definition status_start (s : SvmWorkerSlicingStatus) : Z :=
  match s with Active a _ | Idle a _ => a end.
Definition status_end (s : SvmWorkerSlicingStatus) : Z :=
  match s with Active _ b | Idle _ b => b end.
Definition is_active (s : SvmWorkerSlicingStatus) : bool :=
  match s with Active _ _ => true | Idle _ _ => false end.
Definition is_idle (s : SvmWorkerSlicingStatus) : bool :=
  match s with Active _ _ => false | Idle _ _ => true end.
Definition new_active (a b : Z) : SvmWorkerSlicingStatus := Active a b.
Definition new_idle (a b : Z) : SvmWorkerSlicingStatus := Idle a b.
Definition duration_ms (s : SvmWorkerSlicingStatus) : Z :=
  match s with Active a b | Idle a b => saturating_sub b a end.

Record WorkerStatusUpdate := mkUpdate { thread_id : nat; status : SvmWorkerSlicingStatus }.

(** ** Merging windows *)

(** One iteration of the loop over the remaining windows.  [merged] is never
    empty there, so [last_mut().unwrap()] returns. *)
Definition merge_step (merged : list (Z * Z)) (window : Z * Z) : res (list (Z * Z)) :=
  l ← expect (last merged) "called `Option::unwrap()` on a `None` value";
  if (window.1 <=? l.2)%Z
  then vec_set merged (length merged - 1) (l.1, Z.max l.2 window.2)
  else Ok (merged ++ [window]).

Definition merge_time_windows (windows : list (Z * Z)) : res (list (Z * Z)) :=
  match windows with
  | [] => Ok []
  | w :: rest => fold_res merge_step [w] rest
  end.

(** ** The load summary *)

Record ThreadLoadSummary := mkSummary {
  total_duration : Z;
  weighted_load : F64.t;
  average_load : F64.t;
  merged_windows : Z
}.
Definition summary_default : ThreadLoadSummary := mkSummary 0 F64.zero F64.zero 0.

(** The first loop: all windows, and the statuses grouped by thread. *)
Definition collect (updates : list WorkerStatusUpdate) :
    list (Z * Z) * gmap nat (list SvmWorkerSlicingStatus) :=
  foldl (λ '(time_windows, thread_statuses) u,
      (time_windows ++ [(status_start (status u), status_end (status u))],
       <[thread_id u := default [] (thread_statuses !! thread_id u) ++ [status u]]>
         thread_statuses))
    ([], ∅) updates.

(** The part of an active slice inside a window, added to [active_thread_time]. *)
Definition add_overlap (window : Z * Z) (active_thread_time : Z)
    (s : SvmWorkerSlicingStatus) : res Z :=
  match s with
  | Active a b =>
      if (a <? window.2)%Z && (window.1 <? b)%Z then
        d ← checked_sub (Z.min b window.2) (Z.max a window.1);
        checked_add u64_max active_thread_time d
      else Ok active_thread_time
  | Idle _ _ => Ok active_thread_time
  end.

Definition window_active_time (thread_statuses : list (list SvmWorkerSlicingStatus))
    (window : Z * Z) : res Z :=
  fold_res (λ t statuses, fold_res (add_overlap window) t statuses) 0%Z thread_statuses.

(** One iteration of the loop over the merged windows. *)
Definition summarise_window (thread_statuses : list (list SvmWorkerSlicingStatus))
    (total_threads : F64.t) (summary : ThreadLoadSummary) (window : Z * Z) :
    res ThreadLoadSummary :=
  window_duration ← checked_sub window.2 window.1;
  active_thread_time ← window_active_time thread_statuses window;
  let window_load := F64.div (F64.of_u64 active_thread_time)
                       (F64.mul (F64.of_u64 window_duration) total_threads) in
  total ← checked_add u64_max (total_duration summary) window_duration;
  Ok (mkSummary total
        (F64.add (weighted_load summary) (F64.mul window_load (F64.of_u64 window_duration)))
        (average_load summary) (merged_windows summary)).

(** [thread_statuses.values()] lists the values in no particular order. *)
Definition calculate_thread_load_summary (updates : list WorkerStatusUpdate) :
    res ThreadLoadSummary :=
  let '(time_windows, thread_statuses) := collect updates in
  let time_windows := sort_by_key fst time_windows in
  merged ← merge_time_windows time_windows;
  let summary := mkSummary 0 F64.zero F64.zero (Z.of_nat (length merged)) in
  let total_threads := F64.of_u64 (Z.of_nat (size thread_statuses)) in
  summary ← fold_res (summarise_window (map_to_list thread_statuses).*2 total_threads)
              summary merged;
  Ok (mkSummary (total_duration summary) (weighted_load summary)
        (F64.div (weighted_load summary) (F64.of_u64 (total_duration summary)))
        (merged_windows summary)).

(** ** Specification vocabulary *)

(** A window that does not end before it starts. *)
Definition window_ok (w : Z * Z) : Prop := (0 ≤ w.1 ≤ w.2 ∧ w.2 ≤ u64_max)%Z.
Definition update_ok (u : WorkerStatusUpdate) : Prop :=
  window_ok (status_start (status u), status_end (status u)).

(** The instants a list of windows covers. *)
Definition covers (ws : list (Z * Z)) (x : Z) : Prop :=
  ∃ w, w ∈ ws ∧ (w.1 ≤ x ≤ w.2)%Z.

(** Window [v] lies inside one of the windows [ws]. *)
Definition within (ws : list (Z * Z)) (v : Z * Z) : Prop :=
  ∃ w, w ∈ ws ∧ (w.1 ≤ v.1 ∧ v.2 ≤ w.2)%Z.

(** Windows in order with a gap between any two. *)
Definition separated : list (Z * Z) → Prop := StronglySorted (λ v w, v.2 < w.1)%Z.

Definition span (w : Z * Z) : Z := w.2 - w.1.

(** The time a status contributes to the load. *)
Definition active_ms (s : SvmWorkerSlicingStatus) : Z :=
  if is_active s then duration_ms s else 0.

(** The part of it inside a window. *)
Definition overlap (w : Z * Z) (s : SvmWorkerSlicingStatus) : Z :=
  if is_active s then Z.max 0 (Z.min (status_end s) w.2 - Z.max (status_start s) w.1) else 0.

(** ** Merging *)

Lemma covers_app ws1 ws2 x : covers (ws1 ++ ws2) x ↔ covers ws1 x ∨ covers ws2 x.
Proof. unfold covers. setoid_rewrite elem_of_app. firstorder. Qed.

Lemma covers_singleton w x : covers [w] x ↔ (w.1 ≤ x ≤ w.2)%Z.
Proof. unfold covers. setoid_rewrite list_elem_of_singleton. naive_solver. Qed.

Lemma separated_snoc ws w :
  separated (ws ++ [w]) ↔ separated ws ∧ Forall (λ v, v.2 < w.1)%Z ws.
Proof.
  unfold separated. induction ws as [|v ws IH]; simpl.
  - split; intros _; repeat constructor.
  - split.
    + intros [Hs Hall]%StronglySorted_inv. apply IH in Hs as [??].
      apply Forall_app in Hall as [? [Hw _]%Forall_cons]. split; by constructor.
    + intros [[Hs Hall]%StronglySorted_inv [Hv Hws]%Forall_cons].
      constructor; [by apply IH|]. apply Forall_app; split; [done|by constructor].
Qed.

(** What the merging loop keeps, for the windows already merged into
    [out ++ [l]]. *)
Definition merging (seen : list (Z * Z)) (merged : list (Z * Z)) : Prop :=
  ∃ out l, merged = out ++ [l] ∧ separated merged ∧ Forall window_ok merged ∧
    (∀ x, covers merged x ↔ covers seen x) ∧ Forall (within merged) seen ∧
    (∃ w, w ∈ seen ∧ l.1 = w.1).

Lemma merge_step_ok seen merged w :
  merging seen merged → window_ok w → Forall (λ v, v.1 ≤ w.1)%Z seen →
  wp (merge_step merged w) (merging (seen ++ [w])).
Proof.
  intros (out & l & -> & Hsep & Hok & Hcov & Hin & v & Hv & Hlv) Hw Hall. unfold merge_step.
  rewrite last_snoc. wp_step. eapply wp_expect; [done|].
  apply Forall_app in Hok as [Hout [Hl _]%Forall_cons].
  assert (l.1 ≤ w.1)%Z as Hle by (rewrite Hlv; by eapply Forall_forall in Hall).
  destruct (Z.leb_spec w.1 l.2) as [Hlap|Hgap].
  - rewrite length_app, Nat.add_sub. apply wp_vec_set; [rewrite length_app; simpl; lia|].
    rewrite insert_app_r_alt by lia. rewrite Nat.sub_diag. simpl.
    exists out, (l.1, Z.max l.2 w.2). split; [done|]. split_and!.
    + by apply separated_snoc; apply separated_snoc in Hsep.
    + apply Forall_app. split; [done|]. apply Forall_singleton.
      unfold window_ok in *. simpl. lia.
    + intros x. rewrite (covers_app seen), <-Hcov, !covers_app, !covers_singleton. simpl.
      destruct Hl, Hw. split; [intros [|]; [tauto|]|intros [[|]|]; [tauto|right; lia..]].
      destruct (decide (x ≤ l.2)%Z); [left; right; lia|right; lia].
    + apply Forall_app. split.
      * eapply Forall_impl; [exact Hin|]. intros u (m & [Hm| ->%list_elem_of_singleton]%elem_of_app & Hmu).
        { exists m. split; [by apply elem_of_app; left|done]. }
        eexists. split; [apply elem_of_app; right; left|]. simpl. lia.
      * apply Forall_singleton. eexists. split; [apply elem_of_app; right; left|]. simpl. lia.
    + exists v. split; [|done]. apply elem_of_app. by left.
  - apply wp_ok. exists (out ++ [l]), w. split; [done|]. split_and!.
    + apply separated_snoc. split; [done|]. apply separated_snoc in Hsep as [_ Hs].
      apply Forall_app. split; [|by apply Forall_singleton].
      eapply Forall_impl; [exact Hs|]. simpl. destruct Hl. lia.
    + by apply Forall_app; split; [apply Forall_app; split|]; [|apply Forall_singleton..].
    + intros x. by rewrite (covers_app (out ++ [l])), Hcov, covers_app.
    + apply Forall_app. split.
      * eapply Forall_impl; [exact Hin|]. intros u (m & Hm & Hmu).
        exists m. split; [by apply elem_of_app; left|done].
      * apply Forall_singleton. exists w. split; [apply elem_of_app; right; left|done].
    + exists w. split; [|done]. apply elem_of_app. right. by left.
Qed.

Lemma merge_time_windows_ok ws :
  Forall window_ok ws → StronglySorted (λ v w, v.1 ≤ w.1)%Z ws →
  wp (merge_time_windows ws) (λ out,
    separated out ∧ Forall window_ok out ∧ (∀ x, covers out x ↔ covers ws x) ∧
    Forall (within out) ws).
Proof.
  intros Hok Hs. destruct ws as [|w ws]; simpl.
  { apply wp_ok. split_and!; [constructor|constructor|done|constructor]. }
  apply Forall_cons in Hok as [Hw Hok]. apply StronglySorted_inv in Hs as [Hs Hall].
  eapply wp_mono.
  - apply (wp_fold_res _ (λ pre, merging (w :: pre))).
    + exists [], w. split; [done|]. split_and!; [repeat constructor|by constructor|done| |].
      * constructor; [|constructor]. exists w. split; [left|done].
      * exists w. split; [left|done].
    + intros pre v post m Heq Hm. change (w :: pre ++ [v]) with ((w :: pre) ++ [v]).
      apply merge_step_ok; [done| |].
      * eapply Forall_forall in Hok; [exact Hok|]. rewrite Heq. set_solver.
      * constructor; [eapply Forall_forall in Hall; [exact Hall|]; rewrite Heq; set_solver|].
        rewrite Heq in Hs. clear -Hs. induction pre as [|u pre IH]; [done|].
        apply StronglySorted_inv in Hs as [Hs Hu]. constructor; [|by apply IH].
        eapply Forall_forall in Hu; [exact Hu|]. set_solver.
  - intros m (out & l & -> & ? & ? & ? & ? & _). done.
Qed.

(** ** The summary *)

(** Disjoint windows of [u64] instants: their durations add up below 2^64. *)
Lemma separated_span ws lo :
  separated ws → Forall window_ok ws → (0 ≤ lo ≤ u64_max)%Z → Forall (λ w, lo ≤ w.1)%Z ws →
  (0 ≤ sumZ span ws ≤ u64_max - lo)%Z.
Proof.
  revert lo. induction ws as [|w ws IH]; intros lo Hs Hok Hlo Hge; simpl; [lia|].
  apply StronglySorted_inv in Hs as [Hs Hw]. apply Forall_cons in Hok as [[??] Hok].
  apply Forall_cons in Hge as [? _].
  assert (Forall (λ v, w.2 ≤ v.1)%Z ws) as Hge by (eapply Forall_impl; [exact Hw|]; simpl; lia).
  pose proof (IH w.2 Hs Hok ltac:(lia) Hge). unfold span at 1 3. lia.
Qed.

Lemma separated_prefix_span pre w post :
  separated (pre ++ w :: post) → Forall window_ok (pre ++ w :: post) →
  (sumZ span pre + span w ≤ u64_max)%Z.
Proof.
  intros Hsep Hok.
  pose proof (separated_span _ 0 Hsep Hok ltac:(unfold u64_max; lia)) as Hsum.
  rewrite sumZ_app, sumZ_cons in Hsum.
  assert (0 ≤ sumZ span post)%Z as Hpost.
  { apply sumZ_nonneg. intros v Hv. apply Forall_app in Hok as [_ [_ Hp]%Forall_cons].
    eapply Forall_forall in Hp; [|exact Hv]. destruct Hp. unfold span. lia. }
  enough (Forall (λ v, 0 ≤ v.1)%Z (pre ++ w :: post)) as H0 by (apply Hsum in H0; lia).
  eapply Forall_impl; [exact Hok|]. intros v [??]. lia.
Qed.

Lemma overlap_nonneg w s : (0 ≤ overlap w s)%Z.
Proof. unfold overlap. destruct (is_active s); lia. Qed.

(** An active slice inside one of the windows meets no other. *)
Lemma overlap_within ws s :
  separated ws → Forall window_ok ws → (status_start s ≤ status_end s)%Z →
  within ws (status_start s, status_end s) →
  sumZ (λ w, overlap w s) ws = active_ms s.
Proof.
  intros Hsep Hok Hs (m & Hm & Hlo & Hhi). simpl in *.
  assert (∀ ws, Forall (λ w, m.2 < w.1)%Z ws → sumZ (λ w, overlap w s) ws = 0%Z) as Hafter.
  { induction 1 as [|w ws' Hw _ IH]; simpl; [done|]. rewrite IH. unfold overlap.
    destruct (is_active s); lia. }
  induction ws as [|w ws IH]; [by apply elem_of_nil in Hm|].
  apply StronglySorted_inv in Hsep as [Hsep Hw]. apply Forall_cons in Hok as [Hwok Hok].
  simpl. apply elem_of_cons in Hm as [<-|Hm].
  - rewrite Hafter by done. unfold overlap, active_ms, duration_ms.
    destruct s; simpl in *; unfold saturating_sub; lia.
  - rewrite IH by done. rewrite Forall_forall in Hw. specialize (Hw m Hm).
    unfold overlap. destruct (is_active s); lia.
Qed.

Definition window_of (u : WorkerStatusUpdate) : Z * Z :=
  (status_start (status u), status_end (status u)).

(** What the first loop computes: every window, and the statuses of every
    update under the thread that sent it. *)
Lemma collect_ok updates :
  (collect updates).1 = window_of <$> updates ∧
  concat (map_to_list (collect updates).2).*2 ≡ₚ status <$> updates ∧
  dom (collect updates).2 = list_to_set (thread_id <$> updates).
Proof.
  induction updates as [|u us IH] using rev_ind.
  { split_and!; [done| |done]. simpl. by rewrite map_to_list_empty. }
  unfold collect in *. rewrite foldl_app, !fmap_app. simpl.
  destruct (foldl _ ([], ∅) us) as [ws m]; simpl in *. destruct IH as (-> & Hm & Hd).
  split_and!; [done| |].
  - rewrite <-Hm. destruct (m !! thread_id u) as [l|] eqn:Hl; simpl.
    + rewrite <-(insert_delete_id m (thread_id u) l Hl) at 2.
      rewrite <-insert_delete_eq, !map_to_list_insert by apply lookup_delete_eq.
      simpl. rewrite <-!app_assoc. f_equiv. apply Permutation_app_comm.
    + rewrite map_to_list_insert by done. simpl. apply (Permutation_app_comm [_]).
  - rewrite dom_insert_L, Hd, list_to_set_app_L. set_solver.
Qed.

(** The active time found in one window. *)
Lemma window_active_time_ok statuses w (ss : list SvmWorkerSlicingStatus) :
  concat statuses ≡ₚ ss → Forall (λ s, status_start s ≤ status_end s)%Z ss → window_ok w →
  (sumZ (overlap w) ss ≤ u64_max)%Z →
  wp (window_active_time statuses w) (λ t, t = sumZ (overlap w) ss).
Proof.
  intros Hss Hok [Hw _] Hmax. unfold window_active_time.
  assert (∀ f t l, fold_res (λ t statuses, fold_res f t statuses) t l
    = fold_res (S := Z) (A := SvmWorkerSlicingStatus) f t (concat l)) as ->.
  { intros f t l. revert t. induction l as [|x l IH]; intros t; simpl; [done|].
    rewrite fold_res_app. destruct (fold_res f t x); simpl; [apply IH|done]. }
  rewrite <-Hss in Hok, Hmax.
  apply wp_mono with (λ t, t = sumZ (overlap w) (concat statuses)); [|intros t ->; by rewrite Hss].
  apply (wp_fold_res _ (λ pre t, t = sumZ (overlap w) pre)); [done|].
  intros pre s post t Heq ->. rewrite Heq in Hok, Hmax.
  apply Forall_app in Hok as [_ [Hs _]%Forall_cons].
  rewrite sumZ_app, sumZ_cons in Hmax.
  pose proof (sumZ_nonneg (overlap w) post ltac:(intros; apply overlap_nonneg)).
  rewrite (sumZ_app _ pre [s]), sumZ_cons. change (sumZ (overlap w) []) with 0%Z.
  destruct s as [a b|a b]; unfold add_overlap, overlap in *; simpl in *; [|wp_step; lia].
  destruct (Z.ltb_spec a w.2), (Z.ltb_spec w.1 b); simpl; try (wp_step; lia).
  wp_step. wp_step; [lia|]. wp_step; lia.
Qed.

(** The weighted load of the windows, as the loop accumulates it. *)
Definition load_of (threads : F64.t) (ss : list SvmWorkerSlicingStatus) (acc : F64.t)
    (w : Z * Z) : F64.t :=
  F64.add acc (F64.mul (F64.div (F64.of_u64 (sumZ (overlap w) ss))
                          (F64.mul (F64.of_u64 (span w)) threads))
                 (F64.of_u64 (span w))).

Lemma summarise_windows_ok statuses threads ss ws n :
  concat statuses ≡ₚ ss → Forall (λ s, status_start s ≤ status_end s)%Z ss →
  (sumZ active_ms ss ≤ u64_max)%Z → separated ws → Forall window_ok ws →
  wp (fold_res (summarise_window statuses threads) (mkSummary 0 F64.zero F64.zero n) ws)
     (λ s, s = mkSummary (sumZ span ws) (foldl (load_of threads ss) F64.zero ws) F64.zero n).
Proof.
  intros Hss Hok Hmax Hsep Hws.
  apply (wp_fold_res _ (λ pre s,
    s = mkSummary (sumZ span pre) (foldl (load_of threads ss) F64.zero pre) F64.zero n)); [done|].
  intros pre w post s Heq ->. unfold summarise_window. simpl.
  assert (window_ok w) as Hw.
  { eapply Forall_forall in Hws; [exact Hws|]. rewrite Heq. set_solver. }
  wp_step. wp_step; [destruct Hw; lia|]. wp_step. eapply wp_mono.
  - apply window_active_time_ok; [done..|]. etrans; [|exact Hmax]. apply sumZ_le.
    intros s Hs. rewrite Forall_forall in Hok. specialize (Hok s Hs).
    destruct s; unfold overlap, active_ms, duration_ms, saturating_sub; simpl in *; lia.
  - intros t ->. wp_step. wp_step.
    + rewrite Heq in Hsep, Hws. by apply (separated_prefix_span pre w post).
    + wp_step. rewrite sumZ_app, foldl_app. simpl. f_equal. unfold span. lia.
Qed.

Lemma calculate_thread_load_summary_ok updates :
  Forall update_ok updates →
  (sumZ active_ms (status <$> updates) ≤ u64_max)%Z →
  wp (calculate_thread_load_summary updates) (λ s, ∃ merged,
    separated merged ∧ (∀ x, covers merged x ↔ covers (window_of <$> updates) x) ∧
    merged_windows s = Z.of_nat (length merged) ∧ total_duration s = sumZ span merged ∧
    weighted_load s =
      foldl (load_of (F64.of_u64 (Z.of_nat (size (list_to_set (thread_id <$> updates) : gset nat))))
               (status <$> updates)) F64.zero merged ∧
    average_load s = F64.div (weighted_load s) (F64.of_u64 (total_duration s)) ∧
    sumZ (λ w, sumZ (overlap w) (status <$> updates)) merged
      = sumZ active_ms (status <$> updates)).
Proof.
  intros Hok Hmax. unfold calculate_thread_load_summary.
  destruct (collect_ok updates) as (Hws & Hst & Hdom).
  destruct (collect updates) as [ws m]; simpl in *. subst ws.
  pose proof (sort_by_key_perm fst (window_of <$> updates)) as Hperm.
  assert (Forall window_ok (window_of <$> updates)) as Hwok by (by apply Forall_fmap).
  assert (Forall (λ s, status_start s ≤ status_end s)%Z (status <$> updates)) as Hsok.
  { apply Forall_fmap. eapply Forall_impl; [exact Hok|]. intros u [??]. simpl in *. lia. }
  wp_step. eapply wp_mono.
  { apply merge_time_windows_ok; [by rewrite Hperm|apply sort_by_key_sorted]. }
  intros merged (Hsep & Hmok & Hcov & Hin). rewrite Hperm in Hin.
  wp_step. eapply wp_mono; [by apply summarise_windows_ok|]. intros s ->. wp_step.
  exists merged. simpl. split_and!; try done.
  - intros x. rewrite Hcov. unfold covers. by setoid_rewrite Hperm.
  - by rewrite <-Hdom, size_dom.
  - rewrite sumZ_swap. apply sumZ_ext. intros s Hs. apply overlap_within; try done.
    + by eapply Forall_forall in Hsok.
    + apply list_elem_of_fmap in Hs as (u & -> & Hu).
      rewrite Forall_fmap in Hin. eapply Forall_forall in Hin; [exact Hin|done].
Qed.
