(* ===== verification/Simulation.v ===== *)
(** * The scheduling simulation

    [scheduler/bin/scheduling_simulation.rs]: the worker loop and the batches
    the main loop feeds to the scheduler.  Executing a batch is the executor's
    work and a parameter here; the worker sees its channel as the batches that
    arrive before it is closed, and the clock as the sequence of its readings. *)
From S2P Require Import Prelude Messages WorkerStatus.
Set Default Proof Using "Type*".

Definition TOTAL_TX_NUM : nat := 1024 * 4.
Definition TOTAL_WORKER_NUM : nat := 4.
Definition NUM_ACCOUNTS : nat := TOTAL_TX_NUM * 2.
Definition ACCOUNT_BALANCE : Z := 100000000000.
Definition SCHEDULER_BATCH_SIZE : nat := 2048.

Section Worker.
Context {Tx ProcessError : Type}.
(** [bank_processor.process(transactions)]: for each transaction, was it
    executed successfully? *)
Context (process : list Tx → list bool + ProcessError).
(** [SystemTime::now()] in milliseconds, reading by reading. *)
Context (clock : nat → Z).
(** Is the receiver of the status channel, or of the completion channel, still
    there when the [n]-th status, or result, is sent? *)
Context (status_open : nat → bool) (completed_open : nat → bool).

Inductive WorkerError := StatusSendError | ProcessingError (e : ProcessError).

(** What the worker has sent so far. *)
Record outbox := mkOut {
  statuses : list WorkerStatusUpdate;
  results : list (SchedulingBatchResult Tx)
}.

(** [while let Ok(scheduled_txs) = receiver.recv()]; [k] clock readings and
    [n] status sends have been made. *)
Fixpoint worker_loop (thread_id : nat) (inbox : list (SchedulingBatch Tx)) (k n : nat)
    (idle_start : Z) (success_count : nat) (out : outbox) : outbox * (nat + WorkerError) :=
  match inbox with
  | [] => (out, inl success_count)
  | scheduled_txs :: inbox =>
      let active_start := clock k in
      if status_open n then
        let out := mkOut (statuses out ++ [mkUpdate thread_id (new_idle idle_start active_start)])
                     (results out) in
        match process (transactions scheduled_txs) with
        | inr e => (out, inr (ProcessingError e))
        | inl executed =>
            let success_count := success_count + length (filter (λ b, b = true) executed) in
            let active_end := clock (k + 1) in
            let out := if status_open (n + 1)
                       then mkOut (statuses out ++
                              [mkUpdate thread_id (new_active active_start active_end)]) (results out)
                       else out in
            let out := if completed_open (length (results out))
                       then mkOut (statuses out) (results out ++ [mkBatchResult scheduled_txs []])
                       else out in
            worker_loop thread_id inbox (k + 2) (n + 2) active_end success_count out
        end
      else (out, inr StatusSendError)
  end.

Definition worker_process (thread_id : nat) (inbox : list (SchedulingBatch Tx)) :
    outbox * (nat + WorkerError) :=
  worker_loop thread_id inbox 1 0 (clock 0) 0 (mkOut [] []).
End Worker.

(** ** The batches of [main] *)

Section Main.
Context {Tx : Type}.

(** [derive(Default)] *)
Definition MaxAge_default : MaxAge := mkMaxAge 0 0.

(** [iter().map(|_| tx_id_gen.gen())] *)
Fixpoint gen_ids {A} (l : list A) (g : IdGenerator.t) : list TransactionId * IdGenerator.t :=
  match l with
  | [] => ([], g)
  | _ :: l =>
      let '(id, g) := IdGenerator.gen g in
      let '(ids, g) := gen_ids l g in (mkTxId id :: ids, g)
  end.

(** One batch: ids for its transactions, then the id of the batch. *)
Definition make_batch (st : IdGenerator.t * IdGenerator.t) (transactions : list Tx) :
    SchedulingBatch Tx * (IdGenerator.t * IdGenerator.t) :=
  let '(batch_id_gen, tx_id_gen) := st in
  let '(ids, tx_id_gen) := gen_ids transactions tx_id_gen in
  let '(id, batch_id_gen) := IdGenerator.gen batch_id_gen in
  (mkBatch (mkBatchId id) ids transactions (replicate (length transactions) MaxAge_default),
   (batch_id_gen, tx_id_gen)).

Fixpoint make_batches_from (st : IdGenerator.t * IdGenerator.t) (l : list (list Tx)) :
    list (SchedulingBatch Tx) :=
  match l with
  | [] => []
  | txs :: l => let '(b, st) := make_batch st txs in b :: make_batches_from st l
  end.

Definition make_batches (transfer_txs : list Tx) : list (SchedulingBatch Tx) :=
  make_batches_from (IdGenerator.default, IdGenerator.default)
    (chunks SCHEDULER_BATCH_SIZE transfer_txs).
End Main.

(** ** The end of [main] *)

(** [handle.join().unwrap().unwrap()] of every worker, and the sum *)
Definition total_success_count {ProcessError : Type} (l : list (nat + WorkerError (ProcessError:=ProcessError))) :
    res nat :=
  fold_res (λ n r, match r with
                   | inl m => Ok (n + m)
                   | inr _ => Panic "called `Result::unwrap()` on an `Err` value"
                   end) 0 l.

(** The comparison of [sort_by]: the thread first, then the start. *)
Definition point_cmp (a b : WorkerStatusUpdate) : comparison :=
  match Nat.compare (thread_id a) (thread_id b) with
  | Eq => Z.compare (status_start (status a)) (status_start (status b))
  | c => c
  end.
Fixpoint insert_point (x : WorkerStatusUpdate) (l : list WorkerStatusUpdate) : list WorkerStatusUpdate :=
  match l with
  | [] => [x]
  | y :: l' => match point_cmp x y with Gt => y :: insert_point x l' | _ => x :: l end
  end.
Definition sort_status_points (l : list WorkerStatusUpdate) : list WorkerStatusUpdate :=
  foldr insert_point [] l.
(** What is printed as the thread load *)
Definition report (points : list WorkerStatusUpdate) : res ThreadLoadSummary :=
  calculate_thread_load_summary (sort_status_points points).

(** ** What they send *)

Section Facts.
Context {Tx : Type}.

(** A worker whose channels stay open answers every batch it receives once,
    in order, with nothing to retry, unless processing fails. *)
Lemma worker_loop_echoes {ProcessError : Type} (process : list Tx → list bool + ProcessError)
    (clock : nat → Z) thread inbox k n idle count (out : outbox (Tx:=Tx)) :
  (∀ txs, ∃ r, process txs = inl r) →
  ∃ st m, worker_loop process clock (λ _, true) (λ _, true) thread inbox k n idle count out =
    (mkOut (statuses out ++ st) (results out ++ ((λ b, mkBatchResult b []) <$> inbox)), inl m).
Proof.
  intros Hp. revert k n idle count out. induction inbox as [|b inbox IH]; intros; simpl.
  { exists [], count. rewrite !app_nil_r. by destruct out. }
  destruct (Hp (transactions b)) as [r Hr]. rewrite Hr.
  edestruct IH as (st & m & Heq). rewrite Heq. simpl.
  eexists _, m. by rewrite <-!app_assoc.
Qed.

Definition point_le (a b : WorkerStatusUpdate) : Prop := point_cmp a b ≠ Gt.

Lemma point_le_spec a b : point_le a b ↔
  thread_id a < thread_id b ∨
  thread_id a = thread_id b ∧ (status_start (status a) ≤ status_start (status b))%Z.
Proof.
  unfold point_le, point_cmp. destruct (Nat.compare_spec (thread_id a) (thread_id b)).
  - rewrite <-Z.compare_le_iff. split; [by right|]. intros [|[_ ?]]; [lia|done].
  - split; [by left|done].
  - split; [done|]. intros [|[? _]]; lia.
Qed.

Lemma insert_point_perm x l : insert_point x l ≡ₚ x :: l.
Proof.
  induction l as [|y l IH]; cbn; [done|]. destruct (point_cmp x y); [done|done|].
  rewrite IH. apply Permutation_swap.
Qed.
Lemma insert_point_sorted x l : StronglySorted point_le l → StronglySorted point_le (insert_point x l).
Proof.
  induction 1 as [|y l Hs IH Hy]; cbn; [repeat constructor|].
  destruct (point_cmp x y) eqn:Hc.
  3: { constructor; [done|]. rewrite insert_point_perm. constructor; [|done].
       apply point_le_spec. unfold point_cmp in Hc.
       destruct (Nat.compare_spec (thread_id x) (thread_id y)); [|done|by left].
       right. split; [done|]. apply Z.compare_gt_iff in Hc. lia. }
  all: assert (point_le x y) as Hxy by (unfold point_le; congruence).
  all: constructor; [by constructor|]; constructor; [done|].
  all: eapply Forall_impl; [exact Hy|]; intros z; rewrite point_le_spec in *; rewrite point_le_spec; lia.
Qed.

(** The sorted points are the points received, by thread and start. *)
Lemma sort_status_points_ok l :
  sort_status_points l ≡ₚ l ∧ StronglySorted point_le (sort_status_points l).
Proof.
  induction l as [|x l [IHp IHs]]; cbn; [split; [done|constructor]|].
  split; [by rewrite insert_point_perm, IHp|by apply insert_point_sorted].
Qed.

Lemma gen_ids_spec {A} (l : list A) g :
  gen_ids l g = (mkTxId <$> (IdGenerator.gen_n (length l) g).1, (IdGenerator.gen_n (length l) g).2).
Proof.
  revert g. induction l as [|x l IH]; intros g; [done|]. simpl.
  rewrite IH. by destruct (IdGenerator.gen_n (length l) _).
Qed.

Lemma gen_n_app a b g :
  (IdGenerator.gen_n (a + b) g).1 =
  (IdGenerator.gen_n a g).1 ++ (IdGenerator.gen_n b (IdGenerator.gen_n a g).2).1.
Proof.
  revert g. induction a as [|a IH]; intros g; [done|]. simpl.
  specialize (IH (IdGenerator.mk (wrapping_sub64 (IdGenerator.next_id g) 1))).
  destruct (IdGenerator.gen_n (a + b) _) as [l1 g1], (IdGenerator.gen_n a _) as [l2 g2].
  simpl in *. by rewrite IH.
Qed.

(** The batches carry the transactions in order, each with an id of its own
    from one run of the generator. *)
Lemma make_batches_from_ok bg tg (l : list (list Tx)) :
  (transactions <$> make_batches_from (bg, tg) l) = l ∧
  concat (ids <$> make_batches_from (bg, tg) l) =
    mkTxId <$> (IdGenerator.gen_n (length (concat l)) tg).1 ∧
  Forall (λ b, valid b = true) (make_batches_from (bg, tg) l).
Proof.
  revert bg tg. induction l as [|txs l IH]; intros bg tg.
  { split_and!; [done|done|constructor]. }
  cbn [make_batches_from make_batch]. rewrite gen_ids_spec.
  destruct (IdGenerator.gen bg) as [id bg'].
  destruct (IH bg' (IdGenerator.gen_n (length txs) tg).2) as (Htx & Hids & Hv).
  rewrite !fmap_cons. cbn [concat transactions ids]. split_and!.
  - by rewrite Htx.
  - rewrite Hids, length_app, gen_n_app, fmap_app. done.
  - constructor; [|done]. unfold valid. cbn [transactions ids max_ages].
    assert (∀ n g, length (IdGenerator.gen_n n g).1 = n) as Hlen.
    { clear. induction n as [|n IHn]; intros g; [done|]. simpl.
      specialize (IHn (IdGenerator.mk (wrapping_sub64 (IdGenerator.next_id g) 1))).
      destruct (IdGenerator.gen_n n _). simpl in *. by f_equal. }
    rewrite length_fmap, Hlen, length_replicate, !bool_decide_true; done.
Qed.

Lemma make_batches_ok (txs : list Tx) :
  (Z.of_nat (length txs) ≤ 2 ^ 64)%Z →
  concat (transactions <$> make_batches txs) = txs ∧
  NoDup (concat (ids <$> make_batches txs)) ∧
  Forall (λ b, valid b = true ∧ length (transactions b) ≤ SCHEDULER_BATCH_SIZE) (make_batches txs).
Proof.
  intros Hlen. unfold make_batches.
  destruct (make_batches_from_ok IdGenerator.default IdGenerator.default
    (chunks SCHEDULER_BATCH_SIZE txs)) as (Htx & Hids & Hv).
  assert (0 < SCHEDULER_BATCH_SIZE) as Hpos by (unfold SCHEDULER_BATCH_SIZE; lia).
  rewrite chunks_concat in Hids by done. split_and!.
  - rewrite Htx. by apply chunks_concat.
  - rewrite Hids, gen_n_spec by (simpl; unfold u64, u64_max in *; lia).
    rewrite <-list_fmap_compose. apply NoDup_fmap_2_strong; [|apply NoDup_seq].
    intros x y _ _ [= Hxy]. lia.
  - assert (Forall (λ l, length l ≤ SCHEDULER_BATCH_SIZE) (chunks SCHEDULER_BATCH_SIZE txs)) as Hc.
    { apply Forall_lookup. intros i c Hc. rewrite chunks_lookup in Hc by done.
      case_decide; [|done]. injection Hc as <-. rewrite length_take. lia. }
    rewrite <-Htx, Forall_fmap in Hc. by apply Forall_and.
Qed.
End Facts.
