(* ===== verification/Metrics.v ===== *)
(** * Scheduler metrics

    [scheduler/src/impls/prio_graph_scheduler/scheduler_metrics.rs].  A report
    is a data point handed to [solana_metrics]: here the functions that report
    return the points they submit.  [AtomicInterval] and [BankStart] are types
    of [solana_sdk] and [solana_poh]; whether an interval has elapsed and what
    the clock shows are arguments. *)
From S2P Require Import Prelude.
Set Default Proof Using "Type*".

(** [x as i64] for a [u64] or [usize]. *)
Definition as_i64 (x : Z) : Z := if decide (x < 2 ^ 63)%Z then x else (x - 2 ^ 64)%Z.

(** [itertools::MinMaxResult] *)
Inductive MinMaxResult (A : Type) := NoElements | OneElement (e : A) | MinMax (min max : A).
Arguments NoElements {A}.
Arguments OneElement {A} e.
Arguments MinMax {A} min max.

(** A data point: its name, its fields in order, and the slot added last. *)
Record datapoint := mkPoint { point_name : string; point_fields : list (string * Z) }.

Definition create_datapoint (name : string) (fields : list (string * Z)) (slot : option Z) :
    datapoint :=
  mkPoint name (((λ '(k, v), (k, as_i64 v)) <$> fields) ++
                match slot with Some s => [("slot", as_i64 s)] | None => [] end).

(** ** Counters *)

Record SchedulerCountMetricsInner := mkCounts {
  num_received : Z;
  num_buffered : Z;
  num_scheduled : Z;
  num_unschedulable : Z;
  num_schedule_filtered_out : Z;
  num_finished : Z;
  num_retryable : Z;
  num_forwarded : Z;
  num_dropped_on_receive : Z;
  num_dropped_on_sanitization : Z;
  num_dropped_on_validate_locks : Z;
  num_dropped_on_receive_transaction_checks : Z;
  num_dropped_on_clear : Z;
  num_dropped_on_age_and_status : Z;
  num_dropped_on_capacity : Z;
  min_prioritization_fees : Z;
  max_prioritization_fees : Z
}.

(** [derive(Default)] *)
Definition counts_default : SchedulerCountMetricsInner :=
  mkCounts 0 0 0 0 0 0 0 0 0 0 0 0 0 0 0 0 0.

Definition get_min_priority (m : SchedulerCountMetricsInner) : Z :=
  if decide (min_prioritization_fees m ≠ u64_max) then min_prioritization_fees m else 0.
Definition get_max_priority (m : SchedulerCountMetricsInner) : Z := max_prioritization_fees m.

(** The counters of a report, in its order. *)
Definition counters (m : SchedulerCountMetricsInner) : list (string * Z) :=
  [("num_received", num_received m);
   ("num_buffered", num_buffered m);
   ("num_scheduled", num_scheduled m);
   ("num_unschedulable", num_unschedulable m);
   ("num_schedule_filtered_out", num_schedule_filtered_out m);
   ("num_finished", num_finished m);
   ("num_retryable", num_retryable m);
   ("num_forwarded", num_forwarded m);
   ("num_dropped_on_receive", num_dropped_on_receive m);
   ("num_dropped_on_sanitization", num_dropped_on_sanitization m);
   ("num_dropped_on_validate_locks", num_dropped_on_validate_locks m);
   ("num_dropped_on_receive_transaction_checks", num_dropped_on_receive_transaction_checks m);
   ("num_dropped_on_clear", num_dropped_on_clear m);
   ("num_dropped_on_age_and_status", num_dropped_on_age_and_status m);
   ("num_dropped_on_capacity", num_dropped_on_capacity m)].

Definition report_counts (m : SchedulerCountMetricsInner) (name : string) (slot : option Z) :
    datapoint :=
  create_datapoint name
    (counters m ++ [("min_priority", get_min_priority m); ("max_priority", get_max_priority m)])
    slot.

Definition has_data (m : SchedulerCountMetricsInner) : bool :=
  bool_decide (num_received m ≠ 0%Z) || bool_decide (num_buffered m ≠ 0%Z) ||
  bool_decide (num_scheduled m ≠ 0%Z) || bool_decide (num_unschedulable m ≠ 0%Z) ||
  bool_decide (num_schedule_filtered_out m ≠ 0%Z) || bool_decide (num_finished m ≠ 0%Z) ||
  bool_decide (num_retryable m ≠ 0%Z) || bool_decide (num_forwarded m ≠ 0%Z) ||
  bool_decide (num_dropped_on_receive m ≠ 0%Z) ||
  bool_decide (num_dropped_on_sanitization m ≠ 0%Z) ||
  bool_decide (num_dropped_on_validate_locks m ≠ 0%Z) ||
  bool_decide (num_dropped_on_receive_transaction_checks m ≠ 0%Z) ||
  bool_decide (num_dropped_on_clear m ≠ 0%Z) ||
  bool_decide (num_dropped_on_age_and_status m ≠ 0%Z) ||
  bool_decide (num_dropped_on_capacity m ≠ 0%Z).

Definition reset_counts (_ : SchedulerCountMetricsInner) : SchedulerCountMetricsInner :=
  mkCounts 0 0 0 0 0 0 0 0 0 0 0 0 0 0 0 u64_max 0.

Definition set_fees (m : SchedulerCountMetricsInner) (min max : Z) : SchedulerCountMetricsInner :=
  mkCounts (num_received m) (num_buffered m) (num_scheduled m) (num_unschedulable m)
    (num_schedule_filtered_out m) (num_finished m) (num_retryable m) (num_forwarded m)
    (num_dropped_on_receive m) (num_dropped_on_sanitization m) (num_dropped_on_validate_locks m)
    (num_dropped_on_receive_transaction_checks m) (num_dropped_on_clear m)
    (num_dropped_on_age_and_status m) (num_dropped_on_capacity m) min max.

Definition update_priority_stats (m : SchedulerCountMetricsInner) (r : MinMaxResult Z) :
    SchedulerCountMetricsInner :=
  match r with
  | NoElements => m
  | OneElement e => set_fees m e e
  | MinMax min max => set_fees m min max
  end.

(** ** Timings *)

Record SchedulerTimingMetricsInner := mkTimings {
  decision_time_us : Z;
  receive_time_us : Z;
  buffer_time_us : Z;
  schedule_filter_time_us : Z;
  schedule_time_us : Z;
  clear_time_us : Z;
  clean_time_us : Z;
  forward_time_us : Z;
  receive_completed_time_us : Z
}.

Definition timings_default : SchedulerTimingMetricsInner := mkTimings 0 0 0 0 0 0 0 0 0.

Definition timings (m : SchedulerTimingMetricsInner) : list (string * Z) :=
  [("decision_time_us", decision_time_us m);
   ("receive_time_us", receive_time_us m);
   ("buffer_time_us", buffer_time_us m);
   ("schedule_filter_time_us", schedule_filter_time_us m);
   ("schedule_time_us", schedule_time_us m);
   ("clear_time_us", clear_time_us m);
   ("clean_time_us", clean_time_us m);
   ("forward_time_us", forward_time_us m);
   ("receive_completed_time_us", receive_completed_time_us m)].

Definition report_timings (m : SchedulerTimingMetricsInner) (name : string) (slot : option Z) :
    datapoint := create_datapoint name (timings m) slot.

Definition reset_timings (_ : SchedulerTimingMetricsInner) : SchedulerTimingMetricsInner :=
  mkTimings 0 0 0 0 0 0 0 0 0.

(** ** Interval and slot metrics

    The two pairs of structures differ in the inner metrics only. *)

(** What a reporter needs of the inner metrics. *)
Class Metrics (M : Type) := {
  metrics_default : M;
  metrics_reset : M → M;
  metrics_report : M → string → option Z → datapoint;
  interval_point : string;
  slot_point : string;
  (** the accumulated values *)
  metrics_values : M → list (string * Z)
}.

#[global] Instance count_metrics : Metrics SchedulerCountMetricsInner := {|
  metrics_default := counts_default;
  metrics_reset := reset_counts;
  metrics_report := report_counts;
  interval_point := "banking_stage_scheduler_counts";
  slot_point := "banking_stage_scheduler_slot_counts";
  metrics_values := counters
|}.
#[global] Instance timing_metrics : Metrics SchedulerTimingMetricsInner := {|
  metrics_default := timings_default;
  metrics_reset := reset_timings;
  metrics_report := report_timings;
  interval_point := "banking_stage_scheduler_timing";
  slot_point := "banking_stage_scheduler_slot_timing";
  metrics_values := timings
|}.

Section Reporters.
Context {M : Type} `{Metrics M}.

Record SlotMetrics := mkSlot { slot : option Z; slot_metrics : M }.

(** [should_update]: does the [AtomicInterval] say 1000 ms have passed? *)
Definition interval_maybe_report_and_reset (m : M) (should_update should_report : bool) :
    M * list datapoint :=
  if should_update then
    (metrics_reset m, if should_report then [metrics_report m interval_point None] else [])
  else (m, []).

Definition slot_maybe_report_and_reset (s : SlotMetrics) (new_slot : option Z) :
    SlotMetrics * list datapoint :=
  if decide (slot s ≠ new_slot) then
    (mkSlot new_slot (metrics_reset (slot_metrics s)),
     match slot s with
     | Some _ => [metrics_report (slot_metrics s) slot_point (slot s)]
     | None => []
     end)
  else (s, []).

(** [SchedulerCountMetrics] and [SchedulerTimingMetrics] *)
Record SchedulerMetrics := mkMetrics { interval : M; slot_part : SlotMetrics }.
Definition metrics_new : SchedulerMetrics :=
  mkMetrics metrics_default (mkSlot None metrics_default).

Definition update (f : M → M) (m : SchedulerMetrics) : SchedulerMetrics :=
  mkMetrics (f (interval m)) (mkSlot (slot (slot_part m)) (f (slot_metrics (slot_part m)))).

Definition maybe_report_and_reset_slot (m : SchedulerMetrics) (new_slot : option Z) :
    SchedulerMetrics * list datapoint :=
  let '(s, points) := slot_maybe_report_and_reset (slot_part m) new_slot in
  (mkMetrics (interval m) s, points).

Definition maybe_report_and_reset_interval (m : SchedulerMetrics)
    (should_update should_report : bool) : SchedulerMetrics * list datapoint :=
  let '(i, points) := interval_maybe_report_and_reset (interval m) should_update should_report in
  (mkMetrics i (slot_part m), points).
End Reporters.
Arguments SlotMetrics : clear implicits.
Arguments SchedulerMetrics : clear implicits.

Definition interval_has_data (m : SchedulerMetrics SchedulerCountMetricsInner) : bool :=
  has_data (interval m).

(** ** Leader detection *)

(** [working_bank.slot()] and [bank_creation_time] of a [BankStart]; instants
    are microseconds. *)
Record BankStart := mkBankStart { bank_slot : Z; bank_creation : Z }.

Record SchedulerLeaderDetectionMetricsInner := mkDetection {
  detection_slot : Z; bank_creation_time : Z; bank_detected_time : Z
}.
Definition SchedulerLeaderDetectionMetrics := option SchedulerLeaderDetectionMetricsInner.

Definition initialize_inner (now : Z) (b : BankStart) : SchedulerLeaderDetectionMetrics :=
  Some (mkDetection (bank_slot b) (bank_creation b) now).

(** [d.as_micros().try_into().unwrap_or(i64::MAX)]; [duration_since] and
    [elapsed] of an earlier instant saturate at zero. *)
Definition micros_i64 (from until : Z) : Z :=
  let d := saturating_sub until from in
  if decide (d < 2 ^ 63)%Z then d else (2 ^ 63 - 1)%Z.

Definition report_and_reset (now : Z) (m : SchedulerLeaderDetectionMetrics) :
    res (SchedulerLeaderDetectionMetrics * list datapoint) :=
  i ← expect m "inner must be present";
  Ok (None,
      [mkPoint "banking_stage_scheduler_leader_detection"
         [("slot", as_i64 (detection_slot i));
          ("bank_detected_delay_us", micros_i64 (bank_creation_time i) (bank_detected_time i));
          ("bank_detected_to_slot_end_detected_us", micros_i64 (bank_detected_time i) now)]]).

Definition update_and_maybe_report (now : Z) (m : SchedulerLeaderDetectionMetrics)
    (bank_start : option BankStart) :
    res (SchedulerLeaderDetectionMetrics * list datapoint) :=
  match m, bank_start with
  | None, Some b => Ok (initialize_inner now b, [])
  | Some _, None => report_and_reset now m
  | Some i, Some b =>
      if decide (detection_slot i ≠ bank_slot b) then
        '(_, points) ← report_and_reset now m;
        Ok (initialize_inner now b, points)
      else Ok (m, [])
  | None, None => Ok (m, [])
  end.

(** ** Laws of the two kinds of metrics *)

(** Resetting clears the values, the field names do not depend on the state,
    and a report starts with the values. *)
Class MetricsLaws (M : Type) `{Metrics M} : Prop := {
  reset_values m : (metrics_values (metrics_reset m)).*2 = replicate (length (metrics_values m)) 0%Z;
  values_names m m' : (metrics_values m).*1 = (metrics_values m').*1;
  report_values m name s : ∃ extra,
    metrics_report m name s = create_datapoint name (metrics_values m ++ extra) s
}.
#[global] Instance count_metrics_laws : MetricsLaws SchedulerCountMetricsInner.
Proof. split; [done..|]. intros. by eexists. Qed.
#[global] Instance timing_metrics_laws : MetricsLaws SchedulerTimingMetricsInner.
Proof. split; [done..|]. intros m name s. exists []. by rewrite app_nil_r. Qed.

Section Slots.
Context {M : Type} `{MetricsLaws M}.

(** The closure [f] passed to [update] adds [d] to the values, one by one. *)
Definition adds (f : M → M) (d : list Z) : Prop :=
  ∀ m, (metrics_values (f m)).*2 = zip_with Z.add (metrics_values m).*2 d.

Definition update_slot (s : SlotMetrics M) (f : M → M) : SlotMetrics M :=
  mkSlot (slot s) (f (slot_metrics s)).

Definition total (n : nat) (ds : list (list Z)) : list Z :=
  foldl (zip_with Z.add) (replicate n 0%Z) ds.

Lemma updates_values s fs ds :
  Forall2 adds fs ds →
  slot (foldl update_slot s fs) = slot s ∧
  (metrics_values (slot_metrics (foldl update_slot s fs))).*2
    = foldl (zip_with Z.add) (metrics_values (slot_metrics s)).*2 ds.
Proof.
  intros Hall. revert s. induction Hall as [|f d fs ds Hf _ IH]; intros s; simpl; [done|].
  destruct (IH (update_slot s f)) as [-> ->]. simpl. by rewrite Hf.
Qed.

(** The point submitted when a slot is left carries the sums of the updates
    made while it was the current slot. *)
Lemma slot_report_ok s0 s fs ds o :
  slot s0 ≠ Some s → Some s ≠ o → Forall2 adds fs ds →
  let n := length (metrics_values (slot_metrics s0)) in
  let s1 := (slot_maybe_report_and_reset s0 (Some s)).1 in
  let '(s2, points) := slot_maybe_report_and_reset (foldl update_slot s1 fs) o in
  slot s2 = o ∧ (metrics_values (slot_metrics s2)).*2 = replicate n 0%Z ∧
  ∃ extra, points =
    [mkPoint slot_point
       (zip (metrics_values (slot_metrics s0)).*1 (as_i64 <$> total n ds) ++ extra ++
        [("slot", as_i64 s)])].
Proof.
  intros Hs0 Ho Hall n. simpl.
  assert ((slot_maybe_report_and_reset s0 (Some s)).1
    = mkSlot (Some s) (metrics_reset (slot_metrics s0))) as ->.
  { unfold slot_maybe_report_and_reset. by rewrite decide_True. }
  destruct (updates_values (mkSlot (Some s) (metrics_reset (slot_metrics s0))) fs ds Hall)
    as [Hslot Hval]; simpl in *.
  set (s2 := foldl update_slot _ fs) in *.
  assert (length (metrics_values (slot_metrics s2)) = n) as Hn.
  { rewrite <-(length_fmap fst), (values_names _ (slot_metrics s0)). apply length_fmap. }
  unfold slot_maybe_report_and_reset. rewrite Hslot, decide_True by done. simpl.
  split_and!; [done|by rewrite reset_values, Hn|].
  destruct (report_values (slot_metrics s2) slot_point (Some s)) as [extra ->].
  exists ((λ '(k, v), (k, as_i64 v)) <$> extra). unfold create_datapoint.
  rewrite fmap_app, <-app_assoc. do 3 f_equal. unfold total, n.
  rewrite <-(reset_values (slot_metrics s0)), <-Hval, (values_names _ (slot_metrics s2)).
  generalize (metrics_values (slot_metrics s2)) as l.
  induction l as [|[k v] l IH]; csimpl; [done|]. by rewrite IH.
Qed.
End Slots.
