(* ===== verification/Stopwatch.v ===== *)
(** * The stopwatch

    [scheduler/src/stopwatch.rs].  Times are nanoseconds of a clock; the
    summary is the list of its lines, before they are formatted. *)
From S2P Require Import Prelude.

Record StopWatch := mkStopWatch { name : string; start_time : Z; clicks : list (Z * string) }.

(** [Instant::elapsed] is zero for an earlier instant. *)
Definition elapsed (start now : Z) : Z := Z.max 0 (now - start).
Definition stopwatch_new (name : string) (now : Z) : StopWatch := mkStopWatch name now [].
Definition click (now : Z) (note : string) (w : StopWatch) : StopWatch :=
  mkStopWatch (name w) (start_time w) (clicks w ++ [(elapsed (start_time w) now, note)]).

Inductive summary_line :=
| Summary (name : string) | NoClicks | ClickLine (note : string) (duration : Z) | TotalTime (t : Z).
(** The loop of [summary]; subtracting a later time from an earlier one panics. *)
Fixpoint click_lines (last_time : Z) (l : list (Z * string)) : res (list summary_line) :=
  match l with
  | [] => Ok []
  | (time, note) :: l =>
      duration ← checked_sub time last_time;
      lines ← click_lines time l;
      Ok (ClickLine note duration :: lines)
  end.
Definition summary (w : StopWatch) : res (list summary_line) :=
  match last (clicks w) with
  | None => Ok [Summary (name w); NoClicks]
  | Some (total, _) =>
      lines ← click_lines 0 (clicks w);
      Ok ([Summary (name w)] ++ lines ++ [TotalTime total])
  end.

(** ** A clock that does not go back *)

Definition line_duration (l : summary_line) : Z := match l with ClickLine _ d => d | _ => 0%Z end.
Definition total_duration (l : list summary_line) : Z := foldr Z.add 0%Z (line_duration <$> l).
(** The watch after clicks at the given times *)
Definition clicked (nm : string) (start : Z) (l : list (Z * string)) : StopWatch :=
  foldl (λ w x, click x.1 x.2 w) (stopwatch_new nm start) l.

Lemma clicked_clicks nm start l : start_time (clicked nm start l) = start ∧ name (clicked nm start l) = nm ∧
  clicks (clicked nm start l) = (λ x, (elapsed start x.1, x.2)) <$> l.
Proof.
  unfold clicked. induction l as [|x l (IHs & IHn & IH)] using rev_ind; [done|].
  rewrite foldl_app, fmap_app. cbn. by rewrite IHs, IHn, IH.
Qed.
Lemma click_lines_ok from l :
  (∀ i x, l !! i = Some x → from ≤ x.1)%Z →
  (∀ i j x y, l !! i = Some x → l !! j = Some y → i ≤ j → (x.1 ≤ y.1)%Z) →
  wp (click_lines from l) (λ lines, length lines = length l ∧
    total_duration lines = (default from (fst <$> last l) - from)%Z).
Proof.
  revert from. induction l as [|[t note] l IH]; intros from Hf Hm; [apply wp_ok; cbn; split; [done|lia]|].
  cbn [click_lines]. pose proof (Hf 0 _ eq_refl) as H0. cbn in H0.
  rewrite (proj2 (checked_sub_Ok t from _)) by done. cbn [mbind res_bind].
  apply wp_bind. eapply wp_mono; [apply (IH t)|].
  - intros i x Hx. apply (Hm 0 (S i) (t, note) x); [done|done|lia].
  - intros i j x y Hx Hy Hle. apply (Hm (S i) (S j) x y Hx Hy). lia.
  - intros lines [Hlen Hsum]. apply wp_ok. split; [cbn; by rewrite Hlen|].
    unfold total_duration in *. cbn. rewrite Hsum. destruct l as [|y l]; cbn; [lia|].
    change (last ((t, note) :: y :: l)) with (last (y :: l)).
    destruct (last (y :: l)) as [z|] eqn:Hz; [cbn; lia|]. by apply last_None in Hz.
Qed.

(** With a clock that does not go back after the start, the summary of a watch
    is printed without a panic and its durations add up to the total time. *)
Theorem summary_adds_up nm start l t note :
  (∀ i j x y, l !! i = Some x → l !! j = Some y → i ≤ j → (x.1 ≤ y.1)%Z) →
  last l = Some (t, note) →
  wp (summary (clicked nm start l)) (λ lines, ∃ click_lines,
    lines = [Summary nm] ++ click_lines ++ [TotalTime (elapsed start t)] ∧
    length click_lines = length l ∧ total_duration click_lines = elapsed start t).
Proof.
  intros Hm Hl. destruct (clicked_clicks nm start l) as (_ & Hn & Hc).
  unfold summary. rewrite Hc, fmap_last, Hl, Hn. cbn [fmap option_fmap option_map].
  apply wp_bind. eapply wp_mono; [apply click_lines_ok|].
  - intros i x Hx. apply list_lookup_fmap_Some in Hx as (y & -> & _). cbn. unfold elapsed. lia.
  - intros i j x y Hx Hy Hle. apply list_lookup_fmap_Some in Hx as (x' & -> & Hx).
    apply list_lookup_fmap_Some in Hy as (y' & -> & Hy). cbn. unfold elapsed.
    pose proof (Hm i j x' y' Hx Hy Hle). lia.
  - intros lines [Hlen Hsum]. apply wp_ok. exists lines. split; [done|]. rewrite length_fmap in Hlen.
    split; [done|]. rewrite Hsum, fmap_last, Hl. cbn. lia.
Qed.

Module StopwatchWitnesses.
Lemma summary_adds_up_witness :
  wp (summary (clicked "schedule" 100 [(130%Z, "a"); (150%Z, "b")])) (λ lines, ∃ click_lines,
    lines = [Summary "schedule"] ++ click_lines ++ [TotalTime 50] ∧
    length click_lines = 2 ∧ total_duration click_lines = 50%Z).
Proof.
  apply (summary_adds_up "schedule" 100 [(130%Z, "a"); (150%Z, "b")] 150 "b").
  - intros [|[|i]] [|[|j]] x y Hx Hy Hle; simplify_eq/=; lia.
  - reflexivity.
Defined.
End StopwatchWitnesses.
