(* ===== verification/SupportTheorems.v ===== *)
(** * Theorems about the parts around the scheduler

    The lock-free scheduler, the load summary of worker statuses, the slot
    metrics and the batches of the simulation, each with a concrete instance. *)
From S2P Require Import Prelude Messages Channels Scheduler NoLock WorkerStatus Metrics Simulation.
Import NoLockScheduler.

Section LockFree.
Context {Tx S : Type} `{SenderLaws S (SchedulingBatch Tx)}.
Context (live : S → Prop).

(** the lock-free scheduler delivers full chunks only.  With live workers
    and one id per transaction, a batch whose size is a multiple of 64 is
    delivered as its chunks, in order, to the workers round robin starting at
    the batch id; a batch of any other size makes [schedule_batch] panic. *)
Theorem no_lock_full_chunks_only {R : Type} (ss : list S) (r : R) (txs : SchedulingBatch Tx) :
  (∀ s m, live s → ∃ s', send s m = Some s' ∧ live s') →
  ss ≠ [] → Forall live ss → length (ids txs) = length (transactions txs) →
  if decide (length (transactions txs) mod exec_batch = 0)
  then ∃ s, schedule_batch (new ss r) txs = Ok (s, inl ()) ∧
         shared live txs ss (seq 0 (num_chunks txs)) s
  else ∃ msg, schedule_batch (new ss r) txs = Panic msg.
Proof using All.
  intros Hsend Hne Hl Hids. assert (exec_batch ≠ 0) as Hpos by done.
  case_decide as Hd.
  - apply Nat.Lcm0.mod_divide in Hd.
    destruct (wp_elim _ _ (schedule_batch_delivers live Hsend txs ss Hne Hl Hids Hd))
      as ([s x] & Heq & -> & Hs). by exists s.
  - eapply (schedule_batch_partial live Hsend); [done|]. intros Hk. apply Hd. by apply Nat.Lcm0.mod_divide.
Qed.
End LockFree.

(** the load summary accounts for all active time.  For well-formed
    updates, [calculate_thread_load_summary] returns: the merged windows are
    disjoint and cover exactly the instants reported, their number and total
    length are those of the summary, the weighted load is the sum over them of
    active time per thread in [f64], the average divides it by the total, and
    every millisecond of active time falls in exactly one window. *)
Theorem load_summary_accounts updates :
  Forall update_ok updates →
  (sumZ active_ms (status <$> updates) ≤ u64_max)%Z →
  ∃ s merged, calculate_thread_load_summary updates = Ok s ∧
    separated merged ∧ (∀ x, covers merged x ↔ covers (window_of <$> updates) x) ∧
    merged_windows s = Z.of_nat (length merged) ∧ total_duration s = sumZ span merged ∧
    weighted_load s =
      foldl (load_of (F64.of_u64 (Z.of_nat (size (list_to_set (thread_id <$> updates) : gset nat))))
               (status <$> updates)) F64.zero merged ∧
    average_load s = F64.div (weighted_load s) (F64.of_u64 (total_duration s)) ∧
    sumZ (λ w, sumZ (overlap w) (status <$> updates)) merged
      = sumZ active_ms (status <$> updates).
Proof.
  intros Hok Hmax.
  destruct (wp_elim _ _ (calculate_thread_load_summary_ok updates Hok Hmax))
    as (s & Heq & merged & Hs). by exists s, merged.
Qed.

(** the metrics of a slot are reported once, when it is left, as the sums
    of the updates made while it was current, and start again from zero. *)
Theorem slot_report_exact {M : Type} `{MetricsLaws M} (s0 : SlotMetrics M) s fs ds o :
  slot s0 ≠ Some s → Some s ≠ o → Forall2 adds fs ds →
  let n := length (metrics_values (slot_metrics s0)) in
  let s1 := (slot_maybe_report_and_reset s0 (Some s)).1 in
  let '(s2, points) := slot_maybe_report_and_reset (foldl update_slot s1 fs) o in
  slot s2 = o ∧ (metrics_values (slot_metrics s2)).*2 = replicate n 0%Z ∧
  ∃ extra, points =
    [mkPoint slot_point
       (zip (metrics_values (slot_metrics s0)).*1 (as_i64 <$> total n ds) ++ extra ++
        [("slot", as_i64 s)])].
Proof. apply slot_report_ok. Qed.

(** C23: the batches of the simulation are well-formed.  They carry the
    transactions in order, every transaction has an id of its own, ids,
    transactions and ages of a batch are equally many, and no batch has more
    than [SCHEDULER_BATCH_SIZE] transactions. *)
Theorem simulation_batches_valid {Tx : Type} (txs : list Tx) :
  (Z.of_nat (length txs) ≤ 2 ^ 64)%Z →
  concat (transactions <$> make_batches txs) = txs ∧
  NoDup (concat (ids <$> make_batches txs)) ∧
  Forall (λ b, valid b = true ∧ length (transactions b) ≤ SCHEDULER_BATCH_SIZE) (make_batches txs).
Proof. apply make_batches_ok. Qed.

(** a simulated worker answers every batch it is sent, once and in order,
    with nothing to retry, as long as processing succeeds. *)
Theorem worker_answers_all {Tx ProcessError : Type}
    (process : list Tx → list bool + ProcessError) clock thread inbox :
  (∀ txs, ∃ r, process txs = inl r) →
  ∃ st m, worker_process process clock (λ _, true) (λ _, true) thread inbox =
    (mkOut st ((λ b, mkBatchResult b []) <$> inbox), inl m).
Proof.
  intros Hp.
  destruct (worker_loop_echoes process clock thread inbox 1 0 (clock 0) 0 (mkOut [] []) Hp)
    as (st & m & Heq). exists st, m. exact Heq.
Qed.

(** ** Concrete instances *)

Module SupportWitnesses.
Abbreviation queue := (Queue.t (SchedulingBatch nat)).
Definition batch_of (n : nat) : SchedulingBatch nat :=
  mkBatch (mkBatchId 5) ((λ i, mkTxId (Z.of_nat i)) <$> seq 0 n) (seq 0 n) [].
Definition workers : list queue := [Queue.mk true []; Queue.mk true []].

Lemma no_lock_witness :
  (∃ s, schedule_batch (new workers ()) (batch_of 128) = Ok (s, inl ())) ∧
  (∃ msg, schedule_batch (new workers ()) (batch_of 100) = Panic msg).
Proof.
  assert (∀ (s : queue) m, Queue.connected s = true →
    ∃ s', send s m = Some s' ∧ Queue.connected s' = true) as Hsend.
  { intros [c q] m Hc. simpl in *. subst c. by eexists. }
  split.
  - destruct (no_lock_full_chunks_only (λ s, Queue.connected s = true) workers () (batch_of 128)
      Hsend) as (s & Heq & _); [done|by repeat constructor|done|]. by exists s.
  - destruct (no_lock_full_chunks_only (λ s, Queue.connected s = true) workers () (batch_of 100)
      Hsend) as (msg & Heq); [done|by repeat constructor|done|]. by exists msg.
Defined.

Definition updates : list WorkerStatusUpdate :=
  [mkUpdate 0 (new_active 0 10); mkUpdate 1 (new_idle 5 12); mkUpdate 1 (new_active 20 30)].
Lemma load_summary_witness :
  ∃ s, calculate_thread_load_summary updates = Ok s ∧
    (merged_windows s, total_duration s) = (2%Z, 22%Z).
Proof.
  destruct (load_summary_accounts updates) as (s & merged & Heq & _).
  - by repeat constructor.
  - by vm_compute.
  - exists s. split; [exact Heq|]. vm_compute in Heq. by injection Heq as <-.
Defined.

(** Five microseconds of decision time. *)
Definition five_us (m : SchedulerTimingMetricsInner) : SchedulerTimingMetricsInner :=
  match m with
  | mkTimings a b c d e f g h i => mkTimings (a + 5) b c d e f g h i
  end.
Lemma slot_report_witness :
  let s := mkSlot (Some 4%Z) (five_us (five_us timings_default)) in
  ∃ extra, (slot_maybe_report_and_reset s (Some 5%Z)).2 =
    [mkPoint slot_point (zip (timings timings_default).*1 [10; 0; 0; 0; 0; 0; 0; 0; 0]%Z
       ++ extra ++ [("slot", 4%Z)])].
Proof.
  refine (proj2 (proj2 (slot_report_exact (mkSlot None timings_default) 4 [five_us; five_us]
    [[5; 0; 0; 0; 0; 0; 0; 0; 0]; [5; 0; 0; 0; 0; 0; 0; 0; 0]]%Z (Some 5%Z) _ _ _))); [done|done|].
  repeat constructor; intros []; unfold metrics_values; simpl; by rewrite !Z.add_0_r.
Defined.

Lemma simulation_batches_witness :
  concat (transactions <$> make_batches (seq 0 3000)) = seq 0 3000 ∧
  NoDup (concat (ids <$> make_batches (seq 0 3000))).
Proof.
  destruct (simulation_batches_valid (seq 0 3000)) as (? & ? & _); [by vm_compute|done].
Defined.

Lemma worker_answers_witness :
  ∃ st m, worker_process (ProcessError:=unit) (λ txs : list nat, inl ((λ _, true) <$> txs)) Z.of_nat
    (λ _, true) (λ _, true) 0 [batch_of 3; batch_of 2] =
    (mkOut st [mkBatchResult (batch_of 3) []; mkBatchResult (batch_of 2) []], inl m).
Proof.
  apply (worker_answers_all _ Z.of_nat 0 [batch_of 3; batch_of 2]). intros txs. by eexists.
Defined.
End SupportWitnesses.
