(* ===== verification/Banks.v ===== *)
(** * Banks, forks and the block store

    What the rollup uses of [solana_runtime], [solana_ledger] and
    [solana_entry], crates outside this repository.  An [Arc<Bank>] is a
    reference: its slot and parent do not change, everything else of the bank
    is mutable state behind it.  All of that state is the world [W], which the
    operations on banks transform. *)
From S2P Require Import Prelude.

Abbreviation Slot := Z.

(** [solana_entry::entry::Entry], which [blockstore/mod.rs] builds itself. *)
Record Entry (Hash VTx : Type) := mkEntry {
  num_hashes : Z;
  entry_hash : Hash;
  entry_transactions : list VTx
}.
Arguments mkEntry {Hash VTx} num_hashes entry_hash entry_transactions.
Arguments num_hashes {Hash VTx} _.
Arguments entry_hash {Hash VTx} _.
Arguments entry_transactions {Hash VTx} _.

(** [next_hash(prev, num_hashes, transactions)] and [Entry::is_tick]: an entry
    without transactions is a tick. *)
Class Entries (Hash VTx : Type) := {
  next_hash : Hash → Z → list VTx → Hash;
  is_tick : Entry Hash VTx → bool
}.
Class EntriesLaws (Hash VTx : Type) `{Entries Hash VTx} : Prop :=
  is_tick_spec e : is_tick e = true ↔ entry_transactions e = [].

(** ** References to banks *)
Class Banks (B : Type) := {
  bank_slot : B → Slot;
  (** [parent_slot()]: the bank of the genesis block has slot 0 and parent
      slot 0 *)
  bank_parent_slot : B → Slot
}.

(** A child has a higher slot than its parent; only the genesis bank has none. *)
Class BanksLaws (B : Type) `{Banks B} : Prop := {
  slot_nonneg b : (0 ≤ bank_parent_slot b)%Z;
  parent_below b : bank_slot b ≠ 0%Z → (bank_parent_slot b < bank_slot b)%Z;
  genesis_parent b : bank_slot b = 0%Z → bank_parent_slot b = 0%Z
}.

(** ** The state of the banks *)
Class BankWorld (W B Hash Pubkey Account : Type) := {
  bank_hash : W → B → Hash;
  bank_last_blockhash : W → B → Hash;
  (** [parent()]: [None] once the bank has been rooted *)
  bank_parent : W → B → option B;
  bank_tick_height : W → B → Z;
  bank_max_tick_height : W → B → Z;
  bank_ticks_per_slot : W → B → Z;
  bank_lamports_per_signature : W → B → Z;
  bank_get_account : W → B → Pubkey → option Account;
  account_lamports : Account → Z;
  bank_freeze : W → B → W;
  (** [squash()], which [BankForks::set_root] calls on the new root: freezes
      it and forgets its parents *)
  bank_squash : W → B → W;
  bank_store_account : W → B → Pubkey → Account → W;
  bank_register_tick : W → B → Hash → W;
  (** [new_from_parent_with_options(parent, collector_id, slot, _)] *)
  bank_new_from_parent : W → B → Pubkey → Slot → W * B
}.
(** A new bank has the slot asked for, above its parent's, and that parent. *)
Class BankWorldLaws (W B Hash Pubkey Account : Type) `{Banks B}
    `{!BankWorld W B Hash Pubkey Account} : Prop := {
  new_bank_slot w p id s w' b :
    bank_new_from_parent w p id s = (w', b) → (bank_slot p < s)%Z → bank_slot b = s;
  new_bank_parent_slot w p id s w' b :
    bank_new_from_parent w p id s = (w', b) → (bank_slot p < s)%Z →
    bank_parent_slot b = bank_slot p;
  new_bank_parent w p id s w' b :
    bank_new_from_parent w p id s = (w', b) → bank_parent w' b = Some p
}.

(** ** [BankForks] *)
Class BankForks (F B : Type) := {
  bf_get : F → Slot → option B;
  bf_root : F → Slot;
  bf_highest_slot : F → Slot;
  bf_working_bank : F → B;
  bf_insert : F → B → F;
  (** [set_root(root, _, highest_super_majority_root)]: the new forks and the
      banks removed from them, or an error; it panics on a root it does not
      know *)
  bf_set_root : F → Slot → option Slot → res ((F * list B) + string)
}.

(** ** [Blockstore] *)
Class Blockstore (D : Type) := {
  bs_max_root : D → Slot;
  bs_highest_slot : D → (option Slot) + string;
  bs_set_roots : D → Slot → D + string;
  bs_set_dead_slot : D → Slot → D + string;
  bs_rooted_block_time : D → Slot → Z + string;
  bs_is_dead : D → Slot → bool
}.
(** Marking a slot dead marks that slot; setting roots marks none. *)
Class BlockstoreLaws (D : Type) `{Blockstore D} : Prop := {
  set_dead_is_dead d s d' x :
    bs_set_dead_slot d s = inl d' → bs_is_dead d' x = bool_decide (x = s) || bs_is_dead d x;
  set_roots_is_dead d s d' x : bs_set_roots d s = inl d' → bs_is_dead d' x = bs_is_dead d x
}.

(** ** Ancestors *)

Section Ancestors.
Context {F B : Type} `{Banks B} `{BankForks F B}.

(** [ancestor f s t]: following parents from [t] through banks of [f] leads to
    the bank at [s]. *)
Inductive ancestor (f : F) : Slot → Slot → Prop :=
| ancestor_parent t b c :
    bf_get f t = Some b → bf_get f (bank_parent_slot b) = Some c → bank_parent_slot b ≠ t →
    ancestor f (bank_parent_slot b) t
| ancestor_step s t b c :
    bf_get f t = Some b → bf_get f (bank_parent_slot b) = Some c → bank_parent_slot b ≠ t →
    ancestor f s (bank_parent_slot b) → ancestor f s t.
End Ancestors.

(** What [BankForks::set_root] documents: it expects the root to be in the
    forks; the new root stays; of its ancestors those at or above the highest
    confirmed root stay; every bank that does not stay is returned. *)
Class BankForksLaws (F B : Type) `{Banks B} `{!BankForks F B} : Prop := {
  bf_get_slot f s b : bf_get f s = Some b → bank_slot b = s;
  bf_set_root_known f root hi b :
    bf_get f root = Some b → ∃ r, bf_set_root f root hi = Ok r;
  bf_set_root_unknown f root hi :
    bf_get f root = None → ∃ msg, bf_set_root f root hi = Panic msg;
  bf_set_root_root f root hi f' removed :
    bf_set_root f root hi = Ok (inl (f', removed)) → ∃ b, bf_get f root = Some b ∧ bf_get f' root = Some b;
  bf_set_root_sub f root hi f' removed s b :
    bf_set_root f root hi = Ok (inl (f', removed)) → bf_get f' s = Some b → bf_get f s = Some b;
  bf_set_root_removed f root hi f' removed b :
    bf_set_root f root hi = Ok (inl (f', removed)) →
    b ∈ removed ↔ bf_get f (bank_slot b) = Some b ∧ bf_get f' (bank_slot b) = None;
  bf_set_root_ancestor f root hi f' removed s b :
    bf_set_root f root hi = Ok (inl (f', removed)) → ancestor f s root → bf_get f s = Some b →
    bf_get f' s = if decide (default root hi ≤ s)%Z then Some b else None
}.
