(* ===== verification/Ledger.v ===== *)
(** * The rollup's storage: slots, forks and reorganisation

    [storage/src/error.rs], [storage/src/impls.rs], [storage/src/ledger/mod.rs]
    and the slot handling of [storage/src/accounts/mod.rs].  A method is a
    function of the storage and returns it with the [Result]; loops that may
    not end take fuel and panic when it runs out. *)
From S2P Require Import Prelude Banks.
Set Default Proof Using "Type*".

(** ** [error.rs] *)

Inductive StorageError :=
| TooManyShreds
| ShredNotFound (slot : Slot) (index : Z)
| UnknownSlotMeta (slot : Slot)
| UnknownLastIndex (slot : Slot)
| InvalidMerkleRoot (slot : Slot) (index : Z)
| EmptyEntriesHashes
| BlockstoreSetRootFailed (msg : string)
| AccountNotFound.

Inductive BankError :=
| BankCommon (msg : string)
| BankSetRootFailed (msg : string)
| BankNotExists (slot : Slot)
| InvalidOperation (msg : string).

Inductive AccountDbError :=
| FailedToScanAccounts (msg : string)
| ConvertTxError (msg : string).

Inductive Error :=
| InitCommon (msg : string)
| LoadBlockstoreFailed (msg : string)
| InitBankForksFailed (msg : string)
| InitConfigFailed (msg : string)
| KeypairsConfigMissingValidatorKeypair
| CommitBachAndResultsNotMatch
| NoEntries
| SolanaBlockstoreError (msg : string)
| EStorage (e : StorageError)
| EBank (e : BankError)
| EAccountDb (e : AccountDbError).

(** ** The storage *)

Section Storage.
Context {B F D W Hash Pubkey Account : Type}.
Context `{!Banks B, !BankForks F B, !Blockstore D, !BankWorld W B Hash Pubkey Account}.

(** [RollupStorage]: of the configuration, what the operations read. *)
Record RollupStorage := mkStorage {
  st_bank : B;
  st_bank_forks : F;
  st_blockstore : D;
  st_world : W;
  st_dev_mode : bool;
  st_validator : option Pubkey;
  st_ticks_per_slot : Z;
  st_enable_history : bool
}.
Implicit Types (s : RollupStorage).

Definition with_bank s (b : B) (f : F) (w : W) : RollupStorage :=
  mkStorage b f (st_blockstore s) w (st_dev_mode s) (st_validator s) (st_ticks_per_slot s)
    (st_enable_history s).
Definition with_blockstore s (d : D) : RollupStorage :=
  mkStorage (st_bank s) (st_bank_forks s) d (st_world s) (st_dev_mode s) (st_validator s)
    (st_ticks_per_slot s) (st_enable_history s).
Definition with_world s (w : W) : RollupStorage :=
  with_bank s (st_bank s) (st_bank_forks s) w.
Definition with_forks s (f : F) : RollupStorage := with_bank s (st_bank s) f (st_world s).

(** ** Reading *)

Record SlotHead := mkHead { head_slot : Slot; head_hash : option Hash; head_timestamp : option Z }.
Record SlotInfo := mkInfo {
  info_head : SlotHead; info_parent : SlotHead; info_store_height : option Slot
}.
Definition head_default : SlotHead := mkHead 0%Z None None.

Definition get_slot_head s (slot : Slot) : SlotHead + Error :=
  let timestamp := match bs_rooted_block_time (st_blockstore s) slot with
                   | inl t => Some t | inr _ => None end in
  inl (match bf_get (st_bank_forks s) slot with
       | None => mkHead slot None timestamp
       | Some b => mkHead slot (Some (bank_hash (st_world s) b)) timestamp
       end).

Definition get_slot_info s (slot : Slot) : SlotInfo + Error :=
  match get_slot_head s slot with
  | inr e => inr e
  | inl head =>
      match (if (0 <? head_slot head)%Z then get_slot_head s (head_slot head - 1)%Z
             else inl head_default) with
      | inr e => inr e
      | inl parent =>
          match bs_highest_slot (st_blockstore s) with
          | inr e => inr (SolanaBlockstoreError e)
          | inl height => inl (mkInfo head parent height)
          end
      end
  end.

Definition get_root s : Slot := bf_root (st_bank_forks s).
Definition get_storage_root s : Slot := bs_max_root (st_blockstore s).
Definition get_mixed_heights s : (Slot * option Slot) + Error :=
  match bs_highest_slot (st_blockstore s) with
  | inl height => inl (bf_highest_slot (st_bank_forks s), height)
  | inr e => inr (SolanaBlockstoreError e)
  end.
Definition current_height s : Slot := bank_slot (st_bank s).
Definition balance s (key : Pubkey) : Z :=
  match bank_get_account (st_world s) (st_bank s) key with
  | Some a => account_lamports a | None => 0
  end.
Definition has_account s (key : Pubkey) : bool :=
  match bank_get_account (st_world s) (st_bank s) key with Some _ => true | None => false end.
Definition get_account s (key : Pubkey) : Account + Error :=
  match bank_get_account (st_world s) (st_bank s) key with
  | Some a => inl a | None => inr (EStorage AccountNotFound)
  end.
Definition get_account_by_slot s (slot : Slot) (key : Pubkey) : Account + Error :=
  match bf_get (st_bank_forks s) slot with
  | None => inr (EBank (BankNotExists slot))
  | Some b =>
      match bank_get_account (st_world s) b key with
      | Some a => inl a | None => inr (EStorage AccountNotFound)
      end
  end.
Definition get_bank s (slot : Slot) : B + Error :=
  match bf_get (st_bank_forks s) slot with
  | Some b => inl b | None => inr (EBank (BankNotExists slot))
  end.

(** The trait [BankInfo]. *)
Definition last_blockhash s (slot : option Slot) : Hash + Error :=
  match slot with
  | Some slot =>
      match bf_get (st_bank_forks s) slot with
      | Some b => inl (bank_last_blockhash (st_world s) b)
      | None => inr (EBank (BankNotExists slot))
      end
  | None => inl (bank_last_blockhash (st_world s) (st_bank s))
  end.
Definition execution_slot s : Slot := bank_slot (st_bank s).
Definition collector_id s : Pubkey + Error :=
  match st_validator s with
  | Some key => inl key | None => inr KeypairsConfigMissingValidatorKeypair
  end.

(** ** New slots *)

Definition new_slot_with_parent s (parent : B) (slot : Slot) : RollupStorage * (B + Error) :=
  match collector_id s with
  | inr e => (s, inr e)
  | inl id =>
      let '(w, b) := bank_new_from_parent (st_world s) parent id slot in
      (with_bank s b (bf_insert (st_bank_forks s) b) w, inl b)
  end.

Definition bump_slot s (slot : Slot) : RollupStorage * (B + Error) :=
  new_slot_with_parent s (st_bank s) slot.

Definition bump s : res (RollupStorage * (unit + Error)) :=
  slot ← checked_add u64_max (bf_highest_slot (st_bank_forks s)) 1;
  Ok (match bump_slot s slot with
      | (s, inl _) => (s, inl ())
      | (s, inr e) => (s, inr e)
      end).

Definition insert_account s (key : Pubkey) (data : Account) : RollupStorage * (unit + Error) :=
  if st_dev_mode s then
    (with_world s (bank_store_account (st_world s) (st_bank s) key data), inl ())
  else (s, inr (EBank (InvalidOperation "Capitalization check not passed"))).

(** ** Roots *)

Definition confirm s (slot : Slot) : RollupStorage * (unit + Error) :=
  let s := with_world s (bank_freeze (st_world s) (st_bank s)) in
  match bs_set_roots (st_blockstore s) slot with
  | inl d => (with_blockstore s d, inl ())
  | inr e => (s, inr (EStorage (BlockstoreSetRootFailed e)))
  end.

(** What [BankForks::set_root] does to the new root. *)
Definition squash_root (forks : F) (w : W) (slot : Slot) : W :=
  match bf_get forks slot with Some b => bank_squash w b | None => w end.

Definition set_root s (slot : Slot) (finalized : option Slot) :
    res (RollupStorage * (list B + Error)) :=
  match bs_set_roots (st_blockstore s) slot with
  | inr e => Ok (s, inr (EStorage (BlockstoreSetRootFailed e)))
  | inl d =>
      let s := with_blockstore s d in
      r ← bf_set_root (st_bank_forks s) slot finalized;
      Ok (match r with
          | inr e => (s, inr (EBank (BankSetRootFailed e)))
          | inl (f, removed) =>
              (with_world (with_forks s f) (squash_root f (st_world s) slot), inl removed)
          end)
  end.

Definition force_save s : res (RollupStorage * (unit + Error)) :=
  let s := with_world s (bank_freeze (st_world s) (st_bank s)) in
  '(s, r) ← set_root s (bank_slot (st_bank s)) None;
  Ok (s, match r with inl _ => inl () | inr e => inr e end).

(** ** Reorganisation *)

(** The first loop of [find_ancestors]: the lowest bank reached by following
    parents that are not below [stop_at]. *)
Fixpoint lowest_kept (fuel : nat) (forks : F) (stop_at root_slot : Slot) : res Slot :=
  match bf_get forks root_slot with
  | None => Ok root_slot
  | Some b =>
      if (stop_at <=? bank_parent_slot b)%Z then
        match fuel with
        | 0 => Panic "out of fuel"
        | S fuel => lowest_kept fuel forks stop_at (bank_parent_slot b)
        end
      else Ok root_slot
  end.

(** The [loop] over [removed]. *)
Fixpoint collect_ancestors (fuel : nat) (removed : list B) (ancestors : gset Slot)
    (root_parent : Slot) : res (gset Slot) :=
  match fuel with
  | 0 => Panic "out of fuel"
  | S fuel =>
      match head (filter (λ b, (bank_slot b ∉ ancestors) ∧ bank_slot b = root_parent) removed) with
      | Some b => collect_ancestors fuel removed ({[bank_slot b]} ∪ ancestors) (bank_parent_slot b)
      | None => Ok ancestors
      end
  end.

Definition find_ancestors (fuel : nat) (root_slot : Slot) (finalized : option Slot)
    (forks : F) (removed : list B) : res (gset Slot) :=
  let stop_at := default root_slot finalized in
  root_slot ← lowest_kept fuel forks stop_at root_slot;
  match bf_get forks root_slot with
  | None => Ok ∅
  | Some b => collect_ancestors fuel removed ∅ (bank_parent_slot b)
  end.

(** A failing [set_dead_slot] is logged only. *)
Definition mark_dead (d : D) (b : B) : D :=
  match bs_set_dead_slot d (bank_slot b) with inl d => d | inr _ => d end.

Definition reorg (fuel : nat) s (slot : Slot) (finalized : option Slot) :
    res (RollupStorage * (list B + Error)) :=
  '(s, r) ← set_root s slot finalized;
  match r with
  | inr e => Ok (s, inr e)
  | inl removed =>
      ancestors ← find_ancestors fuel slot finalized (st_bank_forks s) removed;
      let d := foldl mark_dead (st_blockstore s)
                 (filter (λ b, bank_slot b ∉ ancestors) removed) in
      let s := with_blockstore s d in
      Ok (with_bank s (bf_working_bank (st_bank_forks s)) (st_bank_forks s) (st_world s),
          inl removed)
  end.
End Storage.
Arguments RollupStorage : clear implicits.
