(* ===== verification/LedgerFacts.v ===== *)
(** * Facts about reorganisation

    [find_ancestors] returns exactly the ancestors of the new root that
    [set_root] removed, and the walks end when the genesis bank cannot be
    reached or the walk stops above it. *)
From S2P Require Import Prelude Banks Ledger.
Set Default Proof Using "Type*".

Section Reorg.
Context {B F D W Hash Pubkey Account : Type}.
Context `{!Banks B, !BankForks F B, !Blockstore D, !BankWorld W B Hash Pubkey Account}.
Context `{!BanksLaws B, !BankForksLaws F B}.

Lemma parent_le (b : B) : (bank_parent_slot b ≤ bank_slot b)%Z.
Proof.
  destruct (decide (bank_slot b = 0%Z)) as [Hb|Hb].
  - rewrite Hb, genesis_parent by done. lia.
  - pose proof (parent_below b Hb). lia.
Qed.

Lemma ancestor_inv (f : F) s t :
  ancestor f s t → ∃ b c, bf_get f t = Some b ∧ bf_get f (bank_parent_slot b) = Some c ∧
    (bank_parent_slot b < t)%Z ∧ (s = bank_parent_slot b ∨ ancestor f s (bank_parent_slot b)).
Proof.
  intros Ha. assert (∀ b : B, bf_get f t = Some b → bank_parent_slot b ≠ t →
    (bank_parent_slot b < t)%Z) as Hlt.
  { intros b Hb Hne. pose proof (parent_le b). rewrite (bf_get_slot _ _ _ Hb) in *. lia. }
  destruct Ha as [t b c Hb Hc Hne|s t b c Hb Hc Hne Ha]; exists b, c; eauto 10.
Qed.

Lemma ancestor_lt (f : F) s t : ancestor f s t → (0 ≤ s < t)%Z.
Proof.
  induction 1 as [t b c Hb Hc Hne|s t b c Hb Hc Hne Ha IH].
  all: pose proof (parent_le b); rewrite (bf_get_slot _ _ _ Hb) in *.
  - pose proof (slot_nonneg b). lia.
  - lia.
Qed.

Lemma ancestor_get (f : F) s t : ancestor f s t → is_Some (bf_get f s).
Proof. by induction 1. Qed.

(** A parent of an ancestor is an ancestor. *)
Lemma ancestor_extend (f : F) t root b c :
  t = root ∨ ancestor f t root → bf_get f t = Some b → bf_get f (bank_parent_slot b) = Some c →
  bank_parent_slot b ≠ t → ancestor f (bank_parent_slot b) root.
Proof.
  intros [->|Ha] Hb Hc Hne; [by eapply ancestor_parent|].
  induction Ha as [u b' c' Hb' Hc' Hne'|s u b' c' Hb' Hc' Hne' Ha IH].
  - eapply ancestor_step; [done..|]. by eapply ancestor_parent.
  - by eapply ancestor_step; [..|apply IH].
Qed.

Section SetRoot.
Context (f f' : F) (root : Slot) (finalized : option Slot) (removed : list B).
Hypothesis Hset : bf_set_root f root finalized = Ok (inl (f', removed)).
Abbreviation stop := (default root finalized).

(** The walk through the kept banks ends at a bank whose parent is below
    [stop], or where the forks end; every ancestor it has not passed lies
    below. *)
Lemma lowest_kept_ok fuel t :
  (0 < stop)%Z ∨ bf_get f 0%Z = None → t = root ∨ ancestor f t root → is_Some (bf_get f t) →
  (∀ s, ancestor f s root → (stop ≤ s)%Z ∨ ancestor f s t) →
  is_Some (bf_get f' t) → (Z.to_nat t ≤ fuel) → (0 ≤ t)%Z →
  wp (lowest_kept fuel f' stop t) (λ r,
    match bf_get f' r with
    | Some b => bf_get f r = Some b ∧ (r = root ∨ ancestor f r root) ∧
        (bank_parent_slot b < stop)%Z ∧ (∀ s, ancestor f s root → (stop ≤ s)%Z ∨ ancestor f s r)
    | None => ∀ s, ancestor f s root → (stop ≤ s)%Z
    end).
Proof.
  intros H0. revert t. induction fuel as [|fuel IH]; intros t Ht Hf Hall [b Hb] Hfuel Hpos;
    pose proof (bf_set_root_sub _ _ _ _ _ _ _ Hset Hb) as Hfb;
    pose proof (bf_get_slot _ _ _ Hb) as Hslot; simpl; rewrite Hb;
    destruct (Z.leb_spec stop (bank_parent_slot b)) as [Hle|Hgt];
    try (apply wp_ok; rewrite Hb; done).
  - exfalso. assert (t = 0%Z) as -> by lia. rewrite (genesis_parent b Hslot) in Hle.
    destruct H0 as [H0|H0]; [lia|congruence].
  - assert (t ≠ 0%Z) as Hne.
    { intros ->. rewrite (genesis_parent b Hslot) in Hle. destruct H0; [lia|congruence]. }
    assert (bank_parent_slot b < t)%Z as Hlt.
    { rewrite <-Hslot. apply parent_below. by rewrite Hslot. }
    destruct (bf_get f (bank_parent_slot b)) as [c|] eqn:Hc.
    + assert (ancestor f (bank_parent_slot b) root) as Ha
        by (eapply ancestor_extend; [exact Ht|done..|lia]).
      apply IH; [by right|done| |..].
      * intros s Hs. destruct (Hall s Hs) as [?|Hst]; [by left|].
        apply ancestor_inv in Hst as (b' & c' & Hb' & _ & _ & Hor).
        assert (b' = b) as -> by congruence. destruct Hor as [->|?]; auto.
      * pose proof (bf_set_root_ancestor _ _ _ _ _ _ _ Hset Ha Hc) as Hk.
        rewrite decide_True in Hk by done. by exists c.
      * lia.
      * apply slot_nonneg.
    + assert (bf_get f' (bank_parent_slot b) = None) as Hn.
      { destruct (bf_get f' (bank_parent_slot b)) as [c|] eqn:Hc'; [|done].
        rewrite (bf_set_root_sub _ _ _ _ _ _ _ Hset Hc') in Hc. done. }
      destruct fuel as [|fuel]; simpl; rewrite Hn; apply wp_ok; rewrite Hn.
      all: intros s Hs; destruct (Hall s Hs) as [?|Hst]; [done|].
      all: apply ancestor_inv in Hst as (b' & c' & Hb' & Hc' & _); congruence.
Qed.

(** What the second loop keeps: [A] holds ancestors below [stop], and those it
    does not hold are [q] or above it in the chain of parents. *)
Record collecting (A : gset Slot) (q : Slot) : Prop := {
  col_in s : s ∈ A → ancestor f s root ∧ (s < stop)%Z;
  col_rest s : ancestor f s root → (s < stop)%Z →
    s ∈ A ∨ (s = q ∨ ancestor f s q);
  col_next : q ∈ A ∨ ∃ t b, (t = root ∨ ancestor f t root) ∧ bf_get f t = Some b ∧
    q = bank_parent_slot b ∧ (q ≠ t ∨ (q = 0%Z ∧ is_Some (bf_get f' q)));
  col_low s : s ∈ A → (q < s)%Z ∨ (q = 0 ∧ s = 0)%Z;
  col_stop : (0 ≤ q < stop)%Z
}.

Lemma collecting_done A q :
  collecting A q →
  head (filter (λ b, (bank_slot b ∉ A) ∧ bank_slot b = q) removed) = None →
  ∀ s, s ∈ A ↔ ancestor f s root ∧ (s < stop)%Z.
Proof.
  intros Hc Hnone s. split; [apply (col_in _ _ Hc)|]. intros [Hs Hlt].
  destruct (col_rest _ _ Hc s Hs Hlt) as [?|Hor]; [done|].
  destruct (decide (q ∈ A)) as [HqA|HqA].
  { assert (q = 0%Z) as -> by (destruct (col_low _ _ Hc q HqA); lia).
    destruct Hor as [->|Ha%ancestor_lt]; [done|lia]. }
  exfalso. assert (∃ c, bf_get f q = Some c) as [c Hq].
  { destruct Hor as [->|(b & c & Hb & _)%ancestor_inv]; [by apply ancestor_get in Hs|by exists b]. }
  destruct (col_next _ _ Hc) as [?|(t & b & Ht & Hb & -> & Hne)]; [done|].
  assert (ancestor f (bank_parent_slot b) root) as Ha.
  { destruct Hne as [Hne|[Hq0 _]]; [by eapply ancestor_extend|].
    destruct Hor as [->|Ha%ancestor_lt]; [done|lia]. }
  pose proof (bf_set_root_ancestor _ _ _ _ _ _ _ Hset Ha Hq) as Hk.
  rewrite decide_False in Hk by (pose proof (col_stop _ _ Hc); lia).
  apply head_None in Hnone.
  assert (c ∈ filter (λ b', (bank_slot b' ∉ A) ∧ bank_slot b' = bank_parent_slot b) removed) as Hin.
  { apply list_elem_of_filter. rewrite (bf_get_slot _ _ _ Hq). split; [done|].
    apply (bf_set_root_removed _ _ _ _ _ _ Hset). by rewrite (bf_get_slot _ _ _ Hq). }
  rewrite Hnone in Hin. by apply elem_of_nil in Hin.
Qed.

Lemma collecting_step A q b :
  collecting A q →
  head (filter (λ b, (bank_slot b ∉ A) ∧ bank_slot b = q) removed) = Some b →
  collecting ({[bank_slot b]} ∪ A) (bank_parent_slot b) ∧ bank_slot b = q ∧
  ((bank_parent_slot b < q)%Z ∨ q = 0%Z).
Proof.
  intros Hc Hh. assert (b ∈ filter (λ b, (bank_slot b ∉ A) ∧ bank_slot b = q) removed) as Hin.
  { destruct (filter _ removed); simplify_eq/=. left. }
  apply list_elem_of_filter in Hin as [[HqA Hq] Hrem]. rewrite Hq in *.
  apply (bf_set_root_removed _ _ _ _ _ _ Hset) in Hrem as [Hf Hf']. rewrite Hq in *.
  assert (ancestor f q root) as Ha.
  { destruct (col_next _ _ Hc) as [?|(t & b' & Ht & Hb & -> & Hne)]; [done|].
    destruct Hne as [Hne|[_ [? ?]]]; [by eapply ancestor_extend|congruence]. }
  pose proof (parent_le b) as Hle. rewrite Hq in Hle. pose proof (col_stop _ _ Hc).
  pose proof (slot_nonneg b). split_and!; [|done|].
  - split.
    + intros s [->%elem_of_singleton|Hs]%elem_of_union; [split; [done|lia]|]. by apply (col_in _ _ Hc).
    + intros s Hs Hlt. destruct (col_rest _ _ Hc s Hs Hlt) as [?|[->|Hsq]]; [set_solver..|].
      apply ancestor_inv in Hsq as (b' & c & Hb' & _ & _ & Hor).
      simplify_eq. by right.
    + destruct (decide (bank_parent_slot b = q)) as [->|Hne]; [left; set_solver|].
      right. exists q, b. split_and!; [by right|done|done|by left].
    + intros s [->%elem_of_singleton|Hs]%elem_of_union.
      * destruct (decide (q = 0%Z)) as [->|Hne]; [right; lia|].
        left. rewrite <-Hq. apply parent_below. by rewrite Hq.
      * destruct (col_low _ _ Hc s Hs) as [?|[-> ->]]; [left; lia|].
        right. rewrite genesis_parent by done. done.
    + lia.
  - destruct (decide (q = 0%Z)) as [->|Hne]; [by right|].
    left. rewrite <-Hq. apply parent_below. by rewrite Hq.
Qed.

Lemma collect_ancestors_ok fuel A q :
  collecting A q → (Z.to_nat q + 2 ≤ fuel ∨ (q ∈ A ∧ 1 ≤ fuel)) →
  wp (collect_ancestors fuel removed A q) (λ A', ∀ s, s ∈ A' ↔ ancestor f s root ∧ (s < stop)%Z).
Proof.
  revert A q. induction fuel as [|fuel IH]; intros A q Hc Hfuel; [lia|]. simpl.
  destruct (head _) as [b|] eqn:Hh; [|by apply wp_ok; eapply collecting_done].
  destruct (collecting_step _ _ _ Hc Hh) as (Hc' & Hq & Hlt). apply IH; [done|].
  assert (q ∉ A) as HqA.
  { intros Hin. assert (b ∈ filter (λ b, (bank_slot b ∉ A) ∧ bank_slot b = q) removed) as Hf.
    { destruct (filter _ removed); simplify_eq/=. left. }
    apply list_elem_of_filter in Hf as [[Hn _] _]. by rewrite Hq in Hn. }
  pose proof (col_stop _ _ Hc). pose proof (slot_nonneg b).
  destruct Hfuel as [Hfuel|[? _]]; [|done]. destruct Hlt as [Hlt|Hq0]; [left; lia|right].
  rewrite Hq, Hq0 in *. rewrite genesis_parent by done. split; [set_solver|lia].
Qed.

(** [find_ancestors] finds the ancestors of the new root that were removed. *)
Lemma find_ancestors_ok fuel :
  (0 < stop)%Z ∨ bf_get f 0%Z = None → (Z.to_nat root + 2 ≤ fuel) →
  wp (find_ancestors fuel root finalized f' removed) (λ A,
    ∀ s, s ∈ A ↔ ancestor f s root ∧ (s < stop)%Z).
Proof.
  intros H0 Hfuel. unfold find_ancestors.
  destruct (bf_set_root_root _ _ _ _ _ Hset) as (b & Hb & Hb').
  assert (0 ≤ root)%Z as Hpos.
  { rewrite <-(bf_get_slot _ _ _ Hb). pose proof (parent_le b). pose proof (slot_nonneg b). lia. }
  wp_step. eapply wp_mono.
  { apply (lowest_kept_ok fuel root H0); [by left|by exists b|by right|by exists b|lia|done]. }
  intros r Hr. simpl in Hr. destruct (bf_get f' r) as [c|] eqn:Hc.
  - destruct Hr as (Hfc & Hroot & Hlt & Hall). pose proof (parent_le c) as Hle.
    rewrite (bf_get_slot _ _ _ Hc) in Hle. pose proof (slot_nonneg c).
    assert (r ≤ root)%Z by (destruct Hroot as [->|?%ancestor_lt]; lia).
    apply collect_ancestors_ok; [|left; lia]. split.
    + set_solver.
    + intros s Hs Hslt. right. destruct (Hall s Hs) as [?|Hsr]; [lia|].
      apply ancestor_inv in Hsr as (c' & d & Hc' & _ & _ & Hor). by simplify_eq.
    + right. exists r, c. split_and!; [done..|].
      destruct (decide (bank_parent_slot c = r)) as [Heq|Hne]; [right|by left].
      rewrite Heq. split; [|by exists c]. destruct (decide (r = 0%Z)); [done|].
      exfalso. pose proof (parent_below c) as Hb0. rewrite (bf_get_slot _ _ _ Hc) in Hb0. lia.
    + set_solver.
    + lia.
  - apply wp_ok. intros s. split; [set_solver|]. intros [Hs Hslt]. specialize (Hr s Hs). lia.
Qed.
End SetRoot.

(** Where the walk may go down to the genesis bank, it never ends: the genesis
    bank is its own parent. *)
Lemma lowest_kept_diverges (f : F) t fuel :
  is_Some (bf_get f 0%Z) → t = 0%Z ∨ ancestor f 0%Z t →
  lowest_kept fuel f 0%Z t = Panic "out of fuel".
Proof.
  intros [b0 H0]. revert t. induction fuel as [|fuel IH]; intros t Ht; simpl;
    (assert (∃ b, bf_get f t = Some b ∧
       (bank_parent_slot b = 0%Z ∨ ancestor f 0%Z (bank_parent_slot b))) as (b & Hb & Hp);
     [destruct Ht as [->|(b & c & Hb & _ & _ & Hor)%ancestor_inv];
        [exists b0; split; [done|]; left; apply genesis_parent; by eapply bf_get_slot
        |exists b; split; [done|]; destruct Hor; [by left|by right]]|]);
    rewrite Hb, (proj2 (Z.leb_le _ _)) by apply slot_nonneg.
  - done.
  - by apply IH.
Qed.

Context `{!BlockstoreLaws D}.

(** ** Marking slots dead *)

Lemma mark_dead_only (l : list B) (d : D) x :
  bs_is_dead (foldl mark_dead d l) x = true →
  bs_is_dead d x = true ∨ ∃ b, b ∈ l ∧ bank_slot b = x.
Proof.
  revert d. induction l as [|b l IH]; intros d; simpl; [by left|].
  intros [Hd|(b' & ? & ?)]%IH; [|right; exists b'; split; [by right|done]].
  unfold mark_dead in Hd. destruct (bs_set_dead_slot d (bank_slot b)) as [d'|] eqn:Hs; [|by left].
  rewrite (set_dead_is_dead _ _ _ _ Hs), orb_true_iff, bool_decide_eq_true in Hd.
  destruct Hd as [->|?]; [right; exists b; split; [left|done]|by left].
Qed.

Lemma mark_dead_mono (l : list B) (d : D) x :
  bs_is_dead d x = true → bs_is_dead (foldl mark_dead d l) x = true.
Proof.
  revert d. induction l as [|b l IH]; intros d Hd; simpl; [done|]. apply IH. unfold mark_dead.
  destruct (bs_set_dead_slot d (bank_slot b)) as [d'|] eqn:Hs; [|done].
  by rewrite (set_dead_is_dead _ _ _ _ Hs), Hd, orb_true_r.
Qed.

(** A slot is marked dead, or the block store refused it when it was asked. *)
Lemma mark_dead_or_refused (l : list B) (d : D) b :
  b ∈ l → bs_is_dead (foldl mark_dead d l) (bank_slot b) = true ∨
  ∃ before e, before ⊆ l ∧
    bs_set_dead_slot (foldl mark_dead d before) (bank_slot b) = inr e.
Proof.
  intros (l1 & l2 & ->)%list_elem_of_split. rewrite foldl_app. simpl.
  destruct (bs_set_dead_slot (foldl mark_dead d l1) (bank_slot b)) as [d'|e] eqn:Hs.
  - left. apply mark_dead_mono. unfold mark_dead at 1. rewrite Hs.
    by rewrite (set_dead_is_dead _ _ _ _ Hs), bool_decide_true.
  - right. exists l1, e. split; [set_solver|done].
Qed.

(** ** [reorg] *)

Implicit Types (s : RollupStorage B F D W Pubkey).

(** While the reorganisation to [slot] marked slots of [removed] dead, the
    block store refused to mark the slot of [b]. *)
Definition refused s (slot : Slot) (removed : list B) (b : B) : Prop :=
  ∃ d before e, bs_set_roots (st_blockstore s) slot = inl d ∧ before ⊆ removed ∧
    bs_set_dead_slot (foldl mark_dead d before) (bank_slot b) = inr e.

(** What a reorganisation to [slot] does: it returns the banks it took out of
    the forks; of these it marks dead those that are not ancestors of the new
    root, except where the block store refuses; no other slot becomes dead and
    no dead slot comes back; the working bank becomes the current one. *)
Record abandons s (slot : Slot) s' (removed : list B) : Prop := {
  ab_removed b : b ∈ removed ↔ bf_get (st_bank_forks s) (bank_slot b) = Some b ∧
                               bf_get (st_bank_forks s') (bank_slot b) = None;
  ab_dead b : b ∈ removed → ¬ ancestor (st_bank_forks s) (bank_slot b) slot →
    bs_is_dead (st_blockstore s') (bank_slot b) = true ∨ refused s slot removed b;
  ab_only x : bs_is_dead (st_blockstore s') x = true →
    bs_is_dead (st_blockstore s) x = true ∨
    (∃ b, b ∈ removed ∧ bank_slot b = x) ∧ ¬ ancestor (st_bank_forks s) x slot;
  ab_stay x : bs_is_dead (st_blockstore s) x = true → bs_is_dead (st_blockstore s') x = true;
  ab_bank : st_bank s' = bf_working_bank (st_bank_forks s')
}.

Lemma reorg_ok fuel s slot finalized :
  (0 < default slot finalized)%Z ∨ bf_get (st_bank_forks s) 0%Z = None →
  is_Some (bf_get (st_bank_forks s) slot) ∨ (∃ e, bs_set_roots (st_blockstore s) slot = inr e) →
  (Z.to_nat slot + 2 ≤ fuel) →
  wp (reorg fuel s slot finalized) (λ '(s', r),
    match r with
    | inl removed => abandons s slot s' removed
    | inr e => st_bank s' = st_bank s ∧ st_bank_forks s' = st_bank_forks s
    end).
Proof.
  intros H0 Hslot Hfuel. unfold reorg, set_root.
  destruct (bs_set_roots (st_blockstore s) slot) as [d|e] eqn:Hd; [|by apply wp_ok].
  destruct Hslot as [[b0 Hb0]|[? ?]]; [|done]. simpl.
  destruct (bf_set_root_known _ _ finalized _ Hb0) as [r Hf]. rewrite Hf. simpl.
  destruct r as [[f removed]|e]; [|by apply wp_ok]. simpl.
  wp_step. eapply wp_mono; [by eapply find_ancestors_ok|]. intros A HA. simpl in HA. wp_step.
  assert (∀ b, b ∈ removed → bank_slot b ∉ A → ¬ ancestor (st_bank_forks s) (bank_slot b) slot) as Hoff.
  { intros b Hb Hn Ha. apply Hn, HA. split; [done|].
    pose proof (proj1 (bf_set_root_removed _ _ _ _ _ _ Hf) Hb) as [Hg Hg'].
    pose proof (bf_set_root_ancestor _ _ _ _ _ _ _ Hf Ha Hg) as Hk.
    rewrite Hg' in Hk. case_decide; [done|lia]. }
  split; simpl; [by intros b; eapply bf_set_root_removed|..].
  - intros b Hb Hn. assert (b ∈ filter (λ b, bank_slot b ∉ A) removed) as Hin.
    { apply list_elem_of_filter. split; [|done]. by intros [? _]%HA. }
    destruct (mark_dead_or_refused _ d b Hin) as [?|(l & e & Hl & He)]; [by left|right].
    exists d, l, e. split_and!; [done| |done]. intros y Hy%Hl.
    by apply list_elem_of_filter in Hy as [_ ?].
  - intros x [Hx|(b & [Hn Hb]%list_elem_of_filter & <-)]%mark_dead_only.
    + left. by rewrite <-(set_roots_is_dead _ _ _ _ Hd).
    + right. eauto.
  - intros x Hx. apply mark_dead_mono. by rewrite (set_roots_is_dead _ _ _ _ Hd).
  - done.
Qed.

(** A root the forks do not know: the block store has recorded it when the
    forks panic. *)
Lemma reorg_unknown_root fuel s slot finalized d :
  bf_get (st_bank_forks s) slot = None → bs_set_roots (st_blockstore s) slot = inl d →
  ∃ msg, reorg fuel s slot finalized = Panic msg.
Proof.
  intros Hn Hd. destruct (bf_set_root_unknown _ _ finalized Hn) as [msg Hp].
  exists msg. unfold reorg, set_root. rewrite Hd. simpl. by rewrite Hp.
Qed.
End Reorg.
