(* ===== verification/MapForks.v ===== *)
(** * An instance of the bank interfaces

    Banks as paths to the genesis bank, and [BankForks] as a finite map whose
    [set_root] keeps what its documentation says: the root, its descendants,
    and its ancestors from the highest confirmed root on. *)
From S2P Require Import Prelude Banks.
Set Default Proof Using "Type*".

(** ** Banks as lists of gaps between slots *)
Module PathBank.
Definition t := list positive.
Fixpoint slot (b : t) : Z := match b with [] => 0%Z | g :: b => (Zpos g + slot b)%Z end.
Definition parent (b : t) : option t := match b with [] => None | _ :: b => Some b end.
Definition child (p : t) (s : Slot) : t := Z.to_pos (s - slot p) :: p.

#[global] Instance banks : Banks t := {|
  bank_slot := slot;
  bank_parent_slot b := slot (tail b)
|}.

Lemma slot_nonneg b : (0 ≤ slot b)%Z.
Proof. induction b; simpl; lia. Qed.

#[global] Instance banks_laws : BanksLaws t.
Proof.
  split; simpl.
  - intros b. apply slot_nonneg.
  - intros [|g b]; simpl; [done|]. pose proof (slot_nonneg b). lia.
  - intros [|g b]; simpl; [done|]. pose proof (slot_nonneg b). lia.
Qed.

Lemma child_slot p s : (slot p < s)%Z → slot (child p s) = s.
Proof. intros Hs. simpl. rewrite Z2Pos.id; lia. Qed.
End PathBank.

(** ** Forks as a finite map *)
Module MapForks.
Section Defs.
Context {B : Type} `{Banks B} `{!EqDecision B}.

Record t := mk { base : B; root : Slot; banks : gmap Slot B }.
Implicit Types (f : t) (s : Slot).

Definition get f s : option B :=
  match banks f !! s with
  | Some b => if decide (bank_slot b = s) then Some b else None
  | None => None
  end.

Fixpoint ancestors_of (fuel : nat) f s : list Slot :=
  match fuel, get f s with
  | S fuel, Some b =>
      if decide (bank_parent_slot b = s) then []
      else match get f (bank_parent_slot b) with
           | Some _ => bank_parent_slot b :: ancestors_of fuel f (bank_parent_slot b)
           | None => []
           end
  | _, _ => []
  end.
Definition ancestors f s : list Slot := ancestors_of (S (Z.to_nat s)) f s.

Definition kept f (r : Slot) (hi : option Slot) s : Prop :=
  s = r ∨ r ∈ ancestors f s ∨ (s ∈ ancestors f r ∧ (default r hi ≤ s)%Z).
#[global] Instance kept_dec f r hi s : Decision (kept f r hi s).
Proof. unfold kept. apply _. Defined.

Definition highest f : Slot := foldr Z.max 0%Z (map_to_list (banks f)).*1.

Definition set_root f (r : Slot) (hi : option Slot) : res ((t * list B) + string) :=
  match get f r with
  | None => Panic "root bank didn't exist in bank_forks"
  | Some _ =>
      Ok (inl (mk (base f) r (filter (λ '(s, _), kept f r hi s) (banks f)),
           (filter (λ '(s, b), bank_slot b = s ∧ ¬ kept f r hi s) (map_to_list (banks f))).*2))
  end.

#[global] Instance forks : BankForks t B := {|
  bf_get := get;
  bf_root := root;
  bf_highest_slot := highest;
  bf_working_bank f := default (base f) (get f (highest f));
  bf_insert f b := mk (base f) (root f) (<[bank_slot b := b]> (banks f));
  bf_set_root := set_root
|}.
End Defs.
Arguments t : clear implicits.

Section Laws.
Context {B : Type} `{!Banks B, !BanksLaws B, !EqDecision B}.
Implicit Types (f : t B).

Lemma get_slot f s b : get f s = Some b → bank_slot b = s.
Proof. unfold get. destruct (banks f !! s); [|done]. case_decide; congruence. Qed.

Lemma get_Some f s b : get f s = Some b ↔ banks f !! s = Some b ∧ bank_slot b = s.
Proof.
  unfold get. destruct (banks f !! s) as [c|]; [|naive_solver]. case_decide; naive_solver.
Qed.

Lemma parent_lt f s b : get f s = Some b → bank_parent_slot b ≠ s → (0 ≤ bank_parent_slot b < s)%Z.
Proof.
  intros Hb Hne. pose proof (get_slot _ _ _ Hb) as Hs. pose proof (slot_nonneg b).
  destruct (decide (bank_slot b = 0%Z)) as [H0|H0].
  - rewrite (genesis_parent b H0) in *. lia.
  - pose proof (parent_below b H0). lia.
Qed.

Lemma ancestors_of_lt fuel f s x : x ∈ ancestors_of fuel f s → (x < s)%Z.
Proof.
  revert s. induction fuel as [|fuel IH]; intros s; simpl; [by intros ?%elem_of_nil|].
  destruct (get f s) as [b|] eqn:Hb; [|by intros ?%elem_of_nil].
  case_decide as Hp; [by intros ?%elem_of_nil|].
  destruct (get f (bank_parent_slot b)); [|by intros ?%elem_of_nil].
  pose proof (parent_lt _ _ _ Hb Hp). intros [->|Hx%IH]%elem_of_cons; lia.
Qed.

Lemma ancestors_of_complete fuel f s t :
  ancestor f s t → Z.to_nat t < fuel → s ∈ ancestors_of fuel f t.
Proof.
  intros Ha. revert fuel. induction Ha as [t b c Hb Hc Hne|s t b c Hb Hc Hne Ha IH];
    intros fuel Hfuel; simpl in Hb, Hc; pose proof (parent_lt _ _ _ Hb Hne);
    (destruct fuel as [|fuel]; [lia|]); simpl; rewrite Hb, decide_False, Hc by done.
  - left.
  - right. apply IH. lia.
Qed.

Lemma get_filter f r hi s :
  get (mk (base f) r (filter (λ '(s, _), kept f r hi s) (banks f))) s =
  if decide (kept f r hi s) then get f s else None.
Proof.
  unfold get. simpl. rewrite map_lookup_filter. destruct (banks f !! s) as [b|]; simpl.
  - unfold guard. by destruct (decide (kept f r hi s)).
  - by destruct (decide _).
Qed.

#[global] Instance forks_laws : BankForksLaws (t B) B.
Proof.
  split; simpl.
  - apply get_slot.
  - intros f r hi b Hb. unfold set_root. rewrite Hb. eauto.
  - intros f r hi Hb. unfold set_root. rewrite Hb. eauto.
  - intros f r hi f' removed. unfold set_root. destruct (get f r) as [b|] eqn:Hr; [|done].
    intros [= <- <-]. exists b. rewrite get_filter, decide_True by (by left). done.
  - intros f r hi f' removed s b. unfold set_root. destruct (get f r); [|done].
    intros [= <- <-]. rewrite get_filter. by case_decide.
  - intros f r hi f' removed b. unfold set_root. destruct (get f r); [|done].
    intros [= <- <-]. rewrite get_filter, list_elem_of_fmap. split.
    + intros ([s b'] & -> & [[Hs Hk] Hin]%list_elem_of_filter). simpl.
      apply elem_of_map_to_list in Hin. rewrite Hs, decide_False by done.
      split; [by apply get_Some|done].
    + intros [Hb Hn]. case_decide as Hk; [congruence|]. apply get_Some in Hb as [Hb _].
      exists (bank_slot b, b). split; [done|]. apply list_elem_of_filter.
      split; [done|]. by apply elem_of_map_to_list.
  - intros f r hi f' removed s b. unfold set_root. destruct (get f r); [|done].
    intros [= <- <-] Ha Hb. rewrite get_filter, Hb.
    assert (s ∈ ancestors f r) as Hin by (apply ancestors_of_complete; [done|lia]).
    pose proof (ancestors_of_lt _ _ _ _ Hin).
    assert (r ∉ ancestors f s) by (intros ?%ancestors_of_lt; lia).
    unfold kept. destruct (decide (default r hi ≤ s)%Z).
    + by rewrite decide_True by auto.
    + rewrite decide_False by (intros [?|[?|[_ ?]]]; [lia|done|done]). done.
Qed.
End Laws.
End MapForks.
