(* ===== verification/Shreds.v ===== *)
(** * From entries to shreds

    [storage/src/blockstore/process.rs].  The shredder and the shreds are
    [solana_ledger]'s; the statistics the code gathers next to its work are
    left out. *)
From S2P Require Import Prelude Banks Ledger.
Set Default Proof Using "Type*".

(** ** What the code uses of [solana_ledger::shred] *)
Class Shreds (Shred Hash VTx Keypair : Type) := {
  shred_index : Shred → Z;
  shred_merkle_root : Shred → option Hash;
  (** [Shredder::new(slot, parent, reference_tick, version)]: is it [Ok]? *)
  shredder_new : Slot → Slot → Z → Z → bool;
  (** [entries_to_shreds] of that shredder: data and coding shreds *)
  shredder_entries_to_shreds :
    Slot → Slot → Z → Z → Keypair → list (Entry Hash VTx) → bool → Z → Z →
    list Shred * list Shred;
  MAX_DATA_SHREDS_PER_SLOT : Z;
  MAX_CODE_SHREDS_PER_SLOT : Z
}.
(** [Blockstore::meta] (of which [last_index]), [get_data_shred], and
    [shred::layout::get_merkle_root] of the bytes it returns; [insert_shreds]. *)
Class ShredStore (D Shred Hash : Type) := {
  bs_meta_last_index : D → Slot → (option (option Z)) + string;
  bs_data_shred_root : D → Slot → Z → (option (option Hash)) + string;
  bs_insert_shreds : D → list Shred → D + string
}.

Section Processor.
Context {B D W Hash Pubkey Account VTx Shred Keypair : Type}.
Context `{!Banks B, !BankWorld W B Hash Pubkey Account}.
Context `{!Shreds Shred Hash VTx Keypair, !ShredStore D Shred Hash}.
(** [Hash::default()] *)
Context (hash_default : Hash).

Record EntriesProcessor := mkProcessor {
  ep_slot : Slot;
  ep_parent : Slot;
  ep_chained_merkle_root : Hash;
  ep_next_shred_index : Z;
  ep_next_code_index : Z;
  ep_completed : bool;
  ep_shred_version : Z;
  ep_num_batches : Z
}.

Definition processor_new (shred_version : Z) : EntriesProcessor :=
  mkProcessor u64_max u64_max hash_default 0 0 true shred_version 0.

Definition get_chained_merkle_root_from_parent (slot parent : Slot) (blockstore : D) :
    res (Hash + Error) :=
  if decide (slot = parent) then
    _ ← assert_res (bool_decide (slot = 0%Z)) "assertion `left == right` failed";
    Ok (inl hash_default)
  else
    _ ← assert_res (bool_decide (parent < slot)%Z) "parent >= slot";
    Ok (match bs_meta_last_index blockstore parent with
        | inr e => inr (SolanaBlockstoreError e)
        | inl None => inr (EStorage (UnknownSlotMeta parent))
        | inl (Some None) => inr (EStorage (UnknownLastIndex parent))
        | inl (Some (Some index)) =>
            match bs_data_shred_root blockstore parent index with
            | inr e => inr (SolanaBlockstoreError e)
            | inl None => inr (EStorage (ShredNotFound parent index))
            | inl (Some None) => inr (EStorage (InvalidMerkleRoot parent index))
            | inl (Some (Some root)) => inl root
            end
        end).

Definition processor_reset (p : EntriesProcessor) (bank : B) (blockstore : D) :
    res EntriesProcessor :=
  root ← (if decide (ep_slot p = bank_parent_slot bank) then Ok (ep_chained_merkle_root p)
          else
            r ← get_chained_merkle_root_from_parent (bank_slot bank) (bank_parent_slot bank)
                  blockstore;
            Ok (match r with inl h => h | inr _ => hash_default end));
  Ok (mkProcessor (bank_slot bank) (bank_parent_slot bank) root 0 0 false (ep_shred_version p) 0).

(** [iter().max_by_key(key)]: the last of the greatest elements. *)
Definition max_by_key {A} (key : A → Z) (l : list A) : option A :=
  match l with
  | [] => None
  | x :: l => Some (foldl (λ m y, if (key m <=? key y)%Z then y else m) x l)
  end.

Definition with_data_shreds (p : EntriesProcessor) (data_shreds : list Shred) :
    res EntriesProcessor :=
  match max_by_key shred_index data_shreds with
  | None => Ok p
  | Some shred =>
      root ← expect (shred_merkle_root shred) "called `Result::unwrap()` on an `Err` value";
      next ← checked_add u32_max (shred_index shred) 1;
      Ok (mkProcessor (ep_slot p) (ep_parent p) root next (ep_next_code_index p)
            (ep_completed p) (ep_shred_version p) (ep_num_batches p))
  end.

Definition with_code_shreds (p : EntriesProcessor) (coding_shreds : list Shred) :
    res EntriesProcessor :=
  match max_by_key (λ i, i) (shred_index <$> coding_shreds) with
  | None => Ok p
  | Some index =>
      next ← checked_add u32_max index 1;
      Ok (mkProcessor (ep_slot p) (ep_parent p) (ep_chained_merkle_root p)
            (ep_next_shred_index p) next (ep_completed p) (ep_shred_version p) (ep_num_batches p))
  end.

Definition entries_to_shreds (p : EntriesProcessor) (keypair : Keypair)
    (entries : list (Entry Hash VTx)) (reference_tick : Z) (is_slot_end : bool)
    (max_data_shreds_per_slot max_code_shreds_per_slot : Z) :
    res (EntriesProcessor * ((list Shred * list Shred) + Error)) :=
  _ ← assert_res (shredder_new (ep_slot p) (ep_parent p) reference_tick (ep_shred_version p))
        "called `Result::unwrap()` on an `Err` value";
  let '(data_shreds, coding_shreds) :=
    shredder_entries_to_shreds (ep_slot p) (ep_parent p) reference_tick (ep_shred_version p)
      keypair entries is_slot_end (ep_next_shred_index p) (ep_next_code_index p) in
  p ← with_data_shreds p data_shreds;
  if (max_data_shreds_per_slot <? ep_next_shred_index p)%Z
  then Ok (p, inr (EStorage TooManyShreds))
  else
    p ← with_code_shreds p coding_shreds;
    if (max_code_shreds_per_slot <? ep_next_code_index p)%Z
    then Ok (p, inr (EStorage TooManyShreds))
    else Ok (p, inl (data_shreds, coding_shreds)).

Definition process (p : EntriesProcessor) (w : W) (entries : list (Entry Hash VTx)) (bank : B)
    (blockstore : D) (last_tick_height : Z) (keypair : Keypair) :
    res (EntriesProcessor * ((list Shred * list Shred) + Error)) :=
  p ← (if decide (ep_slot p ≠ bank_slot bank) then processor_reset p bank blockstore else Ok p);
  let is_last_in_slot := bool_decide (last_tick_height = bank_max_tick_height w bank) in
  _ ← assert_res (bool_decide (bank_ticks_per_slot w bank ≠ 0%Z))
        "attempt to calculate the remainder with a divisor of zero";
  let reference_tick := (bank_tick_height w bank `mod` bank_ticks_per_slot w bank)%Z in
  '(p, r) ← entries_to_shreds p keypair entries (reference_tick `mod` 2 ^ 8)%Z is_last_in_slot
              (MAX_DATA_SHREDS_PER_SLOT `mod` 2 ^ 32)%Z (MAX_CODE_SHREDS_PER_SLOT `mod` 2 ^ 32)%Z;
  match r with
  | inr e => Ok (p, inr e)
  | inl shreds =>
      num_batches ← checked_add u64_max (ep_num_batches p) 2;
      Ok (mkProcessor (ep_slot p) (ep_parent p) (ep_chained_merkle_root p)
            (ep_next_shred_index p) (ep_next_code_index p)
            (ep_completed p || is_last_in_slot) (ep_shred_version p) num_batches,
          inl shreds)
  end.
End Processor.
Arguments EntriesProcessor : clear implicits.

(** ** Laws of the shredder

    A shredder exists for a slot above its parent by at most 65535; merkle
    shreds have a root; the indexes of shreds are [u32] values below the
    greatest. *)
Class ShredsLaws (Shred Hash VTx Keypair : Type) `{Shreds Shred Hash VTx Keypair} : Prop := {
  shredder_new_ok slot parent tick version :
    (parent < slot ≤ parent + 65535)%Z → shredder_new slot parent tick version = true;
  data_shred_root slot parent tick version k es last i j shred :
    shred ∈ (shredder_entries_to_shreds slot parent tick version k es last i j).1 →
    is_Some (shred_merkle_root shred);
  shreds_index_u32 slot parent tick version k es last i j shred :
    shred ∈ (shredder_entries_to_shreds slot parent tick version k es last i j).1 ++
            (shredder_entries_to_shreds slot parent tick version k es last i j).2 →
    (0 ≤ shred_index shred < u32_max)%Z;
  max_data_u32 : (0 ≤ MAX_DATA_SHREDS_PER_SLOT < 2 ^ 32)%Z;
  max_code_u32 : (0 ≤ MAX_CODE_SHREDS_PER_SLOT < 2 ^ 32)%Z
}.

Section ProcessorFacts.
Context {B D W Hash Pubkey Account VTx Shred Keypair : Type}.
Context `{!Banks B, !BankWorld W B Hash Pubkey Account}.
Context `{!Shreds Shred Hash VTx Keypair, !ShredsLaws Shred Hash VTx Keypair}.
Context `{!ShredStore D Shred Hash}.
Context (hash_default : Hash).

Lemma max_by_key_elem {A} (key : A → Z) l x : max_by_key key l = Some x → x ∈ l.
Proof.
  destruct l as [|y l]; simpl; [done|]. intros [= <-].
  assert (∀ l (m : A), foldl (λ m y, if (key m <=? key y)%Z then y else m) m l ∈ m :: l) as Hin.
  { clear. induction l as [|z l IH]; intros m; simpl; [left|].
    destruct (key m <=? key z)%Z; [right; apply IH|].
    specialize (IH m). apply elem_of_cons in IH as [->|?]; [left|by right; right]. }
  apply Hin.
Qed.

Lemma with_data_shreds_ok (p : EntriesProcessor Hash) (data : list Shred) :
  (∀ s, s ∈ data → 0 ≤ shred_index s < u32_max)%Z →
  (∀ s, s ∈ data → is_Some (shred_merkle_root s)) →
  wp (with_data_shreds p data) (λ p', ∃ root i,
    p' = mkProcessor (ep_slot p) (ep_parent p) root i (ep_next_code_index p) (ep_completed p)
           (ep_shred_version p) (ep_num_batches p)).
Proof.
  intros Hidx Hroot. unfold with_data_shreds.
  destruct (max_by_key shred_index data) as [s|] eqn:Hs.
  - apply max_by_key_elem in Hs. destruct (Hroot s Hs) as [root Hr]. specialize (Hidx s Hs).
    wp_step. eapply wp_expect; [exact Hr|]. wp_step. wp_step; [lia|]. wp_step. by eexists _, _.
  - wp_step. exists (ep_chained_merkle_root p), (ep_next_shred_index p). by destruct p.
Qed.

Lemma with_code_shreds_ok (p : EntriesProcessor Hash) (code : list Shred) :
  (∀ s, s ∈ code → 0 ≤ shred_index s < u32_max)%Z →
  wp (with_code_shreds p code) (λ p', ∃ j,
    p' = mkProcessor (ep_slot p) (ep_parent p) (ep_chained_merkle_root p) (ep_next_shred_index p)
           j (ep_completed p) (ep_shred_version p) (ep_num_batches p)).
Proof.
  intros Hidx. unfold with_code_shreds.
  destruct (max_by_key _ (shred_index <$> code)) as [i|] eqn:Hs.
  - apply max_by_key_elem, list_elem_of_fmap in Hs as (s & -> & Hs). specialize (Hidx s Hs).
    wp_step. wp_step; [lia|]. wp_step. by eexists.
  - wp_step. exists (ep_next_code_index p). by destruct p.
Qed.

(** A fresh processor on a new bank resets itself and shreds the entries from
    index 0: it returns the shreds, or reports that there are too many. *)
Lemma process_fresh (w : W) (es : list (Entry Hash VTx)) (bank : B) (d : D) last_tick version
    (k : Keypair) :
  let shreds := shredder_entries_to_shreds (bank_slot bank) (bank_parent_slot bank)
    ((bank_tick_height w bank `mod` bank_ticks_per_slot w bank) `mod` 2 ^ 8)%Z version k es
    (bool_decide (last_tick = bank_max_tick_height w bank)) 0 0 in
  (bank_parent_slot bank < bank_slot bank ≤ bank_parent_slot bank + 65535)%Z →
  (bank_slot bank < u64_max)%Z → bank_ticks_per_slot w bank ≠ 0%Z →
  wp (process hash_default (processor_new hash_default version) w es bank d last_tick k)
     (λ '(p, r), ep_slot p = bank_slot bank ∧ (r = inl shreds ∨ r = inr (EStorage TooManyShreds))).
Proof.
  intros shreds Hpar Hslot Hticks. unfold process. simpl.
  rewrite decide_True by lia. wp_step.
  assert (∃ root, processor_reset hash_default (processor_new hash_default version) bank d =
    Ok (mkProcessor (bank_slot bank) (bank_parent_slot bank) root 0 0 false version 0))
    as [root ->].
  { unfold processor_reset. simpl. rewrite decide_False by lia.
    unfold get_chained_merkle_root_from_parent. rewrite decide_False by lia.
    rewrite bool_decide_true by lia. simpl. by eexists. }
  wp_step. wp_step. wp_step; [by apply bool_decide_eq_true|]. wp_step.
  unfold entries_to_shreds. simpl. rewrite shredder_new_ok by lia.
  wp_step. wp_step; [done|]. fold shreds.
  pose proof (data_shred_root (bank_slot bank) (bank_parent_slot bank)
    ((bank_tick_height w bank `mod` bank_ticks_per_slot w bank) `mod` 2 ^ 8)%Z version k es
    (bool_decide (last_tick = bank_max_tick_height w bank)) 0 0) as Hroot. fold shreds in Hroot.
  pose proof (shreds_index_u32 (bank_slot bank) (bank_parent_slot bank)
    ((bank_tick_height w bank `mod` bank_ticks_per_slot w bank) `mod` 2 ^ 8)%Z version k es
    (bool_decide (last_tick = bank_max_tick_height w bank)) 0 0) as Hidx. fold shreds in Hidx.
  destruct shreds as [data code]; simpl in Hroot, Hidx. wp_step. eapply wp_mono.
  { apply (with_data_shreds_ok _ data); [|done]. intros s Hs. apply Hidx, elem_of_app. by left. }
  intros p1 (root1 & i & ->). simpl. destruct (_ <? i)%Z.
  { wp_step. wp_step. split; [done|by right]. }
  wp_step. eapply wp_mono.
  { apply (with_code_shreds_ok _ code). intros s Hs. apply Hidx, elem_of_app. by right. }
  intros p2 (j & ->). simpl. destruct (_ <? j)%Z; wp_step; [by wp_step; auto|].
  wp_step. wp_step; [done|]. wp_step. auto.
Qed.
End ProcessorFacts.
