(* ===== verification/CommitBatch.v ===== *)
(** * Batches to commit and their balances

    [storage/src/blockstore/txs.rs]: a batch of transactions with the cache of
    mint decimals used while token balances are collected before and after it
    is committed. *)
From S2P Require Import Prelude Banks Messages.
Set Default Proof Using "Type*".

(** ** What the code uses of sanitized transactions *)
Class SanitizedTransactions (Tx VTx Pubkey : Type) := {
  to_versioned_transaction : Tx → VTx;
  tx_account_keys : Tx → list Pubkey;
  is_invoked : Tx → nat → bool;
  num_required_signatures : Tx → Z;
  is_simple_vote_transaction : Tx → bool
}.

(** ** [spl_token_2022], [solana_account_decoder]: token accounts and mints *)
Class Tokens (Account Pubkey UiTokenAmount : Type) := {
  is_known_spl_token_id : Pubkey → bool;
  account_owner : Account → Pubkey;
  (** [StateWithExtensions::<Account>::unpack(data)]: mint, owner, amount *)
  unpack_token_account : Account → option (Pubkey * Pubkey * Z);
  (** [StateWithExtensions::<Mint>::unpack(data)]: decimals *)
  unpack_mint : Account → option Z;
  (** [token_amount_to_ui_amount_v2(amount, with_decimals(decimals))] *)
  token_amount_to_ui_amount_v2 : Z → Z → UiTokenAmount;
  pubkey_to_string : Pubkey → string;
  native_mint_id : Pubkey;
  native_mint_DECIMALS : Z
}.

Section Batches.
Context {B W Hash Pubkey Account Tx VTx UiTokenAmount : Type}.
Context `{Countable Pubkey}.
Context `{!Banks B, !BankWorld W B Hash Pubkey Account}.
Context `{!SanitizedTransactions Tx VTx Pubkey, !Tokens Account Pubkey UiTokenAmount}.

Record TokenBalanceData := mkTokenBalance {
  tb_mint : string; tb_owner : string; tb_ui_token_amount : UiTokenAmount; tb_program_id : string
}.
(** [TransactionTokenBalance] of [solana_transaction_status] *)
Record TransactionTokenBalance := mkTxTokenBalance {
  account_index : Z; token_balance : TokenBalanceData
}.

Record CommitBatch := mkCommitBatch {
  sanitized_txs : list Tx;
  mint_decimals : gmap Pubkey Z;
  transaction_indexes : list nat
}.

Definition commit_batch_new (txs : list Tx) : CommitBatch :=
  mkCommitBatch txs ∅ (seq 0 (length txs)).
Definition new_with_indexes (txs : list Tx) (indexes : list nat) : CommitBatch :=
  mkCommitBatch txs ∅ indexes.
Definition batch_transactions (b : CommitBatch) : list Tx := sanitized_txs b.

(** [bank.get_balance(key)] is the lamports of the account, 0 without one. *)
Definition bank_get_balance (w : W) (bank : B) (key : Pubkey) : Z :=
  match bank_get_account w bank key with Some a => account_lamports a | None => 0 end.

Definition collect_balances (b : CommitBatch) (w : W) (bank : B) : list (list Z) :=
  (λ tx, bank_get_balance w bank <$> tx_account_keys tx) <$> batch_transactions b.

Definition get_mint_decimals (w : W) (bank : B) (mint : Pubkey) : option Z :=
  if decide (mint = native_mint_id) then Some native_mint_DECIMALS
  else
    mint_account ← bank_get_account w bank mint;
    if is_known_spl_token_id (account_owner mint_account) then unpack_mint mint_account else None.

(** The [or_else] inserts into the cache what it looked up. *)
Definition cached_decimals (cache : gmap Pubkey Z) (w : W) (bank : B) (mint : Pubkey) :
    gmap Pubkey Z * option Z :=
  match cache !! mint with
  | Some d => (cache, Some d)
  | None =>
      match get_mint_decimals w bank mint with
      | Some d => (<[mint := d]> cache, Some d)
      | None => (cache, None)
      end
  end.

Definition collect_token_balance_from_account (cache : gmap Pubkey Z) (w : W) (bank : B)
    (account_id : Pubkey) : gmap Pubkey Z * option TokenBalanceData :=
  match bank_get_account w bank account_id with
  | None => (cache, None)
  | Some account =>
      if is_known_spl_token_id (account_owner account) then
        match unpack_token_account account with
        | None => (cache, None)
        | Some (mint, owner, amount) =>
            match cached_decimals cache w bank mint with
            | (cache, None) => (cache, None)
            | (cache, Some decimals) =>
                (cache, Some (mkTokenBalance (pubkey_to_string mint) (pubkey_to_string owner)
                                (token_amount_to_ui_amount_v2 amount decimals)
                                (pubkey_to_string (account_owner account))))
            end
        end
      else (cache, None)
  end.

(** The accounts of a transaction whose token balances are looked up. *)
Definition token_record (tx : Tx) : list (nat * Pubkey) :=
  if existsb is_known_spl_token_id (tx_account_keys tx) then
    filter (λ '(index, account_id),
        negb (is_invoked tx index || is_known_spl_token_id account_id) = true)
      (enumerate (tx_account_keys tx))
  else [].

(** The inner [for] loop; [*index as u8]. *)
Definition record_balances (w : W) (bank : B) (cache : gmap Pubkey Z)
    (record : list (nat * Pubkey)) : gmap Pubkey Z * list TransactionTokenBalance :=
  foldl (λ '(cache, balances) '(index, account_id),
      match collect_token_balance_from_account cache w bank account_id with
      | (cache, Some d) =>
          (cache, balances ++ [mkTxTokenBalance (Z.of_nat index `mod` 2 ^ 8)%Z d])
      | (cache, None) => (cache, balances)
      end)
    (cache, []) record.

Definition collect_token_balances (b : CommitBatch) (w : W) (bank : B) :
    CommitBatch * list (list TransactionTokenBalance) :=
  let '(cache, balances) :=
    foldl (λ '(cache, balances) record,
        let '(cache, bs) := record_balances w bank cache record in (cache, balances ++ [bs]))
      (mint_decimals b, []) (token_record <$> sanitized_txs b) in
  (mkCommitBatch (sanitized_txs b) cache (transaction_indexes b), balances).

(** ** Without the cache *)

Definition token_balance_of (w : W) (bank : B) (account_id : Pubkey) : option TokenBalanceData :=
  account ← bank_get_account w bank account_id;
  if is_known_spl_token_id (account_owner account) then
    '(mint, owner, amount) ← unpack_token_account account;
    decimals ← get_mint_decimals w bank mint;
    Some (mkTokenBalance (pubkey_to_string mint) (pubkey_to_string owner)
            (token_amount_to_ui_amount_v2 amount decimals)
            (pubkey_to_string (account_owner account)))
  else None.

Definition token_balances_of (w : W) (bank : B) (tx : Tx) : list TransactionTokenBalance :=
  omap (λ '(index, account_id),
      mkTxTokenBalance (Z.of_nat index `mod` 2 ^ 8)%Z <$> token_balance_of w bank account_id)
    (token_record tx).

(** Every cached value is the one the bank would give. *)
Definition cache_ok (w : W) (bank : B) (cache : gmap Pubkey Z) : Prop :=
  ∀ mint d, cache !! mint = Some d → get_mint_decimals w bank mint = Some d.

Lemma cached_decimals_ok w bank cache mint :
  cache_ok w bank cache →
  cache_ok w bank (cached_decimals cache w bank mint).1 ∧
  (cached_decimals cache w bank mint).2 = get_mint_decimals w bank mint.
Proof.
  intros Hc. unfold cached_decimals. destruct (cache !! mint) as [d|] eqn:Hm.
  { split; [done|]. simpl. symmetry. by apply Hc. }
  destruct (get_mint_decimals w bank mint) as [d|] eqn:Hd; [|done]. split; [|done].
  intros m d'. simpl. destruct (decide (m = mint)) as [->|Hne].
  - rewrite lookup_insert_eq. congruence.
  - rewrite lookup_insert_ne by done. apply Hc.
Qed.

Lemma collect_from_account_ok w bank cache a :
  cache_ok w bank cache →
  cache_ok w bank (collect_token_balance_from_account cache w bank a).1 ∧
  (collect_token_balance_from_account cache w bank a).2 = token_balance_of w bank a.
Proof.
  intros Hc. unfold collect_token_balance_from_account, token_balance_of.
  destruct (bank_get_account w bank a) as [acc|]; simpl; [|done].
  destruct (is_known_spl_token_id _); [|done].
  destruct (unpack_token_account acc) as [[[mint owner] amount]|]; simpl; [|done].
  destruct (cached_decimals_ok w bank cache mint Hc) as [Hc' Hd].
  destruct (cached_decimals cache w bank mint) as [c [d|]]; simpl in *; rewrite <-Hd; done.
Qed.

Lemma record_balances_ok w bank cache record :
  cache_ok w bank cache →
  cache_ok w bank (record_balances w bank cache record).1 ∧
  (record_balances w bank cache record).2 =
    omap (λ '(index, account_id),
      mkTxTokenBalance (Z.of_nat index `mod` 2 ^ 8)%Z <$> token_balance_of w bank account_id) record.
Proof.
  intros Hc. unfold record_balances. induction record as [|[i a] record IH] using rev_ind; [done|].
  rewrite foldl_app, omap_app. csimpl. destruct (foldl _ _ record) as [c bs]; simpl in *.
  destruct IH as [Hc' ->]. destruct (collect_from_account_ok w bank c a Hc') as [Hc'' Heq].
  destruct (collect_token_balance_from_account c w bank a) as [c2 [d|]]; simpl in *;
    rewrite <-Heq; simpl; [done|]. by rewrite app_nil_r.
Qed.

(** With a cache that agrees with the bank, the balances are those found
    without it, and the cache still agrees. *)
Lemma collect_token_balances_ok b w bank :
  cache_ok w bank (mint_decimals b) →
  (collect_token_balances b w bank).2 = token_balances_of w bank <$> sanitized_txs b ∧
  cache_ok w bank (mint_decimals (collect_token_balances b w bank).1).
Proof.
  intros Hc. unfold collect_token_balances.
  assert (let r := foldl (λ '(cache, balances) record,
        let '(cache, bs) := record_balances w bank cache record in (cache, balances ++ [bs]))
      (mint_decimals b, []) (token_record <$> sanitized_txs b) in
    r.2 = token_balances_of w bank <$> sanitized_txs b ∧ cache_ok w bank r.1) as Hr.
  { induction (sanitized_txs b) as [|tx txs IH] using rev_ind; [done|].
    rewrite !fmap_app, foldl_app. simpl in *. destruct (foldl _ _ _) as [c bs]; simpl in *.
    destruct IH as [-> Hc']. destruct (record_balances_ok w bank c (token_record tx) Hc') as [Hc'' Heq].
    destruct (record_balances w bank c (token_record tx)) as [c2 bs2]; simpl in *. by rewrite Heq. }
  destruct (foldl _ _ _) as [c bs]. done.
Qed.
End Batches.
Arguments CommitBatch Pubkey Tx {_ _}.
Arguments TokenBalanceData : clear implicits.
Arguments TransactionTokenBalance : clear implicits.
