(* ===== verification/Commit.v ===== *)
(** * Committing a block

    [storage/src/execution/mod.rs], the entries of
    [storage/src/blockstore/mod.rs], the commit of
    [storage/src/accounts/mod.rs] and the history of
    [storage/src/history/mod.rs] and [storage/src/events.rs]. *)
From S2P Require Import Prelude Banks Ledger Shreds CommitBatch.
Set Default Proof Using "Type*".

Definition DEFAULT_NUM_HASHES : Z := 2.

(** [solana_runtime::bank::ExecutedTransactionCounts] *)
Record ExecutedTransactionCounts := mkExecuted {
  executed_transactions_count : Z;
  executed_non_vote_transactions_count : Z;
  executed_with_failure_result_count : Z;
  signature_count : Z
}.

(** ** Results of executing a batch ([solana_svm]), and committing them *)
Class Execution (Out ER TR W B Hash Tx : Type) := {
  execution_results : Out → list ER;
  was_executed : ER → bool;
  flattened_result_is_err : ER → bool;
  (** [Bank::commit_transactions], with the last blockhash, the lamports per
      signature and the counts *)
  bank_commit_transactions :
    W → B → list Tx → Out → Hash → Z → ExecutedTransactionCounts → W * TR
}.

Section Commit.
Context {B F D W Hash Pubkey Account Tx VTx Out ER TR Shred Keypair UiTokenAmount : Type}.
Context `{Countable Pubkey}.
Context `{!Banks B, !BankForks F B, !Blockstore D, !BankWorld W B Hash Pubkey Account}.
Context `{!Entries Hash VTx, !Shreds Shred Hash VTx Keypair, !ShredStore D Shred Hash}.
Context `{!SanitizedTransactions Tx VTx Pubkey, !Tokens Account Pubkey UiTokenAmount}.
Context `{!Execution Out ER TR W B Hash Tx}.
Context (hash_default : Hash).
(** [config.keypairs.validator_keypair] for a validator key *)
Context (keypair_of : Pubkey → Keypair).
Abbreviation storage := (RollupStorage B F D W Pubkey).
Abbreviation entry := (Entry Hash VTx).
Abbreviation batch := (CommitBatch Pubkey Tx).
Implicit Types (s : storage).

(** ** Entries *)

Definition new_entry (prev_hash : Hash) (num_hashes : Z) (transactions : list VTx) : entry :=
  let num_hashes :=
    if bool_decide (num_hashes = 0%Z) && negb (bool_decide (transactions = []))
    then 1%Z else num_hashes in
  mkEntry num_hashes (next_hash prev_hash num_hashes transactions) transactions.

Definition transactions_to_entry s (transactions : list VTx) (start_hash : option Hash) :
    entry + Error :=
  match start_hash with
  | Some start_hash => inl (new_entry start_hash DEFAULT_NUM_HASHES transactions)
  | None =>
      match bank_parent (st_world s) (st_bank s) with
      | Some p =>
          inl (new_entry (bank_last_blockhash (st_world s) p) DEFAULT_NUM_HASHES transactions)
      | None => inr (EBank (BankNotExists (bank_parent_slot (st_bank s))))
      end
  end.

(** The [for _ in 0..tick_count] loop. *)
Fixpoint push_ticks (n : nat) (start_hash : Hash) (entries : list entry) : list entry :=
  match n with
  | 0 => entries
  | S n =>
      let e := new_entry start_hash DEFAULT_NUM_HASHES [] in
      push_ticks n (entry_hash e) (entries ++ [e])
  end.

Definition tick_count (entries : list entry) : Z :=
  Z.of_nat (length (filter (λ e, is_tick e = true) entries)).

Definition complete_entries s (data_entries : list entry) : res (list entry + Error) :=
  match last data_entries with
  | None => Ok (inr NoEntries)
  | Some last_entry =>
      n ← checked_sub (st_ticks_per_slot s) (tick_count data_entries);
      Ok (inl (push_ticks (Z.to_nat n) (entry_hash last_entry) data_entries))
  end.

(** [success_txs]: the transactions that were executed. *)
Definition success_txs (output : Out) (extras : list Tx) : list VTx :=
  omap (λ '(r, tx), if was_executed r then Some (to_versioned_transaction tx) else None)
    (zip (execution_results output) extras).

(** The first loop of [commit_block]. *)
Fixpoint data_entries_from s (l : list (Out * batch)) (start_hash : option Hash)
    (data_entries : list entry) : list entry + Error :=
  match l with
  | [] => inl data_entries
  | (output, origin) :: l =>
      match transactions_to_entry s (success_txs output (batch_transactions origin)) start_hash with
      | inr e => inr e
      | inl e => data_entries_from s l (Some (entry_hash e)) (data_entries ++ [e])
      end
  end.

(** ** The bank *)

Definition count_one (c : ExecutedTransactionCounts) (x : ER * Tx) :
    res ExecutedTransactionCounts :=
  let '(r, tx) := x in
  c ← (if was_executed r then
         sigs ← checked_add u64_max (signature_count c) (num_required_signatures tx);
         n ← checked_add u64_max (executed_transactions_count c) 1;
         nv ← (if is_simple_vote_transaction tx then Ok (executed_non_vote_transactions_count c)
               else checked_add u64_max (executed_non_vote_transactions_count c) 1);
         Ok (mkExecuted n nv (executed_with_failure_result_count c) sigs)
       else Ok c);
  if flattened_result_is_err r then
    f ← checked_add u64_max (executed_with_failure_result_count c) 1;
    Ok (mkExecuted (executed_transactions_count c) (executed_non_vote_transactions_count c) f
          (signature_count c))
  else Ok c.

Definition collect_execution_logs (output : Out) (txs : list Tx) :
    res ExecutedTransactionCounts :=
  fold_res count_one (mkExecuted 0 0 0 0) (zip (execution_results output) txs).

Definition single_batch_commit s (result : Out) (b : batch) : res (storage * TR) :=
  let last_blockhash := bank_last_blockhash (st_world s) (st_bank s) in
  let lamports_per_signature := bank_lamports_per_signature (st_world s) (st_bank s) in
  counts ← collect_execution_logs result (batch_transactions b);
  let '(w, r) := bank_commit_transactions (st_world s) (st_bank s) (batch_transactions b) result
                   last_blockhash lamports_per_signature counts in
  Ok (with_world s w, r).

(** ** History *)

(** The rent debits are those of the bank's result [TR], which stands for them. *)
Record TransactionBatchHistoryInfo := mkHistory {
  h_transactions : list Tx;
  h_execution_results : list ER;
  h_balances : list (list Z) * list (list Z);
  h_token_balances : list (list (TransactionTokenBalance UiTokenAmount)) *
                     list (list (TransactionTokenBalance UiTokenAmount));
  h_rent_debits : TR;
  h_transaction_indexes : list nat
}.
(** What is sent to the history services: the block's metadata, then the
    statuses of the batch. *)
Inductive history_event :=
| CacheBlockMeta (slot : Slot)
| TransactionStatusBatch (slot : Slot) (info : TransactionBatchHistoryInfo).

Definition on_block_complete s (info : TransactionBatchHistoryInfo) : list history_event :=
  [CacheBlockMeta (bank_slot (st_bank s)); TransactionStatusBatch (bank_slot (st_bank s)) info].

Definition single_batch_commit_with_history s (result : Out) (origin : batch) :
    res (storage * TR * list history_event) :=
  let pre_balances := collect_balances origin (st_world s) (st_bank s) in
  let '(origin, pre_token_balances) := collect_token_balances origin (st_world s) (st_bank s) in
  '(s, batch_result) ← single_batch_commit s result origin;
  let post_balances := collect_balances origin (st_world s) (st_bank s) in
  let '(origin, post_token_balances) := collect_token_balances origin (st_world s) (st_bank s) in
  let info := mkHistory (sanitized_txs origin) (execution_results result)
                (pre_balances, post_balances) (pre_token_balances, post_token_balances)
                batch_result (transaction_indexes origin) in
  Ok (s, batch_result, on_block_complete s info).

(** [register_ticks] registers on the working bank of the forks. *)
Definition register_ticks s (entries : list entry) : storage :=
  let bank := bf_working_bank (st_bank_forks s) in
  with_world s (foldl (λ w e, bank_register_tick w bank (entry_hash e)) (st_world s)
                  (filter (λ e, is_tick e = true) entries)).

(** One iteration of the loop of [bank_commit]. *)
Definition commit_one (st : storage * list TR * list history_event) (x : Out * batch) :
    res (storage * list TR * list history_event) :=
  let '(s, rtn, events) := st in
  let '(result, b) := x in
  if st_enable_history s then
    '(s, r, ev) ← single_batch_commit_with_history s result b;
    Ok (s, rtn ++ [r], events ++ ev)
  else
    '(s, r) ← single_batch_commit s result b;
    Ok (s, rtn ++ [r], events).

Definition bank_commit s (results : list Out) (batches : list batch) (entries : list entry) :
    res (storage * list TR * list history_event) :=
  '(s, rtn, events) ← fold_res commit_one (s, [], []) (zip results batches);
  Ok (register_ticks s entries, rtn, events).

(** ** The block store *)

Definition transactions_to_shreds s (entries : list entry) :
    res ((list Shred * list Shred) + Error) :=
  match st_validator s with
  | None => Ok (inr KeypairsConfigMissingValidatorKeypair)
  | Some key =>
      '(_, r) ← process hash_default (processor_new hash_default 0) (st_world s) entries (st_bank s)
                  (st_blockstore s) (bank_max_tick_height (st_world s) (st_bank s))
                  (keypair_of key);
      Ok r
  end.

Definition blockstore_save s (entries : list entry) : res (storage * (unit + Error)) :=
  r ← transactions_to_shreds s entries;
  Ok (match r with
      | inr e => (s, inr e)
      | inl (data_shreds, code_shreds) =>
          match bs_insert_shreds (st_blockstore s) data_shreds with
          | inr e => (s, inr (SolanaBlockstoreError e))
          | inl d =>
              let s := with_blockstore s d in
              match bs_insert_shreds d code_shreds with
              | inr e => (s, inr (SolanaBlockstoreError e))
              | inl d => (with_blockstore s d, inl ())
              end
          end
      end).

Definition commit_block s (result : list Out) (origin : list batch) :
    res (storage * (list TR + Error) * list history_event) :=
  if decide (length result ≠ length origin) then Ok (s, inr CommitBachAndResultsNotMatch, [])
  else
    match data_entries_from s (zip result origin) None [] with
    | inr e => Ok (s, inr e, [])
    | inl data_entries =>
        r ← complete_entries s data_entries;
        match r with
        | inr e => Ok (s, inr e, [])
        | inl entries =>
            '(s, bank_result, events) ← bank_commit s result origin entries;
            '(s, r) ← blockstore_save s entries;
            Ok (s, match r with inr e => inr e | inl _ => inl bank_result end, events)
        end
    end.

Definition commit s (result : list Out) (origin : list batch) :
    res (storage * (unit + Error) * list history_event) :=
  '(s, r, events) ← commit_block s result origin;
  Ok (s, match r with inr e => inr e | inl _ => inl () end, events).
End Commit.
Arguments TransactionBatchHistoryInfo : clear implicits.
Arguments history_event : clear implicits.
