(* ===== verification/CommitFacts.v ===== *)
(** * Facts about committing a block

    The entries of a block form a hash chain from the parent's last blockhash,
    carry the executed transactions batch by batch and end in ticks, exactly
    [ticks_per_slot] of them; committing leaves everything but the banks'
    state and the block store alone. *)
From S2P Require Import Prelude Banks Ledger Shreds CommitBatch Commit.
Set Default Proof Using "Type*".

Section Chain.
Context {Hash VTx : Type} `{EntriesLaws Hash VTx}.
Implicit Types (es : list (Entry Hash VTx)).

(** Each entry's hash is computed from the one before it. *)
Fixpoint chained (h : Hash) es : Prop :=
  match es with
  | [] => True
  | e :: es =>
      num_hashes e = DEFAULT_NUM_HASHES ∧
      entry_hash e = next_hash h DEFAULT_NUM_HASHES (entry_transactions e) ∧
      chained (entry_hash e) es
  end.

(** The hash the next entry starts from. *)
Definition tip (h : Hash) es : Hash := match last es with Some e => entry_hash e | None => h end.

Lemma tip_snoc h es e : tip h (es ++ [e]) = entry_hash e.
Proof. unfold tip. by rewrite last_snoc. Qed.

Lemma tip_cons h e es : tip h (e :: es) = tip (entry_hash e) es.
Proof. unfold tip. rewrite last_cons. by destruct (last es). Qed.

Lemma chained_app h es1 es2 : chained h (es1 ++ es2) ↔ chained h es1 ∧ chained (tip h es1) es2.
Proof.
  revert h. induction es1 as [|e es1 IH]; intros h; simpl; [unfold tip; simpl; tauto|].
  rewrite IH, tip_cons. tauto.
Qed.

Lemma new_entry_default h txs :
  new_entry h DEFAULT_NUM_HASHES txs = mkEntry DEFAULT_NUM_HASHES (next_hash h DEFAULT_NUM_HASHES txs) txs.
Proof. done. Qed.

Lemma chained_snoc h es txs :
  chained h es → chained h (es ++ [new_entry (tip h es) DEFAULT_NUM_HASHES txs]).
Proof. intros Hes. apply chained_app. split; [done|]. by rewrite new_entry_default. Qed.

(** Padding with ticks. *)
Lemma push_ticks_ok n h es :
  es ≠ [] → ∃ ticks, push_ticks n (tip h es) es = es ++ ticks ∧ length ticks = n ∧
    Forall (λ e, entry_transactions e = []) ticks ∧ (chained h es → chained h (es ++ ticks)).
Proof.
  revert es. induction n as [|n IH]; intros es Hne.
  { exists []. rewrite app_nil_r. by split_and!. }
  set (e := new_entry (tip h es) DEFAULT_NUM_HASHES []).
  destruct (IH (es ++ [e])) as (ticks & Heq & Hlen & Hall & Hch); [by destruct es|].
  exists (e :: ticks). cbn [push_ticks]. fold e. rewrite <-(tip_snoc h es e), Heq.
  rewrite <-app_assoc in *. split_and!; [done|by simpl; f_equal|by constructor|].
  intros Hes. by apply Hch, chained_snoc.
Qed.

Lemma tick_count_app es1 es2 : tick_count (es1 ++ es2) = (tick_count es1 + tick_count es2)%Z.
Proof. unfold tick_count. rewrite filter_app, length_app. lia. Qed.

Lemma tick_count_ticks es :
  Forall (λ e, entry_transactions e = []) es → tick_count es = Z.of_nat (length es).
Proof.
  unfold tick_count. induction 1 as [|e es He _ IH]; [done|].
  rewrite filter_cons, decide_True by (by apply is_tick_spec). simpl length. lia.
Qed.

(** The number of ticks is the number of entries without transactions. *)
Lemma tick_count_spec es :
  tick_count es = Z.of_nat (length (filter (λ e, entry_transactions e = []) es)).
Proof.
  unfold tick_count. do 2 f_equal. apply list_filter_iff. intros e. apply is_tick_spec.
Qed.
End Chain.

Section Block.
Context {B F D W Hash Pubkey Account Tx VTx Out ER TR Shred Keypair UiTokenAmount : Type}.
Context `{Countable Pubkey}.
Context `{!Banks B, !BankForks F B, !Blockstore D, !BankWorld W B Hash Pubkey Account}.
Context `{!Entries Hash VTx, !EntriesLaws Hash VTx}.
Context `{!Shreds Shred Hash VTx Keypair, !ShredStore D Shred Hash}.
Context `{!SanitizedTransactions Tx VTx Pubkey, !Tokens Account Pubkey UiTokenAmount}.
Context `{!Execution Out ER TR W B Hash Tx}.
Abbreviation storage := (RollupStorage B F D W Pubkey).
Abbreviation batch := (CommitBatch Pubkey Tx).
Implicit Types (s : storage) (l : list (Out * batch)).

Definition executed_of (x : Out * batch) : list VTx := success_txs x.1 (batch_transactions x.2).

Lemma data_entries_from_ok s l start h0 es :
  (match start with Some h => h = tip h0 es
   | None => es = [] ∧ ∃ p, bank_parent (st_world s) (st_bank s) = Some p ∧
       h0 = bank_last_blockhash (st_world s) p end) →
  chained h0 es →
  ∃ new, data_entries_from s l start es = inl (es ++ new) ∧
    entry_transactions <$> new = executed_of <$> l ∧ chained h0 (es ++ new).
Proof.
  revert start es. induction l as [|[o b] l IH]; intros start es Hst Hch; simpl.
  { exists []. by rewrite app_nil_r. }
  set (e := new_entry (tip h0 es) DEFAULT_NUM_HASHES (executed_of (o, b))).
  assert (transactions_to_entry s (success_txs o (batch_transactions b)) start = inl e) as ->.
  { unfold transactions_to_entry. destruct start as [h|]; [by subst h|].
    destruct Hst as (-> & p & -> & ->). done. }
  destruct (IH (Some (entry_hash e)) (es ++ [e])) as (new & Heq & Htx & Hch').
  { by rewrite tip_snoc. }
  { by apply chained_snoc. }
  exists (e :: new). rewrite Heq, <-app_assoc in *. split_and!; [done| |].
  - csimpl. by rewrite Htx.
  - done.
Qed.

(** The ticks among the data entries are the empty batches. *)
Lemma tick_count_executed data l :
  entry_transactions <$> data = executed_of <$> l →
  tick_count data = Z.of_nat (length (filter (λ x, executed_of x = []) l)).
Proof.
  intros Htx. rewrite tick_count_spec. f_equal. revert l Htx.
  induction data as [|e data IH]; intros [|x l] Htx; [done|done|done|].
  rewrite !fmap_cons in Htx. injection Htx as He Htx. rewrite !filter_cons. rewrite He.
  destruct (decide (executed_of x = [])); simpl; [f_equal|]; by apply IH.
Qed.

(** The entries of a block of at least one batch, whose empty batches do not
    outnumber the ticks of a slot. *)
Lemma block_entries_ok s l p :
  bank_parent (st_world s) (st_bank s) = Some p → l ≠ [] →
  (Z.of_nat (length (filter (λ x, executed_of x = []) l)) ≤ st_ticks_per_slot s)%Z →
  ∃ data ticks,
    data_entries_from s l None [] = inl data ∧
    complete_entries s data = Ok (inl (data ++ ticks)) ∧
    entry_transactions <$> data = executed_of <$> l ∧
    Forall (λ e, entry_transactions e = []) ticks ∧
    chained (bank_last_blockhash (st_world s) p) (data ++ ticks) ∧
    tick_count (data ++ ticks) = st_ticks_per_slot s.
Proof.
  intros Hp Hne Hticks.
  destruct (data_entries_from_ok s l None (bank_last_blockhash (st_world s) p) [])
    as (data & Hdata & Htx & Hch); [by split; [|exists p]|done|]. simpl in *.
  assert (data ≠ []) as Hdne.
  { intros ->. apply (f_equal length) in Htx. rewrite !length_fmap in Htx.
    by destruct l. }
  pose proof (tick_count_executed data l Htx) as Hcount.
  set (n := Z.to_nat (st_ticks_per_slot s - tick_count data)).
  destruct (push_ticks_ok n (bank_last_blockhash (st_world s) p) data Hdne)
    as (ticks & Heq & Hlen & Hall & Hch').
  exists data, ticks. split_and!; auto.
  - unfold complete_entries, tip in *. destruct (last data) as [e|] eqn:Hl.
    + unfold checked_sub. rewrite (proj2 (Z.leb_le _ _)) by lia. simpl. fold n. by rewrite Heq.
    + by apply last_None in Hl.
  - rewrite tick_count_app, (tick_count_ticks ticks) by done. rewrite Hlen. unfold n. lia.
Qed.

(** With more empty batches than ticks the subtraction of the ticks panics. *)
Lemma block_entries_overflow s l p :
  bank_parent (st_world s) (st_bank s) = Some p →
  (0 ≤ st_ticks_per_slot s < Z.of_nat (length (filter (λ x, executed_of x = []) l)))%Z →
  ∃ data msg, data_entries_from s l None [] = inl data ∧ complete_entries s data = Panic msg.
Proof.
  intros Hp Hticks.
  destruct (data_entries_from_ok s l None (bank_last_blockhash (st_world s) p) [])
    as (data & Hdata & Htx & _); [by split; [|exists p]|done|]. simpl in *.
  pose proof (tick_count_executed data l Htx) as Hcount. unfold complete_entries.
  destruct (last data) as [e|] eqn:Hl.
  - unfold checked_sub. exists data. rewrite Hdata, Hl, (proj2 (Z.leb_gt _ _)) by lia. by eexists.
  - apply last_None in Hl as ->. unfold tick_count in Hcount. simpl in Hcount. lia.
Qed.

(** ** What a commit changes *)

Lemma single_batch_commit_frame s o (b : batch) s' r :
  single_batch_commit s o b = Ok (s', r) → ∃ w, s' = with_world s w.
Proof.
  unfold single_batch_commit. intros Hc. res_split Hc as counts Hcounts.
  destruct (bank_commit_transactions _ _ _ _ _ _ _) as [w r']. injection Hc as <- <-. by exists w.
Qed.

Lemma commit_one_frame s rtn (ev : list (history_event Tx ER TR UiTokenAmount)) x s' rtn' ev' :
  commit_one (s, rtn, ev) x = Ok (s', rtn', ev') → ∃ w, s' = with_world s w.
Proof.
  destruct x as [o b]. unfold commit_one. destruct (st_enable_history s).
  - unfold single_batch_commit_with_history. intros Hc.
    destruct (collect_token_balances b _ _) as [b' pre]. res_split Hc as [[s1 r1] ev1] Hs.
    res_split Hs as [s2 r2] Hs2. destruct (collect_token_balances b' _ _) as [b2 post].
    simplify_eq. by eapply single_batch_commit_frame.
  - intros Hc. res_split Hc as [s1 r1] Hs. simplify_eq. by eapply single_batch_commit_frame.
Qed.

(** ** The counts of executed transactions *)

Definition counts_of (l : list (ER * Tx)) : ExecutedTransactionCounts :=
  let executed := filter (λ x, was_executed x.1 = true) l in
  mkExecuted (Z.of_nat (length executed))
    (Z.of_nat (length (filter (λ x, is_simple_vote_transaction x.2 = false) executed)))
    (Z.of_nat (length (filter (λ x, flattened_result_is_err x.1 = true) l)))
    (sumZ (num_required_signatures ∘ snd) executed).

Lemma collect_execution_logs_ok (o : Out) (txs : list Tx) :
  let l := zip (execution_results o) txs in
  (∀ tx, 0 ≤ num_required_signatures tx ≤ 255)%Z → (Z.of_nat (length l) < 2 ^ 56)%Z →
  wp (collect_execution_logs o txs) (λ c, c = counts_of l).
Proof.
  intros l Hsig Hlen. unfold collect_execution_logs. fold l.
  apply (wp_fold_res _ (λ pre c, c = counts_of pre)); [done|].
  intros pre [r tx] post c Heq ->.
  assert (Z.of_nat (length pre) < 2 ^ 56)%Z as Hpre.
  { rewrite Heq, length_app in Hlen. lia. }
  assert (0 ≤ sumZ (num_required_signatures ∘ snd)
            (filter (λ x : ER * Tx, was_executed x.1 = true) pre)
          ≤ 255 * Z.of_nat (length pre))%Z as Hsum.
  { clear -Hsig. induction pre as [|[r tx] pre IH]; [done|]. rewrite filter_cons.
    destruct (decide _); simpl length; [rewrite sumZ_cons; specialize (Hsig tx); simpl|]; lia. }
  pose proof (length_filter (λ x : ER * Tx, was_executed x.1 = true) pre) as Hf1.
  pose proof (length_filter (λ x : ER * Tx, is_simple_vote_transaction x.2 = false)
    (filter (λ x : ER * Tx, was_executed x.1 = true) pre)) as Hf2.
  pose proof (length_filter (λ x : ER * Tx, flattened_result_is_err x.1 = true) pre) as Hf3.
  specialize (Hsig tx).
  apply wp_mono with (λ c, c = mkExecuted
    (executed_transactions_count (counts_of pre) + if was_executed r then 1 else 0)
    (executed_non_vote_transactions_count (counts_of pre)
      + if was_executed r && negb (is_simple_vote_transaction tx) then 1 else 0)
    (executed_with_failure_result_count (counts_of pre)
      + if flattened_result_is_err r then 1 else 0)
    (signature_count (counts_of pre)
      + if was_executed r then num_required_signatures tx else 0)).
  - unfold count_one. destruct (counts_of pre) as [n nv nf sg] eqn:Hpc.
    unfold counts_of in Hpc. injection Hpc as <- <- <- <-.
    unfold u64_max.
    destruct (was_executed r), (is_simple_vote_transaction tx), (flattened_result_is_err r);
      repeat (simpl; wp_step; try lia); f_equal; lia.
  - intros c ->. unfold counts_of. cbn [executed_transactions_count executed_non_vote_transactions_count executed_with_failure_result_count signature_count].
    rewrite !filter_app, !filter_cons, !filter_nil. simpl.
    destruct (was_executed r), (is_simple_vote_transaction tx) eqn:Hv, (flattened_result_is_err r);
      simpl; rewrite ?app_nil_r, ?filter_app, ?filter_cons, ?filter_nil, ?length_app, ?sumZ_app; simpl;
      rewrite ?Hv, ?length_app; simpl; f_equal; lia.
Qed.

(** ** The whole commit *)

(** The banks' state after committing one batch to [bank]. *)
Definition commit_world (bank : B) (w : W) (x : Out * batch) : W :=
  (bank_commit_transactions w bank (batch_transactions x.2) x.1 (bank_last_blockhash w bank)
     (bank_lamports_per_signature w bank)
     (counts_of (zip (execution_results x.1) (batch_transactions x.2)))).1.

(** Batches small enough for the counters. *)
Definition batch_fits (x : Out * batch) : Prop :=
  (Z.of_nat (length (zip (execution_results x.1) (batch_transactions x.2))) < 2 ^ 56)%Z.

Context (signatures_u8 : ∀ tx : Tx, (0 ≤ num_required_signatures tx ≤ 255)%Z).

Lemma single_batch_commit_ok s x (b : batch) :
  batch_fits x → batch_transactions b = batch_transactions x.2 →
  wp (single_batch_commit s x.1 b) (λ '(s', _),
    s' = with_world s (commit_world (st_bank s) (st_world s) x)).
Proof.
  intros Hfits Hb. unfold single_batch_commit. rewrite Hb. wp_step.
  eapply wp_mono; [by apply collect_execution_logs_ok|]. intros c ->. unfold commit_world.
  destruct (bank_commit_transactions _ _ _ _ _ _ _) as [w r]. by wp_step.
Qed.

Lemma commit_one_ok s rtn (ev : list (history_event Tx ER TR UiTokenAmount)) x :
  batch_fits x →
  wp (commit_one (s, rtn, ev) x) (λ '(s', rtn', _),
    s' = with_world s (commit_world (st_bank s) (st_world s) x) ∧ length rtn' = S (length rtn)).
Proof.
  destruct x as [o b]. intros Hfits. unfold commit_one. destruct (st_enable_history s).
  - unfold single_batch_commit_with_history.
    assert (batch_transactions (collect_token_balances b (st_world s) (st_bank s)).1
            = batch_transactions b) as Hb.
    { unfold collect_token_balances. by destruct (foldl _ _ _). }
    destruct (collect_token_balances b _ _) as [b1 pre]. simpl in Hb. wp_step. wp_step.
    eapply wp_mono; [by apply (single_batch_commit_ok s (o, b) b1)|]. intros [s1 r] ->.
    destruct (collect_token_balances b1 _ _) as [b2 post]. wp_step. wp_step.
    rewrite length_app. simpl. split; [done|lia].
  - wp_step. eapply wp_mono; [by apply (single_batch_commit_ok s (o, b) b)|].
    intros [s1 r] ->. wp_step. rewrite length_app. simpl. split; [done|lia].
Qed.

Lemma with_world_id s : with_world s (st_world s) = s.
Proof using Type. by destruct s. Qed.

Lemma bank_commit_ok s results origins es :
  Forall batch_fits (zip results origins) →
  wp (bank_commit (UiTokenAmount:=UiTokenAmount) s results origins es) (λ '(s', rtn, _),
    s' = with_world s
      (foldl (λ w e, bank_register_tick w (bf_working_bank (st_bank_forks s)) (entry_hash e))
         (foldl (commit_world (st_bank s)) (st_world s) (zip results origins))
         (filter (λ e, is_tick e = true) es)) ∧
    length rtn = length (zip results origins)).
Proof.
  intros Hfits. unfold bank_commit. wp_step. eapply wp_mono.
  - apply (wp_fold_res _ (λ pre '(s', rtn, _),
      s' = with_world s (foldl (commit_world (st_bank s)) (st_world s) pre) ∧
      length rtn = length pre)).
    { simpl. by rewrite with_world_id. }
    intros pre x post [[s1 rtn] ev] Heq [-> Hlen]. eapply wp_mono.
    { apply commit_one_ok. eapply Forall_forall; [exact Hfits|]. rewrite Heq. set_solver. }
    intros [[s2 rtn2] ev2] [-> Hlen2]. rewrite foldl_app, length_app. simpl in *.
    split; [done|lia].
  - intros [[s1 rtn] ev] [-> Hlen]. by wp_step.
Qed.
End Block.
