(* ===== verification/Verifier.v ===== *)
(** * The verifier

    [verifier/src/lib.rs], [verifier/src/error.rs] and
    [verifier/src/settings.rs], with the checks of [Executor::check_block] of
    [executor/src/lib.rs].  What they call of the bank (verification, account
    locks, checks) is the class [Verification]; the locks are part of the
    banks' state. *)
From Stdlib Require Import QArith_base.
From S2P Require Import Prelude Banks Ledger Shreds CommitBatch Commit.
Set Default Proof Using "Type*".

Inductive TicksError :=
| InvalidLastTick | TooFewTicks | TooManyTicks | InvalidTickHashCount | TrailingEntry.

Record Switchs := mkSwitchs { tx_sanity_check : bool; txs_conflict_check : bool }.
(** [solana_sdk::fee::FeeStructure] by the call that makes it: [default], or [new]
    with the price of a signature and of a write lock in SOL, and the bins of
    compute units with their fees. *)
Inductive FeeStructure :=
| FeeStructure_default
| FeeStructure_new (sol_per_signature sol_per_write_lock : Q) (compute_fee_bins : list (Z * Q)).
Record Settings := mkSettings { max_age : Z; switchs : Switchs; fee_structure : FeeStructure }.
Definition Switchs_default : Switchs := mkSwitchs false false.
Definition Settings_default : Settings :=
  mkSettings 150 Switchs_default (FeeStructure_new (5 # 10000000) 0 [(1400000%Z, 0%Q)]).

(** ** What is used of the bank *)
Class Verification (W B Tx VTx Hash Mode TxError CheckResult : Type) := {
  fully_verify_transaction : W → B → VTx → Tx + TxError;
  verify_transaction : W → B → VTx → Mode → Tx + TxError;
  ResanitizationNeeded : TxError;
  get_transaction_account_lock_limit : W → B → nat;
  lock_accounts : W → B → list Tx → nat → W * list (unit + TxError);
  lock_accounts_with_results :
    W → B → list Tx → list (unit + TxError) → nat → W * list (unit + TxError);
  (** what dropping a [TransactionBatch] does *)
  unlock_accounts : W → B → list Tx → list (unit + TxError) → W;
  check_transactions : W → B → list Tx → list (unit + TxError) → Z → list CheckResult;
  bank_hashes_per_tick : W → B → option Z;
  (** [EntrySlice] *)
  entries_tick_count : list (Entry Hash VTx) → Z;
  verify_tick_hash_count : list (Entry Hash VTx) → Z → Z → bool * Z
}.

Section Verifier.
Context {B W Hash Pubkey Account Tx VTx Mode TxError CheckResult : Type}.
Context `{!EqDecision Tx}.
Context `{!Banks B, !BankWorld W B Hash Pubkey Account, !Entries Hash VTx}.
Context `{!SanitizedTransactions Tx VTx Pubkey}.
Context `{!Verification W B Tx VTx Hash Mode TxError CheckResult}.

Inductive VerifierError := TickError (e : TicksError) | TransactionError (e : TxError).

Record BankVerifier := mkVerifier { v_bank : B; v_settings : Settings }.
Implicit Types (v : BankVerifier) (w : W).

(** [collect::<Result<Vec<_>, _>>()]: the first error, if any. *)
Fixpoint collect_results {A} (l : list (A + TxError)) : list A + TxError :=
  match l with
  | [] => inl []
  | inl a :: l => match collect_results l with inl r => inl (a :: r) | inr e => inr e end
  | inr e :: _ => inr e
  end.
Definition as_unit {A} (r : list A + TxError) : unit + VerifierError :=
  match r with inl _ => inl () | inr e => inr (TransactionError e) end.

Definition get_transactions_sanity_results v w (txs : list Tx) : list (unit + TxError) :=
  (λ tx, match fully_verify_transaction w (v_bank v) (to_versioned_transaction tx) with
         | inr e => inr e
         | inl resanitized_tx =>
             if decide (resanitized_tx ≠ tx) then inr ResanitizationNeeded else inl ()
         end) <$> txs.

Definition entry_sanity_check v w (entry : Entry Hash VTx) (mode : Mode) : unit + VerifierError :=
  as_unit (collect_results
    ((λ tx, verify_transaction w (v_bank v) tx mode) <$> entry_transactions entry)).

(** A [TransactionBatch]: its lock results, its transactions and whether its
    accounts are unlocked when it is dropped. *)
Record TransactionBatch := mkTxBatch {
  lock_results : list (unit + TxError); batch_txs : list Tx; needs_unlock : bool
}.

Definition batch_and_verify_conflicts v w (txs : list Tx) (results : list (unit + TxError)) :
    W * TransactionBatch :=
  let limit := get_transaction_account_lock_limit w (v_bank v) in
  let check := txs_conflict_check (switchs (v_settings v)) in
  let '(w, lock_result) :=
    if check then lock_accounts_with_results w (v_bank v) txs results limit
    else (w, (λ _, inl ()) <$> results) in
  (w, mkTxBatch lock_result txs check).

Definition drop_batch v w (b : TransactionBatch) : W :=
  if needs_unlock b then unlock_accounts w (v_bank v) (batch_txs b) (lock_results b) else w.

Definition validate_batch v w (b : TransactionBatch) : list CheckResult :=
  check_transactions w (v_bank v) (batch_txs b) (lock_results b) (max_age (v_settings v)).

(** The batch is dropped when [get_batch_results] returns. *)
Definition get_batch_results v w (txs : list Tx) : W * list CheckResult :=
  let results := if tx_sanity_check (switchs (v_settings v))
                 then get_transactions_sanity_results v w txs
                 else (λ _, inl ()) <$> txs in
  let '(w, b) := batch_and_verify_conflicts v w txs results in
  let r := validate_batch v w b in
  (drop_batch v w b, r).

Definition transactions_sanity_check v w (txs : list Tx) : unit + VerifierError :=
  as_unit (collect_results
    ((λ tx, fully_verify_transaction w (v_bank v) (to_versioned_transaction tx)) <$> txs)).

Definition transactions_conflict_check v w (txs : list Tx) : W * (unit + VerifierError) :=
  let limit := get_transaction_account_lock_limit w (v_bank v) in
  let '(w, results) := lock_accounts w (v_bank v) txs limit in
  (w, as_unit (collect_results results)).

(** [entries.last().map(|e| !e.is_tick()).unwrap_or_default()] *)
Definition has_trailing_entry (entries : list (Entry Hash VTx)) : bool :=
  match last entries with Some e => negb (is_tick e) | None => false end.

Definition verify_ticks v w (entries : list (Entry Hash VTx)) (slot_full : bool)
    (tick_hash_count : Z) : res (Z * (unit + VerifierError)) :=
  next ← checked_add u64_max (bank_tick_height w (v_bank v)) (entries_tick_count entries);
  let max := bank_max_tick_height w (v_bank v) in
  Ok (if (max <? next)%Z then (tick_hash_count, inr (TickError TooManyTicks))
      else if (next <? max)%Z && slot_full then (tick_hash_count, inr (TickError TooFewTicks))
      else if (next =? max)%Z && has_trailing_entry entries
      then (tick_hash_count, inr (TickError TrailingEntry))
      else if (next =? max)%Z && negb slot_full
      then (tick_hash_count, inr (TickError InvalidLastTick))
      else
        let hashes_per_tick := default 0%Z (bank_hashes_per_tick w (v_bank v)) in
        let '(ok, count) := verify_tick_hash_count entries tick_hash_count hashes_per_tick in
        (count, if ok then inl () else inr (TickError InvalidTickHashCount))).

(** ** Checking a block: the part of the executor that does not execute *)

Definition BlockPayload := list (list Tx).
Definition payload_new (txs : list Tx) : BlockPayload := [txs].
Definition new_with_batches (batches : list (list Tx)) : BlockPayload := batches.

(** The two [for] loops of [check_block], with [?]. *)
Fixpoint sanity_check_all v w (block : BlockPayload) : unit + VerifierError :=
  match block with
  | [] => inl ()
  | txs :: block =>
      match transactions_sanity_check v w txs with
      | inl _ => sanity_check_all v w block | inr e => inr e
      end
  end.
Fixpoint conflict_check_all v w (block : BlockPayload) : W * (unit + VerifierError) :=
  match block with
  | [] => (w, inl ())
  | txs :: block =>
      match transactions_conflict_check v w txs with
      | (w, inl _) => conflict_check_all v w block | (w, inr e) => (w, inr e)
      end
  end.

Definition check_payload (bank : B) w (block : BlockPayload) (sw : Switchs) :
    W * (unit + VerifierError) :=
  let v := mkVerifier bank Settings_default in
  match (if tx_sanity_check sw then sanity_check_all v w block else inl ()) with
  | inr e => (w, inr e)
  | inl _ => if txs_conflict_check sw then conflict_check_all v w block else (w, inl ())
  end.
End Verifier.
Arguments VerifierError : clear implicits.
Arguments TransactionBatch : clear implicits.
Arguments BankVerifier : clear implicits.
Arguments BlockPayload : clear implicits.
