(* ===== verification/Executor.v ===== *)
(** * The executor

    [executor/src/lib.rs], [executor/src/error.rs] and
    [executor/src/processor.rs]: blocks of batches are checked, executed on a
    new slot, committed and confirmed; forks are abandoned by [reorg]. *)
From S2P Require Import Prelude Banks Ledger Shreds CommitBatch Commit Verifier.
Set Default Proof Using "Type*".

(** What the processor's environment and configuration are read from: values of
    the bank, some of types of the runtime. *)
Class ProcessingReads (W B Hash : Type) := {
  VoteAccounts : Type;
  FeatureSet : Type;
  RentCollector : Type;
  ComputeBudget : Type;
  last_blockhash_and_lamports_per_signature : W → B → Hash * Z;
  bank_epoch : W → B → Z;
  epoch_total_stake : W → B → Z → option Z;
  epoch_vote_accounts : W → B → Z → option VoteAccounts;
  feature_set : W → B → FeatureSet;
  rent_collector : W → B → RentCollector;
  check_program_modification_slot : W → B → bool;
  compute_budget : W → B → option ComputeBudget
}.
Record TransactionProcessingEnvironment {W B Hash : Type} `{ProcessingReads W B Hash} := mkEnvironment {
  env_blockhash : Hash;
  env_epoch_total_stake : option Z;
  env_epoch_vote_accounts : option VoteAccounts;
  env_feature_set : FeatureSet;
  env_fee_structure : option FeeStructure;
  env_lamports_per_signature : Z;
  env_rent_collector : option RentCollector
}.
(** The fields the executor sets; the others keep their defaults, and
    [account_overrides] is [None]. *)
Record TransactionProcessingConfig {W B Hash : Type} `{ProcessingReads W B Hash} := mkProcessingConfig {
  cfg_check_program_modification_slot : bool;
  cfg_compute_budget : option ComputeBudget;
  cfg_limit_to_load_programs : bool;
  cfg_transaction_account_lock_limit : option nat
}.
Arguments TransactionProcessingEnvironment W B Hash {_}.
Arguments mkEnvironment {W B Hash _} _ _ _ _ _ _ _.
Arguments mkProcessingConfig {W B Hash _} _ _ _ _.
Arguments TransactionProcessingConfig W B Hash {_}.

(** [load_and_execute_sanitized_transactions] of the bank's processor, with
    the check results. *)
Class Processor (Out W B Hash Tx CheckResult : Type) `{ProcessingReads W B Hash} :=
  load_and_execute : W → B → list Tx → list CheckResult → TransactionProcessingEnvironment W B Hash →
    TransactionProcessingConfig W B Hash → W * Out.

Section Executor.
Context {B F D W Hash Pubkey Account Tx VTx Out ER TR Shred Keypair UiTokenAmount : Type}.
Context {Mode TxError CheckResult : Type}.
Context `{Countable Pubkey} `{!EqDecision Tx}.
Context `{!Banks B, !BankForks F B, !Blockstore D, !BankWorld W B Hash Pubkey Account}.
Context `{!Entries Hash VTx, !Shreds Shred Hash VTx Keypair, !ShredStore D Shred Hash}.
Context `{!SanitizedTransactions Tx VTx Pubkey, !Tokens Account Pubkey UiTokenAmount}.
Context `{!Execution Out ER TR W B Hash Tx}.
Context `{!Verification W B Tx VTx Hash Mode TxError CheckResult}.
Context `{!ProcessingReads W B Hash, !Processor Out W B Hash Tx CheckResult}.
Context (hash_default : Hash) (keypair_of : Pubkey → Keypair).
Abbreviation storage := (RollupStorage B F D W Pubkey).
Abbreviation payload := (BlockPayload Tx).

Inductive ExecutorError :=
| StorageIsNone
| FetchStreamBatchError (msg : string)
| ExecStorageError (e : Error)
| ExecValidatorError (e : VerifierError TxError)
| StorageQueryError (msg : string).

Record Executor := mkExecutor {
  ex_storage : option storage;
  ex_finalized : Slot;
  ex_settings : Settings
}.
Implicit Types (x : Executor).

Definition with_storage x (s : storage) : Executor :=
  mkExecutor (Some s) (ex_finalized x) (ex_settings x).

(** [new_with_validator_settings], given the initialised storage. *)
Definition executor_new (s : storage) (settings : Settings) : Executor :=
  mkExecutor (Some s) (get_root s) settings.
Definition executor_default : Executor := mkExecutor None 0%Z Settings_default.

(** [TransactionProcessor] *)
Definition environment (settings : Settings) (w : W) (bank : B) : TransactionProcessingEnvironment W B Hash :=
  let '(blockhash, lamports_per_signature) := last_blockhash_and_lamports_per_signature w bank in
  mkEnvironment blockhash (epoch_total_stake w bank (bank_epoch w bank))
    (epoch_vote_accounts w bank (bank_epoch w bank)) (feature_set w bank)
    (Some (fee_structure settings)) lamports_per_signature (Some (rent_collector w bank)).
Definition processing_config (w : W) (bank : B) : TransactionProcessingConfig W B Hash :=
  mkProcessingConfig (check_program_modification_slot w bank) (compute_budget w bank) false
    (Some (get_transaction_account_lock_limit w bank)).
Definition process_batch (settings : Settings) (s : storage) (txs : list Tx) : storage * Out :=
  let v := mkVerifier (st_bank s) settings in
  let '(w, results) := get_batch_results v (st_world s) txs in
  let '(w, out) := load_and_execute w (st_bank s) txs results (environment settings w (st_bank s))
                     (processing_config w (st_bank s)) in
  (with_world s w, out).

(** The [for] loop of [new_block]. *)
Fixpoint process_all (settings : Settings) (s : storage) (block : payload) :
    storage * list Out * list (CommitBatch Pubkey Tx) :=
  match block with
  | [] => (s, [], [])
  | txs :: block =>
      let '(s, out) := process_batch settings s txs in
      let '(s, results, origin_txs) := process_all settings s block in
      (s, out :: results, commit_batch_new txs :: origin_txs)
  end.

Definition check_block x (block : payload) (sw : option Switchs) :
    Executor * (unit + ExecutorError) :=
  match ex_storage x with
  | None => (x, inr StorageIsNone)
  | Some s =>
      let sw := default (switchs (ex_settings x)) sw in
      let '(w, r) := check_payload (st_bank s) (st_world s) block sw in
      (with_storage x (with_world s w),
       match r with inl _ => inl () | inr e => inr (ExecValidatorError e) end)
  end.

(** [confirm] the block and read its information. *)
Definition confirm_block x (s : storage) : Executor * (SlotInfo + ExecutorError) :=
  match confirm s (current_height s) with
  | (s, inr e) => (with_storage x s, inr (ExecStorageError e))
  | (s, inl _) =>
      (with_storage x s, match get_slot_info s (current_height s) with
                         | inl info => inl info
                         | inr e => inr (ExecStorageError e) end)
  end.

Definition new_block x (block : payload) :
    res (Executor * (SlotInfo + ExecutorError) * list (history_event Tx ER TR UiTokenAmount)) :=
  match ex_storage x with
  | None => Ok (x, inr StorageIsNone, [])
  | Some s =>
      '(s, r) ← bump s;
      match r with
      | inr e => Ok (with_storage x s, inr (ExecStorageError e), [])
      | inl _ =>
          let '(s, results, origin_txs) := process_all (ex_settings x) s block in
          '(s, r, events) ← commit hash_default keypair_of s results origin_txs;
          match r with
          | inr e => Ok (with_storage x s, inr (ExecStorageError e), events)
          | inl _ => Ok (confirm_block x s, events)
          end
      end
  end.

Definition executor_reorg (fuel : nat) x (reset_to : Slot) :
    res (Executor * (unit + ExecutorError)) :=
  match ex_storage x with
  | None => Ok (x, inr StorageIsNone)
  | Some s =>
      '(s, r) ← reorg fuel s reset_to (Some (ex_finalized x));
      Ok (with_storage x s, match r with inl _ => inl () | inr e => inr (ExecStorageError e) end)
  end.

Definition finalize x (block : Slot) : res (Executor * (unit + ExecutorError)) :=
  match ex_storage x with
  | None => Ok (x, inr StorageIsNone)
  | Some s =>
      '(s, r) ← set_root s block None;
      Ok (with_storage x s, match r with inl _ => inl () | inr e => inr (ExecStorageError e) end)
  end.

(** [extend_with], given what the stream returned. *)
Definition extend_with (block : payload) (batch : list (list Tx) + string) :
    payload * (unit + ExecutorError) :=
  match batch with
  | inl b => (block ++ b, inl ())
  | inr e => (block, inr (FetchStreamBatchError e))
  end.
End Executor.
Arguments Executor : clear implicits.
