(* ===== verification/VerifierFacts.v ===== *)
(** * Facts about the verifier

    Which blocks pass the conflict check, stated with the accounts the bank
    has locked, and which entries pass the tick check. *)
From S2P Require Import Prelude Banks Ledger Shreds CommitBatch Commit CommitFacts Verifier.
Set Default Proof Using "Type*".

(** ** Account locks

    What [Accounts::lock_accounts] documents: the transactions are taken in
    order; one is locked unless its own locks are invalid, one of its writable
    accounts is locked, or one of its readonly accounts is locked for
    writing. *)
Section Locks.
Context {Pubkey Tx : Type} `{Countable Pubkey}.

Record lock_view := mkView { locked_write : gset Pubkey; locked_read : gset Pubkey }.

Class TxLocks := {
  tx_write_keys : Tx → gset Pubkey;
  tx_read_keys : Tx → gset Pubkey;
  (** no account loaded twice, not more accounts than the limit *)
  tx_locks_valid : Tx → nat → bool
}.
Context `{!TxLocks}.

Definition lockable (v : lock_view) (tx : Tx) : Prop :=
  tx_write_keys tx ## locked_write v ∧ tx_write_keys tx ## locked_read v ∧
  tx_read_keys tx ## locked_write v.
#[global] Instance lockable_dec v tx : Decision (lockable v tx).
Proof. unfold lockable. apply _. Defined.

Definition add_locks (v : lock_view) (tx : Tx) : lock_view :=
  mkView (tx_write_keys tx ∪ locked_write v) (tx_read_keys tx ∪ locked_read v).

Fixpoint lock_run (limit : nat) (v : lock_view) (txs : list Tx) : lock_view * list bool :=
  match txs with
  | [] => (v, [])
  | tx :: txs =>
      let ok := tx_locks_valid tx limit && bool_decide (lockable v tx) in
      let '(v, oks) := lock_run limit (if ok then add_locks v tx else v) txs in
      (v, ok :: oks)
  end.

(** Neither transaction writes an account the other uses. *)
Definition compatible (t1 t2 : Tx) : Prop :=
  tx_write_keys t1 ## tx_write_keys t2 ∧ tx_write_keys t1 ## tx_read_keys t2 ∧
  tx_read_keys t1 ## tx_write_keys t2.

Definition no_locks : lock_view := mkView ∅ ∅.

Lemma lock_run_app limit v txs1 txs2 :
  lock_run limit v (txs1 ++ txs2) =
  let '(v1, oks1) := lock_run limit v txs1 in
  let '(v2, oks2) := lock_run limit v1 txs2 in (v2, oks1 ++ oks2).
Proof.
  revert v. induction txs1 as [|tx txs1 IH]; intros v; simpl.
  - by destruct (lock_run limit v txs2).
  - rewrite IH. destruct (lock_run _ _ txs1) as [v1 oks1].
    by destruct (lock_run limit v1 txs2).
Qed.

Lemma lockable_add v t tx :
  lockable (add_locks v t) tx ↔ lockable v tx ∧ compatible t tx.
Proof.
  unfold lockable, add_locks, compatible. simpl. set_solver.
Qed.

(** All transactions are locked exactly when no two of them conflict and none
    conflicts with what is locked. *)
Lemma lock_run_all limit v txs :
  Forall (λ b, b = true) (lock_run limit v txs).2 ↔
  Forall (λ tx, tx_locks_valid tx limit = true) txs ∧ Forall (lockable v) txs ∧
  StronglySorted compatible txs.
Proof.
  revert v. induction txs as [|tx txs IH]; intros v; simpl.
  { split; [|by constructor]. intros _. split_and!; constructor. }
  destruct (tx_locks_valid tx limit && bool_decide (lockable v tx)) eqn:Hok.
  - specialize (IH (add_locks v tx)). destruct (lock_run _ _ txs) as [v' oks]; simpl in *.
    apply andb_true_iff in Hok as [Hv Hl%bool_decide_eq_true].
    rewrite Forall_cons, IH, !Forall_cons. split.
    + intros (_ & Hvs & Hls & Hs). split_and!; try done.
      * eapply Forall_impl; [exact Hls|]. by intros x [? _]%lockable_add.
      * constructor; [done|]. eapply Forall_impl; [exact Hls|]. by intros x [_ ?]%lockable_add.
    + intros ([_ Hvs] & [_ Hls] & [Hs Hn]%StronglySorted_inv). split_and!; try done.
      rewrite Forall_forall in *. intros x Hx. apply lockable_add. auto.
  - destruct (lock_run limit v txs) as [v' oks]; simpl. rewrite !Forall_cons. split; [naive_solver|].
    intros ([Hv _] & [Hl _] & _). rewrite Hv, bool_decide_true in Hok by done. done.
Qed.

(** What was locked stays locked, and with it what the transactions write. *)
Lemma lock_run_locked limit v (txs : list Tx) :
  Forall (λ ok, ok = true) (lock_run limit v txs).2 →
  locked_write v ⊆ locked_write (lock_run limit v txs).1 ∧
  ∀ tx, tx ∈ txs → tx_write_keys tx ⊆ locked_write (lock_run limit v txs).1.
Proof.
  revert v. induction txs as [|tx txs IH]; intros v; simpl.
  { intros _. split; [done|]. by intros tx ?%elem_of_nil. }
  set (ok := tx_locks_valid tx limit && _).
  destruct (lock_run limit (if ok then add_locks v tx else v) txs) as [v' oks] eqn:Hrun; simpl.
  intros [Hok Hoks]%Forall_cons. rewrite Hok in Hrun. specialize (IH (add_locks v tx)).
  rewrite Hrun in IH. destruct (IH Hoks) as [Hsub Hin]. simpl in *. split; [set_solver|].
  intros t [->|Ht]%elem_of_cons; [set_solver|by apply Hin].
Qed.
End Locks.
Arguments lock_view Pubkey {_ _}.
Arguments TxLocks Pubkey Tx {_ _}.

Section Checks.
Context {B W Hash Pubkey Account Tx VTx Mode TxError CheckResult : Type}.
Context `{Countable Pubkey} `{!EqDecision Tx}.
Context `{!Banks B, !BankWorld W B Hash Pubkey Account, !Entries Hash VTx}.
Context `{!SanitizedTransactions Tx VTx Pubkey, !TxLocks Pubkey Tx}.
Context `{!Verification W B Tx VTx Hash Mode TxError CheckResult}.
Abbreviation verifier := (BankVerifier B).
Implicit Types (v : verifier) (w : W) (b : B) (block : BlockPayload Tx).

(** The accounts locked on a bank. *)
Class LockViews := locks_of : W → B → lock_view Pubkey.

Definition is_ok {A} (r : A + TxError) : bool := match r with inl _ => true | inr _ => false end.

Class VerificationLaws `{!LockViews} : Prop := {
  lock_accounts_run w b txs limit w' rs :
    lock_accounts w b txs limit = (w', rs) →
    lock_run limit (locks_of w b) txs = (locks_of w' b, is_ok <$> rs);
  lock_accounts_limit w b txs limit w' rs :
    lock_accounts w b txs limit = (w', rs) →
    get_transaction_account_lock_limit w' b = get_transaction_account_lock_limit w b;
  entries_tick_count_spec es : entries_tick_count es = tick_count es
}.
Context `{!LockViews, !VerificationLaws}.

Lemma collect_results_ok {A} (l : list (A + TxError)) :
  (∃ r, collect_results l = inl r) ↔ Forall (λ ok, ok = true) (is_ok <$> l).
Proof.
  induction l as [|[a|e] l IH]; csimpl.
  - split; [constructor|by eexists].
  - rewrite Forall_cons, <-IH. split.
    + intros [r Hr]. split; [done|]. destruct (collect_results l); [by eexists|done].
    + intros [_ [r ->]]. by eexists.
  - rewrite Forall_cons. split; [by intros [??]|by intros [? _]].
Qed.

Lemma as_unit_ok {A} (l : list (A + TxError)) :
  as_unit (collect_results l) = inl () ↔ Forall (λ ok, ok = true) (is_ok <$> l).
Proof.
  rewrite <-collect_results_ok. destruct (collect_results l); simpl; naive_solver.
Qed.

(** The conflict check of a block passes exactly when all its transactions can
    be locked one after the other, across the batches, and leaves them locked. *)
Lemma conflict_check_all_ok v w block :
  let run := lock_run (get_transaction_account_lock_limit w (v_bank v))
               (locks_of w (v_bank v)) (concat block) in
  ((conflict_check_all v w block).2 = inl () ↔ Forall (λ ok, ok = true) run.2) ∧
  ((conflict_check_all v w block).2 = inl () →
   locks_of (conflict_check_all v w block).1 (v_bank v) = run.1).
Proof.
  revert w. induction block as [|txs block IH]; intros w; simpl.
  { split; [split; [constructor|done]|done]. }
  unfold transactions_conflict_check.
  destruct (lock_accounts w (v_bank v) txs _) as [w1 rs] eqn:Hl.
  pose proof (lock_accounts_run _ _ _ _ _ _ Hl) as Hrun.
  pose proof (lock_accounts_limit _ _ _ _ _ _ Hl) as Hlim.
  rewrite lock_run_app, Hrun. specialize (IH w1). rewrite Hlim in IH. simpl in IH.
  pose proof (as_unit_ok rs) as Hok.
  destruct (lock_run _ (locks_of w1 _) (concat block)) as [v2 oks2]. simpl in *.
  rewrite Forall_app, <-Hok. destruct (as_unit (collect_results rs)) as [[]|e]; simpl.
  - destruct IH as [IH1 IH2]. split; [tauto|]. done.
  - split; [|done]. split; [done|by intros [? _]].
Qed.

(** ** Ticks *)

(** The entries bring the bank to its last tick, which must end a full slot,
    or stop short of it in a slot that is not full. *)
Definition ticks_ok w b (es : list (Entry Hash VTx)) (slot_full : bool) : Prop :=
  let next := (bank_tick_height w b + tick_count es)%Z in
  ((next < bank_max_tick_height w b)%Z ∧ slot_full = false) ∨
  (next = bank_max_tick_height w b ∧ slot_full = true ∧ has_trailing_entry es = false).

Lemma verify_ticks_ok v w es full count :
  (bank_tick_height w (v_bank v) + tick_count es ≤ u64_max)%Z →
  wp (verify_ticks v w es full count) (λ '(count', r),
    (r = inl () ↔ ticks_ok w (v_bank v) es full ∧
       (verify_tick_hash_count es count (default 0%Z (bank_hashes_per_tick w (v_bank v)))).1 = true)
    ∧ (r ≠ inl () → r ≠ inr (TickError InvalidTickHashCount) → count' = count)).
Proof.
  intros Hmax. unfold verify_ticks. wp_step. rewrite entries_tick_count_spec.
  wp_step; [done|]. wp_step. unfold ticks_ok.
  set (next := (bank_tick_height w (v_bank v) + tick_count es)%Z).
  set (mx := bank_max_tick_height w (v_bank v)).
  destruct (Z.ltb_spec mx next), (Z.ltb_spec next mx), (Z.eqb_spec next mx); try lia;
    destruct full, (has_trailing_entry es); simpl;
    try (split; [split; [done|intros [[[??]|(?&?&?)] _]; first [done|lia]]|done]);
    destruct (verify_tick_hash_count _ _ _) as [[] c]; simpl;
    (split; [|done || naive_solver]); split; naive_solver.
Qed.
End Checks.
Arguments LockViews B W Pubkey {_ _}.
