(* ===== verification/ExecutorFacts.v ===== *)
(** * Facts about the executor

    What producing a block does, from the new slot to the confirmed root. *)
From S2P Require Import Prelude Banks Ledger LedgerFacts Shreds CommitBatch Commit CommitFacts.
From S2P Require Import Verifier VerifierFacts Executor.
Set Default Proof Using "Type*".

Section Blocks.
Context {B F D W Hash Pubkey Account Tx VTx Out ER TR Shred Keypair UiTokenAmount : Type}.
Context {Mode TxError CheckResult : Type}.
Context `{Countable Pubkey} `{!EqDecision Tx}.
Context `{!Banks B, !BankForks F B, !Blockstore D, !BankWorld W B Hash Pubkey Account}.
Context `{!BankWorldLaws W B Hash Pubkey Account}.
Context `{!Entries Hash VTx, !EntriesLaws Hash VTx}.
Context `{!Shreds Shred Hash VTx Keypair, !ShredsLaws Shred Hash VTx Keypair}.
Context `{!ShredStore D Shred Hash}.
Context `{!SanitizedTransactions Tx VTx Pubkey, !Tokens Account Pubkey UiTokenAmount}.
Context `{!Execution Out ER TR W B Hash Tx}.
Context `{!Verification W B Tx VTx Hash Mode TxError CheckResult}.
Context `{!ProcessingReads W B Hash, !Processor Out W B Hash Tx CheckResult}.
Abbreviation storage := (RollupStorage B F D W Pubkey).
Implicit Types (s : storage) (w : W) (b : B) (block : BlockPayload Tx).

(** Locking, executing and committing leave a bank's parent and its number of
    ticks per slot alone. *)
Definition same_static w w' : Prop :=
  ∀ b, bank_parent w' b = bank_parent w b ∧ bank_ticks_per_slot w' b = bank_ticks_per_slot w b.

Class StaticLaws : Prop := {
  static_lock w b txs rs limit : same_static w (lock_accounts_with_results w b txs rs limit).1;
  static_unlock w b txs rs : same_static w (unlock_accounts w b txs rs);
  static_execute w b txs rs env cfg : same_static w (load_and_execute w b txs rs env cfg).1;
  static_commit w b txs o h l c : same_static w (bank_commit_transactions w b txs o h l c).1;
  static_tick w b h : same_static w (bank_register_tick w b h)
}.
Context `{!StaticLaws}.

Lemma same_static_refl w : same_static w w.
Proof using Type. done. Qed.
Lemma same_static_trans w1 w2 w3 : same_static w1 w2 → same_static w2 w3 → same_static w1 w3.
Proof using Type.
  intros H12 H23 b. destruct (H12 b) as [<- <-]. by destruct (H23 b) as [-> ->].
Qed.

Lemma with_world_twice s w w' : with_world (with_world s w) w' = with_world s w'.
Proof using Type. done. Qed.

Lemma process_batch_ok settings s txs :
  ∃ w, (process_batch settings s txs).1 = with_world s w ∧ same_static (st_world s) w.
Proof.
  unfold process_batch, get_batch_results, batch_and_verify_conflicts, drop_batch.
  set (results := if tx_sanity_check _ then _ else _).
  destruct (txs_conflict_check _); simpl.
  - pose proof (static_lock (st_world s) (st_bank s) txs results
      (get_transaction_account_lock_limit (st_world s) (st_bank s))) as H1.
    destruct (lock_accounts_with_results _ _ _ _ _) as [w1 lr]; simpl in *.
    pose proof (static_unlock w1 (st_bank s) txs lr) as H2.
    set (rs := validate_batch _ _ _).
    pose proof (static_execute (unlock_accounts w1 (st_bank s) txs lr) (st_bank s) txs rs
      (environment settings (unlock_accounts w1 (st_bank s) txs lr) (st_bank s))
      (processing_config (unlock_accounts w1 (st_bank s) txs lr) (st_bank s))) as H3.
    destruct (load_and_execute _ _ _ _ _ _) as [w3 o]; simpl in *.
    exists w3. split; [done|]. by eapply same_static_trans; [|eapply same_static_trans].
  - set (rs := validate_batch _ _ _).
    pose proof (static_execute (st_world s) (st_bank s) txs rs
      (environment settings (st_world s) (st_bank s)) (processing_config (st_world s) (st_bank s))) as H3.
    destruct (load_and_execute _ _ _ _ _ _) as [w3 o]; simpl in *. by exists w3.
Qed.

Lemma process_all_ok settings s block :
  ∃ w outs, process_all settings s block = (with_world s w, outs, commit_batch_new <$> block) ∧
    same_static (st_world s) w ∧ length outs = length block.
Proof.
  revert s. induction block as [|txs block IH]; intros s; simpl.
  { exists (st_world s), []. rewrite with_world_id. split_and!; [done|apply same_static_refl|done]. }
  destruct (process_batch_ok settings s txs) as (w1 & Hp & Hs1).
  destruct (process_batch settings s txs) as [s1 o]; simpl in Hp; subst s1.
  destruct (IH (with_world s w1)) as (w2 & outs & -> & Hs2 & Hlen).
  exists w2, (o :: outs). split_and!; [done| |by simpl; f_equal].
  by eapply same_static_trans.
Qed.

(** ** A new block *)

(** The storage can open the next slot: there is a validator key, and the new
    slot is above the current bank's, within the distance shreds can encode. *)
Record can_bump s (key : Pubkey) : Prop := {
  cb_key : st_validator s = Some key;
  cb_slot : (bank_slot (st_bank s) ≤ bf_highest_slot (st_bank_forks s)
             < bank_slot (st_bank s) + 65535)%Z;
  cb_max : (bf_highest_slot (st_bank_forks s) + 1 < u64_max)%Z
}.

Definition next_slot s : Slot := (bf_highest_slot (st_bank_forks s) + 1)%Z.
(** The storage after [bump]. *)
Definition bumped s : storage := (bump_slot s (next_slot s)).1.

(** [s'] is [s] with a new bank for the next slot on top of its bank. *)
Definition on_new_slot s s' : Prop :=
  bank_slot (st_bank s') = next_slot s ∧ bank_parent_slot (st_bank s') = bank_slot (st_bank s) ∧
  st_bank_forks s' = bf_insert (st_bank_forks s) (st_bank s').

Lemma bump_ok s key :
  can_bump s key →
  bump s = Ok (bumped s, inl ()) ∧ on_new_slot s (bumped s) ∧
  bank_parent (st_world (bumped s)) (st_bank (bumped s)) = Some (st_bank s) ∧
  st_validator (bumped s) = Some key ∧ st_blockstore (bumped s) = st_blockstore s ∧
  st_ticks_per_slot (bumped s) = st_ticks_per_slot s.
Proof using BankWorldLaws0.
  intros [Hkey Hslot Hmax]. unfold bump, bumped, bump_slot, new_slot_with_parent, collector_id.
  rewrite Hkey. unfold checked_add. rewrite (proj2 (Z.leb_le _ _)) by lia.
  destruct (bank_new_from_parent (st_world s) (st_bank s) key (next_slot s)) as [w b] eqn:Hb.
  assert (bank_slot (st_bank s) < next_slot s)%Z by (unfold next_slot; lia).
  simpl. fold (next_slot s). rewrite Hb. split_and!; try done.
  - split_and!; simpl; [by eapply new_bank_slot|by eapply new_bank_parent_slot|done].
  - by eapply new_bank_parent.
Qed.

Context (hash_default : Hash) (keypair_of : Pubkey → Keypair).
Context (signatures_u8 : ∀ tx : Tx, (0 ≤ num_required_signatures tx ≤ 255)%Z).

(** Saving shreds to the block store changes nothing else; it may report that
    there are too many of them, or a failure of the store. *)
Lemma blockstore_save_ok s key es :
  st_validator s = Some key →
  (bank_parent_slot (st_bank s) < bank_slot (st_bank s) ≤ bank_parent_slot (st_bank s) + 65535)%Z →
  (bank_slot (st_bank s) < u64_max)%Z → bank_ticks_per_slot (st_world s) (st_bank s) ≠ 0%Z →
  wp (blockstore_save hash_default keypair_of s es) (λ '(s', r),
    (∃ d, s' = with_blockstore s d) ∧
    (r = inl () ∨ r = inr (EStorage TooManyShreds) ∨ ∃ e, r = inr (SolanaBlockstoreError e))).
Proof using B F D W Hash Pubkey Account VTx Shred Keypair Banks0 Shreds0 ShredsLaws0.
  intros Hkey Hpar Hslot Hticks. unfold blockstore_save, transactions_to_shreds. rewrite Hkey.
  wp_step. wp_step. eapply wp_mono; [by apply process_fresh|].
  assert (∃ d, s = with_blockstore s d) as Hid by (exists (st_blockstore s); by destruct s).
  intros [p r] [_ [-> | ->]]; wp_step; wp_step; [|by auto].
  destruct (shredder_entries_to_shreds _ _ _ _ _ _ _ _ _) as [data code].
  destruct (bs_insert_shreds _ data) as [d|e]; [|by eauto 6].
  destruct (bs_insert_shreds d code) as [d'|e]; simpl; eauto 8.
Qed.

Lemma foldl_static {A} (f : W → A → W) l w :
  (∀ w x, same_static w (f w x)) → same_static w (foldl f w l).
Proof using Type.
  intros Hf. revert w. induction l as [|x l IH]; intros w; simpl; [apply same_static_refl|].
  eapply same_static_trans; [apply Hf|apply IH].
Qed.

(** The errors a block can end in: too many shreds, or the store fails. *)
Definition store_error (e : Error) : Prop :=
  match e with
  | EStorage TooManyShreds | EStorage (BlockstoreSetRootFailed _) | SolanaBlockstoreError _ => True
  | _ => False
  end.

(** Committing at least one batch: the batches are committed to the current
    bank, the slot's ticks registered, and only the banks' state and the block
    store change. *)
Lemma commit_ok s key p results origins :
  st_validator s = Some key →
  (bank_parent_slot (st_bank s) < bank_slot (st_bank s) ≤ bank_parent_slot (st_bank s) + 65535)%Z →
  (bank_slot (st_bank s) < u64_max)%Z → bank_ticks_per_slot (st_world s) (st_bank s) ≠ 0%Z →
  bank_parent (st_world s) (st_bank s) = Some p →
  length results = length origins → zip results origins ≠ [] →
  (Z.of_nat (length (filter (λ x, executed_of x = []) (zip results origins)))
    ≤ st_ticks_per_slot s)%Z →
  Forall batch_fits (zip results origins) →
  wp (commit (UiTokenAmount:=UiTokenAmount) hash_default keypair_of s results origins)
     (λ '(s', r, _), (∃ w d, s' = with_blockstore (with_world s w) d) ∧
        match r with inl _ => True | inr e => store_error e end).
Proof.
  intros Hkey Hpar Hslot Hticks Hp Hlen Hne Hcount Hfits.
  destruct (block_entries_ok s (zip results origins) p Hp Hne Hcount)
    as (data & ticks & Hdata & Hcomp & _).
  unfold commit, commit_block. rewrite decide_False by lia. rewrite Hdata.
  wp_step. wp_step. rewrite Hcomp. wp_step. wp_step.
  eapply wp_mono; [by apply bank_commit_ok|]. intros [[s1 rtn] ev] [-> _]. wp_step.
  set (w1 := foldl _ _ (filter _ (data ++ ticks))).
  assert (same_static (st_world s) w1) as Hst.
  { eapply same_static_trans; [|apply foldl_static; intros; apply static_tick].
    apply foldl_static. intros w x. apply static_commit. }
  eapply wp_mono.
  { apply (blockstore_save_ok (with_world s w1) key); try done.
    simpl. by rewrite (proj2 (Hst (st_bank s))). }
  intros [s2 r] [[d ->] Hr]. wp_step. wp_step. split; [by eexists _, _|].
  by destruct Hr as [-> |[-> |[e ->]]].
Qed.

(** The batches a block leads to: what executing it on the new slot returns. *)
Definition executed_batches settings s block : list (Out * CommitBatch Pubkey Tx) :=
  let '(_, outs, origins) := process_all settings (bumped s) block in zip outs origins.

(** The number of its batches in which no transaction was executed. *)
Definition empty_batches settings s block : Z :=
  Z.of_nat (length (filter (λ x, executed_of x = []) (executed_batches settings s block))).

Lemma block_fits settings s block :
  Forall (λ txs : list Tx, Z.of_nat (length txs) < 2 ^ 56)%Z block →
  Forall batch_fits (executed_batches settings s block).
Proof.
  intros Hb. unfold executed_batches.
  destruct (process_all_ok settings (bumped s) block) as (w & outs & -> & _).
  apply Forall_forall. intros [o b] Hin%elem_of_zip_r. simpl in Hin.
  apply list_elem_of_fmap in Hin as (txs & -> & Htxs). rewrite Forall_forall in Hb.
  specialize (Hb _ Htxs). unfold batch_fits. simpl. rewrite length_zip_with. lia.
Qed.

(** [new_block] returns, on a new slot; its errors are those of the store. *)
Lemma new_block_ok x s key block :
  ex_storage x = Some s → can_bump s key → block ≠ [] →
  bank_ticks_per_slot (st_world (bumped s)) (st_bank (bumped s)) ≠ 0%Z →
  Forall batch_fits (executed_batches (ex_settings x) s block) →
  (empty_batches (ex_settings x) s block ≤ st_ticks_per_slot s)%Z →
  wp (new_block (UiTokenAmount:=UiTokenAmount) hash_default keypair_of x block)
     (λ '(x', r, _), ∃ s', ex_storage x' = Some s' ∧ on_new_slot s s' ∧
        match r with
        | inl info => head_slot (info_head info) = next_slot s
        | inr (ExecStorageError e) => store_error e
        | inr _ => False
        end).
Proof.
  intros Hx Hcb Hne Hticks Hfits Hempty. unfold empty_batches, executed_batches in *.
  destruct (bump_ok s key Hcb) as (Hbump & Hnew & Hpar & Hval & _ & Htps).
  destruct (process_all_ok (ex_settings x) (bumped s) block) as (w & outs & Hall & Hst & Hlen).
  rewrite Hall in Hempty, Hfits.
  unfold new_block. rewrite Hx. wp_step. rewrite Hbump. wp_step. rewrite Hall. wp_step.
  pose proof Hnew as (Hslot & Hps & Hf). destruct Hcb as [_ Hs Hmax]. unfold next_slot in *.
  eapply wp_mono.
  - apply (commit_ok _ key (st_bank s)); simpl; try done; try lia.
    + by rewrite (proj2 (Hst _)).
    + by rewrite (proj1 (Hst _)).
    + by rewrite length_fmap.
    + destruct outs, block; done.
  - intros [[s2 r] ev] [(w2 & d & ->) Hr]. destruct r as [[]|e]; wp_step.
    + unfold confirm_block, confirm. simpl. destruct (bs_set_roots d _) as [d'|msg]; simpl.
      * eexists. split; [done|]. split; [done|]. unfold get_slot_info, get_slot_head. simpl.
        repeat case_match; by simplify_eq/=.
      * by eexists.
    + by eexists.
Qed.

(** More batches without an executed transaction than ticks in a slot. *)
Lemma new_block_overflow x s key block :
  ex_storage x = Some s → can_bump s key →
  (0 ≤ st_ticks_per_slot s < empty_batches (ex_settings x) s block)%Z →
  ∃ msg, new_block (UiTokenAmount:=UiTokenAmount) hash_default keypair_of x block = Panic msg.
Proof.
  intros Hx Hcb Hempty. unfold empty_batches, executed_batches in *.
  destruct (bump_ok s key Hcb) as (Hbump & _ & Hpar & _ & _ & Htps).
  destruct (process_all_ok (ex_settings x) (bumped s) block) as (w & outs & Hall & Hst & Hlen).
  rewrite Hall in Hempty. rewrite <-Htps in Hempty.
  destruct (block_entries_overflow (with_world (bumped s) w) (zip outs (commit_batch_new <$> block))
    (st_bank s)) as (data & msg & Hdata & Hp); [by rewrite <-Hpar; apply (Hst _)|exact Hempty|].
  exists msg. unfold new_block. rewrite Hx. simpl. rewrite Hbump. simpl. rewrite Hall. simpl.
  unfold commit, commit_block. rewrite decide_False by (rewrite length_fmap; lia).
  by rewrite Hdata, Hp.
Qed.

(** An empty block is refused, after the slot has been opened. *)
Lemma new_block_empty_ok x s key :
  ex_storage x = Some s → can_bump s key →
  new_block (UiTokenAmount:=UiTokenAmount) hash_default keypair_of x [] =
  Ok (with_storage x (bumped s), inr (ExecStorageError NoEntries), []).
Proof using BankWorldLaws0.
  intros Hx Hcb. destruct (bump_ok s key Hcb) as (Hbump & _).
  unfold new_block. by rewrite Hx, Hbump.
Qed.
End Blocks.
