(* ===== verification/StorageDemo.v ===== *)
(** * A small instance of the storage's environment

    Banks, forks, block store, entries, shreds, transactions and locks as small
    concrete types, used to apply the theorems of storage, verifier and
    executor to concrete states. *)
From S2P Require Import Prelude Banks Ledger LedgerFacts MapForks Shreds CommitBatch Commit.
From S2P Require Import CommitFacts Verifier VerifierFacts Executor ExecutorFacts.

Module StorageDemo.

(** A transaction: the accounts it writes and those it reads. *)
Record tx := mkTx { writes : list nat; reads : list nat }.
#[global] Instance tx_eq_dec : EqDecision tx.
Proof. solve_decision. Defined.

(** The banks' state: the locks, and the ticks registered. *)
Record world := mkWorld { view : lock_view nat; ticks : list (Slot * Z) }.

(** The block store: dead slots, roots, and the shreds inserted. *)
Record store := mkStore { dead : list Slot; roots : list Slot; shreds : list Z }.

#[global] Instance entries : Entries Z tx := {|
  next_hash h n txs := (h * 31 + n + 7 * Z.of_nat (length txs))%Z;
  is_tick e := bool_decide (entry_transactions e = [])
|}.
#[global] Instance entries_laws : EntriesLaws Z tx.
Proof. intros e. apply bool_decide_eq_true. Qed.

#[global] Instance bank_world : BankWorld world PathBank.t Z nat Z := {|
  bank_hash _ b := (1000 + bank_slot b)%Z;
  bank_last_blockhash _ b := (2000 + bank_slot b)%Z;
  bank_parent _ b := PathBank.parent b;
  bank_tick_height _ b := (8 * bank_parent_slot b)%Z;
  bank_max_tick_height _ b := (8 * (bank_parent_slot b + 1))%Z;
  bank_ticks_per_slot _ _ := 8%Z;
  bank_lamports_per_signature _ _ := 5000%Z;
  bank_get_account _ _ key := if decide (key < 20) then Some (Z.of_nat key) else None;
  account_lamports a := a;
  bank_freeze w _ := w;
  bank_squash w _ := w;
  bank_store_account w _ _ _ := w;
  bank_register_tick w b h := mkWorld (view w) (ticks w ++ [(bank_slot b, h)]);
  bank_new_from_parent w p _ s := (w, PathBank.child p s)
|}.
#[global] Instance bank_world_laws : BankWorldLaws world PathBank.t Z nat Z.
Proof.
  split; simpl; intros w p id s w' b [= <- <-]; [apply PathBank.child_slot|done|done].
Qed.

#[global] Instance blockstore : Blockstore store := {|
  bs_max_root d := foldr Z.max 0%Z (roots d);
  bs_highest_slot _ := inl None;
  bs_set_roots d s := inl (mkStore (dead d) (s :: roots d) (shreds d));
  bs_set_dead_slot d s := inl (mkStore (s :: dead d) (roots d) (shreds d));
  bs_rooted_block_time _ _ := inr "not rooted";
  bs_is_dead d s := bool_decide (s ∈ dead d)
|}.
#[global] Instance blockstore_laws : BlockstoreLaws store.
Proof.
  split; simpl.
  - intros d s d' x [= <-]. simpl. apply eq_true_iff_eq.
    rewrite orb_true_iff, !bool_decide_eq_true, elem_of_cons. done.
  - by intros d s d' x [= <-].
Qed.

(** One data shred per entry and one coding shred. *)
#[global] Instance shredder : Shreds Z Z tx nat := {|
  shred_index s := Z.max 0 (Z.min s 1000);
  shred_merkle_root s := Some s;
  shredder_new _ _ _ _ := true;
  shredder_entries_to_shreds _ _ _ _ _ es _ i j :=
    ((λ n, (i + Z.of_nat n)%Z) <$> seq 0 (length es), [j]);
  MAX_DATA_SHREDS_PER_SLOT := 32768%Z;
  MAX_CODE_SHREDS_PER_SLOT := 32768%Z
|}.
#[global] Instance shredder_laws : ShredsLaws Z Z tx nat.
Proof.
  split; simpl; try done. intros. unfold u32_max. lia.
Qed.
#[global] Instance shred_store : ShredStore store Z Z := {|
  bs_meta_last_index _ _ := inl None;
  bs_data_shred_root _ _ _ := inl None;
  bs_insert_shreds d l := inl (mkStore (dead d) (roots d) (shreds d ++ l))
|}.

#[global] Instance transactions : SanitizedTransactions tx tx nat := {|
  to_versioned_transaction t := t;
  tx_account_keys t := writes t ++ reads t;
  is_invoked _ _ := false;
  num_required_signatures _ := 1%Z;
  is_simple_vote_transaction _ := false
|}.
(** Key 9 is the token program, which owns every account; account [a] holds
    [a] tokens of mint 8, which has 6 decimals. *)
#[global] Instance tokens : Tokens Z nat Z := {|
  is_known_spl_token_id k := bool_decide (k = 9);
  account_owner _ := 9;
  unpack_token_account a := Some (8, 3, a);
  unpack_mint _ := Some 6%Z;
  token_amount_to_ui_amount_v2 a d := (a * 10 ^ d)%Z;
  pubkey_to_string _ := "key";
  native_mint_id := 0;
  native_mint_DECIMALS := 9%Z
|}.

(** Executing: every transaction whose check passed is executed. *)
#[global] Instance execution : Execution (list bool) bool nat world PathBank.t Z tx := {|
  execution_results o := o;
  was_executed r := r;
  flattened_result_is_err r := negb r;
  bank_commit_transactions w _ txs _ _ _ _ := (w, length txs)
|}.

#[global] Instance tx_locks : TxLocks nat tx := {|
  tx_write_keys t := list_to_set (writes t);
  tx_read_keys t := list_to_set (reads t);
  tx_locks_valid _ _ := true
|}.
Definition AccountInUse : string := "AccountInUse".
Definition lock (w : world) (txs : list tx) (limit : nat) : world * list (unit + string) :=
  let '(v, oks) := lock_run limit (view w) txs in
  (mkWorld v (ticks w), (λ ok, if ok : bool then inl () else inr AccountInUse) <$> oks).

#[global] Instance verification :
    Verification world PathBank.t tx tx Z unit string (unit + string) := {|
  fully_verify_transaction _ _ t := inl t;
  verify_transaction _ _ t _ := inl t;
  ResanitizationNeeded := "ResanitizationNeeded";
  get_transaction_account_lock_limit _ _ := 64;
  lock_accounts w _ txs limit := lock w txs limit;
  lock_accounts_with_results w _ txs _ limit := lock w txs limit;
  unlock_accounts w _ _ _ := mkWorld no_locks (ticks w);
  check_transactions _ _ _ rs _ := rs;
  bank_hashes_per_tick _ _ := None;
  entries_tick_count es := tick_count es;
  verify_tick_hash_count _ c _ := (true, c)
|}.
#[global] Instance lock_views : LockViews PathBank.t world nat := λ w _, view w.
#[global] Instance verification_laws :
  VerificationLaws (B:=PathBank.t) (W:=world) (Tx:=tx) (VTx:=tx) (Hash:=Z) (Mode:=unit)
    (TxError:=string) (CheckResult:=unit + string).
Proof.
  split; simpl; try done.
  - intros w b txs limit w' rs. unfold lock, locks_of, lock_views.
    destruct (lock_run limit (view w) txs) as [v oks]. intros [= <- <-]. simpl. f_equal.
    rewrite <-list_fmap_compose. induction oks as [|[] oks IH]; csimpl; [done|..]; by f_equal.
Qed.

#[global] Instance processing_reads : ProcessingReads world PathBank.t Z := {|
  VoteAccounts := unit; FeatureSet := unit; RentCollector := unit; ComputeBudget := unit;
  last_blockhash_and_lamports_per_signature w b := (bank_last_blockhash w b, 5000%Z);
  bank_epoch _ _ := 0%Z;
  epoch_total_stake _ _ _ := None;
  epoch_vote_accounts _ _ _ := None;
  feature_set _ _ := ();
  rent_collector _ _ := ();
  check_program_modification_slot _ _ := false;
  compute_budget _ _ := None
|}.
#[global] Instance processor : Processor (list bool) world PathBank.t Z tx (unit + string) :=
  λ w _ _ rs _ _, (w, (λ r : unit + string, match r with inl _ => true | inr _ => false end) <$> rs).
#[global] Instance static_laws :
  StaticLaws (Mode:=unit) (TxError:=string) (Hash:=Z) (VTx:=tx) (Pubkey:=nat) (Account:=Z)
    (B:=PathBank.t) (W:=world) (Tx:=tx) (Out:=list bool) (ER:=bool) (TR:=nat)
    (CheckResult:=unit + string).
Proof. split; intros; done. Qed.
End StorageDemo.
