(* ===== verification/StorageTheorems.v ===== *)
(** * Theorems about storage, verifier and executor

    Reorganisation, committed entries, block checking and block production,
    with each theorem applied to a concrete state at the end. *)
From S2P Require Import Prelude Banks Ledger LedgerFacts MapForks Shreds CommitBatch Commit.
From S2P Require Import CommitFacts Verifier VerifierFacts Executor ExecutorFacts StorageDemo.

(** ** Reorganisation *)

Section Reorganisation.
Context {B F D W Hash Pubkey Account : Type}.
Context `{!Banks B, !BankForks F B, !Blockstore D, !BankWorld W B Hash Pubkey Account}.
Context `{!BanksLaws B, !BankForksLaws F B, !BlockstoreLaws D}.
Abbreviation storage := (RollupStorage B F D W Pubkey).

(** C13: a reorganisation abandons exactly the other forks.  Unless it may walk
    down to the genesis bank, [reorg] to a slot whose bank is in the forks
    returns.  It returns exactly the banks it took out of the forks; of these
    every one that is not an ancestor of the new root is dead afterwards, unless
    the block store refused to mark its slot, which is only logged; no other
    slot becomes dead and no dead slot comes back; the current bank becomes the
    working bank.  An error leaves the current bank and the forks as they were.
    On a slot that is not in the forks [reorg] panics, after the block store
    took it as a root. *)
Theorem reorg_abandons_forks (s : storage) slot finalized :
  (0 < default slot finalized)%Z ∨ bf_get (st_bank_forks s) 0%Z = None →
  (is_Some (bf_get (st_bank_forks s) slot) ∨ (∃ e, bs_set_roots (st_blockstore s) slot = inr e) →
   ∃ s' r, reorg (Z.to_nat slot + 2) s slot finalized = Ok (s', r) ∧
     match r with
     | inl removed => abandons s slot s' removed
     | inr _ => st_bank s' = st_bank s ∧ st_bank_forks s' = st_bank_forks s
     end) ∧
  (bf_get (st_bank_forks s) slot = None → (∃ d, bs_set_roots (st_blockstore s) slot = inl d) →
   ∃ msg, reorg (Z.to_nat slot + 2) s slot finalized = Panic msg).
Proof using Type BanksLaws0 BankForksLaws0 BlockstoreLaws0 Account Hash BankWorld0.
  intros H0. split.
  - intros Hslot. destruct (wp_elim _ _ (reorg_ok (Z.to_nat slot + 2) s slot finalized H0 Hslot
      ltac:(lia))) as ([s' r] & Heq & Hpost). eauto.
  - intros Hn [d Hd]. by eapply reorg_unknown_root.
Qed.

(** Chains down to the stop of a [set_root] survive it. *)
Lemma ancestor_kept (f f' : F) root removed s t :
  bf_set_root f root (Some 0%Z) = Ok (inl (f', removed)) →
  t = root ∨ ancestor f t root → ancestor f s t → ancestor f' s t.
Proof using Type BanksLaws0 BankForksLaws0 BankWorld0 W Pubkey Hash Account.
  intros Hset Ht Ha. assert (∀ u b, u = root ∨ ancestor f u root → bf_get f u = Some b →
    bf_get f' u = Some b) as Hkept.
  { intros u b [->|Hu] Hb.
    - destruct (bf_set_root_root _ _ _ _ _ Hset) as (b' & ? & ?). congruence.
    - rewrite (bf_set_root_ancestor _ _ _ _ _ _ _ Hset Hu Hb), decide_True; [done|].
      simpl. apply ancestor_lt in Hu. lia. }
  induction Ha as [t b c Hb Hc Hne|s t b c Hb Hc Hne Ha IH].
  all: assert (ancestor f (bank_parent_slot b) root) as Hp by (by eapply ancestor_extend).
  - by eapply ancestor_parent; [apply Hkept|apply Hkept; [right|]|].
  - eapply ancestor_step; [by apply Hkept|apply Hkept; [by right|done]|done|].
    apply IH. by right.
Qed.

(** C18: the executor's reorganisation with finalized slot 0 does not end.  An
    executor opened on a root of slot 0 keeps that finalized slot.  As long as
    the genesis bank is in the forks and the new root descends from it,
    [Executor::reorg] runs out of any amount of fuel once the root is set: the
    walk to the oldest kept ancestor stays at the genesis bank, its own
    parent. *)
Theorem reorg_to_genesis_never_ends {TxError : Type} (s : storage) settings slot d f' removed fuel :
  let x := executor_new s settings in
  bf_root (st_bank_forks s) = 0%Z →
  is_Some (bf_get (st_bank_forks s) 0%Z) →
  slot = 0%Z ∨ ancestor (st_bank_forks s) 0%Z slot →
  bs_set_roots (st_blockstore s) slot = inl d →
  bf_set_root (st_bank_forks s) slot (Some 0%Z) = Ok (inl (f', removed)) →
  executor_reorg (TxError:=TxError) fuel x slot = Panic "out of fuel".
Proof using Type BanksLaws0 BankForksLaws0 BankWorld0 W Pubkey Hash Account.
  intros x Hroot H0 Hslot Hd Hset. unfold executor_reorg, x, executor_new. simpl.
  unfold get_root. rewrite Hroot. unfold reorg, set_root. rewrite Hd. simpl. rewrite Hset. simpl.
  unfold find_ancestors. simpl. rewrite lowest_kept_diverges; [done| |].
  - destruct H0 as [b0 H0]. destruct Hslot as [->|Ha].
    + destruct (bf_set_root_root _ _ _ _ _ Hset) as (b & _ & Hb). by exists b.
    + rewrite (bf_set_root_ancestor _ _ _ _ _ _ _ Hset Ha H0), decide_True by done. by exists b0.
  - destruct Hslot as [->|Ha]; [by left|right]. eapply ancestor_kept; [done|by left|done].
Qed.
End Reorganisation.

(** ** Committed entries *)

Section Committing.
Context {B F D W Hash Pubkey Account Tx VTx Out ER TR Shred Keypair UiTokenAmount : Type}.
Context {Mode TxError CheckResult : Type}.
Context `{Countable Pubkey} `{!EqDecision Tx}.
Context `{!Banks B, !BankForks F B, !Blockstore D, !BankWorld W B Hash Pubkey Account}.
Context `{!BankWorldLaws W B Hash Pubkey Account}.
Context `{!Entries Hash VTx, !EntriesLaws Hash VTx}.
Context `{!Shreds Shred Hash VTx Keypair, !ShredsLaws Shred Hash VTx Keypair}.
Context `{!ShredStore D Shred Hash}.
Context `{!SanitizedTransactions Tx VTx Pubkey, !Tokens Account Pubkey UiTokenAmount}.
Context `{!Execution Out ER TR W B Hash Tx}.
Context `{!Verification W B Tx VTx Hash Mode TxError CheckResult}.
Context `{!ProcessingReads W B Hash, !Processor Out W B Hash Tx CheckResult}.
Context `{!TxLocks Pubkey Tx, !LockViews B W Pubkey}.
Context `{!VerificationLaws (Mode:=Mode) (CheckResult:=CheckResult)}.
Context `{!StaticLaws (Mode:=Mode) (CheckResult:=CheckResult)}.
Context (hash_default : Hash) (keypair_of : Pubkey → Keypair).
Abbreviation storage := (RollupStorage B F D W Pubkey).
Implicit Types (s : storage).
(** The data of the section, without laws. *)
Collection Env := Type B F D W Hash Pubkey Account Tx VTx Out ER TR Shred Keypair UiTokenAmount
  Mode TxError CheckResult EqDecision0 H EqDecision1 Banks0 BankForks0 Blockstore0 BankWorld0
  Entries0 Shreds0 ShredStore0 SanitizedTransactions0 Tokens0 Execution0 Verification0 Processor0.

Lemma has_trailing_ticks (es ticks : list (Entry Hash VTx)) :
  ticks ≠ [] → Forall (λ e, entry_transactions e = []) ticks →
  has_trailing_entry (es ++ ticks) = false.
Proof using Type EntriesLaws0.
  intros Hne Hall. unfold has_trailing_entry. destruct (last ticks) as [e|] eqn:Hl.
  - rewrite last_app, Hl. apply last_Some_elem_of in Hl. rewrite Forall_forall in Hall.
    rewrite (proj2 (is_tick_spec e) (Hall e Hl)). done.
  - by apply last_None in Hl.
Qed.
(** C15: the entries of a committed block form a block the verifier accepts.
    When fewer batches are empty than a slot has ticks, [commit_block] makes one
    entry per batch, with its executed transactions, and fills up with ticks:
    the hashes chain from the parent's last blockhash, there are exactly
    [ticks_per_slot] ticks, and on a bank at the start of its slot
    [verify_ticks] accepts the full slot when the hash counts are right. *)
Theorem committed_entries_verify s (l : list (Out * CommitBatch Pubkey Tx)) p settings count :
  bank_parent (st_world s) (st_bank s) = Some p → l ≠ [] →
  (Z.of_nat (length (filter (λ x, executed_of x = []) l)) < st_ticks_per_slot s)%Z →
  (bank_tick_height (st_world s) (st_bank s) + st_ticks_per_slot s
     = bank_max_tick_height (st_world s) (st_bank s))%Z →
  (bank_max_tick_height (st_world s) (st_bank s) ≤ u64_max)%Z →
  ∃ data ticks,
    data_entries_from s l None [] = inl data ∧
    complete_entries s data = Ok (inl (data ++ ticks)) ∧
    entry_transactions <$> data = executed_of <$> l ∧
    chained (bank_last_blockhash (st_world s) p) (data ++ ticks) ∧
    tick_count (data ++ ticks) = st_ticks_per_slot s ∧
    ((verify_tick_hash_count (data ++ ticks) count
        (default 0%Z (bank_hashes_per_tick (st_world s) (st_bank s)))).1 = true →
     ∃ c, verify_ticks (mkVerifier (st_bank s) settings) (st_world s) (data ++ ticks) true count
          = Ok (c, inl ())).
Proof using Env EntriesLaws0 VerificationLaws0.
  intros Hp Hne Hlt Hheight Hmax.
  destruct (block_entries_ok s l p Hp Hne)
    as (data & ticks & Hdata & Hcomp & Htx & Hall & Hch & Hcount); [lia|].
  exists data, ticks. split_and!; try done. intros Hhash.
  assert (ticks ≠ []) as Hticks.
  { intros ->. rewrite app_nil_r, (tick_count_executed data l Htx) in Hcount. lia. }
  destruct (wp_elim _ _ (verify_ticks_ok (mkVerifier (st_bank s) settings) (st_world s)
    (data ++ ticks) true count ltac:(cbn [v_bank]; rewrite Hcount; lia))) as ([c r] & Heq & [Hr _]).
  exists c. rewrite Heq. do 2 f_equal. apply Hr. split; [|done]. right. simpl.
  split_and!; [lia|done|by apply has_trailing_ticks].
Qed.

(** C19: [commit_block] refuses what it cannot turn into a block, leaving the
    storage as it was: results that do not match the batches, no batch at all,
    a bank without parent.  More empty batches than ticks in a slot make the
    subtraction of the ticks underflow. *)
Theorem commit_block_errors s (results : list Out) (origins : list (CommitBatch Pubkey Tx)) :
  let run := commit_block (UiTokenAmount:=UiTokenAmount) hash_default keypair_of s in
  (length results ≠ length origins →
     run results origins = Ok (s, inr CommitBachAndResultsNotMatch, [])) ∧
  run [] [] = Ok (s, inr NoEntries, []) ∧
  (length results = length origins → results ≠ [] →
     bank_parent (st_world s) (st_bank s) = None →
     run results origins = Ok (s, inr (EBank (BankNotExists (bank_parent_slot (st_bank s)))), [])) ∧
  (length results = length origins → is_Some (bank_parent (st_world s) (st_bank s)) →
     (0 ≤ st_ticks_per_slot s
        < Z.of_nat (length (filter (λ x, executed_of x = []) (zip results origins))))%Z →
     ∃ msg, run results origins = Panic msg).
Proof using Env EntriesLaws0.
  unfold commit_block. split_and!.
  - intros Hlen. by rewrite decide_True.
  - done.
  - intros Hlen Hne Hp. rewrite decide_False by lia.
    destruct results as [|o results], origins as [|b origins]; try done. simpl.
    unfold transactions_to_entry. by rewrite Hp.
  - intros Hlen [p Hp] Hticks. rewrite decide_False by lia.
    destruct (block_entries_overflow s _ p Hp Hticks) as (data & msg & Hdata & Hc).
    exists msg. by rewrite Hdata, Hc.
Qed.

(** ** Checking a block *)

(** C17: [check_block] with the conflict check accepts a block exactly when its
    transactions pass the sanity check (if it is on), have valid locks, conflict
    with nothing locked on the bank, and no two of them conflict, also across
    the batches of the block. *)
Theorem check_block_exact (x : Executor B F D W Pubkey) s (block : BlockPayload Tx) sw :
  ex_storage x = Some s → txs_conflict_check sw = true →
  let limit := get_transaction_account_lock_limit (st_world s) (st_bank s) in
  (check_block x block (Some sw)).2 = inl () ↔
  (tx_sanity_check sw = true →
     sanity_check_all (mkVerifier (st_bank s) Settings_default) (st_world s) block = inl ()) ∧
  Forall (λ tx, tx_locks_valid tx limit = true) (concat block) ∧
  Forall (lockable (locks_of (st_world s) (st_bank s))) (concat block) ∧
  StronglySorted compatible (concat block).
Proof using Env VerificationLaws0.
  intros Hx Hsw limit. unfold check_block, check_payload. rewrite Hx. simpl. rewrite Hsw.
  set (v := mkVerifier (st_bank s) Settings_default).
  destruct (conflict_check_all_ok v (st_world s) block) as [Hok _]. simpl in Hok.
  rewrite lock_run_all in Hok. fold limit in Hok. rewrite <-Hok. clear Hok.
  destruct (conflict_check_all v (st_world s) block) as [w r] eqn:Hr.
  destruct (tx_sanity_check sw); [destruct (sanity_check_all v (st_world s) block) as [[]|e]|];
    simpl; [destruct r as [[]|e']; simpl; naive_solver|naive_solver|].
  destruct r as [[]|e']; simpl; naive_solver.
Qed.
(** [check_block] keeps the locks it takes.  A block that was accepted and
    in which some transaction writes an account is rejected when it is checked
    again on the same bank. *)
Theorem check_block_keeps_locks (x x' : Executor B F D W Pubkey) s (block : BlockPayload Tx) tx a :
  let sw := mkSwitchs false true in
  ex_storage x = Some s → check_block (TxError:=TxError) x block (Some sw) = (x', inl ()) →
  tx ∈ concat block → a ∈ tx_write_keys tx →
  (check_block (TxError:=TxError) x' block (Some sw)).2 ≠ inl ().
Proof using Env VerificationLaws0.
  intros sw Hx Hc Htx Ha. unfold check_block, check_payload in Hc. rewrite Hx in Hc. simpl in Hc.
  set (v := mkVerifier (st_bank s) Settings_default) in Hc.
  destruct (conflict_check_all_ok v (st_world s) block) as [Hok Hlocks]. simpl in Hok, Hlocks.
  destruct (conflict_check_all v (st_world s) block) as [w r] eqn:Hr. destruct r as [[]|e]; [|done].
  injection Hc as <-. simpl in Hok, Hlocks.
  destruct (lock_run_locked _ _ _ (proj1 Hok eq_refl)) as [_ Hin].
  rewrite <-Hlocks in Hin by done. specialize (Hin tx Htx).
  unfold check_block, check_payload. simpl. fold v.
  destruct (conflict_check_all_ok v w block) as [Hok2 _]. simpl in Hok2.
  destruct (conflict_check_all v w block) as [w2 [[]|e]]; [|done]. intros _.
  apply proj1 in Hok2. specialize (Hok2 eq_refl). apply lock_run_all in Hok2 as (_ & Hl & _).
  rewrite Forall_forall in Hl. destruct (Hl tx Htx) as [Hd _].
  apply (proj1 (elem_of_disjoint _ _) Hd a Ha). by apply Hin.
Qed.

(** ** Producing a block *)

(** C16: what [new_block] of at least one batch ends in.  It assumes an executor
    with storage and a validator key, a next slot above the bank's own by at
    most 65535 and below the largest, a bank whose slots have ticks, at most 255
    signatures per transaction and fewer than 2^56 transactions per batch.  When at
    most a slot's ticks of the batches executed nothing, [new_block] returns on
    a new bank for the next slot on top of the current one, with the information
    of that slot or with an error: too many shreds, or one of the block store.
    When more of them executed nothing, the subtraction of the ticks underflows
    and it panics. *)
Theorem new_block_outcome (x : Executor B F D W Pubkey) s key (block : BlockPayload Tx) :
  (∀ tx : Tx, (0 ≤ num_required_signatures tx ≤ 255)%Z) →
  ex_storage x = Some s → can_bump s key → block ≠ [] → (0 ≤ st_ticks_per_slot s)%Z →
  bank_ticks_per_slot (st_world (bumped s)) (st_bank (bumped s)) ≠ 0%Z →
  Forall (λ txs : list Tx, Z.of_nat (length txs) < 2 ^ 56)%Z block →
  let run := new_block (UiTokenAmount:=UiTokenAmount) hash_default keypair_of x block in
  if decide (empty_batches (ex_settings x) s block ≤ st_ticks_per_slot s)%Z then
    ∃ x' r ev s', run = Ok (x', r, ev) ∧ ex_storage x' = Some s' ∧ on_new_slot s s' ∧
      match r with
      | inl info => head_slot (info_head info) = next_slot s
      | inr (ExecStorageError e) => store_error e
      | inr _ => False
      end
  else ∃ msg, run = Panic msg.
Proof using Env EntriesLaws0 ShredsLaws0 StaticLaws0 BankWorldLaws0.
  intros Hsig Hx Hcb Hne Hpos Hticks Hb run.
  pose proof (block_fits hash_default keypair_of Hsig (ex_settings x) s block Hb) as Hfits. case_decide as Hempty.
  - destruct (wp_elim _ _ (new_block_ok hash_default keypair_of Hsig x s key block Hx Hcb Hne
      Hticks Hfits Hempty)) as ([[x' r] ev] & Heq & s' & Hs & Hnew & Hr). by exists x', r, ev, s'.
  - eapply new_block_overflow; [done..|lia].
Qed.

(** an empty block opens a slot and then fails: [new_block] of no batches
    returns [NoEntries], and the executor is left on the new slot. *)
Theorem new_block_empty (x : Executor B F D W Pubkey) s key :
  ex_storage x = Some s → can_bump s key →
  new_block (UiTokenAmount:=UiTokenAmount) hash_default keypair_of x [] =
    Ok (with_storage x (bumped s), inr (ExecStorageError NoEntries), []) ∧
  on_new_slot s (bumped s).
Proof using Env BankWorldLaws0.
  intros Hx Hcb. split; [by eapply new_block_empty_ok|].
  by destruct (bump_ok s key Hcb) as (_ & ? & _).
Qed.

(** the cache of mint decimals is transparent: with a cache that agrees
    with the bank, the token balances are those read without a cache. *)
Theorem token_balances_cached (b : CommitBatch Pubkey Tx) (w : W) (bank : B) :
  cache_ok w bank (mint_decimals b) →
  (collect_token_balances b w bank).2 = token_balances_of w bank <$> sanitized_txs b ∧
  cache_ok w bank (mint_decimals (collect_token_balances b w bank).1).
Proof using Type Banks0. apply collect_token_balances_ok. Qed.
End Committing.

(** ** Concrete states *)

Module Example.
Import StorageDemo.

Abbreviation forks := (MapForks.t PathBank.t).
Abbreviation demo_storage := (RollupStorage PathBank.t forks store world nat).

(** Slots 0, 1, 3 and 4 in a line, and a fork 2 of slot 1. *)
Definition b0 : PathBank.t := [].
Definition b1 : PathBank.t := PathBank.child b0 1.
Definition b2 : PathBank.t := PathBank.child b1 2.
Definition b3 : PathBank.t := PathBank.child b1 3.
Definition b4 : PathBank.t := PathBank.child b3 4.
Definition forks_of (l : list PathBank.t) : forks :=
  MapForks.mk b0 0 (list_to_map ((λ b, (bank_slot b, b)) <$> l)).
Definition storage_of (b : PathBank.t) (l : list PathBank.t) : demo_storage :=
  mkStorage b (forks_of l) (mkStore [] [] []) (mkWorld no_locks []) true (Some 7) 8 true.
Definition s4 : demo_storage := storage_of b4 [b0; b1; b2; b3; b4].

(** Reorganising to slot 3 with finalized slot 3 marks the fork 2 dead, not the
    ancestors 0 and 1; reorganising to slot 7, which has no bank, panics. *)
Lemma reorg_abandons_forks_witness :
  (∃ s' removed, reorg 5 s4 3 (Some 3%Z) = Ok (s', inl removed) ∧ abandons s4 3 s' removed ∧
     dead (st_blockstore s') = [2%Z] ∧ st_bank s' = b4) ∧
  ∃ msg, reorg 9 s4 7 (Some 3%Z) = Panic msg.
Proof.
  split.
  - destruct (reorg_abandons_forks s4 3 (Some 3%Z)) as [Hk _]; [left; vm_compute; done|].
    destruct Hk as (s' & r & Heq & Hr); [left; by exists b3|].
    destruct r as [removed|e]; [|by vm_compute in Heq]. exists s', removed.
    split; [exact Heq|]. split; [exact Hr|]. vm_compute in Heq. by injection Heq as <- _.
  - apply (reorg_abandons_forks s4 7 (Some 3%Z)); [left; vm_compute; done|done|by eexists].
Defined.

Lemma reorg_to_genesis_witness :
  executor_reorg (TxError:=string) 1000 (executor_new s4 Settings_default) 3
  = Panic "out of fuel" ∧
  ∃ f removed, bf_set_root (st_bank_forks s4) 3%Z (Some 0%Z) = Ok (inl (f, removed)).
Proof.
  destruct (bf_set_root (st_bank_forks s4) 3%Z (Some 0%Z)) as [[[f removed]|]|] eqn:Hset;
    [|by vm_compute in Hset..]. split; [|by exists f, removed].
  eapply (reorg_to_genesis_never_ends s4 Settings_default 3).
  - done.
  - by exists b0.
  - right. apply (ancestor_step _ 0 3 b3 b1); [done..|]. by refine (ancestor_parent (st_bank_forks s4) 1 b1 b0 _ _ _).
  - done.
  - exact Hset.
Defined.

(** Two transactions that share no account they write, and one that does. *)
Definition t1 : tx := mkTx [1] [9].
Definition t2 : tx := mkTx [2] [9].
Definition t3 : tx := mkTx [1] [].
Abbreviation demo_batch := (CommitBatch nat tx).
Definition results : list (list bool) := [[true]; [false]; [true; true]].
Definition batches : list demo_batch := commit_batch_new <$> [[t1]; [t2]; [t1; t2]].

Lemma committed_entries_witness :
  ∃ data ticks, data_entries_from s4 (zip results batches) None [] = inl data ∧
    length data = 3 ∧ length ticks = 7 ∧
    chained (Hash:=Z) (VTx:=tx) 2003%Z (data ++ ticks) ∧
    ∃ c, verify_ticks (mkVerifier b4 Settings_default) (st_world s4) (data ++ ticks) true 0
         = Ok (c, inl ()).
Proof.
  destruct (committed_entries_verify s4 (zip results batches) b3 Settings_default 0)
    as (data & ticks & Hdata & Hcomp & _ & Hch & _ & Hv); [done|done|done|done|done|].
  exists data, ticks. split_and!; [done| | |done|by apply Hv].
  all: vm_compute in Hdata; injection Hdata as <-; vm_compute in Hcomp;
    injection Hcomp as Hcomp; subst; done.
Defined.

Lemma commit_block_errors_witness :
  commit_block (UiTokenAmount:=Z) 0%Z (λ k, k) (storage_of b0 [b0]) results batches
  = Ok (storage_of b0 [b0], inr (EBank (BankNotExists 0)), []) ∧
  ∃ msg, commit_block (UiTokenAmount:=Z) 0%Z (λ k, k) s4 (repeat [] 9)
           (repeat (commit_batch_new []) 9 : list demo_batch) = Panic msg.
Proof.
  split.
  - destruct (commit_block_errors (UiTokenAmount:=Z) 0%Z (λ k : nat, k) (storage_of b0 [b0])
      results batches) as (_ & _ & Hparent & _). by apply Hparent.
  - destruct (commit_block_errors (UiTokenAmount:=Z) 0%Z (λ k : nat, k) s4 (repeat [] 9)
      (repeat (commit_batch_new []) 9)) as (_ & _ & _ & Hunder).
    apply Hunder; [done|by eexists|done].
Defined.

Definition x4 : Executor PathBank.t forks store world nat := executor_new s4 Settings_default.
Definition conflicts : Switchs := mkSwitchs false true.

Lemma check_block_exact_witness :
  (check_block (TxError:=string) x4 [[t1]; [t2]] (Some conflicts)).2 = inl () ∧
  (check_block (TxError:=string) x4 [[t1]; [t3]] (Some conflicts)).2 ≠ inl ().
Proof.
  split.
  - apply (check_block_exact x4 s4); [done..|]. split_and!; [done| | |].
    + by repeat constructor.
    + repeat constructor; set_solver.
    + repeat constructor; set_solver.
  - rewrite (check_block_exact x4 s4) by done. intros (_ & _ & _ & Hs).
    apply StronglySorted_inv in Hs as [_ [[Hc _] _]%Forall_cons]. set_solver.
Defined.

Lemma check_block_keeps_locks_witness :
  let x' := (check_block (TxError:=string) x4 [[t1]; [t2]] (Some conflicts)).1 in
  (check_block (TxError:=string) x' [[t1]; [t2]] (Some conflicts)).2 ≠ inl ().
Proof.
  intros x'. apply (check_block_keeps_locks x4 x' s4 [[t1]; [t2]] t1 1); [done| |set_solver..].
  unfold x'. by vm_compute.
Defined.

Lemma can_bump_s4 : can_bump s4 7.
Proof. by split; vm_compute. Qed.

Definition nine_empty : BlockPayload tx := replicate 9 [].

(** A block of two batches gives slot 5; nine empty batches are more than the
    eight ticks of a slot. *)
Lemma new_block_outcome_witness :
  (∃ x' info ev s',
    new_block (UiTokenAmount:=Z) 0%Z (λ k : nat, k) x4 [[t1]; [t2; t3]] = Ok (x', inl info, ev) ∧
    ex_storage x' = Some s' ∧ bank_slot (st_bank s') = 5%Z ∧ head_slot (info_head info) = 5%Z) ∧
  ∃ msg, new_block (UiTokenAmount:=Z) 0%Z (λ k : nat, k) x4 nine_empty = Panic msg.
Proof.
  split.
  - destruct (new_block_outcome (UiTokenAmount:=Z) 0%Z (λ k : nat, k) x4 s4 7 [[t1]; [t2; t3]])
      as (x' & r & ev & s' & Heq & Hs & [Hslot _] & Hr);
      [done|done|exact can_bump_s4|done|done|done|repeat constructor; by vm_compute|].
    destruct r as [info|e]; [|by vm_compute in Heq].
    exists x', info, ev, s'. split_and!; [exact Heq|exact Hs| |].
    + rewrite Hslot. by vm_compute.
    + rewrite Hr. by vm_compute.
  - pose proof (new_block_outcome (UiTokenAmount:=Z) 0%Z (λ k : nat, k) x4 s4 7 nine_empty) as Hn.
    rewrite decide_False in Hn by (vm_compute; intros Hle; by apply Hle).
    destruct Hn as [msg Hp]; [done|done|exact can_bump_s4|done|done|done|..].
    + by repeat constructor.
    + exists msg. exact Hp.
Defined.

Lemma new_block_empty_witness :
  ∃ x' s', new_block (UiTokenAmount:=Z) 0%Z (λ k : nat, k) x4 []
           = Ok (x', inr (ExecStorageError NoEntries), []) ∧
    ex_storage x' = Some s' ∧ bank_slot (st_bank s') = 5%Z.
Proof.
  destruct (new_block_empty (UiTokenAmount:=Z) 0%Z (λ k : nat, k) x4 s4 7 eq_refl can_bump_s4)
    as [Heq [Hslot _]].
  eexists _, _. split_and!; [exact Heq|reflexivity|]. rewrite Hslot. by vm_compute.
Defined.

Lemma token_balances_witness :
  let b : demo_batch := mkCommitBatch [t1; t2] {[8 := 6%Z]} [0; 1] in
  (collect_token_balances b (st_world s4) b4).2
    = token_balances_of (st_world s4) b4 <$> [t1; t2] ∧
  length (concat (token_balances_of (st_world s4) b4 <$> [t1; t2])) = 2.
Proof.
  intros b. split; [|by vm_compute]. apply (token_balances_cached b).
  intros mint d Hm. simpl in Hm. apply lookup_singleton_Some in Hm as [<- <-]. by vm_compute.
Defined.
End Example.
