(* ===== verification/BlockOrder.v ===== *)
(** * The order of the transactions of a block

    [Executor::new_block] executes every batch of a block on the accounts its
    bank starts with, and stores what they wrote only afterwards.  What the
    runtime does to accounts is given by laws; then a block that
    [Executor::check_block] accepts leaves the accounts that executing its
    transactions one after the other would leave, and a block that it would
    refuse may lose what an earlier batch wrote. *)
From S2P Require Import Prelude Banks Ledger Shreds CommitBatch Commit CommitFacts.
From S2P Require Import Verifier VerifierFacts Executor.
Set Default Proof Using "Type*".

Section Accounts.
Context {Pubkey Account Tx : Type} `{Countable Pubkey} `{!TxLocks Pubkey Tx}.
Abbreviation accounts := (Pubkey → option Account).
Implicit Types (a : accounts) (m : gmap Pubkey Account) (tx : Tx).

(** The accounts after those of [m] were stored. *)
Definition store a m : accounts := λ k, match m !! k with Some x => Some x | None => a k end.
Definition tx_keys tx : gset Pubkey := tx_write_keys tx ∪ tx_read_keys tx.

(** What a transaction writes depends on its accounts only, and it writes only
    those it locks for writing. *)
Definition local_effect (effect : accounts → Tx → gmap Pubkey Account) : Prop :=
  (∀ a a' tx, (∀ k, k ∈ tx_keys tx → a k = a' k) → effect a tx = effect a' tx) ∧
  ∀ a tx, dom (effect a tx) ⊆ tx_write_keys tx.

(** One transaction after the other *)
Definition in_order (effect : accounts → Tx → gmap Pubkey Account) a (txs : list Tx) : accounts :=
  foldl (λ a tx, store a (effect a tx)) a txs.

(** The transactions with a result *)
Definition with_result (l : list (Tx * option (gmap Pubkey Account))) : list Tx :=
  omap (λ x, match x.2 with Some _ => Some x.1 | None => None end) l.

Lemma compatible_keys t1 t2 : compatible t1 t2 → tx_write_keys t1 ## tx_keys t2.
Proof. unfold compatible, tx_keys. set_solver. Qed.

Lemma store_outside a m k : k ∉ dom m → store a m k = a k.
Proof. intros Hk%not_elem_of_dom. unfold store. by rewrite Hk. Qed.

(** Effects computed from one state are those of the transactions in order,
    when no two of them conflict. *)
Lemma store_all_in_order effect a0 a txs es :
  local_effect effect → StronglySorted compatible txs →
  Forall2 (λ tx e, e = None ∨ e = Some (effect a0 tx)) txs es →
  (∀ tx k, tx ∈ txs → k ∈ tx_keys tx → a k = a0 k) →
  foldl store a (omap id es) = in_order effect a (with_result (zip txs es)).
Proof.
  intros [Hloc Hdom] Hs Hes. revert a Hs. induction Hes as [|tx e txs es He Hes IH]; intros a Hs Ha; [done|].
  apply StronglySorted_inv in Hs as [Hs Hc]. rewrite Forall_forall in Hc.
  assert (∀ tx' k, tx' ∈ txs → k ∈ tx_keys tx' → a k = a0 k) as Ha' by set_solver.
  destruct He as [-> | ->]; [by apply IH|].
  cbn. rewrite <-(Hloc a a0 tx) by set_solver. apply IH; [done|].
  intros tx' k Htx Hk. rewrite store_outside; [by eapply Ha'|].
  intros Hin%Hdom. by eapply (compatible_keys _ _ (Hc _ Htx)).
Qed.

Lemma foldl_store_ext (a a' : accounts) (l : list (gmap Pubkey Account)) :
  (∀ k, a k = a' k) → ∀ k, foldl store a l k = foldl store a' l k.
Proof.
  revert a a'. induction l as [|m l IH]; intros a a' Ha k; [apply Ha|].
  cbn. apply IH. intros j. unfold store. by destruct (m !! j).
Qed.
End Accounts.

Section Block.
Context {B F D W Hash Pubkey Account Tx VTx Out ER TR Shred Keypair UiTokenAmount : Type}.
Context {Mode TxError CheckResult : Type}.
Context `{Countable Pubkey} `{!EqDecision Tx}.
Context `{!Banks B, !BankForks F B, !Blockstore D, !BankWorld W B Hash Pubkey Account}.
Context `{!Entries Hash VTx, !Shreds Shred Hash VTx Keypair, !ShredStore D Shred Hash}.
Context `{!SanitizedTransactions Tx VTx Pubkey, !Tokens Account Pubkey UiTokenAmount}.
Context `{!Execution Out ER TR W B Hash Tx}.
Context `{!Verification W B Tx VTx Hash Mode TxError CheckResult}.
Context `{!ProcessingReads W B Hash, !Processor Out W B Hash Tx CheckResult}.
Context `{!TxLocks Pubkey Tx}.
Abbreviation storage := (RollupStorage B F D W Pubkey).
Abbreviation accounts := (Pubkey → option Account).
Abbreviation effects := (gmap Pubkey Account).
Implicit Types (s : storage) (w : W) (b : B) (settings : Settings) (block : BlockPayload Tx).

(** What a transaction writes when it is executed on some accounts, and what an
    output of the processor holds of it, transaction by transaction.  A tick
    writes sysvar accounts, freezing a bank those it pays fees to. *)
Class BlockEffects := {
  tx_effect : TransactionProcessingEnvironment W B Hash → TransactionProcessingConfig W B Hash →
    accounts → Tx → effects;
  out_effects : Out → list (option effects);
  tick_accounts : gset Pubkey;
  freeze_accounts : B → gset Pubkey
}.
Context `{!BlockEffects}.

(** What execution reads of a bank is the same. *)
Definition same_view settings b w w' : Prop :=
  (∀ k, bank_get_account w' b k = bank_get_account w b k) ∧
  environment settings w' b = environment settings w b ∧ processing_config w' b = processing_config w b.

(** Locking, unlocking and executing change no account.  A transaction is either
    not executed or has the effect it has on the accounts of the bank, as they
    were before the batch; committing stores the effects in order. *)
Class BlockEffectsLaws : Prop := {
  effect_local env cfg : local_effect (tx_effect env cfg);
  view_lock settings w b txs rs limit :
    same_view settings b w (lock_accounts_with_results w b txs rs limit).1;
  view_unlock settings w b txs rs : same_view settings b w (unlock_accounts w b txs rs);
  view_execute settings w b txs rs env cfg :
    same_view settings b w (load_and_execute w b txs rs env cfg).1;
  execute_effects w b txs rs env cfg :
    let out := (load_and_execute w b txs rs env cfg).2 in
    Forall2 (λ tx e, e = None ∨ e = Some (tx_effect env cfg (bank_get_account w b) tx)) txs (out_effects out) ∧
    Forall2 (λ r e, was_executed r = true ↔ is_Some e) (execution_results out) (out_effects out);
  commit_accounts w b txs o h l c k :
    bank_get_account (bank_commit_transactions w b txs o h l c).1 b k =
    foldl store (bank_get_account w b) (omap id (out_effects o)) k;
  tick_other w b h b' k :
    k ∉ tick_accounts → bank_get_account (bank_register_tick w b h) b' k = bank_get_account w b' k;
  freeze_other w b k :
    k ∉ freeze_accounts b → bank_get_account (bank_freeze w b) b k = bank_get_account w b k
}.

Lemma same_view_refl settings b w : same_view settings b w w.
Proof using Type. done. Qed.
Lemma same_view_trans settings b w1 w2 w3 :
  same_view settings b w1 w2 → same_view settings b w2 w3 → same_view settings b w1 w3.
Proof using Type.
  intros (Ha & He & Hc) (Ha' & He' & Hc'). split_and!; [|congruence|congruence].
  intros k. by rewrite Ha', Ha.
Qed.

(** The effects of a batch and the accounts they were computed from *)
Definition batch_effects settings w b (txs : list Tx) (out : Out) : Prop :=
  Forall2 (λ tx e, e = None ∨
      e = Some (tx_effect (environment settings w b) (processing_config w b) (bank_get_account w b) tx))
    txs (out_effects out) ∧
  Forall2 (λ r e, was_executed r = true ↔ is_Some e) (execution_results out) (out_effects out).

Context {Laws : BlockEffectsLaws}.

Lemma effect_ext env cfg (a a' : accounts) tx :
  (∀ k, a k = a' k) → tx_effect env cfg a tx = tx_effect env cfg a' tx.
Proof using Laws. intros Ha. apply (effect_local env cfg). auto. Qed.

Lemma batch_effects_view settings w w' b txs out :
  same_view settings b w w' → batch_effects settings w' b txs out → batch_effects settings w b txs out.
Proof.
  intros (Ha & He & Hc) [Hx Hr]. split; [|done]. eapply Forall2_impl; [exact Hx|].
  intros tx e. rewrite He, Hc, (effect_ext _ _ _ _ tx Ha). done.
Qed.

Lemma process_batch_effects settings s txs :
  let '(s', out) := process_batch settings s txs in
  ∃ w, s' = with_world s w ∧ same_view settings (st_bank s) (st_world s) w ∧
    batch_effects settings (st_world s) (st_bank s) txs out.
Proof.
  unfold process_batch. destruct (get_batch_results _ _ txs) as [w rs] eqn:Hg.
  assert (same_view settings (st_bank s) (st_world s) w) as Hv.
  { unfold get_batch_results, batch_and_verify_conflicts, drop_batch in Hg. cbn in Hg.
    destruct (txs_conflict_check (switchs settings)) eqn:Hc; cbn in Hg; [|by injection Hg as <- _].
    set (rs0 := if tx_sanity_check _ then _ else _) in Hg.
    pose proof (view_lock settings (st_world s) (st_bank s) txs rs0
      (get_transaction_account_lock_limit (st_world s) (st_bank s))) as H1.
    destruct (lock_accounts_with_results _ _ _ _ _) as [w1 lr]. cbn in Hg, H1. injection Hg as <- _.
    eapply same_view_trans; [exact H1|apply view_unlock]. }
  set (env := environment settings w (st_bank s)). set (cfg := processing_config w (st_bank s)).
  pose proof (view_execute settings w (st_bank s) txs rs env cfg) as H2.
  destruct (execute_effects w (st_bank s) txs rs env cfg) as [He Hr].
  destruct (load_and_execute w (st_bank s) txs rs env cfg) as [w2 out]. cbn in *.
  exists w2. split_and!; [done|by eapply same_view_trans|]. by eapply batch_effects_view.
Qed.

Lemma process_all_effects settings s block s' outs batches :
  process_all settings s block = (s', outs, batches) →
  (∃ w, s' = with_world s w ∧ same_view settings (st_bank s) (st_world s) w) ∧
  batches = commit_batch_new <$> block ∧
  Forall2 (batch_effects settings (st_world s) (st_bank s)) block outs.
Proof.
  revert s s' outs batches. induction block as [|txs block IH]; intros s s' outs batches; cbn.
  { intros [= <- <- <-]. split_and!; [|done|constructor]. exists (st_world s). by destruct s. }
  pose proof (process_batch_effects settings s txs) as Hb.
  destruct (process_batch settings s txs) as [s1 out]. destruct Hb as (w & -> & Hv & He).
  destruct (process_all settings (with_world s w) block) as [[s2 outs2] b2] eqn:Hp.
  intros [= <- <- <-]. destruct (IH _ _ _ _ Hp) as ((w2 & -> & Hv2) & -> & Hes). cbn in *.
  split_and!; [exists w2; split; [done|by eapply same_view_trans]|done|].
  constructor; [done|]. eapply Forall2_impl; [exact Hes|]. intros x y. by apply batch_effects_view.
Qed.

(** ** Committing *)

Context (hash_default : Hash) (keypair_of : Pubkey → Keypair).
Abbreviation events := (list (history_event Tx ER TR UiTokenAmount)).

Lemma single_batch_commit_accounts s o (b : CommitBatch Pubkey Tx) s' r :
  single_batch_commit s o b = Ok (s', r) →
  (∃ w, s' = with_world s w) ∧
  ∀ k, bank_get_account (st_world s') (st_bank s') k =
       foldl store (bank_get_account (st_world s) (st_bank s)) (omap id (out_effects o)) k.
Proof.
  unfold single_batch_commit. intros Hc. res_split Hc as counts Hcounts.
  pose proof (commit_accounts (st_world s) (st_bank s) (batch_transactions b) o
    (bank_last_blockhash (st_world s) (st_bank s))
    (bank_lamports_per_signature (st_world s) (st_bank s)) counts) as Ha.
  destruct (bank_commit_transactions _ _ _ _ _ _ _) as [w r']. injection Hc as <- <-.
  split; [by exists w|exact Ha].
Qed.

Lemma commit_one_accounts s rtn (ev : events) o (b : CommitBatch Pubkey Tx) s' rtn' ev' :
  commit_one (s, rtn, ev) (o, b) = Ok (s', rtn', ev') →
  (∃ w, s' = with_world s w) ∧
  ∀ k, bank_get_account (st_world s') (st_bank s') k =
       foldl store (bank_get_account (st_world s) (st_bank s)) (omap id (out_effects o)) k.
Proof.
  unfold commit_one. destruct (st_enable_history s).
  - unfold single_batch_commit_with_history. intros Hc.
    destruct (collect_token_balances b _ _) as [b' pre]. res_split Hc as [[s1 r1] ev1] Hs.
    res_split Hs as [s2 r2] Hs2. destruct (collect_token_balances b' _ _) as [b2 post].
    simplify_eq. by eapply single_batch_commit_accounts.
  - intros Hc. res_split Hc as [s1 r1] Hs. simplify_eq. by eapply single_batch_commit_accounts.
Qed.

Lemma commit_all_accounts l s rtn (ev : events) s' rtn' ev' :
  fold_res commit_one (s, rtn, ev) l = Ok (s', rtn', ev') →
  (∃ w, s' = with_world s w) ∧
  ∀ k, bank_get_account (st_world s') (st_bank s') k =
       foldl store (bank_get_account (st_world s) (st_bank s)) (omap id (concat (out_effects <$> l.*1))) k.
Proof.
  revert s rtn ev. induction l as [|[o b] l IH]; intros s rtn ev; cbn [fold_res].
  { intros [= <- <- <-]. split; [exists (st_world s); by destruct s|done]. }
  intros Hf. res_split Hf as [[s1 r1] ev1] H1.
  destruct (commit_one_accounts _ _ _ _ _ _ _ _ H1) as [[w ->] Ha].
  destruct (IH _ _ _ Hf) as [[w2 ->] Ha2]. split; [by exists w2|]. intros k.
  rewrite Ha2. rewrite !fmap_cons. cbn [concat fst]. rewrite omap_app, foldl_app.
  by apply foldl_store_ext.
Qed.

Lemma register_ticks_accounts s (es : list (Entry Hash VTx)) k :
  k ∉ tick_accounts →
  bank_get_account (st_world (register_ticks s es)) (st_bank s) k =
  bank_get_account (st_world s) (st_bank s) k.
Proof.
  intros Hk. unfold register_ticks. cbn. generalize (st_world s).
  induction (filter (λ e, is_tick e = true) es) as [|e l IH]; intros w; cbn; [done|].
  by rewrite IH, tick_other.
Qed.

Lemma blockstore_save_world s es s' r :
  blockstore_save hash_default keypair_of s es = Ok (s', r) → ∃ d, s' = with_blockstore s d.
Proof using Type.
  unfold blockstore_save. intros Hb. res_split Hb as x Hx. injection Hb as Hs.
  assert (∃ d, s = with_blockstore s d) as Hid by (exists (st_blockstore s); by destruct s).
  destruct x as [[data code]|e]; [|by simplify_eq].
  destruct (bs_insert_shreds _ data) as [d|e]; [|by simplify_eq].
  destruct (bs_insert_shreds d code) as [d'|e]; simplify_eq; [by exists d'|by exists d].
Qed.

Lemma commit_accounts_ok s outs batches s' r (ev : events) :
  commit hash_default keypair_of s outs batches = Ok (s', inl r, ev) → length outs = length batches →
  st_bank s' = st_bank s ∧ ∀ k, k ∉ tick_accounts →
    bank_get_account (st_world s') (st_bank s') k =
    foldl store (bank_get_account (st_world s) (st_bank s)) (omap id (concat (out_effects <$> outs))) k.
Proof.
  intros Hc Hlen. unfold commit, commit_block in Hc. res_split Hc as [[s1 r1] ev1] Hblk.
  destruct (decide _); [by simplify_eq|]. destruct (data_entries_from _ _ _ _) as [data|e]; [|by simplify_eq].
  res_split Hblk as entries He. destruct entries as [es|e]; [|by simplify_eq].
  res_split Hblk as [[s2 br] ev2] Hbank. res_split Hblk as [s3 r3] Hsave. simplify_eq.
  unfold bank_commit in Hbank. res_split Hbank as [[s4 rtn] ev4] Hfold. injection Hbank as <- <- <-.
  destruct (blockstore_save_world _ _ _ _ Hsave) as [d ->].
  destruct (commit_all_accounts _ _ _ _ _ _ _ Hfold) as [[w ->] Ha].
  split; [done|]. intros k Hk. cbn [with_blockstore st_world st_bank].
  rewrite fst_zip in Ha by lia. rewrite <-Ha.
  by apply (register_ticks_accounts (with_world s w)).
Qed.

(** ** The whole block *)

(** The transactions of a block that were executed *)
Definition executed_txs (outs : list Out) block : list Tx :=
  concat (zip_with (λ out txs,
      omap (λ '(r, tx), if was_executed r then Some tx else None) (zip (execution_results out) txs))
    outs block).

Lemma with_result_executed (txs : list Tx) (rs : list ER) (es : list (option effects)) :
  Forall2 (λ r e, was_executed r = true ↔ is_Some e) rs es → length txs = length es →
  with_result (zip txs es) = omap (λ '(r, tx), if was_executed r then Some tx else None) (zip rs txs).
Proof using Type.
  intros Hr. revert txs. induction Hr as [|r e rs es Hre _ IH]; intros [|tx txs] Hlen; try done.
  cbn. injection Hlen as Hlen. rewrite <-IH by done. unfold with_result.
  destruct (was_executed r); destruct e; naive_solver.
Qed.

Lemma block_effects settings w b block outs :
  Forall2 (batch_effects settings w b) block outs →
  let es := concat (out_effects <$> outs) in
  Forall2 (λ tx e, e = None ∨ e = Some (tx_effect (environment settings w b) (processing_config w b)
                                          (bank_get_account w b) tx)) (concat block) es ∧
  with_result (zip (concat block) es) = executed_txs outs block.
Proof using Type.
  induction 1 as [|txs out block outs [He Hr] _ [IHe IHx]]; [done|].
  cbn. split; [by apply Forall2_app|].
  pose proof (Forall2_length _ _ _ He) as Hlen.
  rewrite zip_with_app by done. unfold with_result in *. rewrite omap_app, IHx. cbn. f_equal.
  by apply with_result_executed.
Qed.

Lemma process_commit_in_order settings s1 block s2 outs batches s3 r (ev : events) :
  StronglySorted compatible (concat block) →
  process_all settings s1 block = (s2, outs, batches) →
  commit hash_default keypair_of s2 outs batches = Ok (s3, inl r, ev) →
  st_bank s3 = st_bank s1 ∧ ∀ k, k ∉ tick_accounts →
    bank_get_account (st_world s3) (st_bank s1) k =
    in_order (tx_effect (environment settings (st_world s1) (st_bank s1))
                (processing_config (st_world s1) (st_bank s1)))
      (bank_get_account (st_world s1) (st_bank s1)) (executed_txs outs block) k.
Proof.
  intros Hs Hp Hc. destruct (process_all_effects _ _ _ _ _ _ Hp) as ((w & -> & Hv) & -> & He).
  pose proof (Forall2_length _ _ _ He) as Hlen.
  destruct (commit_accounts_ok _ _ _ _ _ _ Hc) as [Hb Ha]; [by rewrite length_fmap|].
  cbn in Hb, Ha. split; [done|]. intros k Hk. rewrite Hb in Ha. rewrite (Ha k Hk).
  destruct (block_effects _ _ _ _ _ He) as [Hes Hx].
  erewrite foldl_store_ext; [|apply Hv].
  rewrite (store_all_in_order _ _ _ _ _ (effect_local _ _) Hs Hes) by done. by rewrite Hx.
Qed.

(** No two transactions of an accepted block conflict. *)
Lemma accepted_compatible `{!LockViews B W Pubkey}
    `{!VerificationLaws (Mode:=Mode) (CheckResult:=CheckResult)} (x x1 : Executor B F D W Pubkey) block sw :
  txs_conflict_check sw = true → check_block x block (Some sw) = (x1, inl ()) →
  StronglySorted compatible (concat block).
Proof using Type Account EqDecision1 Banks0 BankWorld0.
  intros Hsw. unfold check_block. destruct (ex_storage x) as [s|]; [|done]. cbn.
  unfold check_payload. set (v := mkVerifier (st_bank s) Settings_default). rewrite Hsw.
  destruct (if tx_sanity_check sw then _ else _) as [[]|e]; [|done].
  destruct (conflict_check_all_ok v (st_world s) block) as [[Hok _] _].
  destruct (conflict_check_all v (st_world s) block) as [w [[]|e]]; [|done]. intros _.
  by apply lock_run_all in Hok as (_ & _ & ?).
Qed.

End Block.
