(* ===== verification/StorageTests.v ===== *)
(** * A bank with accounts, and the tests of the storage run on it

    An instance of the environment of storage and executor whose banks hold
    lamports: a child starts with the accounts of its parent, transfers pay a
    fee, and freezing a bank pays half of its fees to the validator.  On it the
    theorem on the order of a block is applied, a block that loses an update is
    evaluated, and tests of [storage/src/ledger/tests.rs],
    [storage/src/tests/reorg.rs], [storage/src/tests/basic.rs],
    [storage/src/execution/tests.rs] and [executor/src/tests.rs] are run from the
    initialised storage on.

    The bank stands for the runtime: its rules for transfers and fees are written
    here, with the outcomes the tests assert in view.  Its own fee rate is 0,
    since the test of the executor sees balances without a fee, while the test
    processor of the storage charges 5000.  So the tests check slots, forks,
    commit, check and block store, and not the runtime's accounting. *)
From S2P Require Import Prelude Banks Ledger LedgerFacts MapForks Shreds CommitBatch Commit.
From S2P Require Import CommitFacts Verifier VerifierFacts Executor BlockOrder.

Module AccountBank.

(** A transfer and who pays its fee *)
Record transfer := mkTransfer { payer : N; from : N; to : N; amount : Z }.
#[export] Instance transfer_eq_dec : EqDecision transfer.
Proof. solve_decision. Defined.
Abbreviation bank := PathBank.t.
Abbreviation forks := (MapForks.t bank).
Abbreviation entry := (Entry Z transfer).

Record world := mkWorld {
  accounts : gmap bank (gmap N Z);
  fees : gmap bank Z;
  frozen : gset bank;
  locks : gmap bank (lock_view N)
}.
Definition validator : N := 7.
Definition accounts_at (w : world) (b : bank) : gmap N Z := default ∅ (accounts w !! b).
Definition fees_at (w : world) (b : bank) : Z := default 0%Z (fees w !! b).
Definition locks_at (w : world) (b : bank) : lock_view N := default no_locks (locks w !! b).
Definition balance_of (m : gmap N Z) (k : N) : Z := default 0%Z (m !! k).

Definition freeze (w : world) (b : bank) : world :=
  if decide (b ∈ frozen w) then w
  else
    let m := accounts_at w b in
    mkWorld (<[b := <[validator := (balance_of m validator + fees_at w b / 2)%Z]> m]> (accounts w))
      (fees w) ({[b]} ∪ frozen w) (locks w).
Definition new_child (w : world) (p : bank) (s : Slot) : world * bank :=
  let w := freeze w p in
  let b := PathBank.child p s in
  (mkWorld (<[b := accounts_at w p]> (accounts w)) (<[b := 0%Z]> (fees w)) (frozen w) (locks w), b).
Definition set_accounts (w : world) (b : bank) (m : gmap N Z) : world :=
  mkWorld (<[b := m]> (accounts w)) (fees w) (frozen w) (locks w).

#[export] Instance entries : Entries Z transfer := {|
  next_hash h n txs := (h * 31 + n + 7 * Z.of_nat (length txs))%Z;
  is_tick e := bool_decide (entry_transactions e = [])
|}.
#[export] Instance bank_world : BankWorld world bank Z N Z := {|
  bank_hash _ b := (1000 + bank_slot b)%Z;
  bank_last_blockhash _ b := (2000 + bank_slot b)%Z;
  bank_parent _ b := PathBank.parent b;
  bank_tick_height _ b := (8 * bank_parent_slot b)%Z;
  bank_max_tick_height _ b := (8 * (bank_parent_slot b + 1))%Z;
  bank_ticks_per_slot _ _ := 8%Z;
  bank_lamports_per_signature _ _ := 0%Z;
  bank_get_account w b k := accounts_at w b !! k;
  account_lamports a := a;
  bank_freeze := freeze;
  bank_squash := freeze;
  bank_store_account w b k a := set_accounts w b (<[k := a]> (accounts_at w b));
  bank_register_tick w _ _ := w;
  bank_new_from_parent w p _ s := new_child w p s
|}.

(** The block store keeps the shreds; a data shred holds one entry. *)
Record shred := mkShred { sh_slot : Slot; sh_index : Z; sh_entry : option entry }.
Record store := mkStore { dead : list Slot; roots : list Slot; shreds : list shred }.
Definition data_shreds (d : store) (s : Slot) : list shred :=
  filter (λ x, sh_slot x = s ∧ is_Some (sh_entry x)) (shreds d).
#[export] Instance blockstore : Blockstore store := {|
  bs_max_root d := foldr Z.max 0%Z (roots d);
  bs_highest_slot d := inl (match shreds d with [] => None | l => Some (foldr Z.max 0%Z (sh_slot <$> l)) end);
  bs_set_roots d s := inl (mkStore (dead d) (s :: roots d) (shreds d));
  bs_set_dead_slot d s := inl (mkStore (s :: dead d) (roots d) (shreds d));
  bs_rooted_block_time _ _ := inr "not rooted";
  bs_is_dead d s := bool_decide (s ∈ dead d)
|}.
#[export] Instance shredder : Shreds shred Z transfer N := {|
  shred_index := sh_index;
  shred_merkle_root s := Some (sh_index s);
  shredder_new _ _ _ _ := true;
  shredder_entries_to_shreds slot _ _ _ _ es _ i j :=
    ((λ '(n, e), mkShred slot (i + Z.of_nat n) (Some e)) <$> zip (seq 0 (length es)) es,
     [mkShred slot j None]);
  MAX_DATA_SHREDS_PER_SLOT := 32768%Z;
  MAX_CODE_SHREDS_PER_SLOT := 32768%Z
|}.
#[export] Instance shred_store : ShredStore store shred Z := {|
  bs_meta_last_index d s := inl (match data_shreds d s with
                                 | [] => None
                                 | l => Some (Some (foldr Z.max 0%Z (sh_index <$> l)))
                                 end);
  bs_data_shred_root d s i := inl (shred_merkle_root <$> head (filter (λ x, sh_index x = i) (data_shreds d s)));
  bs_insert_shreds d l := inl (mkStore (dead d) (roots d) (shreds d ++ l))
|}.
(** [get_slot_entries] of the block store: an error for a dead slot, unless
    dead slots are allowed *)
Definition get_slot_entries (d : store) (s : Slot) (allow_dead : bool) : option (list entry) :=
  if bool_decide (s ∈ dead d) && negb allow_dead then None else Some (omap sh_entry (data_shreds d s)).

#[export] Instance transactions : SanitizedTransactions transfer transfer N := {|
  to_versioned_transaction t := t;
  tx_account_keys t := [payer t; from t; to t];
  is_invoked _ _ := false;
  num_required_signatures _ := 1%Z;
  is_simple_vote_transaction _ := false
|}.
#[export] Instance tokens : Tokens Z N Z := {|
  is_known_spl_token_id _ := false;
  account_owner _ := 0%N;
  unpack_token_account _ := None;
  unpack_mint _ := None;
  token_amount_to_ui_amount_v2 a d := a;
  pubkey_to_string _ := "key";
  native_mint_id := 0%N;
  native_mint_DECIMALS := 9%Z
|}.
#[export] Instance tx_locks : TxLocks N transfer := {|
  tx_write_keys t := {[payer t; from t; to t]};
  tx_read_keys _ := ∅;
  tx_locks_valid _ _ := true
|}.

(** What is stored for an executed transfer: the payer's account without the
    fee, and the moved lamports if there are enough. *)
Definition effect (fee : Z) (a : N → option Z) (t : transfer) : gmap N Z :=
  let bal m k := default (default 0%Z (a k)) (m !! k) in
  let m := <[payer t := (default 0%Z (a (payer t)) - fee)%Z]> ∅ in
  if (amount t <=? bal m (from t))%Z then
    let m := <[from t := (bal m (from t) - amount t)%Z]> m in
    <[to t := (bal m (to t) + amount t)%Z]> m
  else m.
(** An executed transaction: the fee and what it wrote *)
Definition Output := list (option (Z * gmap N Z)).
Definition execute (fee : Z) (m : gmap N Z) (txs : list transfer) (rs : list (unit + string)) : Output :=
  imap (λ i t, match rs !! i with
               | Some (inl _) =>
                   if (fee <=? balance_of m (payer t))%Z then Some (fee, effect fee (m !!.) t) else None
               | _ => None
               end) txs.
#[export] Instance execution : Execution Output (option (Z * gmap N Z)) nat world bank Z transfer := {|
  execution_results o := o;
  was_executed r := bool_decide (is_Some r);
  flattened_result_is_err r := bool_decide (r = None);
  bank_commit_transactions w b txs o _ _ _ :=
    let m := foldl (λ m e, e.2 ∪ m) (accounts_at w b) (omap id o) in
    let f := foldr (λ e f, e.1 + f)%Z (fees_at w b) (omap id o) in
    (mkWorld (<[b := m]> (accounts w)) (<[b := f]> (fees w)) (frozen w) (locks w), length txs)
|}.
#[export] Instance processing_reads : ProcessingReads world bank Z := {|
  VoteAccounts := unit; FeatureSet := unit; RentCollector := unit; ComputeBudget := unit;
  last_blockhash_and_lamports_per_signature w b := (bank_last_blockhash w b, 0%Z);
  bank_epoch _ _ := 0%Z;
  epoch_total_stake _ _ _ := None;
  epoch_vote_accounts _ _ _ := None;
  feature_set _ _ := ();
  rent_collector _ _ := ();
  check_program_modification_slot _ _ := false;
  compute_budget _ _ := None
|}.
#[export] Instance processor : Processor Output world bank Z transfer (unit + string) := λ w b txs rs env _,
  (w, execute (env_lamports_per_signature env) (accounts_at w b) txs rs).

Definition set_locks (w : world) (b : bank) (v : lock_view N) : world :=
  mkWorld (accounts w) (fees w) (frozen w) (<[b := v]> (locks w)).
Definition lock (w : world) (b : bank) (txs : list transfer) (limit : nat) : world * list (unit + string) :=
  let '(v, oks) := lock_run limit (locks_at w b) txs in
  (set_locks w b v, (λ ok, if ok : bool then inl () else inr "AccountInUse") <$> oks).
#[export] Instance verification : Verification world bank transfer transfer Z unit string (unit + string) := {|
  fully_verify_transaction _ _ t := inl t;
  verify_transaction _ _ t _ := inl t;
  ResanitizationNeeded := "ResanitizationNeeded";
  get_transaction_account_lock_limit _ _ := 64;
  lock_accounts w b txs limit := lock w b txs limit;
  lock_accounts_with_results w b txs rs limit :=
    let '(w, ls) := lock w b txs limit in
    (w, zip_with (λ r l, match r with inr e => inr e | inl _ => l end) rs ls);
  unlock_accounts w b _ _ := set_locks w b no_locks;
  check_transactions _ _ _ rs _ := rs;
  bank_hashes_per_tick _ _ := None;
  entries_tick_count es := tick_count es;
  verify_tick_hash_count _ c _ := (true, c)
|}.
#[export] Instance lock_views : LockViews bank world N := locks_at.

(** ** The laws of the interfaces *)

#[export] Instance verification_laws :
  VerificationLaws (B:=bank) (W:=world) (Tx:=transfer) (VTx:=transfer) (Hash:=Z) (Mode:=unit)
    (TxError:=string) (CheckResult:=unit + string).
Proof.
  split; simpl; try done.
  intros w b txs limit w' rs. unfold lock, locks_of, lock_views.
  destruct (lock_run limit (locks_at w b) txs) as [v oks]. intros [= <- <-].
  unfold locks_at. simpl. rewrite lookup_insert_eq. simpl. f_equal.
  rewrite <-list_fmap_compose. induction oks as [|[] oks IH]; csimpl; [done|..]; by f_equal.
Qed.

#[export] Instance block_effects : BlockEffects (B:=bank) (W:=world) (Hash:=Z) (Pubkey:=N) (Account:=Z)
    (Tx:=transfer) (Out:=Output) := {|
  tx_effect env _ a t := effect (env_lamports_per_signature env) a t;
  out_effects (o : Output) := option_map snd <$> o;
  tick_accounts := ∅;
  freeze_accounts _ := {[validator]}
|}.

Lemma effect_local_ok fee : local_effect (effect fee).
Proof.
  split.
  - intros a a' t Ha. assert (a (payer t) = a' (payer t) ∧ a (from t) = a' (from t) ∧ a (to t) = a' (to t))
      as (Hp & Hf & Ht) by (split_and!; apply Ha; unfold tx_keys; simpl; set_solver).
    unfold effect. by rewrite Hp, Hf, Ht.
  - intros a t. unfold effect. simpl. destruct (_ <=? _)%Z; rewrite !dom_insert_L; set_solver.
Qed.

Lemma accounts_at_insert w b m fs fr l : accounts_at (mkWorld (<[b := m]> (accounts w)) fs fr l) b = m.
Proof. unfold accounts_at. simpl. by rewrite lookup_insert_eq. Qed.

#[export] Instance block_effects_laws :
  BlockEffectsLaws (B:=bank) (W:=world) (Hash:=Z) (Pubkey:=N) (Account:=Z) (Tx:=transfer) (VTx:=transfer)
    (Out:=Output) (Mode:=unit) (TxError:=string) (CheckResult:=unit + string).
Proof.
  split.
  - intros env cfg. apply effect_local_ok.
  - intros settings w b txs rs limit. simpl. unfold lock.
    by destruct (lock_run limit (locks_at w b) txs) as [v oks].
  - done.
  - done.
  - intros w b txs rs env cfg. simpl. split.
    + unfold execute. rewrite Forall2_fmap_r. apply Forall2_same_length_lookup. rewrite length_imap.
      split; [done|]. intros i t e Ht. rewrite list_lookup_imap, Ht. intros [= <-].
      repeat case_match; simpl; auto.
    + rewrite Forall2_fmap_r. apply Forall_Forall2_diag, Forall_true. by intros [e|]; simpl; rewrite ?is_Some_alt.
  - intros w b txs o h l c k. cbn -[execute]. rewrite accounts_at_insert.
    generalize (accounts_at w b). induction o as [|[e|] o IH]; intros m; csimpl; [done| |apply IH].
    rewrite IH. apply foldl_store_ext. intros j. unfold BlockOrder.store. by rewrite lookup_union; destruct (e.2 !! j), (m !! j).
  - done.
  - intros w b k Hk. simpl in *. unfold freeze. destruct (decide _); [done|].
    rewrite accounts_at_insert. rewrite lookup_insert_ne; set_solver.
Qed.
End AccountBank.

Import AccountBank.
Abbreviation test_storage := (RollupStorage bank forks store world N).

(** ** Helpers of the tests *)
Module TestSupport.
Definition alice : N := 1.
Definition bob : N := validator.
Definition charlie : N := 3.
Definition dave : N := 4.
Definition FEE : Z := 5000.
Definition ALICE_INIT_BALANCE : Z := 1000000000.
Definition BOB_INIT_BALANCE : Z := 10000000.

(** The storage after [init], with the genesis block in the block store *)
Definition initialised (dev : bool) : test_storage :=
  mkStorage [] (MapForks.mk [] 0%Z {[0%Z := []]}) (mkStore [] [0%Z] [mkShred 0 0 (Some (mkEntry 1 0%Z []))])
    (mkWorld {[[] := {[alice := ALICE_INIT_BALANCE; bob := BOB_INIT_BALANCE]}]} ∅ ∅ ∅)
    dev (Some validator) 8 false.

(** [system_transaction::transfer] *)
Definition transfer_tx (f t : N) (n : Z) : transfer := mkTransfer f f t n.
Definition assert_balances (s : test_storage) (l : list (N * Z)) : res unit :=
  fold_res (λ _ '(k, n), assert_eq (balance s k) n) () l.
Definition assert_heights (s : test_storage) (bank_height : Slot) (store_height : option Slot) : res unit :=
  h ← try_ok (get_mixed_heights s); assert_eq h (bank_height, store_height).
Definition assert_result_balance (account : N) (lamports : option Z) (tx : option (Z * gmap N Z)) : res unit :=
  '(_, m) ← expect tx "called `Option::unwrap()` on a `None` value"; assert_eq (m !! account) lamports.

Definition get_transaction_check_results (len : nat) : list (unit + string) := replicate len (inl ()).
Definition process_transfers_ex (s : test_storage) (txs : list transfer) : Output :=
  let environment := mkEnvironment 0%Z None None () (Some FeeStructure_default) FEE (Some ()) in
  let config := mkProcessingConfig false (Some ()) false None in
  (load_and_execute (st_world s) (st_bank s) txs (get_transaction_check_results (length txs))
     environment config).2.
Definition commit_txs (s : test_storage) (o : Output) (txs : list transfer) : res test_storage :=
  '(s, r, _) ← commit 0%Z id s [o] [commit_batch_new txs]; _ ← try_ok r; Ok s.
Definition bumped (s : test_storage) : res test_storage :=
  '(s, r) ← bump s; _ ← try_ok r; Ok s.
Definition new_slot_with_two_txs (s : test_storage) (f1 t1 : N) (n1 : Z) (f2 t2 : N) (n2 : Z) :
    res test_storage :=
  let origin_txs := [transfer_tx f1 t1 n1; transfer_tx f2 t2 n2] in
  commit_txs s (process_transfers_ex s origin_txs) origin_txs.
Definition slot_with_parent (s : test_storage) (parent : bank) (slot : Slot) : res (test_storage * bank) :=
  let '(s, r) := new_slot_with_parent s parent slot in
  b ← try_ok r;
  _ ← assert_eq (bank_slot b) slot;
  _ ← assert_eq (bank_parent_slot b) (bank_slot parent); Ok (s, b).
End TestSupport.
Import TestSupport.

(** ** [ledger/tests.rs] *)
Module AncestorTests.
Definition extend_bank_forks (f : forks) (pairs : list (Slot * Slot)) : res forks :=
  fold_res (λ f '(parent, child),
      p ← expect (bf_get f parent) "called `Option::unwrap()` on a `None` value";
      Ok (bf_insert f (PathBank.child p child))) f pairs.
Definition new_bank_forks : res forks :=
  extend_bank_forks (MapForks.mk [] 0%Z {[0%Z := []]})
    [(0, 1); (1, 3); (3, 8); (0, 2); (2, 4); (4, 5); (5, 10); (4, 6); (6, 12)]%Z.
Definition assert_banks_equal (expected : list Slot) (removed : list bank) : res unit :=
  assert_eq (merge_sort Z.le (bank_slot <$> removed)) (merge_sort Z.le expected).
Definition find_ancestors_case (root : Slot) (finalized : option Slot) (removed : list Slot)
    (ancestors : list Slot) : res unit :=
  f ← new_bank_forks;
  set ← bf_set_root f root finalized;
  '(f, r) ← try_ok set;
  a ← find_ancestors 20 root finalized f r;
  _ ← assert_banks_equal removed r;
  _ ← assert_eq (size a) (length ancestors);
  assert_that (forallb (λ s, bool_decide (s ∈ a)) ancestors).
Definition find_ancestors_works : res unit :=
  _ ← find_ancestors_case 2 (Some 1%Z) [0; 1; 3; 8]%Z [0]%Z;
  _ ← find_ancestors_case 12 None [0; 1; 2; 3; 4; 5; 6; 8; 10]%Z [6; 4; 2; 0]%Z;
  find_ancestors_case 5 (Some 2%Z) [0; 1; 3; 6; 8; 12]%Z [0%Z].
End AncestorTests.

(** ** [tests/reorg.rs] *)
Module ReorgTests.
Definition TO_CHARLIE : Z := 2000000.
Definition TO_DAVE : Z := 1000000.
Definition two_txs (s : test_storage) : res test_storage :=
  new_slot_with_two_txs s alice charlie TO_CHARLIE bob dave TO_DAVE.

(** Slots 1 and 3 on one fork, 2 and 4 on the other *)
Definition build_forks : res test_storage :=
  let s := initialised false in
  _ ← assert_eq (current_height s) 0%Z;
  let bank0 := st_bank s in
  s ← bumped s;
  let bank1 := st_bank s in
  _ ← assert_eq (bank_slot bank1, bank_parent_slot bank1) (1, 0)%Z;
  s ← two_txs s;
  let one_slot := [(alice, ALICE_INIT_BALANCE - TO_CHARLIE - FEE); (bob, BOB_INIT_BALANCE - TO_DAVE - FEE);
                   (charlie, TO_CHARLIE); (dave, TO_DAVE)]%Z in
  _ ← assert_balances s one_slot;
  '(s, bank2) ← slot_with_parent s bank0 2%Z;
  s ← two_txs s;
  _ ← assert_balances s one_slot;
  '(s, _) ← slot_with_parent s bank1 3%Z;
  _ ← assert_balances s [(bob, BOB_INIT_BALANCE - TO_DAVE - FEE + FEE)%Z];
  s ← two_txs s;
  let two_slots := [(alice, ALICE_INIT_BALANCE - TO_CHARLIE - TO_CHARLIE - FEE * 2);
                    (bob, BOB_INIT_BALANCE - TO_DAVE - TO_DAVE - FEE)]%Z in
  _ ← assert_balances s (two_slots ++ [(charlie, TO_CHARLIE + TO_CHARLIE); (dave, TO_DAVE + TO_DAVE)]%Z);
  '(s, _) ← slot_with_parent s bank2 4%Z;
  _ ← assert_balances s [(bob, BOB_INIT_BALANCE - TO_DAVE - FEE + FEE)%Z];
  s ← two_txs s;
  _ ← assert_balances s two_slots;
  _ ← assert_eq (current_height s) 4%Z;
  _ ← assert_heights s 4 (Some 4%Z); Ok s.

Definition slot_entries_exist (d : store) (allow_dead : bool) (slot : Slot) : option bool :=
  (λ es, negb (bool_decide (length es = 0))) <$> get_slot_entries d slot allow_dead.

Definition reorg_works : res unit :=
  s ← build_forks;
  '(s, r) ← reorg 20 s 3 (Some 1%Z);
  removed ← try_ok r;
  _ ← assert_eq (length removed) 3;
  _ ← assert_eq (merge_sort Z.le (bank_slot <$> removed)) [0; 2; 4]%Z;
  _ ← assert_eq (current_height s) 3%Z;
  _ ← assert_heights s 3 (Some 4%Z);
  _ ← assert_balances s
        [(alice, ALICE_INIT_BALANCE - TO_CHARLIE - TO_CHARLIE - FEE * 2);
         (bob, BOB_INIT_BALANCE - TO_DAVE - TO_DAVE - FEE * 2 + FEE * 2);
         (charlie, TO_CHARLIE + TO_CHARLIE); (dave, TO_DAVE + TO_DAVE)]%Z;
  _ ← assert_eq ((λ slot, bool_decide (is_Some (bf_get (st_bank_forks s) slot))) <$> [0; 1; 2; 3; 4]%Z)
        [false; true; false; true; false];
  _ ← assert_eq (slot_entries_exist (st_blockstore s) false <$> [4; 3; 2; 1; 0]%Z)
        [None; Some true; None; Some true; Some true];
  assert_eq (slot_entries_exist (st_blockstore s) true <$> [4; 2]%Z) [Some true; Some true].
End ReorgTests.

(** ** [execution/tests.rs], [tests/basic.rs] and [executor/src/tests.rs] *)
Module ProcessTests.
Definition executed_all (o : Output) (n : nat) : res unit :=
  _ ← assert_eq (length (execution_results o)) n;
  assert_that (forallb was_executed (execution_results o)).

(** The two transfers of the batch conflict: what Bob received is lost. *)
Definition conflict_transaction_may_lead_incorrect_state : res unit :=
  let alice := 11%N in let bob := 12%N in let charlie := 13%N in let payer := 14%N in
  let INIT_AMOUNT := 10000000%Z in let BOB_PLUS := 2000%Z in let BOB_MINUS := 5000%Z in
  let s := initialised true in
  _ ← assert_balances s [(alice, 0); (bob, 0); (charlie, 0)]%Z;
  s ← bumped s;
  _ ← assert_eq (current_height s) 1%Z;
  s ← fold_res (λ s k, let '(s, r) := insert_account s k INIT_AMOUNT in _ ← try_ok r; Ok s)
        s [alice; bob; charlie; payer];
  let unchanged := [(alice, INIT_AMOUNT); (bob, INIT_AMOUNT); (charlie, INIT_AMOUNT)] in
  _ ← assert_balances s unchanged;
  let raw_txs := [mkTransfer payer alice bob BOB_PLUS; mkTransfer payer bob charlie BOB_MINUS] in
  let results := process_transfers_ex s raw_txs in
  _ ← executed_all results 2;
  first ← vec_get results 0;
  second ← vec_get results 1;
  _ ← assert_result_balance bob (Some (INIT_AMOUNT + BOB_PLUS)%Z) first;
  _ ← assert_result_balance alice (Some (INIT_AMOUNT - BOB_PLUS)%Z) first;
  _ ← assert_result_balance alice None second;
  _ ← assert_result_balance bob (Some (INIT_AMOUNT - BOB_MINUS)%Z) second;
  _ ← assert_result_balance charlie (Some (INIT_AMOUNT + BOB_MINUS)%Z) second;
  _ ← assert_balances s unchanged;
  s ← commit_txs s results raw_txs;
  _ ← assert_heights s 1 (Some 1%Z);
  assert_balances s [(alice, INIT_AMOUNT - BOB_PLUS); (charlie, INIT_AMOUNT + BOB_MINUS);
                     (bob, INIT_AMOUNT - BOB_MINUS)]%Z.

(** Up to the closing of the storage, and the entries it has stored then *)
Definition storage_basic_process_works : res unit :=
  let TO_CHARLIE := 2000000%Z in let TO_DAVE := 1000000%Z in
  let s := initialised false in
  let before := [(alice, ALICE_INIT_BALANCE); (bob, BOB_INIT_BALANCE); (charlie, 0); (dave, 0)]%Z in
  _ ← assert_balances s before;
  s ← bumped s;
  let raw_txs := [transfer_tx alice charlie TO_CHARLIE; transfer_tx bob dave TO_DAVE] in
  let results := process_transfers_ex s raw_txs in
  _ ← executed_all results 2;
  first ← vec_get results 0;
  second ← vec_get results 1;
  _ ← assert_result_balance charlie (Some TO_CHARLIE) first;
  _ ← assert_result_balance alice (Some (ALICE_INIT_BALANCE - TO_CHARLIE - FEE)%Z) first;
  _ ← assert_result_balance alice None second;
  _ ← assert_result_balance bob (Some (BOB_INIT_BALANCE - TO_DAVE - FEE)%Z) second;
  _ ← assert_result_balance dave (Some TO_DAVE) second;
  _ ← assert_balances s before;
  s ← commit_txs s results raw_txs;
  _ ← assert_heights s 1 (Some 1%Z);
  _ ← assert_balances s
        [(alice, ALICE_INIT_BALANCE - TO_CHARLIE - FEE); (bob, BOB_INIT_BALANCE - TO_DAVE - FEE);
         (charlie, TO_CHARLIE); (dave, TO_DAVE)]%Z;
  let '(s, r) := confirm s (current_height s) in
  _ ← try_ok r;
  entries ← expect (get_slot_entries (st_blockstore s) 1 false) "the slot is dead";
  _ ← assert_eq (Z.of_nat (length entries)) (st_ticks_per_slot s + 1)%Z;
  first ← vec_get entries 0;
  assert_eq (entry_transactions first) (to_versioned_transaction <$> raw_txs).

Abbreviation executor := (Executor bank forks store world N).
Definition new_for_test : executor := executor_new (initialised false) Settings_default.
Abbreviation run_block := (new_block (TxError:=string) 0%Z (id : N → N)).

(** Up to the closing of the engine *)
Definition engine_basic_process_works : res unit :=
  let TO_CHARLIE := 2000000%Z in let TO_DAVE := 1000000%Z in
  s ← expect (ex_storage new_for_test) "storage is none";
  _ ← assert_balances s [(alice, ALICE_INIT_BALANCE); (bob, BOB_INIT_BALANCE); (charlie, 0); (dave, 0)]%Z;
  let block := [[transfer_tx alice charlie TO_CHARLIE; transfer_tx bob dave TO_DAVE]] in
  let '(x, r) := check_block new_for_test block None in
  _ ← try_ok r;
  '(x, r, _) ← run_block x block;
  info ← try_ok r;
  _ ← assert_eq (head_slot (info_head info), info_store_height info, head_slot (info_parent info))
        (1, Some 1, 0)%Z;
  s ← expect (ex_storage x) "storage is none";
  assert_balances s [(alice, ALICE_INIT_BALANCE - TO_CHARLIE); (bob, BOB_INIT_BALANCE - TO_DAVE);
                     (charlie, TO_CHARLIE); (dave, TO_DAVE)]%Z.
Definition commit_empty_block_should_fail : res unit :=
  let '(x, r) := check_block new_for_test [] None in
  _ ← try_ok r;
  '(_, r, _) ← run_block x [];
  assert_that (match r with inr (ExecStorageError NoEntries) => true | _ => false end).
End ProcessTests.

Example storage_tests_pass :
  forallb passed [AncestorTests.find_ancestors_works; ReorgTests.reorg_works;
   ProcessTests.conflict_transaction_may_lead_incorrect_state;
   ProcessTests.storage_basic_process_works; ProcessTests.engine_basic_process_works;
   ProcessTests.commit_empty_block_should_fail] = true.
Proof. vm_compute. reflexivity. Qed.

(** ** The order of a block *)

(** Three transfers in two batches, none of which conflict *)
Definition apart : BlockPayload transfer :=
  [[transfer_tx alice charlie 2000000; transfer_tx bob dave 1000000]; [transfer_tx 20 21 5]]%N%Z.
(** Alice pays Charlie, and in the next batch Dave. *)
Definition twice : BlockPayload transfer := [[transfer_tx alice charlie 300]; [transfer_tx alice dave 100]]%Z.
Definition checks : Switchs := mkSwitchs true true.
Definition balances_after (block : BlockPayload transfer) (keys : list N) : res (list Z) :=
  '(x, r, _) ← ProcessTests.run_block ProcessTests.new_for_test block;
  _ ← try_ok r;
  s ← expect (ex_storage x) "storage is none"; Ok (balance s <$> keys).

(** A block with an account in two batches: it is refused by [check_block], but
    [new_block] does not check it and executes the second batch on the accounts
    before the first.  Alice has paid 400 and loses 100. *)
Example unchecked_block_creates_lamports :
  (∃ e, (check_block ProcessTests.new_for_test twice (Some checks)).2 = inr (ExecValidatorError e)) ∧
  balances_after twice [alice; charlie; dave] = Ok [ALICE_INIT_BALANCE - 100; 300; 100]%Z.
Proof. split; [eexists|]; vm_compute; reflexivity. Qed.

