(* ===== verification/TxBuilder.v ===== *)
(** * The transaction builder

    [svm/executor/src/transaction/builder.rs].  Messages and transactions are
    plain data of [solana_sdk]; checking and sanitizing them are its functions
    and parameters here. *)
From S2P Require Import Prelude.
Set Default Proof Using "Type*".

(** [x.saturating_add(1)] on [u8] *)
Definition u8_incr (x : Z) : Z := Z.min u8_max (x + 1).
(** [i as u8] for a [usize] *)
Definition as_u8 (i : nat) : Z := (Z.of_nat i `mod` 256)%Z.

Inductive AccountType := Readonly | Writable | SignerReadonly | SignerWritable.
#[global] Instance AccountType_eq_dec : EqDecision AccountType.
Proof. solve_decision. Defined.
#[global] Instance AccountType_countable : Countable AccountType.
Proof.
  refine (inj_countable'
    (λ t, match t with
          | Readonly => 0 | Writable => 1 | SignerReadonly => 2 | SignerWritable => 3
          end)
    (λ n, match n with
          | 0 => Readonly | 1 => Writable | 2 => SignerReadonly | _ => SignerWritable
          end) _).
  by intros [].
Defined.

Section Builder.
Context {Pubkey Signature Hash Data : Type} `{Countable Pubkey}.

(** ** Data of [solana_sdk] *)

Record AccountMeta := mkMeta { meta_pubkey : Pubkey; meta_is_signer : bool; meta_is_writable : bool }.
Record MessageHeader := mkHeader {
  h_num_required_signatures : Z;
  h_num_readonly_signed_accounts : Z;
  h_num_readonly_unsigned_accounts : Z
}.
Record CompiledInstruction := mkCompiled {
  ci_program_id_index : Z; ci_accounts : list Z; ci_data : Data
}.
(** The two versions carry the same fields; [V0] has its (empty) list of
    address table lookups besides. *)
Record Message := mkMessage {
  m_header : MessageHeader;
  m_account_keys : list Pubkey;
  m_recent_blockhash : Hash;
  m_instructions : list CompiledInstruction
}.
Inductive VersionedMessage := Legacy (m : Message) | V0 (m : Message) (lookups : list unit).
Record VersionedTransaction := mkVersioned {
  vt_signatures : list Signature; vt_message : VersionedMessage
}.
Definition message_of (m : VersionedMessage) : Message := match m with Legacy m | V0 m _ => m end.

(** ** The builder *)

Record InnerInstruction := mkInner {
  program_id : Pubkey; in_accounts : list (Pubkey * AccountType); in_data : Data
}.
Record SanitizedTransactionBuilder := mkBuilder {
  instructions : list InnerInstruction;
  num_required_signatures : Z;
  num_readonly_signed_accounts : Z;
  num_readonly_unsigned_accounts : Z;
  signed_readonly_accounts : list (Pubkey * Signature);
  signed_mutable_accounts : list (Pubkey * Signature);
  unsigned_readonly_accounts : list Pubkey;
  unsigned_mutable_account : list Pubkey
}.
Implicit Types (b : SanitizedTransactionBuilder).
Definition builder_default : SanitizedTransactionBuilder := mkBuilder [] 0 0 0 [] [] [] [].

(** One iteration of the loop over the accounts. *)
Definition add_account (signatures : gmap Pubkey Signature)
    (st : SanitizedTransactionBuilder * list (Pubkey * AccountType)) (item : AccountMeta) :
    res (SanitizedTransactionBuilder * list (Pubkey * AccountType)) :=
  let '(b, accounts) := st in
  let key := meta_pubkey item in
  match meta_is_signer item, meta_is_writable item with
  | true, true =>
      sig ← expect (signatures !! key) "no entry found for key";
      Ok (mkBuilder (instructions b) (u8_incr (num_required_signatures b))
            (num_readonly_signed_accounts b) (num_readonly_unsigned_accounts b)
            (signed_readonly_accounts b) (signed_mutable_accounts b ++ [(key, sig)])
            (unsigned_readonly_accounts b) (unsigned_mutable_account b),
          accounts ++ [(key, SignerWritable)])
  | true, false =>
      sig ← expect (signatures !! key) "no entry found for key";
      Ok (mkBuilder (instructions b) (u8_incr (num_required_signatures b))
            (u8_incr (num_readonly_signed_accounts b)) (num_readonly_unsigned_accounts b)
            (signed_readonly_accounts b ++ [(key, sig)]) (signed_mutable_accounts b)
            (unsigned_readonly_accounts b) (unsigned_mutable_account b),
          accounts ++ [(key, SignerReadonly)])
  | false, true =>
      Ok (mkBuilder (instructions b) (num_required_signatures b)
            (num_readonly_signed_accounts b) (num_readonly_unsigned_accounts b)
            (signed_readonly_accounts b) (signed_mutable_accounts b)
            (unsigned_readonly_accounts b) (unsigned_mutable_account b ++ [key]),
          accounts ++ [(key, Writable)])
  | false, false =>
      Ok (mkBuilder (instructions b) (num_required_signatures b)
            (num_readonly_signed_accounts b) (u8_incr (num_readonly_unsigned_accounts b))
            (signed_readonly_accounts b) (signed_mutable_accounts b)
            (unsigned_readonly_accounts b ++ [key]) (unsigned_mutable_account b),
          accounts ++ [(key, Readonly)])
  end.

Definition create_instruction b (program_id : Pubkey) (accounts : list AccountMeta)
    (signatures : gmap Pubkey Signature) (data : Data) : res SanitizedTransactionBuilder :=
  '(b, accounts) ← fold_res (add_account signatures) (b, []) accounts;
  Ok (mkBuilder (instructions b ++ [mkInner program_id accounts data])
        (num_required_signatures b) (num_readonly_signed_accounts b)
        (num_readonly_unsigned_accounts b) (signed_readonly_accounts b)
        (signed_mutable_accounts b) (unsigned_readonly_accounts b) (unsigned_mutable_account b)).

(** [clean_up] returns the instructions; it clears [unsigned_mutable_account]
    twice and [unsigned_readonly_accounts] not at all. *)
Definition clean_up b : list InnerInstruction * SanitizedTransactionBuilder :=
  (instructions b, mkBuilder [] 0 0 0 [] [] (unsigned_readonly_accounts b) []).

Definition push_and_return_index (value : Pubkey) (vector : list Pubkey) : Z * list Pubkey :=
  (as_u8 (length (vector ++ [value]) - 1), vector ++ [value]).

(** [positions_lambda] *)
Definition add_position (st : gmap (Pubkey * AccountType) nat * list Pubkey)
    (x : Pubkey * AccountType) : gmap (Pubkey * AccountType) nat * list Pubkey :=
  (<[x := length st.2]> st.1, st.2 ++ [x.1]).

(** The accounts in the order the four [for_each] visit them. *)
Definition ordered_accounts b : list (Pubkey * AccountType) :=
  ((λ x, (x.1, SignerWritable)) <$> signed_mutable_accounts b) ++
  ((λ x, (x.1, SignerReadonly)) <$> signed_readonly_accounts b) ++
  ((λ k, (k, Writable)) <$> unsigned_mutable_account b) ++
  ((λ k, (k, Readonly)) <$> unsigned_readonly_accounts b).

(** One iteration of the loop over the instructions. *)
Definition compile_step (positions : gmap (Pubkey * AccountType) nat)
    (st : list Pubkey * list CompiledInstruction) (item : InnerInstruction) :
    res (list Pubkey * list CompiledInstruction) :=
  let '(account_keys, compiled) := st in
  accounts ← fold_res (λ acc x,
      i ← expect (positions !! x) "no entry found for key"; Ok (acc ++ [as_u8 i]))
    [] (in_accounts item);
  let '(index, account_keys) := push_and_return_index (program_id item) account_keys in
  Ok (account_keys, compiled ++ [mkCompiled index accounts (in_data item)]).

(** ** Building *)

Context {STx TransactionError : Type}.
(** [SanitizedVersionedTransaction::try_new]: does it accept? *)
Context (sanitizable : VersionedTransaction → bool).
(** [SanitizedTransaction::try_new], with a unique hash, the empty loader and
    all reserved keys *)
Context (try_new : VersionedTransaction → STx + TransactionError).

Definition build b (block_hash : Hash) (fee_payer : Pubkey * Signature) (v0_message : bool) :
    res (SanitizedTransactionBuilder * ((STx * VersionedTransaction) + TransactionError)) :=
  let header := mkHeader (u8_incr (num_required_signatures b)) (num_readonly_signed_accounts b)
                  (u8_incr (num_readonly_unsigned_accounts b)) in
  let '(positions, account_keys) := foldl add_position (∅, [fee_payer.1]) (ordered_accounts b) in
  let signatures := fee_payer.2 :: (signed_mutable_accounts b).*2
                      ++ (signed_readonly_accounts b).*2 in
  let '(items, b) := clean_up b in
  '(account_keys, compiled) ← fold_res (compile_step positions) (account_keys, []) items;
  let message := mkMessage header account_keys block_hash compiled in
  let transaction :=
    mkVersioned signatures (if v0_message then V0 message [] else Legacy message) in
  _ ← assert_res (sanitizable transaction) "called `Result::unwrap()` on an `Err` value";
  Ok (b, match try_new transaction with
         | inl tx => inl (tx, transaction)
         | inr e => inr e
         end).
End Builder.
Arguments AccountMeta : clear implicits.
Arguments SanitizedTransactionBuilder : clear implicits.
Arguments VersionedTransaction : clear implicits.
