(* ===== verification/TxFacts.v ===== *)
(** * The transaction builder: lemmas and theorems

    The rights a message gives its accounts, what the builder puts into a
    message, and the theorems on the builders reached by using one. *)
From S2P Require Import Prelude TxBuilder.
Set Default Proof Using "Type*".

(** ** What a message lets an account do

    By the documentation of [MessageHeader]: the first [num_required_signatures]
    keys sign, of them the last [num_readonly_signed_accounts] are read-only,
    and so are the last [num_readonly_unsigned_accounts] of all keys. *)
Section Facts.
Context {Pubkey Signature Hash Data : Type} `{Countable Pubkey}.
Abbreviation builder := (SanitizedTransactionBuilder Pubkey Signature Data).
Abbreviation message := (Message (Pubkey:=Pubkey) (Hash:=Hash) (Data:=Data)).
Implicit Types (b : builder) (m : message).

Definition is_signer m (i : nat) : Prop :=
  (Z.of_nat i < h_num_required_signatures (m_header m))%Z.
Definition is_writable m (i : nat) : Prop :=
  let h := m_header m in
  (Z.of_nat i < h_num_required_signatures h - h_num_readonly_signed_accounts h
   ∨ h_num_required_signatures h ≤ Z.of_nat i
     < Z.of_nat (length (m_account_keys m)) - h_num_readonly_unsigned_accounts h)%Z.

Definition type_of (a : AccountMeta Pubkey) : AccountType :=
  match meta_is_signer a, meta_is_writable a with
  | true, true => SignerWritable
  | true, false => SignerReadonly
  | false, true => Writable
  | false, false => Readonly
  end.
Definition tagged (a : AccountMeta Pubkey) : Pubkey * AccountType := (meta_pubkey a, type_of a).

(** The keys a list of accounts uses in one way. *)
Definition keys_of (ty : AccountType) (l : list (AccountMeta Pubkey)) : list Pubkey :=
  meta_pubkey <$> filter (λ a, type_of a = ty) l.

Lemma keys_of_snoc ty l a :
  keys_of ty (l ++ [a]) = keys_of ty l ++ if decide (type_of a = ty) then [meta_pubkey a] else [].
Proof.
  unfold keys_of. rewrite filter_app, fmap_app, filter_cons, filter_nil. by case_decide.
Qed.

Lemma keys_of_elem l a : a ∈ l → meta_pubkey a ∈ keys_of (type_of a) l.
Proof. intros Ha. apply list_elem_of_fmap_2, list_elem_of_filter. done. Qed.

Lemma u8_incr_min n : u8_incr (Z.min u8_max n) = Z.min u8_max (n + 1).
Proof. unfold u8_incr. lia. Qed.

(** ** Adding an instruction *)

(** Builder [b] is [b0] with the accounts [l] in its lists and counters. *)
Record grown b0 (l : list (AccountMeta Pubkey)) b : Prop := {
  g_instructions : instructions b = instructions b0;
  g_required : num_required_signatures b = Z.min u8_max (num_required_signatures b0
    + Z.of_nat (length (keys_of SignerWritable l) + length (keys_of SignerReadonly l)));
  g_signed : num_readonly_signed_accounts b = Z.min u8_max (num_readonly_signed_accounts b0
    + Z.of_nat (length (keys_of SignerReadonly l)));
  g_unsigned : num_readonly_unsigned_accounts b = Z.min u8_max (num_readonly_unsigned_accounts b0
    + Z.of_nat (length (keys_of Readonly l)));
  g_sw : (signed_mutable_accounts b).*1 = (signed_mutable_accounts b0).*1 ++ keys_of SignerWritable l;
  g_sr : (signed_readonly_accounts b).*1
         = (signed_readonly_accounts b0).*1 ++ keys_of SignerReadonly l;
  g_w : unsigned_mutable_account b = unsigned_mutable_account b0 ++ keys_of Writable l;
  g_r : unsigned_readonly_accounts b = unsigned_readonly_accounts b0 ++ keys_of Readonly l
}.

Lemma add_account_ok b0 sigs pre st a :
  grown b0 pre st.1 → st.2 = tagged <$> pre →
  (meta_is_signer a = true → is_Some (sigs !! meta_pubkey a)) →
  wp (add_account sigs st a) (λ st', grown b0 (pre ++ [a]) st'.1 ∧ st'.2 = tagged <$> pre ++ [a]).
Proof.
  destruct st as [b accs]. intros [Hi H1 H2 H3 H4 H5 H6 H7] Htag Ha. simpl in *. subst accs.
  rewrite fmap_app. unfold add_account.
  assert (∀ b' ty, type_of a = ty →
    grown b0 (pre ++ [a]) b' →
    grown b0 (pre ++ [a]) b' ∧ (tagged <$> pre) ++ [(meta_pubkey a, ty)]
      = (tagged <$> pre) ++ (tagged <$> [a])) as Hdone by (by intros b' ty <-).
  destruct (meta_is_signer a) eqn:Hsg, (meta_is_writable a) eqn:Hwr;
    [destruct (Ha eq_refl) as [sig Hsig]; wp_step; eapply wp_expect; [exact Hsig|]; wp_step..
    |wp_step|wp_step];
    (apply Hdone; [unfold type_of; by rewrite Hsg, Hwr|]).
  all: split; cbn [instructions num_required_signatures num_readonly_signed_accounts
    num_readonly_unsigned_accounts signed_readonly_accounts signed_mutable_accounts
    unsigned_readonly_accounts unsigned_mutable_account];
    rewrite ?keys_of_snoc, ?H1, ?H2, ?H3, ?fmap_app, ?H4, ?H5, ?H6, ?H7;
    unfold type_of; rewrite ?Hsg, ?Hwr; simpl;
    rewrite ?app_nil_r, ?length_app, ?app_assoc, ?u8_incr_min; simpl; try done;
    try (f_equal; lia).
  all: by rewrite fmap_app, ?H4, ?H5.
Qed.

Lemma create_instruction_ok b pid l sigs (data : Data) :
  (0 ≤ num_required_signatures b ≤ u8_max)%Z → (0 ≤ num_readonly_signed_accounts b ≤ u8_max)%Z →
  (0 ≤ num_readonly_unsigned_accounts b ≤ u8_max)%Z →
  Forall (λ a, meta_is_signer a = true → is_Some (sigs !! meta_pubkey a)) l →
  wp (create_instruction b pid l sigs data) (λ b', ∃ b1, grown b l b1 ∧
    b' = mkBuilder (instructions b ++ [mkInner pid (tagged <$> l) data])
           (num_required_signatures b1) (num_readonly_signed_accounts b1)
           (num_readonly_unsigned_accounts b1) (signed_readonly_accounts b1)
           (signed_mutable_accounts b1) (unsigned_readonly_accounts b1)
           (unsigned_mutable_account b1)).
Proof.
  intros Hr Hs Hu Hl. unfold create_instruction. wp_step. eapply wp_mono.
  - apply (wp_fold_res _ (λ pre st, grown b pre st.1 ∧ st.2 = tagged <$> pre)).
    + split; [|done]. split; simpl; rewrite ?app_nil_r; try done; lia.
    + intros pre a post st Heq [Hg Ht]. apply add_account_ok; [done|done|].
      eapply Forall_forall in Hl; [exact Hl|]. rewrite Heq. set_solver.
  - intros [b1 accs] [Hg Ht]. simpl in *. subst accs. wp_step. exists b1.
    by rewrite (g_instructions _ _ _ Hg).
Qed.

(** ** Well-formed builders *)

(** The counters agree with the lists, of which the first [stale] read-only
    keys are left over from an earlier build, and every account of an
    instruction is in its list. *)
Record wf (stale : nat) b : Prop := {
  wf_required : num_required_signatures b =
    Z.min u8_max (Z.of_nat (length (signed_mutable_accounts b)
                            + length (signed_readonly_accounts b)));
  wf_signed : num_readonly_signed_accounts b =
    Z.min u8_max (Z.of_nat (length (signed_readonly_accounts b)));
  wf_unsigned : num_readonly_unsigned_accounts b =
    Z.min u8_max (Z.of_nat (length (unsigned_readonly_accounts b)) - Z.of_nat stale);
  wf_stale : stale ≤ length (unsigned_readonly_accounts b);
  wf_accounts : Forall (λ it, ∀ x, x ∈ in_accounts it → x ∈ ordered_accounts b) (instructions b)
}.

Lemma ordered_accounts_keys b :
  ordered_accounts b =
  ((., SignerWritable) <$> (signed_mutable_accounts b).*1) ++
  ((., SignerReadonly) <$> (signed_readonly_accounts b).*1) ++
  ((., Writable) <$> unsigned_mutable_account b) ++
  ((., Readonly) <$> unsigned_readonly_accounts b).
Proof. unfold ordered_accounts. by rewrite <-!list_fmap_compose. Qed.

Lemma grown_ordered b0 l b x :
  grown b0 l b → x ∈ ordered_accounts b ↔ x ∈ ordered_accounts b0 ∨ x ∈ tagged <$> l.
Proof.
  intros [_ _ _ _ H4 H5 H6 H7]. rewrite !ordered_accounts_keys, H4, H5, H6, H7, !fmap_app.
  assert (x ∈ tagged <$> l ↔ ∃ ty, x ∈ (., ty) <$> keys_of ty l) as ->.
  { split.
    - intros (a & -> & Ha)%list_elem_of_fmap. exists (type_of a).
      apply (list_elem_of_fmap_2 (., type_of a) _ (meta_pubkey a)). by apply keys_of_elem.
    - intros (ty & (k & -> & (a & -> & [<- Ha]%list_elem_of_filter)%list_elem_of_fmap)
        %list_elem_of_fmap). by apply (list_elem_of_fmap_2 tagged). }
  rewrite !elem_of_app. split; [intros [[|]|[[|]|[[|]|[|]]]]; eauto 8|].
  intros [[|[|[|]]]|[[] Hx]]; eauto 8.
Qed.

Lemma wf_default : wf 0 (builder_default : builder).
Proof. split; simpl; [done..|constructor]. Qed.

Lemma wf_clean_up b : wf (length (unsigned_readonly_accounts b)) (clean_up b).2.
Proof. split; simpl; [done|done|unfold u8_max; lia|done|constructor]. Qed.

Lemma create_instruction_wf stale b pid l sigs (data : Data) :
  wf stale b → Forall (λ a, meta_is_signer a = true → is_Some (sigs !! meta_pubkey a)) l →
  wp (create_instruction b pid l sigs data) (λ b', wf stale b' ∧
    instructions b' = instructions b ++ [mkInner pid (tagged <$> l) data] ∧
    (signed_mutable_accounts b').*1 = (signed_mutable_accounts b).*1 ++ keys_of SignerWritable l ∧
    (signed_readonly_accounts b').*1
      = (signed_readonly_accounts b).*1 ++ keys_of SignerReadonly l ∧
    unsigned_mutable_account b' = unsigned_mutable_account b ++ keys_of Writable l ∧
    unsigned_readonly_accounts b' = unsigned_readonly_accounts b ++ keys_of Readonly l).
Proof.
  intros [Hr Hs Hu Hst Hacc] Hl.
  eapply wp_mono; [apply create_instruction_ok; [unfold u8_max in *; lia..|done]|].
  intros b' (b1 & Hg & ->). pose proof Hg as [_ H1 H2 H3 H4 H5 H6 H7]. simpl.
  pose proof (f_equal length H4) as L4. pose proof (f_equal length H5) as L5.
  pose proof (f_equal length H7) as L7. rewrite length_app, !length_fmap in L4, L5. rewrite length_app in L7.
  split_and!; try done. split; simpl.
  - rewrite H1, Hr. unfold u8_max. lia.
  - rewrite H2, Hs. unfold u8_max. lia.
  - rewrite H3, Hu. unfold u8_max. lia.
  - lia.
  - apply Forall_app. split; [|apply Forall_singleton].
    + eapply Forall_impl; [exact Hacc|]. intros it Hit x Hx.
      apply (grown_ordered _ _ _ _ Hg). left. by apply Hit.
    + intros x Hx. apply (grown_ordered _ _ _ _ Hg). by right.
Qed.
End Facts.

(** ** Building a message *)
Section Building.
Context {Pubkey Signature Hash Data STx TransactionError : Type} `{Countable Pubkey}.
Abbreviation builder := (SanitizedTransactionBuilder Pubkey Signature Data).
Abbreviation message := (Message (Pubkey:=Pubkey) (Hash:=Hash) (Data:=Data)).
Abbreviation transaction := (VersionedTransaction Pubkey Signature Hash Data).
Implicit Types (b : builder) (m : message).

(** The positions found point at the account they were asked for. *)
Lemma positions_ok (l : list (Pubkey * AccountType)) st :
  let st' := foldl add_position st l in
  st'.2 = st.2 ++ l.*1 ∧
  ∀ x, x ∈ l → ∃ j, l !! j = Some x ∧ st'.1 !! x = Some (length st.2 + j).
Proof.
  induction l as [|y l [IH1 IH2]] using rev_ind; simpl in *.
  { rewrite app_nil_r. split; [done|]. by intros x ?%elem_of_nil. }
  rewrite foldl_app, fmap_app. simpl. rewrite IH1, length_app, length_fmap, app_assoc.
  split; [done|]. intros x Hx. destruct (decide (x = y)) as [->|Hne].
  - exists (length l). rewrite lookup_insert_eq. split; [|done].
    by apply list_lookup_middle.
  - apply elem_of_app in Hx as [Hx|?%list_elem_of_singleton]; [|done].
    destruct (IH2 x Hx) as (j & Hj & Hp). exists j. rewrite lookup_insert_ne by done.
    split; [|done]. by apply lookup_app_l_Some.
Qed.

(** Instruction [i] compiled: the index of its program, and those of its
    accounts. *)
Definition compiled_as (positions : gmap (Pubkey * AccountType) nat) (n i : nat)
    (item : InnerInstruction (Pubkey:=Pubkey) (Data:=Data)) (c : CompiledInstruction) : Prop :=
  ci_program_id_index c = as_u8 (n + i) ∧ ci_data c = in_data item ∧
  Forall2 (λ x z, ∃ p, positions !! x = Some p ∧ z = as_u8 p) (in_accounts item) (ci_accounts c).

Lemma compile_ok positions keys (items : list (InnerInstruction (Pubkey:=Pubkey) (Data:=Data))) :
  Forall (λ it, ∀ x, x ∈ in_accounts it → is_Some (positions !! x)) items →
  wp (fold_res (compile_step positions) (keys, []) items) (λ '(keys', cs),
    keys' = keys ++ (program_id <$> items) ∧ length cs = length items ∧
    ∀ i item c, items !! i = Some item → cs !! i = Some c →
      compiled_as positions (length keys) i item c).
Proof.
  intros Hall. apply (wp_fold_res _ (λ pre '(keys', cs),
    keys' = keys ++ (program_id <$> pre) ∧ length cs = length pre ∧
    ∀ i item c, pre !! i = Some item → cs !! i = Some c →
      compiled_as positions (length keys) i item c)).
  { rewrite app_nil_r. split_and!; [done..|]. intros i item c Hi. by rewrite lookup_nil in Hi. }
  intros pre it post [keys' cs] Heq (-> & Hlen & Hcs). unfold compile_step. wp_step.
  apply wp_mono with (λ acc,
    Forall2 (λ x z, ∃ p, positions !! x = Some p ∧ z = as_u8 p) (in_accounts it) acc).
  - apply (wp_fold_res _ (λ p acc,
      Forall2 (λ x z, ∃ p, positions !! x = Some p ∧ z = as_u8 p) p acc)); [constructor|].
    intros p x q acc Hp Hacc. eapply Forall_forall in Hall as Hit;
      [|rewrite Heq; apply elem_of_app; right; left].
    destruct (Hit x) as [j Hj]; [rewrite Hp; apply elem_of_app; right; left|].
    wp_step. eapply wp_expect; [exact Hj|]. wp_step. apply Forall2_app; [done|].
    constructor; [by exists j|constructor].
  - intros acc Hacc. unfold push_and_return_index. wp_step.
    rewrite fmap_app, <-app_assoc, !length_app. split_and!; [done|simpl; lia|].
    intros i item c Hi Hc.
    apply lookup_app_Some in Hi as [Hi|[Hge Hi]].
    + apply (Hcs i); [done|]. rewrite lookup_app_l in Hc; [done|].
      apply lookup_lt_Some in Hi. lia.
    + apply list_lookup_singleton_Some in Hi as [Hi <-].
      rewrite lookup_app_r in Hc by lia. replace (i - length cs) with 0 in Hc by lia.
      injection Hc as <-. split_and!; [|done|done]. simpl. f_equal.
      rewrite length_fmap. simpl. lia.
Qed.

(** What a sane transaction is, by the documentation of
    [VersionedTransaction::sanitize]: the header fits the keys, a writable key
    signs, one signature per signer, at most 256 keys, and every index is in
    range, that of a program not 0. *)
Definition sane (tx : transaction) : Prop :=
  let m := message_of (vt_message tx) in
  let n := Z.of_nat (length (m_account_keys m)) in
  (h_num_required_signatures (m_header m) + h_num_readonly_unsigned_accounts (m_header m) ≤ n)%Z ∧
  (h_num_readonly_signed_accounts (m_header m) < h_num_required_signatures (m_header m))%Z ∧
  Z.of_nat (length (vt_signatures tx)) = h_num_required_signatures (m_header m) ∧ (n ≤ 256)%Z ∧
  Forall (λ c, (0 < ci_program_id_index c < n)%Z ∧ Forall (λ z, 0 ≤ z < n)%Z (ci_accounts c))
    (m_instructions m).

(** The message of a builder: its keys, header and instructions, with indexes
    that point at the accounts of the instructions. *)
Record built (stale : nat) b (payer : Pubkey) m : Prop := {
  bt_keys : m_account_keys m =
    payer :: (ordered_accounts b).*1 ++ (program_id <$> instructions b);
  bt_header : m_header m =
    mkHeader (Z.of_nat (1 + length (signed_mutable_accounts b)
                          + length (signed_readonly_accounts b)))
      (Z.of_nat (length (signed_readonly_accounts b)))
      (Z.of_nat (1 + length (unsigned_readonly_accounts b) - stale));
  bt_length : length (m_instructions m) = length (instructions b);
  bt_instructions i item c :
    instructions b !! i = Some item → m_instructions m !! i = Some c →
    ci_program_id_index c = Z.of_nat (1 + length (ordered_accounts b) + i) ∧
    ci_data c = in_data item ∧
    Forall2 (λ x z, ∃ j, ordered_accounts b !! j = Some x ∧ z = Z.of_nat (1 + j))
      (in_accounts item) (ci_accounts c)
}.

(** Small enough for the [u8] counters and indexes. *)
Definition fits b : Prop :=
  length (signed_mutable_accounts b) + length (signed_readonly_accounts b) ≤ 254 ∧
  1 + length (ordered_accounts b) + length (instructions b) ≤ 256.

Lemma length_ordered b :
  length (ordered_accounts b) =
  length (signed_mutable_accounts b) + length (signed_readonly_accounts b)
  + length (unsigned_mutable_account b) + length (unsigned_readonly_accounts b).
Proof. unfold ordered_accounts. rewrite !length_app, !length_fmap. lia. Qed.

Lemma as_u8_small i : i < 256 → as_u8 i = Z.of_nat i.
Proof. intros Hi. unfold as_u8. apply Z.mod_small. lia. Qed.

Lemma built_sane stale b payer m (sigs : list Signature) v :
  built stale b payer m → fits b → instructions b ≠ [] → message_of v = m →
  length sigs = 1 + length (signed_mutable_accounts b) + length (signed_readonly_accounts b) →
  sane (mkVersioned sigs v).
Proof.
  intros [Hk Hh Hl Hi] [Hf1 Hf2] Hne Hv Hs. unfold sane. simpl. rewrite Hv, Hk, Hh. simpl.
  rewrite length_app, !length_fmap.
  assert (1 ≤ length (instructions b)) by (destruct (instructions b); simpl; [done|lia]).
  pose proof (length_ordered b). split_and!; try lia.
  apply Forall_lookup. intros i c Hc.
  destruct (lookup_lt_is_Some_2 (instructions b) i) as [item Hit].
  { apply lookup_lt_Some in Hc. lia. }
  destruct (Hi i item c Hit Hc) as (-> & _ & Hacc). apply lookup_lt_Some in Hit.
  split; [lia|]. apply Forall_lookup. intros j z Hz.
  destruct (Forall2_lookup_r _ _ _ _ _ Hacc Hz) as (x & _ & p & Hp & ->).
  apply lookup_lt_Some in Hp. lia.
Qed.

(** ** Privileges *)

(** What the account at place [j] of the builder may do in the message: it
    signs and writes as asked, except that the first [stale] read-only accounts,
    and one more per instruction after the first, may be written. *)
Lemma privileges stale b payer m j k ty :
  wf stale b → built stale b payer m → instructions b ≠ [] → ordered_accounts b !! j = Some (k, ty) →
  m_account_keys m !! (1 + j) = Some k ∧
  (is_signer m (1 + j) ↔ ty = SignerWritable ∨ ty = SignerReadonly) ∧
  (is_writable m (1 + j) ↔ ty = SignerWritable ∨ ty = Writable ∨
     (ty = Readonly ∧ j + 1 < length (ordered_accounts b) - length (unsigned_readonly_accounts b)
                              + stale + length (instructions b))) ∧
  (ty = Readonly → length (ordered_accounts b) - length (unsigned_readonly_accounts b) ≤ j).
Proof.
  intros Hwf [Hk Hh _ _] Hne Hj. unfold is_signer, is_writable. rewrite Hk, Hh. cbn [m_header
    h_num_required_signatures h_num_readonly_signed_accounts h_num_readonly_unsigned_accounts].
  pose proof (wf_stale _ _ Hwf) as Hst. pose proof (length_ordered b) as Hlen.
  pose proof (lookup_lt_Some _ _ _ Hj) as Hjl.
  assert (1 ≤ length (instructions b)) by (destruct (instructions b); simpl; [done|lia]).
  split.
  { simpl. rewrite lookup_app_l by (by rewrite length_fmap). by rewrite list_lookup_fmap, Hj. }
  simpl length. rewrite length_app, !length_fmap. unfold ordered_accounts in Hj.
  repeat (apply lookup_app_Some in Hj as [Hj|[? Hj]]; [|rewrite length_fmap in *]).
  all: pose proof (lookup_lt_Some _ _ _ Hj) as Hjl'; rewrite length_fmap in Hjl';
    rewrite list_lookup_fmap in Hj; destruct (_ !! _) in Hj; [|done]; injection Hj as <- <-.
  all: split_and!; [split|split|]; intros; destruct_or?; destruct_and?; try done; try lia;
    first [by left | by right; left | by right | idtac].
  all: try (right; right; split; [done|lia]); try (exfalso; lia); try lia.
Qed.

Context (sanitizable : transaction → bool) (try_new : transaction → STx + TransactionError).
Context (sane_sanitizable : ∀ tx, sane tx → sanitizable tx = true).

Lemma build_ok stale b hash payer v0 :
  wf stale b → fits b → instructions b ≠ [] →
  wp (build sanitizable try_new b hash payer v0) (λ '(b', r),
    b' = (clean_up b).2 ∧ ∃ tx, sane tx ∧ built stale b payer.1 (message_of (vt_message tx)) ∧
      r = match try_new tx with inl s => inl (s, tx) | inr e => inr e end).
Proof.
  intros [Hr Hs Hu Hst Hacc] Hfit Hne. unfold build.
  destruct (positions_ok (ordered_accounts b) (∅, [payer.1])) as [Hkeys Hpos].
  destruct (foldl add_position _ _) as [positions keys]. simpl in Hkeys, Hpos. subst keys.
  simpl. wp_step. eapply wp_mono.
  { apply compile_ok. eapply Forall_impl; [exact Hacc|]. intros it Hit x Hx.
    destruct (Hpos x (Hit x Hx)) as (j & _ & ?). by eexists. }
  intros [keys cs] (-> & Hlen & Hcs). wp_step.
  match goal with |- context [sanitizable ?t] => set (tx := t) end.
  assert (built stale b payer.1 (message_of (vt_message tx))) as Hbuilt.
  { assert (message_of (vt_message tx) = mkMessage
      (mkHeader (u8_incr (num_required_signatures b)) (num_readonly_signed_accounts b)
         (u8_incr (num_readonly_unsigned_accounts b)))
      (payer.1 :: (ordered_accounts b).*1 ++ (program_id <$> instructions b)) hash cs) as ->
      by (unfold tx; by destruct v0).
    destruct Hfit as [Hf1 Hf2]. pose proof (length_ordered b).
    split; simpl; [done| |done|].
    - rewrite Hr, Hs, Hu. unfold u8_incr, u8_max.
      assert (1 ≤ length (instructions b)) by (destruct (instructions b); simpl; [done|lia]).
      f_equal; lia.
    - intros i item c Hit Hc. destruct (Hcs i item c Hit Hc) as (Hp & Hd & Hac).
      pose proof (lookup_lt_Some _ _ _ Hit). split_and!; [|done|].
      + rewrite Hp, as_u8_small; simpl; rewrite length_fmap; [f_equal; lia|lia].
      + apply Forall2_same_length_lookup. split; [by eapply Forall2_length|].
        intros k x z Hx Hz. destruct (Forall2_lookup_lr _ _ _ _ _ _ Hac Hx Hz) as (p & Hp' & ->).
        rewrite Forall_lookup in Hacc. apply list_elem_of_lookup_2 in Hx.
        destruct (Hpos x (Hacc i item Hit x Hx)) as (j & Hj & Hj'). exists j. split; [done|].
        simplify_eq. apply as_u8_small. apply lookup_lt_Some in Hj. lia. }
  assert (sane tx) as Hsane.
  { eapply built_sane; [exact Hbuilt|done|done|done|]. simpl. rewrite length_app, !length_fmap. lia. }
  wp_step; [by apply sane_sanitizable|]. wp_step. split; [done|]. by exists tx.
Qed.
End Building.

(** ** One instruction *)
Section OneInstruction.
Context {Pubkey Signature Hash Data STx TransactionError : Type} `{Countable Pubkey}.
Abbreviation builder := (SanitizedTransactionBuilder Pubkey Signature Data).
Abbreviation transaction := (VersionedTransaction Pubkey Signature Hash Data).
Context (sanitizable : transaction → bool) (try_new : transaction → STx + TransactionError).

Lemma keys_of_lengths (l : list (AccountMeta Pubkey)) :
  length (keys_of SignerWritable l) + length (keys_of SignerReadonly l)
  + length (keys_of Writable l) + length (keys_of Readonly l) = length l.
Proof using H.
  induction l as [|a l IH] using rev_ind; [done|].
  rewrite !keys_of_snoc, !length_app. destruct (type_of a); simpl; lia.
Qed.

Lemma type_of_rights (a : AccountMeta Pubkey) :
  (type_of a = SignerWritable ∨ type_of a = SignerReadonly ↔ meta_is_signer a = true) ∧
  (type_of a = SignerWritable ∨ type_of a = Writable ↔ meta_is_writable a = true).
Proof using H.
  unfold type_of. destruct (meta_is_signer a), (meta_is_writable a); naive_solver.
Qed.

(** A message with one instruction, of program [pid], over the accounts [l]:
    each account has the rights of its meta, the program none, and the fee
    payer signs and is writable. *)
Definition rights_granted (tx : transaction) (pid : Pubkey) l (data : Data) (payer : Pubkey) : Prop :=
  let m := message_of (vt_message tx) in
  ∃ c, sane tx ∧ m_instructions m = [c] ∧ ci_data c = data ∧
  m_account_keys m !! 0 = Some payer ∧ is_signer m 0 ∧ is_writable m 0 ∧
  Forall2 (λ a z, ∃ i, z = Z.of_nat i ∧ m_account_keys m !! i = Some (meta_pubkey a) ∧
      (is_signer m i ↔ meta_is_signer a = true) ∧
      (is_writable m i ↔ meta_is_writable a = true)) l (ci_accounts c) ∧
  ∃ i, ci_program_id_index c = Z.of_nat i ∧ m_account_keys m !! i = Some pid ∧
    ¬ is_signer m i ∧ ¬ is_writable m i.

Lemma one_instruction pid l sigs data hash payer v0 :
  (∀ tx, sane tx → sanitizable tx = true) →
  Forall (λ a, meta_is_signer a = true → is_Some (sigs !! meta_pubkey a)) l →
  length l ≤ 254 →
  ∃ b1 b2 tx,
    create_instruction builder_default pid l sigs data = Ok b1 ∧
    build sanitizable try_new b1 hash payer v0
      = Ok (b2, match try_new tx with inl s => inl (s, tx) | inr e => inr e end) ∧
    rights_granted tx pid l data payer.1.
Proof using Type.
  intros Hsane Hl Hlen.
  destruct (wp_elim _ _ (create_instruction_wf 0 builder_default pid l sigs data wf_default Hl))
    as (b1 & Hc & Hwf & Hins & H1 & H2 & H3 & H4). simpl in *.
  apply (f_equal length) in H1 as L1, H2 as L2, H3 as L3, H4 as L4. rewrite length_fmap in L1, L2.
  pose proof (keys_of_lengths l). pose proof (length_ordered b1) as Hord.
  assert (fits b1) as Hfit by (unfold fits; rewrite Hins; simpl; lia).
  assert (instructions b1 ≠ []) as Hne by (by rewrite Hins).
  destruct (wp_elim _ _ (build_ok sanitizable try_new Hsane 0 b1 hash payer v0 Hwf Hfit Hne))
    as ([b2 r] & Hb & _ & tx & Htx & Hbuilt & ->).
  pose proof Hbuilt as [Hk Hh Hi Hc0]. rewrite Hins in Hk, Hi, Hc0.
  destruct (m_instructions (message_of (vt_message tx))) as [|c [|]] eqn:Hm; try done.
  destruct (Hc0 0 _ c eq_refl) as (Hpid & Hdata & Hacc); [done|]. simpl in Hpid, Hacc.
  exists b1, b2, tx. split; [done|]. split; [done|]. exists c.
  split_and!; [done|done|done|by rewrite Hk| | | |].
  - unfold is_signer. rewrite Hh. simpl. lia.
  - unfold is_writable. rewrite Hh. simpl. lia.
  - apply Forall2_fmap_l in Hacc. eapply Forall2_impl; [exact Hacc|].
    intros a z (j & Hj & ->). exists (1 + j).
    destruct (privileges 0 b1 payer.1 _ j _ _ Hwf Hbuilt Hne Hj)
      as (Hkey & Hsig & Hwr & Hplace). destruct (type_of_rights a) as [Hs Hw].
    split_and!; [done|done|by rewrite Hsig|]. rewrite Hwr, <-Hw, Hins. simpl.
    split; [|naive_solver]. intros [?|[?|[Hro Hlt]]]; [by auto..|]. exfalso.
    specialize (Hplace Hro). lia.
  - exists (1 + length (ordered_accounts b1)). rewrite Hpid, Hk. split_and!.
    + f_equal. lia.
    + simpl. rewrite lookup_app_r by (by rewrite length_fmap). by rewrite length_fmap, Nat.sub_diag.
    + unfold is_signer. rewrite Hh. simpl. lia.
    + unfold is_writable. rewrite Hh, Hk. simpl. rewrite length_app, !length_fmap. simpl. lia.
Qed.
End OneInstruction.

(** ** Theorems about the transaction builder *)
Section Theorems.
Context {Pubkey Signature Hash Data STx TransactionError : Type} `{Countable Pubkey}.
Abbreviation builder := (SanitizedTransactionBuilder Pubkey Signature Data).
Abbreviation transaction := (VersionedTransaction Pubkey Signature Hash Data).
Context (sanitizable : transaction → bool) (try_new : transaction → STx + TransactionError).

(** The builders one gets from the default one by adding instructions and
    building, with the number of read-only keys left from earlier builds. *)
Inductive reached : nat → builder → Prop :=
| reached_default : reached 0 builder_default
| reached_create stale b pid l sigs data b' :
    reached stale b →
    Forall (λ a, meta_is_signer a = true → is_Some (sigs !! meta_pubkey a)) l →
    create_instruction b pid l sigs data = Ok b' → reached stale b'
| reached_build stale b hash payer v0 b' r :
    reached stale b → build sanitizable try_new b hash payer v0 = Ok (b', r) →
    reached (length (unsigned_readonly_accounts b)) b'.

Lemma build_builder b hash payer v0 b' r :
  build sanitizable try_new b hash payer v0 = Ok (b', r) → b' = (clean_up b).2.
Proof using Type.
  unfold build. destruct (foldl _ _ _) as [positions keys]. simpl. intros Hb.
  res_split Hb as [keys' cs] _. res_split Hb as ? _. by injection Hb as <- _.
Qed.

Lemma reached_wf stale b : reached stale b → wf stale b.
Proof using Type.
  induction 1 as [|stale b pid l sigs data b' _ IH Hl Hc|stale b hash payer v0 b' r _ _ Hb].
  - apply wf_default.
  - destruct (wp_elim _ _ (create_instruction_wf stale b pid l sigs data IH Hl)) as (b1 & Hb1 & ? & _).
    rewrite Hc in Hb1. by injection Hb1 as <-.
  - apply build_builder in Hb as ->. apply wf_clean_up.
Qed.

(** C24: building a transaction with one instruction gives every account the
    rights asked for.  The builder does not panic, the transaction is sane, the
    instruction refers to its program and to its accounts in order, each
    account signs and is writable exactly as its meta says, the program does
    neither, and the fee payer signs and is writable.  This is for at most 254
    accounts, with a signature for each account that is to sign, and a sanitizer
    that accepts sane transactions. *)
Theorem one_instruction_rights pid l sigs data hash payer v0 :
  (∀ tx, sane tx → sanitizable tx = true) →
  Forall (λ a, meta_is_signer a = true → is_Some (sigs !! meta_pubkey a)) l →
  length l ≤ 254 →
  ∃ b1 b2 tx c,
    create_instruction builder_default pid l sigs data = Ok b1 ∧
    build sanitizable try_new b1 hash payer v0
      = Ok (b2, match try_new tx with inl s => inl (s, tx) | inr e => inr e end) ∧
    let m := message_of (vt_message tx) in
    sane tx ∧ m_instructions m = [c] ∧ ci_data c = data ∧
    m_account_keys m !! 0 = Some payer.1 ∧ is_signer m 0 ∧ is_writable m 0 ∧
    Forall2 (λ a z, ∃ i, z = Z.of_nat i ∧ m_account_keys m !! i = Some (meta_pubkey a) ∧
        (is_signer m i ↔ meta_is_signer a = true) ∧
        (is_writable m i ↔ meta_is_writable a = true)) l (ci_accounts c) ∧
    ∃ i, ci_program_id_index c = Z.of_nat i ∧ m_account_keys m !! i = Some pid ∧
      ¬ is_signer m i ∧ ¬ is_writable m i.
Proof using Type.
  intros Hsane Hl Hlen.
  destruct (one_instruction sanitizable try_new pid l sigs data hash payer v0 Hsane Hl Hlen)
    as (b1 & b2 & tx & Hc & Hb & c & Hr). by exists b1, b2, tx, c.
Qed.

(** C25: read-only accounts become writable when a builder is used again or has
    several instructions.  For every builder reached by adding instructions and
    building, the read-only account number [q] of the next transaction is not a
    signer, and it is writable exactly when [q + 1] is below the number of
    instructions plus the number of read-only accounts left over from the
    builds before.  The builder has an instruction, its accounts and their
    numbers fit a byte, and the sanitizer accepts sane transactions. *)
Theorem readonly_accounts_escalate stale b hash payer v0 q k :
  (∀ tx, sane tx → sanitizable tx = true) →
  reached stale b → fits b → instructions b ≠ [] → unsigned_readonly_accounts b !! q = Some k →
  ∃ b' tx i, build sanitizable try_new b hash payer v0
      = Ok (b', match try_new tx with inl s => inl (s, tx) | inr e => inr e end) ∧
    let m := message_of (vt_message tx) in
    m_account_keys m !! i = Some k ∧ ¬ is_signer m i ∧
    (is_writable m i ↔ q + 1 < stale + length (instructions b)) ∧
    reached (length (unsigned_readonly_accounts b)) b' ∧
    unsigned_readonly_accounts b' = unsigned_readonly_accounts b.
Proof using Type.
  intros Hsane Hr Hfit Hne Hq. pose proof (reached_wf _ _ Hr) as Hwf.
  destruct (wp_elim _ _ (build_ok sanitizable try_new Hsane stale b hash payer v0 Hwf Hfit Hne))
    as ([b2 r] & Hb & -> & tx & Htx & Hbuilt & ->).
  pose proof (length_ordered b). pose proof (lookup_lt_Some _ _ _ Hq).
  set (j := length (ordered_accounts b) - length (unsigned_readonly_accounts b) + q).
  assert (ordered_accounts b !! j = Some (k, Readonly)) as Hj.
  { unfold ordered_accounts. do 3 (rewrite lookup_app_r; rewrite length_fmap; [|unfold j; lia]).
    rewrite list_lookup_fmap. replace (j - _ - _ - _) with q by (unfold j; lia). by rewrite Hq. }
  destruct (privileges stale b payer.1 _ j _ _ Hwf Hbuilt Hne Hj) as (Hkey & Hsig & Hwr & _).
  exists (clean_up b).2, tx, (1 + j). split; [done|]. simpl. split_and!; [done|..].
  - rewrite Hsig. by intros [?|?].
  - rewrite Hwr. unfold j. split; [intros [?|[?|[_ ?]]]; [done|done|lia]|].
    intros ?. right. right. split; [done|lia].
  - by eapply reached_build.
  - done.
Qed.
End Theorems.

(** ** Concrete builders *)

Module BuilderWitnesses.
Abbreviation demo_builder := (SanitizedTransactionBuilder nat nat nat).
Abbreviation demo_tx := (VersionedTransaction nat nat nat nat).
Definition accept (tx : demo_tx) : bool := true.
Definition wrap (tx : demo_tx) : demo_tx + unit := inl tx.
Definition metas : list (AccountMeta nat) :=
  [mkMeta 1 true true; mkMeta 2 true false; mkMeta 3 false true; mkMeta 4 false false].
Definition sigs : gmap nat nat := {[1 := 11; 2 := 12]}.

Lemma one_instruction_witness :
  ∃ b1 b2 tx, create_instruction builder_default 50 metas sigs 7 = Ok b1 ∧
    build accept wrap b1 0 (9, 19) true = Ok (b2, inl (tx, tx)) ∧
    m_account_keys (message_of (vt_message tx)) = [9; 1; 2; 3; 4; 50].
Proof.
  destruct (one_instruction_rights accept wrap 50 metas sigs 7 0 (9, 19) true)
    as (b1 & b2 & tx & c & Hc & Hb & _).
  - done.
  - repeat constructor; simpl; try done; intros _; by eexists.
  - simpl. lia.
  - exists b1, b2, tx. split; [exact Hc|]. split; [exact Hb|].
    vm_compute in Hc. injection Hc as <-. vm_compute in Hb. by injection Hb as _ <- _.
Defined.

(** The read-only account 4 of the first transaction is writable in the second. *)
Definition first_builder : demo_builder :=
  match create_instruction builder_default 50 [mkMeta 4 false false] sigs 7 with
  | Ok b => b | Panic _ => builder_default
  end.
Definition second_builder : demo_builder :=
  match build accept wrap first_builder 0 (9, 19) true with
  | Ok (b, _) =>
      match create_instruction b 51 [mkMeta 3 false true] sigs 8 with
      | Ok b => b | Panic _ => b
      end
  | Panic _ => builder_default
  end.
Lemma second_builder_reached : reached accept wrap 1 second_builder.
Proof.
  apply (reached_create accept wrap 1 (clean_up first_builder).2 51 [mkMeta 3 false true] sigs 8).
  - apply (reached_build accept wrap 0 first_builder 0 (9, 19) true _
      (match build accept wrap first_builder 0 (9, 19) true with
       | Ok (_, r) => r | Panic _ => inr () end)); [|done].
    apply (reached_create accept wrap 0 builder_default 50 [mkMeta 4 false false] sigs 7);
      [constructor| |done]. by repeat constructor.
  - by repeat constructor.
  - done.
Qed.

Lemma readonly_escalate_witness :
  ∃ b' tx i, build accept wrap second_builder 0 (9, 19) true = Ok (b', inl (tx, tx)) ∧
    m_account_keys (message_of (vt_message tx)) !! i = Some 4 ∧
    is_writable (message_of (vt_message tx)) i.
Proof.
  destruct (readonly_accounts_escalate accept wrap 1 second_builder 0 (9, 19) true 0 4)
    as (b' & tx & i & Hb & Hk & _ & Hw & _).
  - done.
  - exact second_builder_reached.
  - split; vm_compute; lia.
  - done.
  - done.
  - exists b', tx, i. split; [exact Hb|]. split; [exact Hk|]. apply Hw. vm_compute. lia.
Defined.
End BuilderWitnesses.
