(* ===== verification/StateError.v ===== *)
(** * Stateful code with errors

    A method on [&mut self] that returns a [Result] and may panic: from a state
    to a new state and a value or an error.  [?] is the bind of this monad: an
    error keeps the changes made before it. *)
From S2P Require Import Prelude.

Definition ste (S E A : Type) : Type := S → res (S * (A + E)).

#[global] Instance ste_ret {S E} : MRet (ste S E) := λ A a s, Ok (s, inl a).
#[global] Instance ste_bind {S E} : MBind (ste S E) := λ A B k m s,
  match m s with
  | Ok (s, inl a) => k a s
  | Ok (s, inr e) => Ok (s, inr e)
  | Panic msg => Panic msg
  end.

Section Operations.
Context {S E : Type}.

Definition throw {A} (e : E) : ste S E A := λ s, Ok (s, inr e).
Definition get : ste S E S := λ s, Ok (s, inl s).
Definition put (s : S) : ste S E unit := λ _, Ok (s, inl ()).
Definition modify (f : S → S) : ste S E unit := λ s, Ok (f s, inl ()).
(** A pure computation that may panic. *)
Definition lift {A} (m : res A) : ste S E A := λ s, a ← m; Ok (s, inl a).
Definition of_sum {A} (r : A + E) : ste S E A := λ s, Ok (s, r).

(** [for x in l { f(x)?; }] *)
Fixpoint iter {A} (f : A → ste S E unit) (l : list A) : ste S E unit :=
  match l with
  | [] => mret ()
  | x :: l => _ ← f x; iter f l
  end.

Lemma ste_bind_wp {A B} (m : ste S E A) (k : A → ste S E B) s Φ :
  wp (m s) (λ '(s', r), match r with inl a => wp (k a s') Φ | inr e => Φ (s', inr e) end) →
  wp ((m ≫= k) s) Φ.
Proof. unfold mbind, ste_bind. by destruct (m s) as [[s' [a|e]]|]. Qed.

(** A loop that keeps [P] over the elements done, as long as none fails. *)
Lemma iter_wp {A} (P : list A → S → Prop) (f : A → ste S E unit) l s :
  P [] s →
  (∀ done x todo s, l = done ++ x :: todo → P done s →
     wp (f x s) (λ '(s', r), r = inl () ∧ P (done ++ [x]) s')) →
  wp (iter f l s) (λ '(s', r), r = inl () ∧ P l s').
Proof.
  intros H0 Hstep.
  assert (∀ todo done s, l = done ++ todo → P done s →
    wp (iter f todo s) (λ '(s', r), r = inl () ∧ P l s')) as Hgen; [|by eapply (Hgen l [])].
  induction todo as [|x todo IH]; intros done s1 Hl HP; cbn [iter].
  - subst l. rewrite app_nil_r in *. done.
  - apply ste_bind_wp. eapply wp_mono; [by eapply Hstep|].
    intros [s2 r] [-> HP2]. apply (IH (done ++ [x])); [by rewrite <-app_assoc|done].
Qed.
End Operations.
#[global] Arguments ste_bind : simpl never.
