(* ===== verification/Snapshots.v ===== *)
(** * Waiting for snapshots and closing the storage

    [storage/src/background.rs] without the start of its services, and [close]
    of [storage/src/impls.rs].  Writing the snapshot archives is the work of
    services of [solana_core]: what a poll of an archive directory shows is a
    parameter, poll by poll.  A wait that never sees its slot does not end, so
    the loops take fuel. *)
From S2P Require Import Prelude Banks.
Set Default Proof Using "Type*".

(** Of [SnapshotConfig] and [StorageConfig] what the waits read *)
Record SnapshotSettings := mkSnapshots {
  full_snapshot_archive_interval_slots : Z;
  incremental_snapshot_archive_interval_slots : Z;
  should_generate_snapshots : bool;
  wait_snapshot_complete : bool
}.

(** The slot of the latest snapshot due at [highest]; [%] panics at zero. *)
Definition get_latest_snapshot (highest interval : Z) : res (option Slot) :=
  if (interval =? 0)%Z
  then Panic "attempt to calculate the remainder with a divisor of zero"
  else
    let reminder := (highest `mod` interval)%Z in
    Ok (if (highest <=? reminder)%Z then None else Some (highest - reminder)%Z).

Section Waiting.
(** [get_highest_full_snapshot_archive_slot] at the [n]-th poll of a directory,
    and [get_highest_incremental_snapshot_archive_slot] for a full snapshot *)
Context (full_archive : nat → option Slot) (incremental_archive : nat → Slot → option Slot).

(** [while reading != Some(slot) { sleep }]: the number of the poll that shows
    the slot, from poll [n] on *)
Fixpoint poll (fuel : nat) (reading : nat → option Slot) (n : nat) (slot : Slot) : res nat :=
  match fuel with
  | 0 => Panic "out of fuel"
  | S fuel => if decide (reading n = Some slot) then Ok n else poll fuel reading (S n) slot
  end.

Definition wait_full_snapshot (fuel : nat) (cfg : SnapshotSettings) (height : Slot) :
    res (nat * option Slot) :=
  expect_slot ← get_latest_snapshot height (full_snapshot_archive_interval_slots cfg);
  match expect_slot with
  | Some slot => n ← poll fuel full_archive 0 slot; Ok (n, Some slot)
  | None => Ok (0, None)
  end.
Definition wait_incremental_snapshot (fuel : nat) (cfg : SnapshotSettings) (height : Slot)
    (n : nat) (full_latest : Slot) : res nat :=
  expect_slot ← get_latest_snapshot height (incremental_snapshot_archive_interval_slots cfg);
  match expect_slot with
  | Some slot => poll fuel (λ n, incremental_archive n full_latest) n slot
  | None => Ok n
  end.
(** The number of the last poll *)
Definition try_wait_snapshot_complete (fuel : nat) (cfg : SnapshotSettings) (height : Slot) :
    res nat :=
  if negb (should_generate_snapshots cfg) || negb (wait_snapshot_complete cfg) then Ok 0
  else
    '(n, full_latest) ← wait_full_snapshot fuel cfg height;
    match full_latest with
    | Some full_latest => wait_incremental_snapshot fuel cfg height n full_latest
    | None => Ok n
    end.

(** What [close] and [join] do to the node, in order *)
Inductive close_event :=
| ExitStored | SignalDropped | BankDropped | BankForksDropped
| AccountsBackgroundJoined | HashVerifierJoined | PackagerJoined.
(** [StorageBackground::join] *)
Definition background_join : list close_event :=
  [AccountsBackgroundJoined; HashVerifierJoined; PackagerJoined].
(** [RollupStorage::join] *)
Definition storage_join : list close_event := [BankDropped; BankForksDropped] ++ background_join.
Definition close (fuel : nat) (cfg : SnapshotSettings) (height : Slot) : res (list close_event) :=
  _ ← try_wait_snapshot_complete fuel cfg height;
  Ok ([ExitStored; SignalDropped] ++ storage_join).

(** ** When the waits end *)

(** The slot a wait at [height] is for, if any *)
Definition due (height interval : Z) : option Slot :=
  if (height <? interval)%Z then None else Some (height - height `mod` interval)%Z.

Lemma get_latest_snapshot_due height interval : (0 ≤ height)%Z → (0 < interval)%Z →
  get_latest_snapshot height interval = Ok (due height interval).
Proof using Type.
  intros Hh Hi. unfold get_latest_snapshot, due.
  destruct (Z.eqb_spec interval 0); [lia|]. f_equal.
  destruct (Z.ltb_spec height interval) as [Hlt|Hge].
  - rewrite Z.mod_small by lia. destruct (Z.leb_spec height height); [done|lia].
  - pose proof (Z.mod_pos_bound height interval Hi).
    destruct (Z.leb_spec height (height `mod` interval)); [lia|done].
Qed.
Lemma poll_ends reading n slot :
  (∃ fuel m, poll fuel reading n slot = Ok m) ↔ ∃ m, n ≤ m ∧ reading m = Some slot.
Proof using Type.
  split.
  - intros (fuel & m & Hp). revert n Hp. induction fuel as [|fuel IH]; intros n Hp; [done|].
    cbn in Hp. case_decide as Hr; [by exists n|]. destruct (IH _ Hp) as (k & ? & ?).
    exists k. split; [lia|done].
  - intros (m & Hle & Hm). exists (S (m - n)).
    remember (m - n) as d eqn:Hd. revert n Hle Hd. induction d as [|d IH]; intros n Hle Hd.
    + assert (m = n) as -> by lia. cbn. rewrite decide_True by done. by eexists.
    + cbn [poll]. case_decide; [by eexists|]. apply IH; lia.
Qed.
Lemma poll_mono fuel fuel' reading n slot m :
  poll fuel reading n slot = Ok m → fuel ≤ fuel' → poll fuel' reading n slot = Ok m.
Proof using Type.
  revert fuel' n. induction fuel as [|fuel IH]; intros [|fuel'] n Hp Hle; [done|done|lia|].
  cbn in *. case_decide; [done|]. apply IH; [done|lia].
Qed.
Lemma poll_shows fuel reading n slot m : poll fuel reading n slot = Ok m → reading m = Some slot.
Proof using Type.
  revert n. induction fuel as [|fuel IH]; intros n; [done|]. cbn. case_decide; [by intros [= <-]|apply IH].
Qed.

Definition waits (cfg : SnapshotSettings) : Prop :=
  should_generate_snapshots cfg = true ∧ wait_snapshot_complete cfg = true.
Definition positive_intervals (cfg : SnapshotSettings) : Prop :=
  (0 < full_snapshot_archive_interval_slots cfg)%Z ∧
  (0 < incremental_snapshot_archive_interval_slots cfg)%Z.

(** What closing at [height] waits to see: the full snapshot due, then from the
    poll that showed it on the incremental snapshot due *)
Definition archives_appear (cfg : SnapshotSettings) (height : Slot) : Prop :=
  match due height (full_snapshot_archive_interval_slots cfg) with
  | None => True
  | Some full =>
      ∃ n, full_archive n = Some full ∧ (∀ k, k < n → full_archive k ≠ Some full) ∧
        match due height (incremental_snapshot_archive_interval_slots cfg) with
        | None => True
        | Some slot => ∃ m, n ≤ m ∧ incremental_archive m full = Some slot
        end
  end.

Lemma poll_first fuel reading n slot m : poll fuel reading n slot = Ok m →
  n ≤ m ∧ ∀ k, n ≤ k → k < m → reading k ≠ Some slot.
Proof using Type.
  revert n. induction fuel as [|fuel IH]; intros n; [done|]. cbn. case_decide as Hr.
  { intros [= <-]. split; [lia|]. intros k ? ?. lia. }
  intros [? Hk]%IH. split; [lia|]. intros k ? ?.
  destruct (decide (k = n)) as [->|]; [done|]. apply Hk; lia.
Qed.
Lemma poll_reaches reading slot m n : n ≤ m → reading m = Some slot →
  (∀ k, n ≤ k → k < m → reading k ≠ Some slot) →
  ∀ fuel, m - n < fuel → poll fuel reading n slot = Ok m.
Proof using Type.
  intros Hle Hm Hk fuel. revert n Hle Hk. induction fuel as [|fuel IH]; intros n Hle Hk Hf; [lia|].
  cbn. case_decide as Hr.
  - destruct (decide (n = m)) as [->|]; [done|]. exfalso. by apply (Hk n); [lia|lia|].
  - assert (n ≠ m) by (by intros ->). apply IH; [lia| |lia]. intros k ? ?. apply Hk; lia.
Qed.

(** Closing the storage, when it waits for snapshots, returns exactly when the
    full snapshot due at the height appears and, from then on, the incremental
    snapshot due appears for it; it then joins the services after the exit flag
    is set. *)
Theorem close_returns_iff cfg height : waits cfg → positive_intervals cfg → (0 ≤ height)%Z →
  (∃ fuel r, close fuel cfg height = Ok r) ↔ archives_appear cfg height.
Proof using Type.
  intros [Hg Hw] [Hf Hi] Hh.
  unfold close, try_wait_snapshot_complete, wait_full_snapshot, wait_incremental_snapshot,
    archives_appear. rewrite Hg, Hw. cbn [negb orb].
  rewrite !get_latest_snapshot_due by done. cbn.
  destruct (due height (full_snapshot_archive_interval_slots cfg)) as [full|];
    [|split; [done|by exists 0; eexists]]. cbn. split.
  - intros (fuel & r & Hr). destruct (poll fuel full_archive 0 full) as [n|] eqn:Hp; [|done]. cbn in Hr.
    exists n. destruct (poll_first _ _ _ _ _ Hp) as [_ Hfirst].
    split_and!; [by eapply poll_shows|intros k ?; apply Hfirst; lia|].
    destruct (due height _) as [slot|]; [|done]. cbn in Hr.
    destruct (poll fuel _ n slot) as [m|] eqn:Hp2; [|done]. exists m.
    split; [by apply poll_first in Hp2 as [? _]|by apply poll_shows in Hp2].
  - intros (n & Hn & Hfirst & Hinc).
    destruct (due height (incremental_snapshot_archive_interval_slots cfg)) as [slot|].
    + apply (poll_ends (λ n, incremental_archive n full)) in Hinc as (fuel & m & Hp).
      exists (n + S fuel). eexists.
      rewrite (poll_reaches full_archive full n 0) by (first [done|lia|intros; by apply Hfirst]). cbn -[poll plus].
      by rewrite (poll_mono _ (n + S fuel) _ _ _ _ Hp) by lia.
    + exists (S n). eexists.
      rewrite (poll_reaches full_archive full n 0) by (first [done|lia|intros; by apply Hfirst]). done.
Qed.

(** C22: Closing never returns when snapshots are waited for within the first
    incremental interval after a full snapshot is due: the incremental snapshot
    waited for has the slot of the full one, and an incremental archive is always
    above the full archive it is based on.  The intervals are positive and the
    full one is a multiple of the incremental one. *)
Theorem close_never_returns cfg height q fuel :
  waits cfg → positive_intervals cfg →
  (full_snapshot_archive_interval_slots cfg =
     q * incremental_snapshot_archive_interval_slots cfg)%Z →
  (full_snapshot_archive_interval_slots cfg ≤ height)%Z →
  (height `mod` full_snapshot_archive_interval_slots cfg <
     incremental_snapshot_archive_interval_slots cfg)%Z →
  (∀ n full slot, incremental_archive n full = Some slot → (full < slot)%Z) →
  ∀ r, close fuel cfg height ≠ Ok r.
Proof using Type.
  intros Hw Hpos Hq Hh Hm Hlaw r Hr. pose proof Hpos as [Hf Hi].
  assert (archives_appear cfg height) as Ha.
  { apply close_returns_iff; [done|done|lia|by eexists _, _]. }
  unfold archives_appear, due in Ha.
  set (F := full_snapshot_archive_interval_slots cfg) in *.
  set (I := incremental_snapshot_archive_interval_slots cfg) in *.
  assert (Hmod : (height `mod` I = height `mod` F)%Z).
  { pose proof (Z.mod_pos_bound height F Hf).
    symmetry. apply Z.mod_unique_pos with (q := (q * (height / F))%Z); [lia|].
    pose proof (Z.div_mod height F). nia. }
  rewrite (proj2 (Z.ltb_ge _ _)) in Ha by lia. destruct Ha as (n & _ & _ & Ha).
  assert (0 < q)%Z by (apply (Z.mul_pos_cancel_r q I); lia).
  assert (I ≤ F)%Z by nia. rewrite (proj2 (Z.ltb_ge _ _)), Hmod in Ha by lia.
  destruct Ha as (m & _ & Hbad%Hlaw). lia.
Qed.
End Waiting.

Module SnapshotWitnesses.

(** The intervals that [init_config] sets *)
Definition default_intervals : SnapshotSettings := mkSnapshots 2500 500 true true.

(** At slot 3100 the full snapshot 2500 and then the incremental one 3000
    appear. *)
Lemma close_returns_witness :
  ∃ fuel r, close (λ n, if n <? 2 then None else Some 2500%Z)
    (λ n _, if n <? 4 then None else Some 3000%Z) fuel default_intervals 3100 = Ok r.
Proof.
  apply (close_returns_iff (λ n, if n <? 2 then None else Some 2500%Z)
    (λ n _, if n <? 4 then None else Some 3000%Z) default_intervals 3100).
  - split; reflexivity.
  - split; reflexivity.
  - lia.
  - exists 2. split; [reflexivity|]. split.
    + intros k Hk. destruct (Nat.ltb_spec k 2); [discriminate|lia].
    + exists 4. split; [lia|reflexivity].
Defined.

(** At slot 2700 no incremental snapshot can appear. *)
Lemma close_never_returns_witness :
  waits default_intervals ∧
  ∀ r, close (λ _, Some 2500%Z) (λ _ _, None) 1000 default_intervals 2700 ≠ Ok r.
Proof.
  split; [split; reflexivity|].
  apply (close_never_returns (λ _, Some 2500%Z) (λ _ _, None) default_intervals 2700 5 1000).
  - split; reflexivity.
  - split; reflexivity.
  - reflexivity.
  - vm_compute. discriminate.
  - vm_compute. reflexivity.
  - intros n full slot Hs. discriminate Hs.
Defined.
End SnapshotWitnesses.
