(* ===== verification/StorageConfig.v ===== *)
(** * Configuration of the storage

    [storage/src/config.rs], [init_config] of [storage/src/init/mod.rs] and
    [storage/src/init/default.rs].  A path is a string.  The directory and key
    files are a file system [FS] behind the class [ConfigFiles]; the settings of
    other crates are types with their defaults. *)
From Stdlib Require Import Ascii.
From S2P Require Import Prelude Banks Ledger StateError.
Set Default Proof Using "Type*".

Abbreviation Path := string.
(** [Path::join]: an absolute path replaces the base; no separator is added
    after one, or to an empty base. *)
Fixpoint ends_with_slash (s : string) : bool :=
  match s with
  | "" => false
  | String "/" "" => true
  | String _ s => ends_with_slash s
  end.
Definition path_join (base name : Path) : Path :=
  match name with
  | String "/" _ => name
  | _ => if bool_decide (base = "") || ends_with_slash base then base +:+ name
         else base +:+ "/" +:+ name
  end.

#[global] Arguments path_join : simpl never.

Definition MAX_GENESIS_ARCHIVE_UNPACKED_SIZE : Z := 10 * 1024 * 1024.

(** ** Keys *)

Record KeypairsConfig (Keypair : Type) := mkKeypairs {
  validator_key_path : option Path; validator_keypair : option Keypair;
  mint_key_path : option Path; mint_keypair : option Keypair;
  voting_key_path : option Path; voting_keypair : option Keypair
}.
Arguments mkKeypairs {_}.
Arguments validator_key_path {_}.
Arguments validator_keypair {_}.
Arguments mint_key_path {_}.
Arguments mint_keypair {_}.
Arguments voting_key_path {_}.
Arguments voting_keypair {_}.
Definition keypairs_default {Keypair} : KeypairsConfig Keypair :=
  mkKeypairs None None None None None None.

(** [get_or_insert] *)
Definition get_or_insert {A} (o : option A) (a : A) : option A := Some (default a o).
Definition set_default_path {Keypair} (base : Path) (k : KeypairsConfig Keypair) :
    KeypairsConfig Keypair :=
  mkKeypairs
    (get_or_insert (validator_key_path k) (path_join base "validator-identity.json"))
    (validator_keypair k)
    (get_or_insert (mint_key_path k) (path_join base "validator-stake-account.json"))
    (mint_keypair k)
    (get_or_insert (voting_key_path k) (path_join base "validator-vote-account.json"))
    (voting_keypair k).

(** ** Files *)

Class ConfigFiles (FS Keypair : Type) := {
  (** [create_and_canonicalize_directories] *)
  create_directories : FS → list Path → FS * (list Path + string);
  (** [create_all_accounts_run_and_snapshot_dirs] *)
  create_accounts_dirs : FS → list Path → FS * (list Path * list Path + string);
  (** [Keypair::read_from_file] *)
  read_keypair_file : FS → Path → Keypair + string
}.
(** One directory for each path given *)
Class ConfigFilesLaws (FS Keypair : Type) `{!ConfigFiles FS Keypair} : Prop :=
  create_directories_length fs paths fs' l :
    create_directories fs paths = (fs', inl l) → length l = length paths.

Section Keys.
Context {FS Keypair : Type} `{!ConfigFiles FS Keypair}.
Abbreviation keypairs := (KeypairsConfig Keypair).

Definition init_from_file (fs : FS) (path : Path) : Keypair + Error :=
  match read_keypair_file fs path with
  | inl k => inl k
  | inr e => inr (InitCommon ("failed to read validator keypair: " +:+ e))
  end.
(** [try_init(&mut source, path)]: the source after it *)
Definition try_init (fs : FS) (source : option Keypair) (path : option Path) :
    option Keypair + Error :=
  match source, path with
  | None, Some path =>
      match init_from_file fs path with inl k => inl (Some k) | inr e => inr e end
  | _, _ => inl source
  end.
(** [KeypairsConfig::init]: an error leaves the keys read before it. *)
Definition keypairs_init (fs : FS) (k : keypairs) : keypairs * (unit + Error) :=
  match try_init fs (validator_keypair k) (validator_key_path k) with
  | inr e => (k, inr e)
  | inl v =>
      let k := mkKeypairs (validator_key_path k) v (mint_key_path k) (mint_keypair k)
                 (voting_key_path k) (voting_keypair k) in
      match try_init fs (mint_keypair k) (mint_key_path k) with
      | inr e => (k, inr e)
      | inl m =>
          let k := mkKeypairs (validator_key_path k) v (mint_key_path k) m
                     (voting_key_path k) (voting_keypair k) in
          match try_init fs (voting_keypair k) (voting_key_path k) with
          | inr e => (k, inr e)
          | inl vo =>
              (mkKeypairs (validator_key_path k) v (mint_key_path k) m (voting_key_path k) vo, inl ())
          end
      end
  end.
End Keys.

(** ** The storage's configuration *)

Record HistoryConfig := mkHistoryConfig {
  enable_transaction_history : bool; enable_extended_tx_metadata_storage : bool
}.
Definition history_config_default : HistoryConfig := mkHistoryConfig true false.

(** [solana_runtime::snapshot_config::SnapshotConfig]: the fields the rollup
    sets, and the rest *)
Record SnapshotConfig (Rest : Type) := mkSnapshotConfig {
  full_archive_interval : Z; incremental_archive_interval : Z;
  full_archives_dir : Path; incremental_archives_dir : Path; bank_snapshots_dir : Path;
  snapshot_rest : Rest
}.
Arguments mkSnapshotConfig {_}.
Arguments full_archive_interval {_}.
Arguments incremental_archive_interval {_}.
Arguments full_archives_dir {_}.
Arguments incremental_archives_dir {_}.
Arguments bank_snapshots_dir {_}.
Arguments snapshot_rest {_}.

(** The settings of other crates, with their defaults; [load_only] is
    [SnapshotConfig::new_load_only]. *)
Class Settings_of_crates (SnapRest Schedule Recovery Key Indexes DbConfig Shrink Columns Runtime
    UseSnapshots : Type) := {
  snapshot_rest_default : SnapRest;
  snapshot_load_only : SnapshotConfig SnapRest;
  indexes_default : Indexes;
  (** [AccountsDbConfig { base_working_path, ..default() }] *)
  accounts_db_config_at : Path → DbConfig;
  shrink_default : Shrink;
  columns_default : Columns;
  runtime_default : Runtime;
  use_snapshots_default : UseSnapshots
}.

Record StorageConfig (Hash SnapRest Schedule Recovery Key Indexes DbConfig Shrink Columns Runtime
    UseSnapshots : Type) := mkStorageConfig {
  halt_at_slot : option Slot;
  expected_genesis_hash : option Hash;
  account_paths : list Path;
  snapshot_config : SnapshotConfig SnapRest;
  cfg_wait_snapshot_complete : bool;
  (** seconds *)
  wait_timeout : Z;
  enforce_ulimit_nofile : bool;
  fixed_leader_schedule : option Schedule;
  new_hard_forks : option (list Slot);
  accounts_hash_interval_slots : Z;
  max_genesis_archive_unpacked_size : Z;
  wal_recovery_mode : option Recovery;
  run_verification : bool;
  debug_keys : option (list Key);
  account_indexes : Indexes;
  accounts_db_config : option DbConfig;
  accounts_db_test_hash_calculation : bool;
  accounts_db_skip_shrink : bool;
  accounts_db_force_initial_clean : bool;
  accounts_shrink_ratio : Shrink;
  ledger_column_options : Columns;
  runtime_config : Runtime;
  history_config : HistoryConfig;
  use_snapshot_archives_at_startup : UseSnapshots
}.
Arguments mkStorageConfig {_ _ _ _ _ _ _ _ _ _ _}.
Arguments halt_at_slot {_ _ _ _ _ _ _ _ _ _ _}.
Arguments expected_genesis_hash {_ _ _ _ _ _ _ _ _ _ _}.
Arguments account_paths {_ _ _ _ _ _ _ _ _ _ _}.
Arguments snapshot_config {_ _ _ _ _ _ _ _ _ _ _}.
Arguments cfg_wait_snapshot_complete {_ _ _ _ _ _ _ _ _ _ _}.
Arguments wait_timeout {_ _ _ _ _ _ _ _ _ _ _}.
Arguments enforce_ulimit_nofile {_ _ _ _ _ _ _ _ _ _ _}.
Arguments fixed_leader_schedule {_ _ _ _ _ _ _ _ _ _ _}.
Arguments new_hard_forks {_ _ _ _ _ _ _ _ _ _ _}.
Arguments accounts_hash_interval_slots {_ _ _ _ _ _ _ _ _ _ _}.
Arguments max_genesis_archive_unpacked_size {_ _ _ _ _ _ _ _ _ _ _}.
Arguments wal_recovery_mode {_ _ _ _ _ _ _ _ _ _ _}.
Arguments run_verification {_ _ _ _ _ _ _ _ _ _ _}.
Arguments debug_keys {_ _ _ _ _ _ _ _ _ _ _}.
Arguments account_indexes {_ _ _ _ _ _ _ _ _ _ _}.
Arguments accounts_db_config {_ _ _ _ _ _ _ _ _ _ _}.
Arguments accounts_db_test_hash_calculation {_ _ _ _ _ _ _ _ _ _ _}.
Arguments accounts_db_skip_shrink {_ _ _ _ _ _ _ _ _ _ _}.
Arguments accounts_db_force_initial_clean {_ _ _ _ _ _ _ _ _ _ _}.
Arguments accounts_shrink_ratio {_ _ _ _ _ _ _ _ _ _ _}.
Arguments ledger_column_options {_ _ _ _ _ _ _ _ _ _ _}.
Arguments runtime_config {_ _ _ _ _ _ _ _ _ _ _}.
Arguments history_config {_ _ _ _ _ _ _ _ _ _ _}.
Arguments use_snapshot_archives_at_startup {_ _ _ _ _ _ _ _ _ _ _}.

Section Config.
Context {FS Keypair Hash Genesis SnapRest Schedule Recovery Key Indexes DbConfig Shrink Columns : Type}.
Context {Runtime UseSnapshots : Type}.
Context `{!ConfigFiles FS Keypair}.
Context `{!Settings_of_crates SnapRest Schedule Recovery Key Indexes DbConfig Shrink Columns Runtime
            UseSnapshots}.
(** [GenesisConfig::default] *)
Context (genesis_default : Genesis).
Abbreviation config :=
  (StorageConfig Hash SnapRest Schedule Recovery Key Indexes DbConfig Shrink Columns Runtime UseSnapshots).

Definition storage_config_with (paths : list Path) (db : option DbConfig) (snap : SnapshotConfig SnapRest) :
    config :=
  mkStorageConfig None None paths snap false 10 true None None u64_max
    MAX_GENESIS_ARCHIVE_UNPACKED_SIZE None true None indexes_default db false false false
    shrink_default columns_default runtime_default history_config_default use_snapshots_default.
(** [StorageConfig::default] *)
Definition storage_config_default : config := storage_config_with [] None snapshot_load_only.

(** The two ways [init_config] makes directories *)
Definition make_dirs (paths : list Path) (msg : string) : ste FS Error (list Path) := λ fs,
  match create_directories fs paths with
  | (fs, inl l) => Ok (fs, inl l)
  | (fs, inr e) => Ok (fs, inr (InitConfigFailed (msg +:+ e)))
  end.
Definition make_accounts_dirs (paths : list Path) : ste FS Error (list Path) := λ fs,
  match create_accounts_dirs fs paths with
  | (fs, inl (run, _)) => Ok (fs, inl run)
  | (fs, inr e) =>
      Ok (fs, inr (InitConfigFailed ("Create all accounts run and snapshot dirs: " +:+ e)))
  end.
Definition init_config (ledger_path : Path) : ste FS Error config :=
  dirs ← make_dirs [ledger_path] "";
  ledger_path ← lift (expect (last dirs) "called `Option::unwrap()` on a `None` value");
  let db := accounts_db_config_at ledger_path in
  account_paths ← make_dirs [path_join ledger_path "accounts"] "Unable to access account path: ";
  account_run_paths ← make_accounts_dirs account_paths;
  let dir := path_join ledger_path "snapshots" in
  mret (storage_config_with account_run_paths (Some db)
          (mkSnapshotConfig 2500 500 (path_join dir "full") (path_join dir "incremental") dir
             snapshot_rest_default)).

Record GlobalConfig := mkGlobalConfig {
  ledger_path : Path; allow_default_genesis : bool; dev_mode : bool;
  keypairs : KeypairsConfig Keypair; storage_config : config; genesis : Genesis
}.
Definition config_at (ledger_path : Path) (allow dev : bool) : ste FS Error GlobalConfig :=
  storage ← init_config ledger_path;
  mret (mkGlobalConfig ledger_path allow dev keypairs_default storage genesis_default).
Definition config_new (ledger_path : Path) : ste FS Error GlobalConfig := config_at ledger_path false false.
Definition config_new_temp (ledger_path : Path) : ste FS Error GlobalConfig := config_at ledger_path true false.
Definition config_new_dev (ledger_path : Path) : ste FS Error GlobalConfig := config_at ledger_path true true.
End Config.
Arguments GlobalConfig : clear implicits.
