(* ===== verification/StorageOpen.v ===== *)
(** * Opening the storage

    [storage/src/init/mod.rs] with [storage/src/init/default.rs],
    [storage/src/sig_hub.rs], the start of the services of
    [storage/src/background.rs] and [storage/src/history/mod.rs], and the
    constructors of [executor/src/lib.rs].  The ledger on disk is part of the
    file system [FS]; reading and writing it is the work of [solana_ledger] and
    [solana_runtime], behind the class [LedgerFiles].  The keys [Keypair::new]
    draws are arguments. *)
From S2P Require Import Prelude Banks Ledger StateError StorageConfig.
From S2P Require Import CommitBatch Verifier Shreds Commit Executor.
Set Default Proof Using "Type*".

Definition DEFAULT_VALIDATOR_LAMPORTS : Z := 10000000.
Definition DEFAULT_MINT_LAMPORTS : Z := 1000000000.
Definition DEFAULT_STAKE_LAMPORTS : Z := 50000000.

(** [SignalHub] *)
Record SignalHub (Rx : Type) := mkHub {
  ledger_signal_receiver : option unit; pruned_banks_receiver : option Rx
}.
Arguments mkHub {_}.
Arguments ledger_signal_receiver {_}.
Arguments pruned_banks_receiver {_}.
Definition hub_default {Rx} : SignalHub Rx := mkHub None None.

(** [BlockstoreOptions] and [ProcessOptions]: the fields the rollup sets *)
Record BlockstoreOptions (Recovery Columns : Type) := mkBlockstoreOptions {
  recovery_mode : option Recovery; column_options : Columns; bso_enforce_ulimit_nofile : bool
}.
Arguments mkBlockstoreOptions {_ _}.
Record ProcessOptions (Key Indexes DbConfig Shrink Runtime UseSnapshots : Type) := mkProcessOptions {
  po_run_verification : bool; po_halt_at_slot : option Slot; po_new_hard_forks : option (list Slot);
  po_debug_keys : option (list Key); po_account_indexes : Indexes;
  po_accounts_db_config : option DbConfig; po_shrink_ratio : Shrink;
  po_test_hash_calculation : bool; po_skip_shrink : bool; po_force_initial_clean : bool;
  po_runtime_config : Runtime; po_use_snapshots : UseSnapshots
}.
Arguments mkProcessOptions {_ _ _ _ _ _}.
Arguments po_halt_at_slot {_ _ _ _ _ _}.

(** What the transaction status service is started with: whether it records
    history, and extended metadata *)
Record StatusService := mkStatusService {
  ts_enable_transaction_history : bool; ts_enable_extended_tx_metadata_storage : bool
}.
(** [StorageHistoryServices]: which senders and services there are *)
Record HistoryServices := mkHistory {
  hs_transaction_status_sender : bool; hs_transaction_status_service : option StatusService;
  hs_cache_block_meta_sender : bool; hs_cache_block_meta_service : bool;
  hs_max_complete_transaction_status_slot : Slot
}.
Definition history_services_default : HistoryServices := mkHistory false None false false 0.
Definition history_services_new {D} `{!Blockstore D} (d : D) (config : HistoryConfig) : HistoryServices :=
  mkHistory true
    (Some (mkStatusService (enable_transaction_history config) (enable_extended_tx_metadata_storage config)))
    true true (bs_max_root d).

(** The keys of [default_genesis_config] *)
Record FreshKeys (Keypair Pubkey : Type) := mkFresh {
  fresh_validator : Keypair; fresh_mint : Keypair; fresh_voting : Keypair; fresh_stake : Pubkey
}.
Arguments mkFresh {_ _}.
Arguments fresh_validator {_ _}.
Arguments fresh_mint {_ _}.
Arguments fresh_voting {_ _}.
Arguments fresh_stake {_ _}.

(** The snapshot the banks were loaded from is a slot here: [full.0.0] is what
    the rollup reads of [StartingSnapshotHashes]. *)
Class LedgerFiles (FS Keypair Pubkey Hash Genesis D F W LSC Rx SnapRest Schedule : Type)
    (BOptions POptions : Type) := {
  keypair_pubkey : Keypair → Pubkey;
  (** [create_genesis_config_with_leader_ex(mint_lamports, mint, validator,
      voting, stake, stake_lamports, validator_lamports, ...)] *)
  create_genesis : Z → Pubkey → Pubkey → Pubkey → Pubkey → Z → Z → Genesis;
  genesis_hash : Genesis → Hash;
  genesis_ticks_per_slot : Genesis → Z;
  open_genesis_config : FS → Path → Z → Genesis + string;
  create_new_ledger : FS → Path → Genesis → Z → FS * (Hash + string);
  open_blockstore : FS → Path → BOptions → FS * (D + string);
  load_bank_forks : FS → Genesis → D → list Path → SnapshotConfig SnapRest → POptions → bool →
    FS * (W * F * LSC * option Slot + string);
  setup_bank_drop_callback : F → Rx;
  set_fixed_leader_schedule : LSC → option Schedule → LSC;
  set_snapshot_config : F → SnapshotConfig SnapRest → F;
  set_accounts_hash_interval_slots : F → Z → F;
  (** with the options and the presence of the two history senders *)
  process_blockstore_from_root : W → D → F → LSC → POptions → bool → bool →
    W * D * F * (unit + string);
  show_hash : Hash → string;
  debug_path : Path → string
}.

Section Open.
Context {FS Keypair Pubkey Hash Genesis B F D W Account LSC Rx SnapRest Schedule Recovery Key : Type}.
Context {Indexes DbConfig Shrink Columns Runtime UseSnapshots TxError : Type}.
Context `{!EqDecision Hash}.
Context `{!Banks B, !BankForks F B, !Blockstore D, !BankWorld W B Hash Pubkey Account}.
Context `{!ConfigFiles FS Keypair}.
Context `{!Settings_of_crates SnapRest Schedule Recovery Key Indexes DbConfig Shrink Columns Runtime
            UseSnapshots}.
Abbreviation boptions := (BlockstoreOptions Recovery Columns).
Abbreviation poptions := (ProcessOptions Key Indexes DbConfig Shrink Runtime UseSnapshots).
Context `{!LedgerFiles FS Keypair Pubkey Hash Genesis D F W LSC Rx SnapRest Schedule boptions poptions}.
Abbreviation sconfig :=
  (StorageConfig Hash SnapRest Schedule Recovery Key Indexes DbConfig Shrink Columns Runtime UseSnapshots).
Abbreviation gconfig := (GlobalConfig Keypair Hash Genesis SnapRest Schedule Recovery Key Indexes
                           DbConfig Shrink Columns Runtime UseSnapshots).
Abbreviation storage := (RollupStorage B F D W Pubkey).
Abbreviation executor := (Executor B F D W Pubkey).
Abbreviation fresh := (FreshKeys Keypair Pubkey).

Definition with_keypairs (k : KeypairsConfig Keypair) (c : gconfig) : gconfig :=
  mkGlobalConfig (ledger_path c) (allow_default_genesis c) (dev_mode c) k (storage_config c) (genesis c).
Definition with_genesis (g : Genesis) (c : gconfig) : gconfig :=
  mkGlobalConfig (ledger_path c) (allow_default_genesis c) (dev_mode c) (keypairs c) (storage_config c) g.

(** ** A genesis of its own *)

Definition init_block_store (path : Path) (g : Genesis) : ste FS Error unit := λ fs,
  match create_new_ledger fs path g MAX_GENESIS_ARCHIVE_UNPACKED_SIZE with
  | (fs, inl _) => Ok (fs, inl ())
  | (fs, inr e) => Ok (fs, inr (SolanaBlockstoreError e))
  end.
Definition default_genesis (k : fresh) : Genesis :=
  create_genesis DEFAULT_MINT_LAMPORTS (keypair_pubkey (fresh_mint k))
    (keypair_pubkey (fresh_validator k)) (keypair_pubkey (fresh_voting k)) (fresh_stake k)
    DEFAULT_STAKE_LAMPORTS DEFAULT_VALIDATOR_LAMPORTS.
Definition default_genesis_config (k : fresh) (path : Path) : ste FS Error Genesis :=
  _ ← init_block_store path (default_genesis k);
  mret (default_genesis k).
Definition fresh_keypairs (k : fresh) : KeypairsConfig Keypair :=
  mkKeypairs None (Some (fresh_validator k)) None (Some (fresh_mint k)) None (Some (fresh_voting k)).

(** ** [load_blockstore]: on the files and the configuration *)

Abbreviation opening := (ste (FS * gconfig) Error).
Definition on_files {A} (m : ste FS Error A) : opening A := λ '(fs, c),
  '(fs, r) ← m fs; Ok ((fs, c), r).

Definition load_genesis (k : fresh) : opening Genesis :=
  '(fs, c) ← get;
  match open_genesis_config fs (ledger_path c)
          (max_genesis_archive_unpacked_size (storage_config c)) with
  | inl g => mret g
  | inr err =>
      if allow_default_genesis c then
        g ← on_files (default_genesis_config k (ledger_path c));
        _ ← modify (λ '(fs, c), (fs, with_keypairs (fresh_keypairs k) c));
        mret g
      else throw (LoadBlockstoreFailed ("Failed to open genesis config: " +:+ err))
  end.
Definition load_keypairs : opening unit := λ '(fs, c),
  let '(k, r) := keypairs_init fs (keypairs c) in Ok ((fs, with_keypairs k c), r).
Definition check_genesis_hash (g : Genesis) : opening unit :=
  '(_, c) ← get;
  match expected_genesis_hash (storage_config c) with
  | Some expected =>
      if decide (genesis_hash g = expected) then mret ()
      else throw (LoadBlockstoreFailed
             ("genesis hash mismatch: hash=" +:+ show_hash (genesis_hash g) +:+ " expected="
              +:+ show_hash expected +:+ ". Delete the ledger directory to continue: "
              +:+ debug_path (ledger_path c)))
  | None => mret ()
  end.

Definition blockstore_options_from_config (c : sconfig) : boptions :=
  mkBlockstoreOptions (wal_recovery_mode c) (ledger_column_options c) (enforce_ulimit_nofile c).
Definition load_store : opening D := λ '(fs, c),
  match open_blockstore fs (ledger_path c) (blockstore_options_from_config (storage_config c)) with
  | (fs, inl d) => Ok ((fs, c), inl d)
  | (fs, inr e) => Ok ((fs, c), inr (LoadBlockstoreFailed ("Failed to open Blockstore: " +:+ e)))
  end.

Definition process_options (c : sconfig) (d : D) : poptions :=
  mkProcessOptions (run_verification c)
    (match halt_at_slot c with
     | Some s => Some s
     | None => match bs_highest_slot d with inl s => s | inr _ => None end
     end)
    (new_hard_forks c) (debug_keys c) (account_indexes c) (accounts_db_config c)
    (accounts_shrink_ratio c) (accounts_db_test_hash_calculation c) (accounts_db_skip_shrink c)
    (accounts_db_force_initial_clean c) (runtime_config c) (use_snapshot_archives_at_startup c).
Definition history_services (c : sconfig) (d : D) : HistoryServices :=
  if enable_transaction_history (history_config c) then history_services_new d (history_config c)
  else history_services_default.

Record Loaded := mkLoaded {
  ld_world : W; ld_bank_forks : F; ld_blockstore : D; ld_leader_schedule : LSC;
  ld_starting_snapshot : option Slot; ld_process_options : poptions; ld_hub : SignalHub Rx;
  ld_history : HistoryServices
}.

Definition load_forks (g : Genesis) (d : D) (o : poptions) (h : HistoryServices) :
    opening (W * F * LSC * option Slot) := λ '(fs, c),
  match load_bank_forks fs g d (account_paths (storage_config c)) (snapshot_config (storage_config c))
          o (hs_cache_block_meta_sender h) with
  | (fs, inl x) => Ok ((fs, c), inl x)
  | (fs, inr e) => Ok ((fs, c), inr (LoadBlockstoreFailed e))
  end.
Definition load_blockstore (k : fresh) (hub : SignalHub Rx) : opening Loaded :=
  g ← load_genesis k;
  _ ← load_keypairs;
  _ ← check_genesis_hash g;
  d ← load_store;
  let hub := mkHub (Some ()) (pruned_banks_receiver hub) in
  '(_, c) ← get;
  let o := process_options (storage_config c) d in
  let h := history_services (storage_config c) d in
  '(w, f, lsc, hashes) ← load_forks g d o h;
  let hub := mkHub (ledger_signal_receiver hub) (Some (setup_bank_drop_callback f)) in
  let lsc := set_fixed_leader_schedule lsc (fixed_leader_schedule (storage_config c)) in
  let f := set_snapshot_config f (snapshot_config (storage_config c)) in
  let f := set_accounts_hash_interval_slots f (accounts_hash_interval_slots (storage_config c)) in
  _ ← modify (λ '(fs, c), (fs, with_genesis g c));
  mret (mkLoaded w f d lsc hashes o hub h).

(** ** [StorageBackground::new]: what the services were started with *)

(** The channels between the services *)
Inductive Channel := SnapshotPackages | AccountsPackages | SnapshotRequests.
(** [SnapshotPackagerService::new] and [AccountsHashVerifier::new] *)
Record PackagerService := mkPackager {
  sp_sender : Channel; sp_receiver : Channel; sp_starting_snapshot : option Slot;
  sp_snapshot_config : SnapshotConfig SnapRest; sp_enable_gossip_push : bool
}.
Record HashVerifier := mkVerifierService {
  hv_sender : Channel; hv_receiver : Channel; hv_snapshot_packages : option Channel;
  hv_snapshot_config : SnapshotConfig SnapRest
}.
(** [AbsRequestHandlers] and [AccountsBackgroundService::new] *)
Record RequestHandlers := mkHandlers {
  rh_snapshot_config : SnapshotConfig SnapRest; rh_requests_sender : Channel;
  rh_requests_receiver : Channel; rh_accounts_packages : Channel; rh_pruned_banks_receiver : Rx
}.
Record BackgroundService := mkBackgroundService {
  ab_handlers : RequestHandlers; ab_test_hash_calculation : bool;
  ab_last_full_snapshot_slot : option Slot
}.
Record StorageBackground := mkBackground {
  accounts_background_service : BackgroundService;
  accounts_background_request_sender : Channel;
  accounts_hash_verifier : HashVerifier;
  snapshot_packager_service : PackagerService
}.
Definition background_new (c : sconfig) (hub : SignalHub Rx) (hashes : option Slot) :
    SignalHub Rx * (StorageBackground + Error) :=
  let packager := mkPackager SnapshotPackages SnapshotPackages hashes (snapshot_config c) false in
  let verifier :=
    mkVerifierService AccountsPackages AccountsPackages (Some SnapshotPackages) (snapshot_config c) in
  let hub' := mkHub (ledger_signal_receiver hub) None in
  match pruned_banks_receiver hub with
  | None => (hub', inr (InitCommon "pruned banks receiver is None"))
  | Some rx =>
      let handlers :=
        mkHandlers (snapshot_config c) SnapshotRequests SnapshotRequests AccountsPackages rx in
      (hub', inl (mkBackground
        (mkBackgroundService handlers (accounts_db_test_hash_calculation c) hashes)
        SnapshotRequests verifier packager))
  end.

(** ** [RollupStorage::new] and [init] *)

(** The fields of [RollupStorage] the operations use, and those only opening
    and closing do.  [localhost_cluster_info] is the key it is made from. *)
Record Opened := mkOpened {
  op_storage : storage; op_config : gconfig; op_background : StorageBackground;
  op_history : HistoryServices; op_leader_schedule : LSC; op_process_options : poptions;
  op_cluster_info : Keypair
}.
(** [enable_history] *)
Definition history_enabled (h : HistoryServices) : bool :=
  hs_transaction_status_sender h && hs_cache_block_meta_sender h.
Definition opened_storage (c : gconfig) (l : Loaded) : storage :=
  mkStorage (bf_working_bank (ld_bank_forks l)) (ld_bank_forks l) (ld_blockstore l) (ld_world l)
    (dev_mode c) (keypair_pubkey <$> validator_keypair (keypairs c))
    (genesis_ticks_per_slot (genesis c)) (history_enabled (ld_history l)).

Definition storage_new (k : fresh) (config : gconfig) : ste FS Error Opened := λ fs,
  '((fs, config), r) ← load_blockstore k hub_default (fs, config);
  match r with
  | inr e => Ok (fs, inr e)
  | inl l =>
      match validator_keypair (keypairs config) with
      | None => Ok (fs, inr KeypairsConfigMissingValidatorKeypair)
      | Some validator =>
          match background_new (storage_config config) (ld_hub l) (ld_starting_snapshot l) with
          | (_, inr e) => Ok (fs, inr e)
          | (_, inl bg) =>
              Ok (fs, inl (mkOpened (opened_storage config l) config bg (ld_history l)
                             (ld_leader_schedule l) (ld_process_options l) validator))
          end
      end
  end.

Definition with_op_storage (o : Opened) (s : storage) : Opened :=
  mkOpened s (op_config o) (op_background o) (op_history o) (op_leader_schedule o)
    (op_process_options o) (op_cluster_info o).
Definition aligne_blockstore_with_bank_forks : ste Opened Error unit := λ o,
  let s := op_storage o in
  let '(w, d, f, r) :=
    process_blockstore_from_root (st_world s) (st_blockstore s) (st_bank_forks s)
      (op_leader_schedule o) (op_process_options o)
      (hs_transaction_status_sender (op_history o)) (hs_cache_block_meta_sender (op_history o)) in
  let s := with_blockstore (with_bank s (st_bank s) f w) d in
  Ok (with_op_storage o s,
      match r with
      | inl _ => inl ()
      | inr e => inr (InitCommon ("Failed to load ledger: " +:+ e))
      end).
Definition storage_init : ste Opened Error unit :=
  _ ← aligne_blockstore_with_bank_forks;
  modify (λ o, let s := op_storage o in
    with_op_storage o (with_bank s (bf_working_bank (st_bank_forks s)) (st_bank_forks s) (st_world s))).
Definition allow_init_from_scratch (o : Opened) : bool := allow_default_genesis (op_config o).

(** ** The constructors of the executor *)

(** [?] on an error of the storage *)
Definition exec_storage {A} (m : ste FS Error A) : ste FS (ExecutorError (TxError := TxError)) A := λ fs,
  '(fs, r) ← m fs;
  Ok (fs, match r with inl a => inl a | inr e => inr (ExecStorageError e) end).
(** The executor's storage is the opened one: [Executor] keeps what its blocks
    use of it. *)
Definition new_with_validator_settings (k : fresh) (c : gconfig) (settings : Settings) :
    ste FS ExecutorError (Opened * executor) :=
  o ← exec_storage (storage_new k c);
  '(o, r) ← lift (storage_init o);
  _ ← exec_storage (of_sum r);
  mret (o, executor_new (op_storage o) settings).
Definition new_with_config (k : fresh) (c : gconfig) : ste FS ExecutorError (Opened * executor) :=
  new_with_validator_settings k c (mkSettings 150 (mkSwitchs true true)
    (FeeStructure_new (QArith_base.Qmake 5 10000000) (QArith_base.Qmake 0 1)
       [(1400000%Z, QArith_base.Qmake 0 1)])).
Definition new_for_test (genesis_default : Genesis) (k : fresh) (path : Path) :
    ste FS ExecutorError (Opened * executor) :=
  c ← exec_storage (config_new_temp genesis_default path);
  new_with_config k c.
End Open.
