(* ===== verification/StorageOpenFacts.v ===== *)
(** * What opening a storage does

    The laws of the files a ledger lives in, and the theorems on opening,
    reopening and the genesis a storage runs on. *)
From S2P Require Import Prelude Banks Ledger StateError StorageConfig.
From S2P Require Import CommitBatch Verifier Shreds Commit Executor StorageOpen.
Set Default Proof Using "Type*".

(** A ledger that was created can be opened with the same limit; making
    directories and opening the store or the banks keep the genesis on disk. *)
Class LedgerFilesLaws (FS Keypair Pubkey Hash Genesis D F W LSC Rx SnapRest Schedule BO PO : Type)
    `{!ConfigFiles FS Keypair}
    `{!LedgerFiles FS Keypair Pubkey Hash Genesis D F W LSC Rx SnapRest Schedule BO PO} : Prop := {
  created_genesis_opens fs path g m fs' h :
    create_new_ledger fs path g m = (fs', inl h) → open_genesis_config fs' path m = inl g;
  store_keeps_genesis fs path o q m :
    open_genesis_config (open_blockstore fs path o).1 q m = open_genesis_config fs q m;
  forks_keep_genesis fs g d paths sc o b q m :
    open_genesis_config (load_bank_forks fs g d paths sc o b).1 q m = open_genesis_config fs q m;
  directories_keep_genesis fs paths q m :
    open_genesis_config (create_directories fs paths).1 q m = open_genesis_config fs q m;
  accounts_dirs_keep_genesis fs paths q m :
    open_genesis_config (create_accounts_dirs fs paths).1 q m = open_genesis_config fs q m
}.

Section Facts.
Context {FS Keypair Pubkey Hash Genesis B F D W Account LSC Rx SnapRest Schedule Recovery Key : Type}.
Context {Indexes DbConfig Shrink Columns Runtime UseSnapshots TxError : Type}.
Context `{!EqDecision Hash}.
Context `{!Banks B, !BankForks F B, !Blockstore D, !BankWorld W B Hash Pubkey Account}.
Context `{!ConfigFiles FS Keypair, !ConfigFilesLaws FS Keypair}.
Context `{!Settings_of_crates SnapRest Schedule Recovery Key Indexes DbConfig Shrink Columns Runtime
            UseSnapshots}.
Abbreviation boptions := (BlockstoreOptions Recovery Columns).
Abbreviation poptions := (ProcessOptions Key Indexes DbConfig Shrink Runtime UseSnapshots).
Context `{!LedgerFiles FS Keypair Pubkey Hash Genesis D F W LSC Rx SnapRest Schedule boptions poptions}.
Context `{!LedgerFilesLaws FS Keypair Pubkey Hash Genesis D F W LSC Rx SnapRest Schedule boptions poptions}.
Abbreviation gconfig := (GlobalConfig Keypair Hash Genesis SnapRest Schedule Recovery Key Indexes
                           DbConfig Shrink Columns Runtime UseSnapshots).
Abbreviation storage_new' := (storage_new (B := B) (F := F) (D := D) (W := W) (LSC := LSC) (Rx := Rx)).
Implicit Types (c : gconfig) (fs : FS).

Lemma keypairs_init_default fs : keypairs_init fs keypairs_default = (keypairs_default, inl ()).
Proof. done. Qed.

(** The genesis a configuration finds on disk *)
Definition on_disk fs c : Genesis + string :=
  open_genesis_config fs (ledger_path c) (max_genesis_archive_unpacked_size (storage_config c)).


Lemma load_genesis_wp k fs c :
  wp (load_genesis (D := D) (F := F) (W := W) (LSC := LSC) (Rx := Rx) k (fs, c)) (λ '((fs', c'), r),
    match r with
    | inl g =>
        (on_disk fs c = inl g ∧ fs' = fs ∧ c' = c) ∨
        (∃ e h, on_disk fs c = inr e ∧ allow_default_genesis c = true ∧ g = default_genesis k ∧
           create_new_ledger fs (ledger_path c) g MAX_GENESIS_ARCHIVE_UNPACKED_SIZE = (fs', inl h) ∧
           c' = with_keypairs (fresh_keypairs k) c)
    | inr e => ∃ err, on_disk fs c = inr err ∧
        (if allow_default_genesis c then ∃ msg, e = SolanaBlockstoreError msg
         else e = LoadBlockstoreFailed ("Failed to open genesis config: " +:+ err) ∧ fs' = fs)
    end).
Proof using Type.
  unfold load_genesis, get, on_disk, wp, mbind, ste_bind.
  destruct (open_genesis_config _ _ _) as [g|err] eqn:Hg; [by left|].
  destruct (allow_default_genesis c) eqn:Ha; [|naive_solver].
  unfold on_files, default_genesis_config, init_block_store, modify, mbind, ste_bind; cbn.
  destruct (create_new_ledger _ _ _ _) as [fs' [h|e]] eqn:Hl; cbn; [right|]; naive_solver.
Qed.

(** Keys that were read are kept, whatever the files say later. *)
Lemma try_init_again fs fs' (source source' : option Keypair) path :
  try_init fs source path = inl source' → try_init fs' source' path = inl source'.
Proof using Type.
  unfold try_init. intros H. destruct source, path; simplify_eq/=; [done..| |done].
  by destruct (init_from_file _ _); simplify_eq/=.
Qed.
Lemma keypairs_init_again fs fs' (kp kp' : KeypairsConfig Keypair) :
  keypairs_init fs kp = (kp', inl ()) → keypairs_init fs' kp' = (kp', inl ()).
Proof using Type.
  unfold keypairs_init. intros H.
  destruct (try_init _ _ _) as [v|] eqn:Hv; [|done]. cbn in H.
  destruct (try_init fs (mint_keypair kp) _) as [m|] eqn:Hm; [|done]. cbn in H.
  destruct (try_init fs (voting_keypair kp) _) as [vo|] eqn:Hvo; [|done]. injection H as <-. cbn.
  apply (try_init_again _ fs') in Hv, Hm, Hvo. rewrite Hv. cbn. rewrite Hm. cbn. by rewrite Hvo.
Qed.
(** Reading the keys fails with one of the errors of [init_from_file]. *)
Lemma keypairs_init_error fs (kp kp' : KeypairsConfig Keypair) e :
  keypairs_init fs kp = (kp', inr e) →
  ∃ msg, e = InitCommon ("failed to read validator keypair: " +:+ msg).
Proof using Type.
  unfold keypairs_init, try_init, init_from_file. intros H.
  repeat (case_match; simplify_eq/=); eauto.
Qed.

Abbreviation load_genesis' := (load_genesis (D := D) (F := F) (W := W) (LSC := LSC) (Rx := Rx)).

Lemma check_genesis_hash_eq g fs c :
  (∃ msg, check_genesis_hash g (fs, c) = Ok ((fs, c), inr (LoadBlockstoreFailed msg))) ∨
  (check_genesis_hash g (fs, c) = Ok ((fs, c), inl ()) ∧
   ∀ h, expected_genesis_hash (storage_config c) = Some h → genesis_hash g = h).
Proof using Type.
  unfold check_genesis_hash, get, throw, mbind, ste_bind.
  destruct (expected_genesis_hash _) as [h|]; [case_decide; [|by eauto]|]; right; naive_solver.
Qed.

(** A storage that opened: its genesis is the one found or made, its keys are
    those of the configuration or fresh, and the banks were loaded for both. *)
Definition opened_from (k : FreshKeys Keypair Pubkey) fs c fs' (o : Opened (B := B) (F := F) (D := D)
    (W := W) (LSC := LSC) (Rx := Rx)) : Prop :=
  ∃ g fs1 c1 kp, load_genesis' k (fs, c) = Ok ((fs1, c1), inl g) ∧
    keypairs_init fs1 (keypairs c1) = (kp, inl ()) ∧
    op_config o = with_genesis g (with_keypairs kp c1) ∧
    validator_keypair kp = Some (op_cluster_info o) ∧
    (∀ h, expected_genesis_hash (storage_config c1) = Some h → genesis_hash g = h) ∧
    (∀ q m, open_genesis_config fs' q m = open_genesis_config fs1 q m) ∧
    st_validator (op_storage o) = Some (keypair_pubkey (op_cluster_info o)) ∧
    st_ticks_per_slot (op_storage o) = genesis_ticks_per_slot g ∧
    st_dev_mode (op_storage o) = dev_mode c1 ∧
    st_bank (op_storage o) = bf_working_bank (st_bank_forks (op_storage o)) ∧
    st_enable_history (op_storage o) = enable_transaction_history (history_config (storage_config c1)).

Lemma storage_new_wp k c fs :
  wp (storage_new' k c fs) (λ '(fs', r),
    match r with
    | inl o => opened_from k fs c fs' o
    | inr e => e ≠ InitCommon "pruned banks receiver is None"
    end).
Proof.
  unfold storage_new, load_blockstore. apply wp_bind. apply ste_bind_wp.
  pose proof (load_genesis_wp k fs c) as Hwp.
  destruct (load_genesis' k (fs, c)) as [[[fs1 c1] [g|e]]|] eqn:Hg; [| |done]; cycle 1.
  { apply wp_ok. destruct Hwp as (err & _ & He).
    destruct (allow_default_genesis c). - by destruct He as [msg ->]. - by destruct He as [-> _]. }
  apply wp_ok. unfold load_keypairs, load_store, load_forks, get, modify, mbind, ste_bind.
  destruct (keypairs_init fs1 (keypairs c1)) as [kp [[]|e]] eqn:Hk; cycle 1.
  { apply wp_ok. by destruct (keypairs_init_error _ _ _ _ Hk) as [msg ->]. }
  destruct (check_genesis_hash_eq g fs1 (with_keypairs kp c1)) as [[msg ->]|[-> Hh]]; [done|].
  destruct (open_blockstore _ _ _) as [fs2 [d|e]] eqn:Hd; [|done].
  destruct (load_bank_forks _ _ _ _ _ _ _) as [fs3 [[[[w f] lsc] hs]|e]] eqn:Hf; [|done].
  apply wp_ok. destruct (validator_keypair _) as [v|] eqn:Hv; [|done].
  apply wp_ok. exists g, fs1, c1, kp. cbn in *. rewrite Hv. split_and!; try done.
  - intros q m. apply (f_equal fst) in Hd, Hf. cbn in Hd, Hf. subst fs2 fs3.
    by rewrite forks_keep_genesis, store_keeps_genesis.
  - unfold history_services. by destruct (enable_transaction_history _).
Qed.

(** ... and the genesis is on disk, found there or written. *)
Lemma opened_from_disk k fs c fs' o :
  max_genesis_archive_unpacked_size (storage_config c) = MAX_GENESIS_ARCHIVE_UNPACKED_SIZE →
  opened_from k fs c fs' o →
  on_disk fs' c = inl (genesis (op_config o)) ∧
  storage_config (op_config o) = storage_config c ∧
  (∀ h, expected_genesis_hash (storage_config c) = Some h → genesis_hash (genesis (op_config o)) = h) ∧
  (on_disk fs c = inl (genesis (op_config o)) ∨
   (∃ err, on_disk fs c = inr err) ∧ allow_default_genesis c = true ∧
   genesis (op_config o) = default_genesis k).
Proof.
  intros Hmax (g & fs1 & c1 & kp & Hg & _ & -> & _ & Hh & Hfs & _).
  pose proof (load_genesis_wp k fs c) as Hwp. rewrite Hg in Hwp. cbn. unfold on_disk. rewrite Hfs.
  destruct Hwp as [(Hd & -> & ->)|(err & h & Hd & Ha & -> & Hl & ->)].
  - split_and!; try done. by left.
  - unfold on_disk in Hd. rewrite Hmax in *. apply created_genesis_opens in Hl.
    split_and!; try done. right. by split; [eauto|].
Qed.

(** What a fresh configuration says *)
Lemma config_new_temp_wp (gd : Genesis) path fs :
  wp (config_new_temp (Hash := Hash) gd path fs) (λ '(fs', r),
    (∀ q m, open_genesis_config fs' q m = open_genesis_config fs q m) ∧
    match r with
    | inl c => ledger_path c = path ∧ allow_default_genesis c = true ∧ keypairs c = keypairs_default ∧
        max_genesis_archive_unpacked_size (storage_config c) = MAX_GENESIS_ARCHIVE_UNPACKED_SIZE ∧
        expected_genesis_hash (storage_config c) = None
    | inr e => ∃ msg, e = InitConfigFailed msg
    end).
Proof.
  unfold config_new_temp, config_at, init_config, make_dirs, make_accounts_dirs, lift, mbind, ste_bind.
  pose proof (λ q m, directories_keep_genesis fs [path] q m) as H1.
  destruct (create_directories fs [path]) as [fs1 [dirs|e]] eqn:Hd; cbn in *; [|apply wp_ok; eauto].
  apply create_directories_length in Hd. destruct dirs as [|p [|]]; try done. cbn.
  set (accounts := path_join p "accounts").
  pose proof (λ q m, directories_keep_genesis fs1 [accounts] q m) as H2.
  destruct (create_directories fs1 [accounts]) as [fs2 [dirs|e]]; cbn in *;
    [|apply wp_ok; cbn; split; [|by eauto]; intros; by rewrite H2].
  pose proof (λ q m, accounts_dirs_keep_genesis fs2 dirs q m) as H3.
  destruct (create_accounts_dirs fs2 dirs) as [fs3 [[run snaps]|e]]; cbn in *;
    apply wp_ok; cbn; (split; [intros; by rewrite H3, H2|]); [done|by eauto].
Qed.

(** Opening what is on disk, step by step *)
Lemma storage_new_on_disk k c fs g kp fs2 d fs3 w f lsc hs :
  on_disk fs c = inl g → keypairs_init fs (keypairs c) = (kp, inl ()) →
  (∀ h, expected_genesis_hash (storage_config c) = Some h → genesis_hash g = h) →
  open_blockstore fs (ledger_path c) (blockstore_options_from_config (storage_config c)) = (fs2, inl d) →
  load_bank_forks fs2 g d (account_paths (storage_config c)) (snapshot_config (storage_config c))
    (process_options (storage_config c) d)
    (hs_cache_block_meta_sender (history_services (storage_config c) d)) = (fs3, inl (w, f, lsc, hs)) →
  ∃ r, storage_new' k c fs = Ok (fs3, r) ∧
    match validator_keypair kp with
    | None => r = inr KeypairsConfigMissingValidatorKeypair
    | Some v => ∃ o, r = inl o ∧ op_config o = with_genesis g (with_keypairs kp c) ∧
        st_blockstore (op_storage o) = d ∧ st_world (op_storage o) = w ∧ op_cluster_info o = v ∧
        st_validator (op_storage o) = Some (keypair_pubkey v)
    end.
Proof using Type.
  unfold on_disk. intros Hg Hk Hh Hd Hf.
  unfold storage_new, load_blockstore, load_genesis, load_keypairs, load_store, load_forks, get, modify.
  unfold mbind, ste_bind. rewrite Hg. cbn [mret ste_ret]. unfold mret, ste_ret. rewrite Hk.
  destruct (check_genesis_hash_eq g fs (with_keypairs kp c)) as [[msg Hc]|[Hc _]].
  - revert Hc. unfold check_genesis_hash, get, throw, mbind, ste_bind. cbn.
    destruct (expected_genesis_hash _) as [h|]; [|done]. by rewrite decide_True by auto.
  - rewrite Hc. cbn. rewrite Hd. cbn. rewrite Hf. cbn.
    destruct (validator_keypair kp) as [v|] eqn:Hv; cbn; [|by eauto]. 
    eexists; split; [done|]. cbn. eexists; split; [done|]. cbn. by rewrite Hv.
Qed.
End Facts.
