(* ===== verification/StorageOpenTheorems.v ===== *)
(** * Theorems on opening the storage

    The genesis a storage runs on, the error of a second open, and the round
    trip through the keys of the first. *)
From S2P Require Import Prelude Banks Ledger StateError StorageConfig.
From S2P Require Import CommitBatch Verifier Shreds Commit Executor StorageOpen StorageOpenFacts.
From S2P Require Import MapForks VerifierFacts StorageDemo.
Set Default Proof Using "Type*".

Section Theorems.
Context {FS Keypair Pubkey Hash Genesis B F D W Account LSC Rx SnapRest Schedule Recovery Key : Type}.
Context {Indexes DbConfig Shrink Columns Runtime UseSnapshots TxError : Type}.
Context `{!EqDecision Hash}.
Context `{!Banks B, !BankForks F B, !Blockstore D, !BankWorld W B Hash Pubkey Account}.
Context `{!ConfigFiles FS Keypair, !ConfigFilesLaws FS Keypair}.
Context `{!Settings_of_crates SnapRest Schedule Recovery Key Indexes DbConfig Shrink Columns Runtime
            UseSnapshots}.
Abbreviation boptions := (BlockstoreOptions Recovery Columns).
Abbreviation poptions := (ProcessOptions Key Indexes DbConfig Shrink Runtime UseSnapshots).
Context `{!LedgerFiles FS Keypair Pubkey Hash Genesis D F W LSC Rx SnapRest Schedule boptions poptions}.
Context `{!LedgerFilesLaws FS Keypair Pubkey Hash Genesis D F W LSC Rx SnapRest Schedule boptions poptions}.
Abbreviation gconfig := (GlobalConfig Keypair Hash Genesis SnapRest Schedule Recovery Key Indexes
                           DbConfig Shrink Columns Runtime UseSnapshots).
Abbreviation open := (storage_new (B := B) (F := F) (D := D) (W := W) (LSC := LSC) (Rx := Rx)).
Abbreviation new_executor := (new_for_test (Hash := Hash) (B := B) (F := F) (D := D) (W := W)
                                (LSC := LSC) (Rx := Rx) (TxError := TxError)).
Implicit Types (c : gconfig) (fs : FS).

(** The genesis of the configuration has no effect: the storage runs on the
    one on disk, or on the default one it writes there. *)
Theorem configured_genesis_ignored k c g fs : open k (with_genesis g c) fs = open k c fs.
Proof using Type.
  unfold storage_new, load_blockstore, load_genesis, get, modify, load_keypairs, check_genesis_hash.
  unfold get, load_store, load_forks, on_files, default_genesis_config, init_block_store, throw.
  unfold mbind, ste_bind, res_bind. cbn -[keypairs_init].
  destruct (open_genesis_config _ _ _); cbn -[keypairs_init]; [|destruct (allow_default_genesis c); cbn -[keypairs_init]; [|done];
    destruct (create_new_ledger _ _ _ _) as [? [?|?]]; cbn -[keypairs_init]; [|done]].
  all: match goal with |- context [keypairs_init ?a ?b] => destruct (keypairs_init a b) as [? [[]|?]] end;
    cbn -[keypairs_init]; [|done].
  all: destruct (expected_genesis_hash (storage_config c)) as [hash|]; cbn -[keypairs_init];
    [destruct (decide (genesis_hash _ = hash)); cbn -[keypairs_init]; [|done]|].
  all: destruct (open_blockstore _ _ _) as [? [?|?]]; cbn -[keypairs_init]; [|done].
  all: destruct (load_bank_forks _ _ _ _ _ _ _) as [? [[[[? ?] ?] ?]|?]]; done.
Qed.

(** A storage that opened runs on the genesis on disk, with its ticks per slot,
    and that genesis has the hash the configuration expects; its slots are led
    by the validator key.  Opening never misses a receiver of its own. *)
Theorem opened_on_disk_genesis k c fs :
  max_genesis_archive_unpacked_size (storage_config c) = MAX_GENESIS_ARCHIVE_UNPACKED_SIZE →
  wp (open k c fs) (λ '(fs', r),
    match r with
    | inl o => ∃ g, on_disk fs' c = inl g ∧ genesis (op_config o) = g ∧
        (∀ h, expected_genesis_hash (storage_config c) = Some h → genesis_hash g = h) ∧
        st_ticks_per_slot (op_storage o) = genesis_ticks_per_slot g ∧
        st_validator (op_storage o) = keypair_pubkey <$> validator_keypair (keypairs (op_config o)) ∧
        st_validator (op_storage o) ≠ None ∧
        (on_disk fs c = inl g ∨
         (∃ err, on_disk fs c = inr err) ∧ allow_default_genesis c = true ∧ g = default_genesis k)
    | inr e => e ≠ InitCommon "pruned banks receiver is None"
    end).
Proof.
  intros Hmax. eapply wp_mono; [apply storage_new_wp|]. intros [fs' [o|e]] Ho; [|done].
  destruct (opened_from_disk _ _ _ _ _ Hmax Ho) as (Hd & _ & Hh & Hfrom).
  destruct Ho as (g & fs1 & c1 & kp & _ & _ & Hc & Hv & _ & _ & Hval & Ht & _).
  exists (genesis (op_config o)). rewrite Ht, Hval, Hc in *. cbn in *. by rewrite Hv.
Qed.

(** A ledger on disk and no keys *)
Lemma open_without_keys k c fs g :
  on_disk fs c = inl g → keypairs c = keypairs_default →
  wp (open k c fs) (λ '(_, r), ∃ e, r = inr e).
Proof.
  intros Hd Hk. eapply wp_mono; [apply storage_new_wp|]. intros [fs' [o|e]]; [|by eauto].
  intros (g' & fs1 & c1 & kp & Hg & Hi & _ & Hv & _).
  pose proof (load_genesis_wp k fs c) as Hwp. rewrite Hg in Hwp.
  destruct Hwp as [(_ & -> & ->)|(err & h & Hd' & _)]; [|by rewrite Hd in Hd'].
  rewrite Hk, keypairs_init_default in Hi. by injection Hi as <-.
Qed.
(** An executor that opened has left its ledger on disk. *)
Lemma new_executor_genesis gd k path fs fs1 x :
  new_executor gd k path fs = Ok (fs1, inl x) →
  ∃ g, open_genesis_config fs1 path MAX_GENESIS_ARCHIVE_UNPACKED_SIZE = inl g.
Proof.
  unfold new_for_test, new_with_config, new_with_validator_settings, exec_storage.
  unfold mbind, ste_bind, res_bind.
  pose proof (config_new_temp_wp (Hash := Hash) gd path fs) as Hc.
  destruct (config_new_temp gd path fs) as [[fs0 [c|e]]|]; [|done..].
  destruct Hc as (_ & Hp & _ & _ & Hmax & _).
  pose proof (storage_new_wp k c fs0) as Ho.
  destruct (open k c fs0) as [[fs' [o|e]]|]; [|done..]. cbn.
  destruct Ho as (g & fs2 & c1 & kp & Hg & _ & _ & _ & _ & Hfs & _).
  intros H. assert (fs1 = fs') as ->.
  { unfold lift, of_sum, mret, ste_ret in H. cbn in H.
    by destruct (storage_init o) as [[o' [[]|e]]|]; simplify_eq/=. }
  exists g. rewrite Hfs. pose proof (load_genesis_wp k fs0 c) as Hwp. rewrite Hg in Hwp.
  destruct Hwp as [(Hd & -> & ->)|(err & h & _ & _ & -> & Hl & ->)].
  - unfold on_disk in Hd. by rewrite Hp, Hmax in Hd.
  - rewrite Hp in Hl. by eapply created_genesis_opens.
Qed.

(** C21: Opening a second time at the same path with a fresh configuration fails:
    the keys drawn for the default genesis are not kept on disk. *)
Theorem second_open_fails gd gd' k k' path fs fs1 x fs2 :
  new_executor gd k path fs = Ok (fs1, inl x) →
  (∀ m, open_genesis_config fs2 path m = open_genesis_config fs1 path m) →
  wp (new_executor gd' k' path fs2) (λ '(_, r), ∃ e, r = inr e).
Proof.
  intros [g Hg]%new_executor_genesis Hfs.
  unfold new_for_test. apply ste_bind_wp. unfold exec_storage at 1. apply wp_bind.
  eapply wp_mono; [apply config_new_temp_wp|]. intros [fs3 [c|e]] [Hfs3 Hc]; apply wp_ok; [|by eauto].
  destruct Hc as (Hp & _ & Hk & Hmax & _).
  unfold new_with_config, new_with_validator_settings. apply ste_bind_wp.
  unfold exec_storage at 1. apply wp_bind. eapply wp_mono.
  - apply (open_without_keys k' c fs3 g); [|done]. unfold on_disk. by rewrite Hp, Hmax, Hfs3, Hfs.
  - intros [fs4 r] [e ->]. apply wp_ok. eauto.
Qed.

(** C20: Opening again with the keys of the first opening gives the same genesis
    and validator, when the store and the banks load. *)
Theorem reopen_with_keys k k' c c' fs fs1 o fs2 d fs3 w f lsc hs :
  max_genesis_archive_unpacked_size (storage_config c) = MAX_GENESIS_ARCHIVE_UNPACKED_SIZE →
  open k c fs = Ok (fs1, inl o) →
  ledger_path c' = ledger_path c → storage_config c' = storage_config c →
  keypairs c' = keypairs (op_config o) →
  open_blockstore fs1 (ledger_path c') (blockstore_options_from_config (storage_config c')) =
    (fs2, inl d) →
  load_bank_forks fs2 (genesis (op_config o)) d (account_paths (storage_config c'))
    (snapshot_config (storage_config c')) (process_options (storage_config c') d)
    (hs_cache_block_meta_sender (history_services (storage_config c') d)) =
    (fs3, inl (w, f, lsc, hs)) →
  ∃ o', open k' c' fs1 = Ok (fs3, inl o') ∧ genesis (op_config o') = genesis (op_config o) ∧
    keypairs (op_config o') = keypairs (op_config o) ∧
    st_validator (op_storage o') = st_validator (op_storage o).
Proof.
  intros Hmax Ho Hp Hs Hk Hd Hf.
  pose proof (storage_new_wp k c fs) as Hwp. rewrite Ho in Hwp.
  destruct Hwp as (g & fsg & c1 & kp & Hg & Hi & Hc & Hv & Hh & Hfs & Hval & _).
  rewrite Hc in Hk, Hf. cbn in Hk, Hf.
  pose proof (load_genesis_wp k fs c) as Hwg. rewrite Hg in Hwg.
  assert (on_disk fs1 c' = inl g ∧ storage_config c1 = storage_config c) as [Hdisk Hs1].
  { unfold on_disk. rewrite Hp, Hs, Hfs.
    destruct Hwg as [(? & -> & ->)|(err & h & _ & _ & -> & Hl & ->)]; [done|].
    split; [|done]. rewrite Hmax. by eapply created_genesis_opens. }
  destruct (storage_new_on_disk k' c' fs1 g kp fs2 d fs3 w f lsc hs) as (r & Hr & Hcase); try done.
  - rewrite Hk. by eapply keypairs_init_again.
  - intros h. rewrite Hs, <-Hs1. apply Hh.
  - rewrite Hv in Hcase. destruct Hcase as (o' & -> & Ho' & _ & _ & Hci & Hval').
    exists o'. rewrite Hr, Ho', Hc, Hval, Hval'. done.
Qed.
End Theorems.

(** ** A disk with the genesis of each ledger, and the theorems on it *)

Module StorageOpenWitnesses.
Import StorageDemo.

(** The genesis, its ticks per slot, by path *)
Definition disk := list (Path * Z).
Fixpoint find_genesis (d : disk) (p : Path) : Z + string :=
  match d with
  | [] => inr "no genesis"
  | (q, g) :: d => if decide (q = p) then inl g else find_genesis d p
  end.
Definition genesis_forks : MapForks.t PathBank.t := MapForks.mk [] 0 {[0%Z := []]}.
Definition empty_world : world := mkWorld no_locks [].

#[export] Instance disk_config : ConfigFiles disk nat := {|
  create_directories d paths := (d, inl paths);
  create_accounts_dirs d paths := (d, inl (paths, paths));
  read_keypair_file _ _ := inr "no such file"
|}.
#[export] Instance disk_config_laws : ConfigFilesLaws disk nat.
Proof. by intros fs paths fs' l [= <- <-]. Qed.
#[export] Instance units : Settings_of_crates unit unit unit unit unit unit unit unit unit unit := {|
  snapshot_rest_default := (); snapshot_load_only := mkSnapshotConfig 0 0 "" "" "" ();
  indexes_default := (); accounts_db_config_at _ := (); shrink_default := ();
  columns_default := (); runtime_default := (); use_snapshots_default := ()
|}.
Abbreviation bopts := (BlockstoreOptions unit unit).
Abbreviation popts := (ProcessOptions unit unit unit unit unit unit).
#[export] Instance disk_ledger : LedgerFiles disk nat nat Z Z store (MapForks.t PathBank.t) world unit
    unit unit unit bopts popts := {|
  keypair_pubkey k := k;
  create_genesis _ _ _ _ _ _ _ := 64%Z;
  genesis_hash g := (g * 31)%Z;
  genesis_ticks_per_slot g := g;
  open_genesis_config d p _ := find_genesis d p;
  create_new_ledger d p g _ := ((p, g) :: d, inl (g * 31)%Z);
  open_blockstore d _ _ := (d, inl (mkStore [] [] []));
  load_bank_forks d _ _ _ _ _ _ := (d, inl (empty_world, genesis_forks, (), None));
  setup_bank_drop_callback _ := ();
  set_fixed_leader_schedule l _ := l;
  set_snapshot_config f _ := f;
  set_accounts_hash_interval_slots f _ := f;
  process_blockstore_from_root w d f _ _ _ _ := (w, d, f, inl ());
  show_hash _ := "hash";
  debug_path p := p
|}.
#[export] Instance disk_ledger_laws : LedgerFilesLaws disk nat nat Z Z store (MapForks.t PathBank.t) world
    unit unit unit unit bopts popts.
Proof.
  split; try done. intros fs path g m fs' h [= <- <-]. cbn. by rewrite decide_True.
Qed.

Definition keys1 : FreshKeys nat nat := mkFresh 1 2 3 4.
Definition keys2 : FreshKeys nat nat := mkFresh 11 12 13 14.

Abbreviation demo_open := (storage_new (B := PathBank.t) (F := MapForks.t PathBank.t) (D := store)
                             (W := world) (LSC := unit) (Rx := unit)).
Abbreviation demo_executor := (new_for_test (Hash := Z) (B := PathBank.t) (F := MapForks.t PathBank.t)
                                 (D := store) (W := world) (LSC := unit) (Rx := unit)
                                 (TxError := string)).
Definition config : GlobalConfig nat Z Z unit unit unit unit unit unit unit unit unit unit :=
  mkGlobalConfig "ledger" true false keypairs_default
    (storage_config_with ["ledger/accounts"] (Some ())
       (mkSnapshotConfig 2500 500 "ledger/snapshots/full" "ledger/snapshots/incremental"
          "ledger/snapshots" ())) 0%Z.

Lemma opened_on_disk_genesis_witness : ∃ o,
  demo_open keys1 config [] = Ok ([("ledger", 64%Z)], inl o) ∧
  on_disk [("ledger", 64%Z)] config = inl (genesis (op_config o)).
Proof.
  eassert (demo_open keys1 config [] = Ok ([("ledger", 64%Z)], inl _)) as Ho by reflexivity.
  eexists. split; [exact Ho|].
  pose proof (opened_on_disk_genesis (B := PathBank.t) (F := MapForks.t PathBank.t) (Rx := unit)
    keys1 config [] eq_refl) as H.
  rewrite Ho in H. destruct H as (g & Hg & Hc & _). by rewrite Hc.
Defined.

(** After [new_for_test] at a path the same call fails. *)
Lemma second_open_fails_witness :
  (∃ x, demo_executor 0%Z keys1 "ledger" [] = Ok ([("ledger", 64%Z)], inl x)) ∧
  wp (demo_executor 0%Z keys2 "ledger" [("ledger", 64%Z)]) (λ '(_, r), ∃ e, r = inr e).
Proof.
  eassert (demo_executor 0%Z keys1 "ledger" [] = Ok ([("ledger", 64%Z)], inl _)) as Ho
    by (vm_compute; reflexivity).
  split; [eexists; exact Ho|].
  exact (second_open_fails 0%Z 0%Z keys1 keys2 "ledger" [] [("ledger", 64%Z)] _ _ Ho (λ _, eq_refl)).
Defined.

(** With the keys of the first opening it succeeds. *)
Lemma reopen_with_keys_witness : ∃ o o',
  demo_open keys1 config [] = Ok ([("ledger", 64%Z)], inl o) ∧
  demo_open keys2 (with_keypairs (keypairs (op_config o)) config) [("ledger", 64%Z)] =
    Ok ([("ledger", 64%Z)], inl o') ∧
  st_validator (op_storage o') = Some 1.
Proof.
  eassert (demo_open keys1 config [] = Ok ([("ledger", 64%Z)], inl _)) as Ho by reflexivity.
  eexists. destruct (reopen_with_keys keys1 keys2 config
    (with_keypairs (fresh_keypairs keys1) config) [] [("ledger", 64%Z)] _
    [("ledger", 64%Z)] (mkStore [] [] []) [("ledger", 64%Z)] empty_world genesis_forks () None
    eq_refl Ho) as (o' & H & _); try reflexivity.
  exists o'. split; [reflexivity|]. split; [exact H|].
  vm_compute in H. by injection H as <-.
Defined.
End StorageOpenWitnesses.
