(* ===== verification/StorageQueries.v ===== *)
(** * Account statistics, manual snapshots and transactions read back

    The rest of [storage/src/accounts/mod.rs] and [storage/src/history/mod.rs],
    and [close] of the executor. *)
From Stdlib Require Import Ascii.
From S2P Require Import Prelude Banks Ledger StateError Snapshots StorageConfig StorageOpen StorageOpenFacts.
From S2P Require Import CommitBatch Verifier Shreds Commit Executor.
Set Default Proof Using "Type*".

(** Scanning the accounts of a bank and adding one to the statistics *)
Class AccountScans (W B Pubkey Account Rent Stats : Type) := {
  bank_rent_collector : W → B → Rent;
  (** the tuples the scan function is called with; [true] sorts them *)
  scan_all_accounts : W → B → bool → list (option (Pubkey * Account * Slot)) + string;
  stats_default : Stats;
  accumulate_account : Stats → Pubkey → Account → Rent → Stats;
  is_loadable : Z → bool;
  sysvar_check_id : Pubkey → bool;
  scanned_owner : Account → Pubkey
}.
Class SnapshotWriter (FS W B : Type) := {
  (** [ArchiveFormat::from_cli_arg] *)
  archive_format : string → bool;
  (** [bank_to_full_snapshot_archive(bank_snapshots_dir, bank, None, full,
      incremental, format)] *)
  bank_to_full_snapshot_archive : FS → W → B → Path → Path → Path → FS * (unit + string)
}.
Class Sanitizer (W B VTx Tx Hash : Type) := {
  verify_and_hash_message : VTx → Hash + string;
  message_hash : VTx → Hash;
  (** [SanitizedTransaction::try_create(tx, hash, None, bank, keys of bank)] *)
  try_create : W → B → VTx → Hash → Tx + string
}.
Class TransactionHistory (D Signature Meta : Type) := {
  get_complete_transaction : D → Signature → Slot → option Meta + string;
  get_rooted_transaction : D → Signature → option Meta + string
}.

Section Queries.
Context {FS B F D W Hash Pubkey Account Rent Stats VTx Tx Signature Meta : Type}.
Context `{!Banks B, !BankForks F B, !Blockstore D, !BankWorld W B Hash Pubkey Account}.
Context `{!AccountScans W B Pubkey Account Rent Stats, !SnapshotWriter FS W B}.
Context `{!Sanitizer W B VTx Tx Hash, !TransactionHistory D Signature Meta}.
Abbreviation storage := (RollupStorage B F D W Pubkey).
Implicit Types (s : storage).

Definition should_process_account (a : Account) : bool :=
  is_loadable (account_lamports a) && negb (sysvar_check_id (scanned_owner a)).
(** The scan function *)
Definition scan_func (rent : Rent) (status : Stats) (t : option (Pubkey * Account * Slot)) : Stats :=
  match t with
  | Some (pubkey, account, _) =>
      if should_process_account account then accumulate_account status pubkey account rent else status
  | None => status
  end.
Definition all_accounts_status s : Stats + Error :=
  match scan_all_accounts (st_world s) (st_bank s) true with
  | inl l => inl (foldl (scan_func (bank_rent_collector (st_world s) (st_bank s))) stats_default l)
  | inr e => inr (EAccountDb (FailedToScanAccounts e))
  end.

(** It sets the interval of the accounts hash. *)
Definition set_snapshot_interval (set_interval : F → Z → F) s (interval : Z) : storage :=
  with_forks s (set_interval (st_bank_forks s) interval).

Definition snapshot (ledger_path : Path) s (slot : option Slot) : ste FS Error unit := λ fs,
  let slot := default (current_height s) slot in
  match bf_get (st_bank_forks s) slot with
  | None => Ok (fs, inr (EBank (BankNotExists slot)))
  | Some bank =>
      if archive_format "zstd" then
        match bank_to_full_snapshot_archive fs (st_world s) bank ledger_path
                (path_join ledger_path "full") (path_join ledger_path "incremental") with
        | (fs, inl _) => Ok (fs, inl ())
        | (fs, inr e) => Ok (fs, inr (EBank (BankCommon ("Failed to snapshot bank: " +:+ e))))
        end
      else Ok (fs, inr (EBank (BankCommon "Unsupported archive format")))
  end.

Definition to_sanitized_transaction s (tx : VTx) (verify : bool) : Tx + Error :=
  match (if verify then verify_and_hash_message tx else inl (message_hash tx)) with
  | inr e => inr (EAccountDb (ConvertTxError e))
  | inl h =>
      match try_create (st_world s) (st_bank s) tx h with
      | inl t => inl t
      | inr e => inr (EAccountDb (ConvertTxError e))
      end
  end.

Definition get_transaction_meta s (signature : Signature) (highest_confirmed_slot : option Slot) :
    option Meta + Error :=
  match (match highest_confirmed_slot with
         | Some slot => get_complete_transaction (st_blockstore s) signature slot
         | None => get_rooted_transaction (st_blockstore s) signature
         end) with
  | inl r => inl r
  | inr e => inr (SolanaBlockstoreError e)
  end.

(** [Executor::close]: what the polls of the archive directories show is given. *)
Definition executor_close {TxError} (full_archive : nat → option Slot)
    (incremental_archive : nat → Slot → option Slot) (fuel : nat) (cfg : SnapshotSettings)
    (x : Executor B F D W Pubkey) : res (list close_event + ExecutorError (TxError := TxError)) :=
  match ex_storage x with
  | None => Ok (inr StorageIsNone)
  | Some s => events ← close full_archive incremental_archive fuel cfg (current_height s); Ok (inl events)
  end.
End Queries.

(** ** Where a manual snapshot goes *)

Section Directories.
Context {FS Keypair Hash SnapRest Schedule Recovery Key Indexes DbConfig Shrink Columns Runtime : Type}.
Context {UseSnapshots : Type}.
Context `{!ConfigFiles FS Keypair}.
Context `{!Settings_of_crates SnapRest Schedule Recovery Key Indexes DbConfig Shrink Columns Runtime
            UseSnapshots}.

Lemma string_app_length (a b : string) : String.length (a +:+ b) = String.length a + String.length b.
Proof using Type.
  induction a as [|c a IH]; [done|].
  change (S (String.length (a +:+ b)) = S (String.length a + String.length b)). by rewrite IH.
Qed.
Lemma path_join_relative base name : (∀ rest, name ≠ String "/" rest) →
  path_join base name =
    if bool_decide (base = "") || ends_with_slash base then base +:+ name else base +:+ "/" +:+ name.
Proof using Type.
  intros H. unfold path_join. destruct name as [|c name]; [done|].
  repeat match goal with b : bool |- _ => destruct b | c : Ascii.ascii |- _ => destruct c end;
    try done. by destruct (H name).
Qed.
Lemma path_join_length base name : (∀ rest, name ≠ String "/" rest) →
  String.length base + String.length name ≤ String.length (path_join base name) ≤
  String.length base + S (String.length name).
Proof using Type.
  intros H. rewrite path_join_relative by done.
  destruct (bool_decide (base = "") || ends_with_slash base); rewrite !string_app_length; cbn; lia.
Qed.

(** [snapshot] writes its archive to a directory that is not the one the
    configuration of the same ledger loads archives from, waits for and serves. *)
Lemma manual_snapshot_elsewhere path fs fs' :
  create_directories fs [path] = (fs', inl [path]) →
  wp (init_config (Hash := Hash) path fs) (λ '(_, r),
    match r with
    | inl c => full_archives_dir (snapshot_config c) ≠ path_join path "full"
    | inr _ => True
    end).
Proof using Type.
  intros Hd. unfold init_config, make_dirs, make_accounts_dirs, lift, mbind, ste_bind. rewrite Hd. cbn.
  destruct (create_directories fs' [_]) as [fs2 [dirs|e]]; cbn; [|done].
  destruct (create_accounts_dirs fs2 dirs) as [fs3 [[run snaps]|e]]; cbn; [|done].
  apply wp_ok. cbn. intros Heq. apply (f_equal String.length) in Heq.
  destruct (path_join_length path "full") as [_ H1]; [done|].
  destruct (path_join_length path "snapshots") as [H2 _]; [done|].
  destruct (path_join_length (path_join path "snapshots") "full") as [H3 _]; [done|]. cbn in *. lia.
Qed.
End Directories.
