(* ===== verification/SvmBank.v ===== *)
(** * Banks of the SVM executor

    The interface [BankOperations]/[BankInfo] of [interface/src/l2/bank.rs],
    and its two implementations: [svm/executor/src/mock/bank.rs] and
    [svm/executor/src/bank/wrapper.rs].  Accounts are plain data of
    [solana_sdk]; its serialization, its well-known ids and the runtime's bank
    behind the wrapper are parameters. *)
From S2P Require Import Prelude StateError.
Set Default Proof Using "Type*".

(** What a run reads from outside, the [n]th reading: a unique or random key, a
    unique signature, the seconds since 1970 ([None] before). *)
Class Outside (Pubkey Signature : Type) := {
  new_key : nat → Pubkey;
  new_sig : nat → Signature;
  now : nat → option Z
}.
(** Keys are drawn once. *)
Class OutsideLaws (Pubkey Signature : Type) `{Outside Pubkey Signature} : Prop :=
  new_key_inj n m : new_key n = new_key m → n = m.

Section Accounts.
Context {Pubkey : Type}.

Record AccountSharedData := mkAccount {
  lamports : Z; acc_data : list Z; owner : Pubkey; executable : bool; rent_epoch : Z
}.
Inductive UpgradeableLoaderState :=
| Program (programdata_address : Pubkey)
| ProgramData (slot : Z) (upgrade_authority_address : option Pubkey).
Record Clock := mkClock {
  clock_slot : Z; epoch_start_timestamp : Z; clock_epoch : Z; leader_schedule_epoch : Z;
  unix_timestamp : Z
}.
End Accounts.
Arguments AccountSharedData : clear implicits.
Arguments UpgradeableLoaderState : clear implicits.

(** [bincode::serialize] of the two types, the size reserved for the metadata
    of program data, and the ids. *)
Class Loader (Pubkey : Type) := {
  default_key : Pubkey;
  loader_id : Pubkey;
  system_program_id : Pubkey;
  clock_id : Pubkey;
  serialize : UpgradeableLoaderState Pubkey → list Z;
  serialize_clock : Clock → list Z;
  size_of_programdata_metadata : nat
}.
(** The metadata without an authority fits the space reserved for it. *)
Class LoaderLaws (Pubkey : Type) `{Loader Pubkey} : Prop :=
  metadata_fits slot : length (serialize (ProgramData slot None)) ≤ size_of_programdata_metadata.

Definition account_default {Pubkey} `{Loader Pubkey} : AccountSharedData Pubkey :=
  mkAccount 0 [] default_key false 0.
Definition set_lamports {Pubkey} (l : Z) (a : AccountSharedData Pubkey) : AccountSharedData Pubkey :=
  mkAccount l (acc_data a) (owner a) (executable a) (rent_epoch a).
Definition set_data {Pubkey} (d : list Z) (a : AccountSharedData Pubkey) : AccountSharedData Pubkey :=
  mkAccount (lamports a) d (owner a) (executable a) (rent_epoch a).
Definition set_owner {Pubkey} (k : Pubkey) (a : AccountSharedData Pubkey) : AccountSharedData Pubkey :=
  mkAccount (lamports a) (acc_data a) k (executable a) (rent_epoch a).

(** ** The interface

    The state is the bank and the number of readings from outside. *)
Class BankOperations (B Pubkey Hash : Type) := {
  insert_account : Pubkey → AccountSharedData Pubkey → ste (B * nat) string unit;
  deploy_program : list Z → ste (B * nat) string Pubkey;
  set_clock : ste (B * nat) string unit;
  bump : ste (B * nat) string unit;
  last_blockhash : B → Hash;
  execution_slot : B → Z;
  collector_id : B → Pubkey + string;
  account_matches_owners : B → Pubkey → list Pubkey → option nat;
  get_account_shared_data : B → Pubkey → option (AccountSharedData Pubkey);
  add_builtin_account : string → Pubkey → B → B
}.

Definition fresh {B E A} (f : nat → A) : ste (B * nat) E A :=
  λ '(b, n), Ok ((b, S n), inl (f n)).

Definition DEPLOYMENT_SLOT : Z := 0.
Definition DEPLOYMENT_EPOCH : Z := 0.

(** [as i64] on a [u64], and [saturating_sub] on [i64] *)
Definition u64_as_i64 (x : Z) : Z := if (x <? 2 ^ 63)%Z then x else (x - 2 ^ 64)%Z.
Definition i64_saturating_sub (x y : Z) : Z := Z.max (- 2 ^ 63) (Z.min (2 ^ 63 - 1) (x - y)).

(** ** The mock bank *)
Module MockBank.
Section Mock.
Context {Pubkey Signature Hash FeatureSet : Type} `{Countable Pubkey}.
Context `{!Loader Pubkey, !Outside Pubkey Signature}.
(** [Hash::default()], [FeatureSet::default()] and
    [native_loader::create_loadable_account_with_fields] *)
Context (hash_default : Hash) (features_default : FeatureSet).
Context (loadable_account : string → Z → Z → AccountSharedData Pubkey).

Record MockBankCallback := mkMock {
  feature_set : FeatureSet;
  account_shared_data : gmap Pubkey (AccountSharedData Pubkey);
  mock_slot : Z
}.
Definition mock_default : MockBankCallback := mkMock features_default ∅ 5.

Definition matches_owners (b : MockBankCallback) (account : Pubkey) (owners : list Pubkey) :
    option nat :=
  match account_shared_data b !! account with
  | Some data =>
      if decide (lamports data = 0%Z) then None
      else fst <$> list_find (λ entry, owner data = entry) owners
  | None => None
  end.
Definition builtin_account (name : string) (program_id : Pubkey) (b : MockBankCallback) :
    MockBankCallback :=
  mkMock (feature_set b) (<[program_id := loadable_account name 5000 0]> (account_shared_data b))
    (mock_slot b).

Definition mock_insert (key : Pubkey) (data : AccountSharedData Pubkey) :
    ste (MockBankCallback * nat) string unit :=
  modify (λ '(b, n),
    (mkMock (feature_set b) (<[key := data]> (account_shared_data b)) (mock_slot b), n)).

Definition mock_deploy (buffer : list Z) : ste (MockBankCallback * nat) string Pubkey :=
  program_account ← fresh new_key;
  program_data_account ← fresh new_key;
  _ ← mock_insert program_account
        (set_owner loader_id (set_lamports 25
           (set_data (serialize (Program program_data_account)) account_default)));
  let header := serialize (ProgramData DEPLOYMENT_SLOT None) in
  let complement := replicate (size_of_programdata_metadata - length header) 0%Z in
  _ ← mock_insert program_data_account
        (set_data (header ++ complement ++ buffer) account_default);
  mret program_account.

Definition mock_set_clock : ste (MockBankCallback * nat) string unit :=
  time ← fresh now;
  secs ← lift (expect time "Time went backwards");
  let time_now := u64_as_i64 secs in
  let clock := mkClock DEPLOYMENT_SLOT (i64_saturating_sub time_now 10) DEPLOYMENT_EPOCH
                 DEPLOYMENT_EPOCH time_now in
  mock_insert clock_id (set_data (serialize_clock clock) account_default).

#[export] Instance mock_operations : BankOperations MockBankCallback Pubkey Hash := {|
  insert_account := mock_insert;
  deploy_program := mock_deploy;
  set_clock := mock_set_clock;
  bump := mret ();
  last_blockhash _ := hash_default;
  execution_slot := mock_slot;
  collector_id _ := inl default_key;
  account_matches_owners := matches_owners;
  get_account_shared_data b k := account_shared_data b !! k;
  add_builtin_account := builtin_account
|}.

Definition override_feature_set (new_set : FeatureSet) (b : MockBankCallback) : MockBankCallback :=
  mkMock new_set (account_shared_data b) (mock_slot b).
End Mock.
Arguments MockBankCallback : clear implicits.
Arguments MockBankCallback Pubkey FeatureSet {_ _}.
End MockBank.

(** ** The wrapper of the runtime's bank *)

(** [solana_runtime::bank::Bank]: storing and reading accounts, ticks, and the
    child of a bank, inserted in the bank forks. *)
Class RuntimeBank (BK Pubkey Hash : Type) := {
  rb_store : Pubkey → AccountSharedData Pubkey → BK → BK;
  rb_get : BK → Pubkey → option (AccountSharedData Pubkey);
  rb_matches_owners : BK → Pubkey → list Pubkey → option nat;
  rb_add_builtin : string → Pubkey → BK → BK;
  rb_last_blockhash : BK → Hash;
  rb_slot : BK → Z;
  rb_register_tick : Hash → BK → BK;
  rb_freeze : BK → BK;
  rb_new_from_parent : Pubkey → Z → BK → BK;
  (** the ticks left in the slot *)
  rb_ticks_left : BK → nat
}.
(** An account with lamports is read back as stored; the last tick of a slot
    sets the last blockhash, and storing an account does not. *)
Class RuntimeBankLaws (BK Pubkey Hash : Type) `{RuntimeBank BK Pubkey Hash} : Prop := {
  rb_get_store k a b : (0 < lamports a)%Z → rb_get (rb_store k a b) k = Some a;
  rb_get_store_ne k k' a b : k ≠ k' → rb_get (rb_store k a b) k' = rb_get b k';
  rb_blockhash_store k a b : rb_last_blockhash (rb_store k a b) = rb_last_blockhash b;
  rb_tick_left h b : rb_ticks_left (rb_register_tick h b) = rb_ticks_left b - 1;
  rb_tick_last h b : rb_ticks_left b = 1 → rb_last_blockhash (rb_register_tick h b) = h
}.

Module Wrapper.
Section Wrapper.
Context {Pubkey Signature Hash BK : Type} `{EqDecision Hash}.
Context `{!Loader Pubkey, !Outside Pubkey Signature, !RuntimeBank BK Pubkey Hash}.
(** [hashv] of a hash and one byte *)
Context (hashv : Hash → Z → Hash).

Record WrapperConfig := mkConfig { previous_slot : Z; latest_slot : Z; mint_lamports : Z }.
Definition config_default : WrapperConfig := mkConfig 20 30 10000.
Record BankWrapper := mkWrapper { inner : BK; cfg : WrapperConfig; validator_pubkey : Pubkey }.
Definition with_inner (b : BankWrapper) (bk : BK) : BankWrapper :=
  mkWrapper bk (cfg b) (validator_pubkey b).

Definition wrapper_insert (key : Pubkey) (data : AccountSharedData Pubkey) :
    ste (BankWrapper * nat) string unit :=
  modify (λ '(b, n), (with_inner b (rb_store key data (inner b)), n)).

(** [set_state]: the state at the front of the data. *)
Definition set_state (st : UpgradeableLoaderState Pubkey) (a : AccountSharedData Pubkey) :
    res (AccountSharedData Pubkey) :=
  let s := serialize st in
  if decide (length s ≤ length (acc_data a)) then Ok (set_data (s ++ drop (length s) (acc_data a)) a)
  else Panic "called `Result::unwrap()` on an `Err` value".
(** [data[offset..].copy_from_slice(src)] *)
Definition copy_from_slice (offset : nat) (src : list Z) (a : AccountSharedData Pubkey) :
    res (AccountSharedData Pubkey) :=
  _ ← assert_res (bool_decide (offset ≤ length (acc_data a))) "range start index out of range for slice";
  _ ← assert_res (bool_decide (length (acc_data a) - offset = length src))
        "source slice length does not match destination slice length";
  Ok (set_data (take offset (acc_data a) ++ src) a).
Definition set_rent_epoch (e : Z) (a : AccountSharedData Pubkey) : AccountSharedData Pubkey :=
  mkAccount (lamports a) (acc_data a) (owner a) (executable a) e.
Definition set_executable (x : bool) (a : AccountSharedData Pubkey) : AccountSharedData Pubkey :=
  mkAccount (lamports a) (acc_data a) (owner a) x (rent_epoch a).

Definition wrapper_deploy (buffer : list Z) : ste (BankWrapper * nat) string Pubkey :=
  program_key ← fresh new_key;
  programdata_key ← fresh new_key;
  let program_account :=
    set_rent_epoch 1 (set_executable true
      (mkAccount 40 (serialize (Program programdata_key)) loader_id false 0)) in
  let programdata_data_offset := size_of_programdata_metadata in
  let programdata_account :=
    mkAccount 40 (replicate (programdata_data_offset + length buffer) 0%Z) loader_id false 0 in
  '(b, _) ← get;
  programdata_account ← lift (set_state (ProgramData (previous_slot (cfg b)) None)
                                programdata_account);
  programdata_account ← lift (copy_from_slice programdata_data_offset buffer programdata_account);
  let programdata_account := set_rent_epoch 1 programdata_account in
  _ ← wrapper_insert program_key program_account;
  _ ← wrapper_insert programdata_key programdata_account;
  mret program_key.

#[global] Instance wrapper_operations : BankOperations BankWrapper Pubkey Hash := {|
  insert_account := wrapper_insert;
  deploy_program := wrapper_deploy;
  set_clock := mret ();
  bump := mret ();
  last_blockhash b := rb_last_blockhash (inner b);
  execution_slot b := rb_slot (inner b);
  collector_id b := inl (validator_pubkey b);
  account_matches_owners b := rb_matches_owners (inner b);
  get_account_shared_data b := rb_get (inner b);
  add_builtin_account name k b := with_inner b (rb_add_builtin name k (inner b))
|}.

(** The loop registers ticks until one of them is the last blockhash; the
    ticks left in the slot are fuel enough. *)
Fixpoint goto_end_loop (fuel : nat) (c : WrapperConfig) (tick_hash : Hash) (b : BK) : res BK :=
  match fuel with
  | 0 => Panic "out of fuel"
  | S fuel =>
      let tick_hash := hashv tick_hash (previous_slot c `mod` 256) in
      let b := rb_register_tick tick_hash b in
      if decide (tick_hash = rb_last_blockhash b) then Ok (rb_freeze b)
      else goto_end_loop fuel c tick_hash b
  end.
Definition goto_end_of_slot (fuel : nat) (b : BK) (c : WrapperConfig) : res BK :=
  goto_end_loop fuel c (rb_last_blockhash b) b.

Definition new_from_bank (fuel : nat) (bank : BK) (c : WrapperConfig) : res BankWrapper :=
  bank ← goto_end_of_slot fuel bank c;
  let bank := rb_new_from_parent default_key (previous_slot c) bank in
  let bank := rb_new_from_parent default_key (latest_slot c) bank in
  Ok (mkWrapper bank c default_key).
End Wrapper.
Arguments BankWrapper : clear implicits.
End Wrapper.

(** ** Fork graph

    [svm/executor/src/mock/fork_graph.rs] *)
Inductive BlockRelation := Ancestor | Equal | Descendant | Unrelated | Unknown.
Definition relationship (a b : Z) : BlockRelation :=
  match (a ?= b)%Z with Lt => Ancestor | Eq => Equal | Gt => Descendant end.
Definition slot_epoch (slot : Z) : option Z := Some 0%Z.
