(* ===== verification/SvmBuilder.v ===== *)
(** * Building and executing one transaction

    [svm/executor/src/builder/simple.rs] with [builtin.rs] and [error.rs],
    over the interface of the bank.  The batch processor of [solana_svm] and
    reading a file are parameters. *)
From S2P Require Import Prelude StateError TxBuilder SvmBank.
Set Default Proof Using "Type*".

(** [TransactionExecutionResult], with the details kept abstract but for the
    status *)
Inductive ExecutionResult (TransactionError Details : Type) :=
| Executed (status : unit + TransactionError) (details : Details)
| NotExecuted (e : TransactionError).
Arguments Executed {_ _}.
Arguments NotExecuted {_ _}.

(** [CheckedTransactionDetails], with the nonce as an option of a key *)
Record CheckedDetails (Pubkey : Type) := mkDetails {
  nonce : option Pubkey; lamports_per_signature : Z
}.
Arguments mkDetails {_}.
Abbreviation CheckResult Pubkey TransactionError := (CheckedDetails Pubkey + TransactionError)%type.

(** [ExecutionRecordingConfig] *)
Record RecordingConfig := mkRecording {
  enable_log_recording : bool; enable_return_data_recording : bool; enable_cpi_recording : bool
}.

(** [TransactionBatchProcessor]: made for a slot and an epoch, given the
    program environments and the fork graph, filled with the sysvars of a
    bank, given a builtin; and loading and executing transactions against a
    bank, which is only read. *)
Class BatchProcessor (P FG B Pubkey STx TransactionError Details : Type) := {
  tp_new : Z → Z → P;
  create_executable_environment : FG → P → P;
  fill_missing_sysvar_cache_entries : B → P → P;
  tp_add_builtin : Pubkey → string → Z → P → P;
  load_and_execute_sanitized_transactions :
    B → list STx → list (CheckResult Pubkey TransactionError) → RecordingConfig → P →
    P * list (ExecutionResult TransactionError Details)
}.

Inductive SvmError (IoError TransactionError : Type) :=
| BuilderError (msg : string)
| TransactionProcessorIsNone
| StdIo (e : IoError)
| SolanaTransactionError (e : TransactionError).
Arguments BuilderError {_ _}.
Arguments TransactionProcessorIsNone {_ _}.
Arguments StdIo {_ _}.
Arguments SolanaTransactionError {_ _}.

Section SimpleBuilder.
Context {Pubkey Signature Hash STx TransactionError Details IoError FG P B : Type}.
Context `{Countable Pubkey}.
Context `{!Loader Pubkey, !Outside Pubkey Signature, !BankOperations B Pubkey Hash}.
Context `{!BatchProcessor P FG B Pubkey STx TransactionError Details}.
Abbreviation versioned :=
  (VersionedTransaction Pubkey Signature Hash (list Z)).
Context (sanitizable : versioned → bool) (try_new : versioned → STx + TransactionError).
(** [read_file] *)
Context (read_file : string → list Z + IoError).
Context (fork_graph_default : FG).
Abbreviation error := (SvmError IoError TransactionError).
Abbreviation account := (AccountSharedData Pubkey).

Definition fee_payer_balance_default : Z := 80000.

Record SimpleBuilder := mkSimple {
  sb_bank : B;
  fee_payer_balance : Z;
  sb_tx_builder : SanitizedTransactionBuilder Pubkey Signature (list Z);
  sb_tx_processor : option P;
  sb_fork_graph : FG;
  sb_program_path : option string;
  sb_program_buffer : option (list Z);
  sb_calldata : list Z;
  sb_accounts : list (AccountMeta Pubkey * option account);
  sb_v0_message : bool;
  sb_check_result : option (CheckResult Pubkey TransactionError)
}.
Implicit Types (s : SimpleBuilder).

Record ExecutionAccounts := mkExecution {
  ea_fee_payer : Pubkey; ea_accounts : list (AccountMeta Pubkey); ea_signatures : gmap Pubkey Signature
}.

(** [init], with the bank that its own [init] gives. *)
Definition init (bank : B + string) : SimpleBuilder + error :=
  match bank with
  | inl bank =>
      inl (mkSimple bank fee_payer_balance_default builder_default None fork_graph_default
             None None [] [] false None)
  | inr e => inr (BuilderError e)
  end.

(** ** Setters *)

Definition settings (x : Z) s : SimpleBuilder :=
  mkSimple (sb_bank s) x (sb_tx_builder s) (sb_tx_processor s) (sb_fork_graph s)
    (sb_program_path s) (sb_program_buffer s) (sb_calldata s) (sb_accounts s) (sb_v0_message s)
    (sb_check_result s).
Definition bank (x : B) s : SimpleBuilder :=
  mkSimple x (fee_payer_balance s) (sb_tx_builder s) (sb_tx_processor s) (sb_fork_graph s)
    (sb_program_path s) (sb_program_buffer s) (sb_calldata s) (sb_accounts s) (sb_v0_message s)
    (sb_check_result s).
Definition tx_processor (x : P) s : SimpleBuilder :=
  mkSimple (sb_bank s) (fee_payer_balance s) (sb_tx_builder s) (Some x) (sb_fork_graph s)
    (sb_program_path s) (sb_program_buffer s) (sb_calldata s) (sb_accounts s) (sb_v0_message s)
    (sb_check_result s).
Definition tx_builder (x : SanitizedTransactionBuilder Pubkey Signature (list Z)) s : SimpleBuilder :=
  mkSimple (sb_bank s) (fee_payer_balance s) x (sb_tx_processor s) (sb_fork_graph s)
    (sb_program_path s) (sb_program_buffer s) (sb_calldata s) (sb_accounts s) (sb_v0_message s)
    (sb_check_result s).
Definition fork_graph (x : FG) s : SimpleBuilder :=
  mkSimple (sb_bank s) (fee_payer_balance s) (sb_tx_builder s) (sb_tx_processor s) x
    (sb_program_path s) (sb_program_buffer s) (sb_calldata s) (sb_accounts s) (sb_v0_message s)
    (sb_check_result s).
Definition program_path (x : option string) s : SimpleBuilder :=
  mkSimple (sb_bank s) (fee_payer_balance s) (sb_tx_builder s) (sb_tx_processor s) (sb_fork_graph s)
    x (sb_program_buffer s) (sb_calldata s) (sb_accounts s) (sb_v0_message s) (sb_check_result s).
Definition program_buffer (x : option (list Z)) s : SimpleBuilder :=
  mkSimple (sb_bank s) (fee_payer_balance s) (sb_tx_builder s) (sb_tx_processor s) (sb_fork_graph s)
    (sb_program_path s) x (sb_calldata s) (sb_accounts s) (sb_v0_message s) (sb_check_result s).
Definition calldata (x : list Z) s : SimpleBuilder :=
  mkSimple (sb_bank s) (fee_payer_balance s) (sb_tx_builder s) (sb_tx_processor s) (sb_fork_graph s)
    (sb_program_path s) (sb_program_buffer s) x (sb_accounts s) (sb_v0_message s) (sb_check_result s).
Definition v0_message (x : bool) s : SimpleBuilder :=
  mkSimple (sb_bank s) (fee_payer_balance s) (sb_tx_builder s) (sb_tx_processor s) (sb_fork_graph s)
    (sb_program_path s) (sb_program_buffer s) (sb_calldata s) (sb_accounts s) x (sb_check_result s).
Definition set_accounts (x : list (AccountMeta Pubkey * option account)) s : SimpleBuilder :=
  mkSimple (sb_bank s) (fee_payer_balance s) (sb_tx_builder s) (sb_tx_processor s) (sb_fork_graph s)
    (sb_program_path s) (sb_program_buffer s) (sb_calldata s) x (sb_v0_message s) (sb_check_result s).
Definition check_result (x : CheckResult Pubkey TransactionError) s : SimpleBuilder :=
  mkSimple (sb_bank s) (fee_payer_balance s) (sb_tx_builder s) (sb_tx_processor s) (sb_fork_graph s)
    (sb_program_path s) (sb_program_buffer s) (sb_calldata s) (sb_accounts s) (sb_v0_message s) (Some x).

Definition add_account_meta (meta : AccountMeta Pubkey) (a : option account) s : SimpleBuilder :=
  set_accounts (sb_accounts s ++ [(meta, a)]) s.
Definition account_with_balance (pubkey : Pubkey) (lamports : option Z) (is_signer is_writable : bool)
    s : SimpleBuilder :=
  let a := (λ l, set_lamports l account_default) <$> lamports in
  add_account_meta (mkMeta pubkey is_signer is_writable) a s.

(** ** Execution *)

Abbreviation run A := (ste (SimpleBuilder * nat) error A).

(** [self.bank.op().map_err(|e| Error::BuilderError(e.to_string()))?] *)
Definition on_bank {A} (m : ste (B * nat) string A) : run A := λ '(s, n),
  '(b, n, r) ← m (sb_bank s, n);
  Ok (bank b s, n, match r with inl a => inl a | inr e => inr (BuilderError e) end).

Definition create_fee_payer : run Pubkey :=
  fee_payer ← fresh new_key;
  '(s, _) ← get;
  _ ← on_bank (insert_account fee_payer (set_lamports (fee_payer_balance s) account_default));
  mret fee_payer.

(** The loop over the accounts: the signatures made so far are the result. *)
Fixpoint prepare_loop (l : list (AccountMeta Pubkey * option account))
    (accounts : list (AccountMeta Pubkey)) (signatures : gmap Pubkey Signature) :
    run (list (AccountMeta Pubkey) * gmap Pubkey Signature) :=
  match l with
  | [] => mret (accounts, signatures)
  | (meta, a) :: l =>
      _ ← match a with
          | Some a => on_bank (insert_account (meta_pubkey meta) a)
          | None => mret ()
          end;
      if meta_is_signer meta then
        sig ← fresh new_sig;
        prepare_loop l (accounts ++ [meta]) (<[meta_pubkey meta := sig]> signatures)
      else prepare_loop l (accounts ++ [meta]) signatures
  end.
Definition prepare_accounts : run ExecutionAccounts :=
  '(s, _) ← get;
  '(accounts, signatures) ← prepare_loop (sb_accounts s) [] ∅;
  fee_payer ← create_fee_payer;
  mret (mkExecution fee_payer accounts signatures).

Definition get_checked_tx_details s : CheckResult Pubkey TransactionError :=
  default (inl (mkDetails None 20)) (sb_check_result s).

Definition read_program s : list Z + error :=
  match sb_program_buffer s, sb_program_path s with
  | Some _, Some _ => inr (BuilderError "Both program buffer and path are set")
  | Some buffer, None => inl buffer
  | None, Some path =>
      match read_file path with inl buffer => inl buffer | inr e => inr (StdIo e) end
  | None, None => inr (BuilderError "Program not found")
  end.

Definition get_processing_config : RecordingConfig := mkRecording true true false.

Definition BPF_LOADER_NAME : string := "solana_bpf_loader_upgradeable_program".
Definition SYSTEM_PROGRAM_NAME : string := "system_program".

(** [add_builtin] of the processor adds the account to the bank first. *)
Definition add_builtin (id : Pubkey) (name : string) (bp : B * P) : B * P :=
  (add_builtin_account name id bp.1, tp_add_builtin id name DEPLOYMENT_SLOT bp.2).
Definition register_builtins (bp : B * P) : B * P :=
  add_builtin system_program_id SYSTEM_PROGRAM_NAME
    (add_builtin loader_id BPF_LOADER_NAME bp).

(** On the bank and the fork graph of the builder. *)
Definition create_transaction_processor : run P :=
  '(s, _) ← get;
  let p := tp_new (execution_slot (sb_bank s)) 0 in
  let p := create_executable_environment (sb_fork_graph s) p in
  _ ← on_bank set_clock;
  '(s, n) ← get;
  let p := fill_missing_sysvar_cache_entries (sb_bank s) p in
  let '(b, p) := register_builtins (sb_bank s, p) in
  _ ← put (bank b s, n);
  mret p.

(** [self.tx_builder.create_instruction] and [self.tx_builder.build] *)
Definition on_tx_builder {A}
    (m : SanitizedTransactionBuilder Pubkey Signature (list Z) →
         res (SanitizedTransactionBuilder Pubkey Signature (list Z) * (A + TransactionError))) :
    run A := λ '(s, n),
  '(b, r) ← m (sb_tx_builder s);
  Ok (tx_builder b s, n, match r with inl a => inl a | inr e => inr (SolanaTransactionError e) end).

Definition ensure_processor : run P :=
  '(s, n) ← get;
  match sb_tx_processor s with
  | Some p => mret p
  | None =>
      p ← create_transaction_processor;
      _ ← modify (λ '(s, n), (tx_processor p s, n));
      mret p
  end.

Definition build_ex : run (list (ExecutionResult TransactionError Details) * versioned) :=
  _ ← on_bank bump;
  '(s, _) ← get;
  buffer ← of_sum (read_program s);
  program_id ← on_bank (deploy_program buffer);
  accounts ← prepare_accounts;
  _ ← on_tx_builder (λ b,
        b ← create_instruction b program_id (ea_accounts accounts) (ea_signatures accounts)
              (sb_calldata s);
        Ok (b, inl ()));
  sig ← fresh new_sig;
  '(s, _) ← get;
  '(sanitized_transaction, versioned_transaction) ← on_tx_builder (λ b,
        build sanitizable try_new b (last_blockhash (sb_bank s)) (ea_fee_payer accounts, sig)
          (sb_v0_message s));
  p ← ensure_processor;
  '(s, n) ← get;
  let '(p, results) :=
    load_and_execute_sanitized_transactions (sb_bank s) [sanitized_transaction]
      [get_checked_tx_details s] get_processing_config p in
  _ ← put (tx_processor p s, n);
  mret (results, versioned_transaction).

Definition build_results : run (list (ExecutionResult TransactionError Details)) :=
  '(result, _) ← build_ex; mret result.
End SimpleBuilder.
