(* ===== verification/SvmCli.v ===== *)
(** * The command line of the SVM executor

    [svm/cli/src/cli.rs] and [svm/cli/src/main.rs]: the accounts given as
    comma-separated fields, the call data in hexadecimal, and one execution with
    the simple builder.  [str::split] and the parsers of numbers and booleans
    are those of the language; the parser of keys and the decoder of
    hexadecimal are parameters. *)
From Stdlib Require Import Ascii.
From stdpp Require Import pretty.
From S2P Require Import Prelude StateError TxBuilder SvmBank SvmBuilder.
Set Default Proof Using "Type*".

Inductive CliError (SvmErr : Type) :=
| AccountIsEmpty
| ParsePubkeyError (msg : string)
| ParseIntError
| ParseBoolError
| FromHexError (msg : string)
| ExecutorErr (e : SvmErr).
Arguments AccountIsEmpty {_}.
Arguments ParsePubkeyError {_}.
Arguments ParseIntError {_}.
Arguments ParseBoolError {_}.
Arguments FromHexError {_}.
Arguments ExecutorErr {_}.

(** ** Strings *)

(** [s.split(',')]: never empty *)
Fixpoint split_commas (s : string) : list string :=
  match s with
  | "" => [""]
  | String "," s => "" :: split_commas s
  | String c s =>
      match split_commas s with
      | part :: parts => String c part :: parts
      | [] => [String c ""]
      end
  end.

(** [u64::from_str] *)
Definition digit (c : ascii) : option Z :=
  let n := Z.of_nat (nat_of_ascii c) in
  if (48 <=? n)%Z && (n <=? 57)%Z then Some (n - 48)%Z else None.
Fixpoint parse_digits (value : Z) (s : string) : option Z :=
  match s with
  | "" => Some value
  | String c s =>
      match digit c with
      | Some d => if (value * 10 + d <=? u64_max)%Z then parse_digits (value * 10 + d) s else None
      | None => None
      end
  end.
Definition parse_u64 (s : string) : option Z :=
  match s with
  | "" => None
  | String "+" "" => None
  | String "+" s => parse_digits 0 s
  | s => parse_digits 0 s
  end.
(** [bool::from_str] *)
Definition parse_bool (s : string) : option bool :=
  if bool_decide (s = "true") then Some true
  else if bool_decide (s = "false") then Some false else None.

(** ** Accounts *)

Section Accounts.
Context {Pubkey SvmErr : Type} (pubkey_from_str : string → Pubkey + string).
Abbreviation account_arg := (Pubkey * option Z * bool * bool)%type.

(** [if parts.len() > i && !parts[i].is_empty() { parts[i].parse()? }] *)
Definition field {A} (parts : list string) (i : nat) (parse : string → option A) (e : CliError SvmErr)
    (default : A) : A + CliError SvmErr :=
  match parts !! i with
  | None => inl default
  | Some part =>
      if bool_decide (part = "") then inl default
      else match parse part with Some a => inl a | None => inr e end
  end.
Definition parse_account (account : string) : account_arg + CliError SvmErr :=
  match split_commas account with
  | [] => inr AccountIsEmpty
  | part :: parts =>
      match pubkey_from_str part with
      | inr e => inr (ParsePubkeyError e)
      | inl pubkey =>
          match field parts 0 (λ s, Some <$> parse_u64 s) ParseIntError None with
          | inr e => inr e
          | inl lamports =>
              match field parts 1 parse_bool ParseBoolError false with
              | inr e => inr e
              | inl is_signer =>
                  match field parts 2 parse_bool ParseBoolError false with
                  | inr e => inr e
                  | inl is_writable => inl (pubkey, lamports, is_signer, is_writable)
                  end
              end
          end
      end
  end.
Fixpoint parse_accounts (accounts : list string) : list account_arg + CliError SvmErr :=
  match accounts with
  | [] => inl []
  | account :: accounts =>
      match parse_account account with
      | inr e => inr e
      | inl a => match parse_accounts accounts with inl l => inl (a :: l) | inr e => inr e end
      end
  end.
End Accounts.

(** ** Running *)

(** [s.strip_prefix("0x")] *)
Definition strip_0x (s : string) : string :=
  match s with String "0" (String "x" rest) => rest | _ => s end.

Record Cli := mkCli {
  cli_program_path : option string; cli_program_buffer : option (list Z); cli_calldata : string;
  cli_enable_v0_message : bool; cli_accounts : list string; cli_print_balances : bool;
  cli_memory_mode : bool
}.

Section Run.
Context {Pubkey Signature Hash STx TransactionError Details IoError FG P B : Type}.
Context `{Countable Pubkey}.
Context `{!Loader Pubkey, !Outside Pubkey Signature, !BankOperations B Pubkey Hash}.
Context `{!BatchProcessor P FG B Pubkey STx TransactionError Details}.
Abbreviation versioned :=
  (VersionedTransaction Pubkey Signature Hash (list Z)).
Context (sanitizable : versioned → bool) (try_new : versioned → STx + TransactionError).
Context (read_file : string → list Z + IoError).
Context (fork_graph_default : FG).
Context (pubkey_from_str : string → Pubkey + string) (hex_decode : string → list Z + string).
Abbreviation svm_error := (SvmError IoError TransactionError).
Abbreviation error := (CliError svm_error).
Abbreviation simple := (SimpleBuilder (Pubkey := Pubkey) (Signature := Signature)
                          (TransactionError := TransactionError) (FG := FG) (P := P) (B := B)).

Definition decode_hex_with_prefix (s : string) : list Z + error :=
  match hex_decode (strip_0x s) with inl b => inl b | inr e => inr (FromHexError e) end.

(** The builder as the arguments set it; malformed accounts panic. *)
Definition configure (cli : Cli) (builder : simple) : res (simple + error) :=
  accounts ← match parse_accounts (SvmErr := svm_error) pubkey_from_str (cli_accounts cli) with
             | inl l => Ok l
             | inr _ => Panic "called `Result::unwrap()` on an `Err` value"
             end;
  let builder := foldl (λ b '(pubkey, lamports, is_signer, is_writable),
                   account_with_balance pubkey lamports is_signer is_writable b) builder accounts in
  match (if bool_decide (cli_calldata cli = "") then inl builder
         else match decode_hex_with_prefix (cli_calldata cli) with
              | inl data => inl (calldata data builder)
              | inr e => inr e
              end) with
  | inr e => Ok (inr e)
  | inl builder =>
      Ok (inl (v0_message (cli_enable_v0_message cli)
                 (program_buffer (cli_program_buffer cli) (program_path (cli_program_path cli) builder))))
  end.
(** [run], with the bank that its [init] gives and the number of keys drawn so
    far; the results are logged. *)
Definition run_cli (bank : B + string) (n : nat) (cli : Cli) :
    res (list (ExecutionResult TransactionError Details) + error) :=
  match init fork_graph_default bank with
  | inr e => Ok (inr (ExecutorErr e))
  | inl builder =>
      configured ← configure cli builder;
      match configured with
      | inr e => Ok (inr e)
      | inl builder =>
          '(_, r) ← build_results sanitizable try_new read_file (builder, n);
          Ok (match r with inl results => inl results | inr e => inr (ExecutorErr e) end)
      end
  end.

(** A malformed account makes the program panic rather than return its error. *)
Lemma malformed_account_panics (bank : B) n cli e :
  parse_accounts (SvmErr := svm_error) pubkey_from_str (cli_accounts cli) = inr e →
  ∃ msg, run_cli (inl bank) n cli = Panic msg.
Proof. intros He. unfold run_cli, configure. cbn. rewrite He. by eexists. Qed.
End Run.

(** ** Printing and parsing *)

(** No comma in a string *)
Fixpoint no_comma (s : string) : bool :=
  match s with "" => true | String c s => negb (Ascii.eqb c ",") && no_comma s end.

Lemma split_commas_cons c s : c ≠ ","%char →
  split_commas (String c s) =
    match split_commas s with part :: parts => String c part :: parts | [] => [String c ""] end.
Proof.
  intros H. cbn.
  repeat match goal with b : bool |- _ => destruct b | c : ascii |- _ => destruct c end; first [done|by destruct H].
Qed.
Lemma split_commas_none s : no_comma s = true → split_commas s = [s].
Proof.
  induction s as [|c s IH]; [done|]. cbn [no_comma].
  intros [Hc%negb_true_iff%Ascii.eqb_neq Hs]%andb_true_iff. by rewrite split_commas_cons, IH.
Qed.
Lemma split_commas_app s t : no_comma s = true →
  split_commas (s +:+ "," +:+ t) = s :: split_commas t.
Proof.
  change ("," +:+ t) with (String "," t).
  induction s as [|c s IH]; [done|]. cbn [no_comma].
  intros [Hc%negb_true_iff%Ascii.eqb_neq Hs]%andb_true_iff.
  change (String c s +:+ String "," t) with (String c (s +:+ String "," t)).
  by rewrite split_commas_cons, IH.
Qed.

Lemma digit_char n : (n < 10)%N → digit (pretty_N_char n) = Some (Z.of_N n).
Proof.
  intros H. assert (n = 0 ∨ n = 1 ∨ n = 2 ∨ n = 3 ∨ n = 4 ∨ n = 5 ∨ n = 6 ∨ n = 7 ∨ n = 8 ∨ n = 9)%N as Hn by lia.
  naive_solver.
Qed.
Lemma pretty_char_no_comma n s : no_comma (String (pretty_N_char n) s) = no_comma s.
Proof. unfold pretty_N_char. by repeat case_match. Qed.
(** Digits that were printed are read back. *)
Lemma parse_digits_pretty_go x s : (Z.of_N x ≤ u64_max)%Z →
  parse_digits 0 (pretty_N_go x s) = parse_digits (Z.of_N x) s.
Proof.
  revert s. induction (N.lt_wf_0 x) as [x _ IH]; intros s Hx.
  destruct (decide (x = 0)%N) as [->|Hne]; [by rewrite pretty_N_go_0|].
  rewrite pretty_N_go_step by lia.
  assert (x = 10 * (x / 10) + x mod 10)%N as Hdiv by (apply N.div_mod; lia).
  assert (x mod 10 < 10)%N as Hmod by (apply N.mod_lt; lia).
  assert (Z.of_N (x / 10) ≤ u64_max)%Z as Hq.
  { etrans; [|exact Hx]. apply N2Z.inj_le, N.lt_le_incl, N.div_lt; lia. }
  rewrite IH; [|apply N.div_lt; lia|done]. cbn [parse_digits]. rewrite digit_char by done.
  replace (Z.of_N (x / 10) * 10 + Z.of_N (x mod 10))%Z with (Z.of_N x)
    by (rewrite Hdiv at 1; rewrite N2Z.inj_add, N2Z.inj_mul; lia).
  by rewrite (proj2 (Z.leb_le _ _)).
Qed.
Lemma pretty_N_go_no_comma x s : no_comma (pretty_N_go x s) = no_comma s.
Proof.
  revert s. induction (N.lt_wf_0 x) as [x _ IH]; intros s.
  destruct (decide (x = 0)%N) as [->|Hne]; [by rewrite pretty_N_go_0|].
  rewrite pretty_N_go_step by lia. rewrite IH by (apply N.div_lt; lia). apply pretty_char_no_comma.
Qed.
Lemma pretty_N_no_comma (x : N) : no_comma (pretty x) = true.
Proof. unfold pretty, pretty_N. case_decide; [done|]. by rewrite pretty_N_go_no_comma. Qed.

(** A number starts with a digit, so no sign is read. *)
Definition starts_with_digit (s : string) : bool :=
  match s with String c _ => bool_decide (is_Some (digit c)) | "" => false end.
Lemma parse_u64_digits s : starts_with_digit s = true → parse_u64 s = parse_digits 0 s.
Proof.
  destruct s as [|c s]; [done|]. cbn [starts_with_digit]. intros H. unfold parse_u64.
  repeat match goal with b : bool |- _ => destruct b | c : ascii |- _ => destruct c end; done.
Qed.
Lemma pretty_N_go_starts x s : (0 < x)%N ∨ starts_with_digit s = true →
  starts_with_digit (pretty_N_go x s) = true.
Proof.
  revert s. induction (N.lt_wf_0 x) as [x _ IH]; intros s Hx.
  destruct (decide (x = 0)%N) as [->|Hne]; [rewrite pretty_N_go_0; destruct Hx; [lia|done]|].
  rewrite pretty_N_go_step by lia. apply IH; [apply N.div_lt; lia|]. right.
  cbn. by rewrite digit_char by (apply N.mod_lt; lia).
Qed.
Lemma parse_u64_pretty (x : N) : (Z.of_N x ≤ u64_max)%Z → parse_u64 (pretty x) = Some (Z.of_N x).
Proof.
  intros Hx. unfold pretty, pretty_N. case_decide as H0; [by subst|].
  rewrite parse_u64_digits by (apply pretty_N_go_starts; left; lia). by rewrite parse_digits_pretty_go.
Qed.

Section RoundTrip.
Context {Pubkey SvmErr : Type} (pubkey_from_str : string → Pubkey + string) (pubkey_text : Pubkey → string).

Definition show_bool (b : bool) : string := if b then "true" else "false".
(** An account as the command line takes it *)
Definition show_account (a : Pubkey * option N * bool * bool) : string :=
  let '(pubkey, lamports, is_signer, is_writable) := a in
  pubkey_text pubkey +:+ "," +:+ from_option pretty "" lamports +:+ "," +:+
  show_bool is_signer +:+ "," +:+ show_bool is_writable.
Definition account_value (a : Pubkey * option N * bool * bool) : Pubkey * option Z * bool * bool :=
  let '(pubkey, lamports, is_signer, is_writable) := a in
  (pubkey, Z.of_N <$> lamports, is_signer, is_writable).
(** Keys are printed without a comma and read back, lamports fit in 64 bits. *)
Definition printable (a : Pubkey * option N * bool * bool) : Prop :=
  no_comma (pubkey_text a.1.1.1) = true ∧ pubkey_from_str (pubkey_text a.1.1.1) = inl a.1.1.1 ∧
  from_option (λ x, Z.of_N x ≤ u64_max)%Z True a.1.1.2.

Lemma pretty_N_nonempty (x : N) : pretty x ≠ "".
Proof.
  intros H. assert (starts_with_digit (pretty x) = true) as Hs; [|by rewrite H in Hs].
  unfold pretty, pretty_N. case_decide; [done|]. apply pretty_N_go_starts. left. lia.
Qed.
Lemma parse_show_account a : printable a →
  parse_account (SvmErr := SvmErr) pubkey_from_str (show_account a) = inl (account_value a).
Proof.
  destruct a as [[[k lamports] s] w]. intros (Hc & Hk & Hl). cbn in Hc, Hk, Hl.
  unfold parse_account, show_account.
  rewrite split_commas_app by done. rewrite Hk.
  rewrite split_commas_app by (destruct lamports; [apply pretty_N_no_comma|done]).
  rewrite split_commas_app by (by destruct s). rewrite split_commas_none by (by destruct w).
  unfold field. cbn [lookup list_lookup].
  assert ((if bool_decide (from_option pretty "" lamports = "") then inl None else
    match Some <$> parse_u64 (from_option pretty "" lamports) with
    | Some a => inl a | None => inr (@ParseIntError SvmErr) end) = inl (Z.of_N <$> lamports)) as ->.
  { destruct lamports as [x|]; [|done]. cbn. rewrite bool_decide_false by apply pretty_N_nonempty.
    by rewrite parse_u64_pretty. }
  by destruct s, w.
Qed.
End RoundTrip.

(** ** Theorems *)

(** C40: Accounts printed field by field are read back from the command line, with
    any number of lamports that fits in 64 bits or none. *)
Theorem cli_accounts_roundtrip {Pubkey SvmErr} (pubkey_from_str : string → Pubkey + string)
    (pubkey_text : Pubkey → string) (l : list (Pubkey * option N * bool * bool)) :
  Forall (printable pubkey_from_str pubkey_text) l →
  parse_accounts (SvmErr := SvmErr) pubkey_from_str (show_account pubkey_text <$> l) = inl (account_value <$> l).
Proof.
  induction 1 as [|a l Ha Hl IH]; [done|]. cbn [fmap list_fmap parse_accounts].
  rewrite parse_show_account by done. by rewrite IH.
Qed.

Module SvmCliWitnesses.
(** Keys are numbers printed in decimal. *)
Definition number (s : string) : Z + string := match parse_u64 s with Some x => inl x | None => inr "bad key" end.
Lemma cli_accounts_roundtrip_witness :
  parse_accounts (SvmErr := unit) number ["7,1000,true,false"; "8,,false,true"] =
  inl [(7%Z, Some 1000%Z, true, false); (8%Z, None, false, true)].
Proof.
  assert (show_account (pretty ∘ Z.to_N) <$> [(7%Z, Some 1000%N, true, false); (8%Z, None, false, true)] =
    ["7,1000,true,false"; "8,,false,true"]) as <- by (vm_compute; reflexivity).
  apply (cli_accounts_roundtrip (SvmErr := unit) number (pretty ∘ Z.to_N)).
  repeat constructor; vm_compute; discriminate.
Defined.
End SvmCliWitnesses.
