(* ===== verification/SvmFacts.v ===== *)
(** * The SVM executor: lemmas

    What a bank promises to the builder, that both banks keep the promise, and
    what one execution does on any such bank; then how a bank of the runtime is
    opened. *)
From stdpp Require Import pretty.
From S2P Require Import Prelude StateError StorageConfig TxBuilder TxFacts SvmBank SvmBuilder.
Set Default Proof Using "Type*".

(** ** The promise of a bank *)
Section Promise.
Context {B Pubkey Signature Hash : Type}.
Context `{!Loader Pubkey, !Outside Pubkey Signature, !BankOperations B Pubkey Hash}.

(** A program account at [pk] that names [dk], whose data is the program
    behind the metadata. *)
Definition deployed (b : B) (pk dk : Pubkey) (buffer : list Z) : Prop :=
  ∃ a d slot, get_account_shared_data b pk = Some a ∧ acc_data a = serialize (Program dk) ∧
    owner a = loader_id ∧ get_account_shared_data b dk = Some d ∧
    serialize (ProgramData slot None) `prefix_of` acc_data d ∧
    drop size_of_programdata_metadata (acc_data d) = buffer.

Class BankPromise : Prop := {
  promise_insert k a b n :
    wp (insert_account k a (b, n)) (λ '(b', n', r), r = inl () ∧ n' = n ∧
      last_blockhash b' = last_blockhash b ∧
      ((0 < lamports a)%Z → get_account_shared_data b' k = Some a) ∧
      ∀ k', k' ≠ k → get_account_shared_data b' k' = get_account_shared_data b k');
  promise_deploy buffer b n :
    wp (deploy_program buffer (b, n)) (λ '(b', n', r), r = inl (new_key n) ∧ n' = S (S n) ∧
      last_blockhash b' = last_blockhash b ∧
      deployed b' (new_key n) (new_key (S n)) buffer ∧
      ∀ k', k' ≠ new_key n → k' ≠ new_key (S n) →
        get_account_shared_data b' k' = get_account_shared_data b k');
  promise_bump b n : bump (b, n) = Ok (b, n, inl ())
}.
End Promise.
Arguments BankPromise B Pubkey Signature Hash {_ _ _}.

Lemma keys_differ {Pubkey Signature} `{!Outside Pubkey Signature, !OutsideLaws Pubkey Signature} n :
  new_key n ≠ new_key (S n).
Proof. intros He%new_key_inj. lia. Qed.

(** ** The mock bank *)
Section Mock.
Context {Pubkey Signature Hash FeatureSet : Type} `{Countable Pubkey}.
Context `{!Loader Pubkey, !LoaderLaws Pubkey, !Outside Pubkey Signature}.
Context `{!OutsideLaws Pubkey Signature}.
Context (hash_default : Hash) (loadable_account : string → Z → Z → AccountSharedData Pubkey).

Lemma mock_promise :
  @BankPromise (MockBank.MockBankCallback Pubkey FeatureSet) Pubkey Signature Hash _ _
    (MockBank.mock_operations hash_default loadable_account).
Proof.
  split.
  - intros k a b n. split_and!; [done|done|done| |]; simpl.
    + intros _. by rewrite lookup_insert_eq.
    + intros k' Hk. by rewrite lookup_insert_ne.
  - intros buffer b n. pose proof (keys_differ n) as Hne. split_and!; [done|done|done| |].
    + eexists _, _, DEPLOYMENT_SLOT. simpl. rewrite lookup_insert_ne, !lookup_insert_eq by done.
      split_and!; [done|done|done|done| |]; simpl.
      * by apply prefix_app_r.
      * rewrite app_assoc, drop_app_length'; [done|].
        rewrite length_app, length_replicate. pose proof (metadata_fits DEPLOYMENT_SLOT). lia.
    + intros k' H1 H2. simpl. by rewrite !lookup_insert_ne by done.
  - done.
Qed.
End Mock.

(** ** The wrapper *)
Section Wrapper.
Context {Pubkey Signature Hash BK : Type}.
Context `{!Loader Pubkey, !LoaderLaws Pubkey, !Outside Pubkey Signature}.
Context `{!OutsideLaws Pubkey Signature}.
Context `{!RuntimeBank BK Pubkey Hash, !RuntimeBankLaws BK Pubkey Hash}.

(** The data of the program account, as [deploy_program] fills it in. *)
Lemma programdata_layout slot (buffer : list Z) :
  let data := take size_of_programdata_metadata
    (serialize (ProgramData (Pubkey:=Pubkey) slot None)
     ++ drop (length (serialize (ProgramData (Pubkey:=Pubkey) slot None)))
          (replicate (size_of_programdata_metadata + length buffer) 0%Z)) ++ buffer in
  serialize (ProgramData slot None) `prefix_of` data ∧
  drop size_of_programdata_metadata data = buffer.
Proof using LoaderLaws0.
  intros data. pose proof (metadata_fits (Pubkey:=Pubkey) slot) as Hfit. unfold data. split.
  - rewrite take_app_ge by done. rewrite <-app_assoc. by apply prefix_app_r.
  - apply drop_app_length'. rewrite length_take, length_app, length_drop, length_replicate. lia.
Qed.

Lemma wrapper_promise :
  @BankPromise (Wrapper.BankWrapper Pubkey BK) Pubkey Signature Hash _ _ Wrapper.wrapper_operations.
Proof using Type LoaderLaws0 OutsideLaws0 RuntimeBankLaws0.
  split.
  - intros k a b n. split_and!; [done|done|apply rb_blockhash_store| |]; simpl.
    + intros Ha. by apply rb_get_store.
    + intros k' Hk. by apply rb_get_store_ne.
  - intros buffer b n. pose proof (keys_differ n) as Hne.
    pose proof (metadata_fits (Pubkey:=Pubkey) (Wrapper.previous_slot (Wrapper.cfg b))) as Hfit.
    destruct (programdata_layout (Wrapper.previous_slot (Wrapper.cfg b)) buffer) as [Hpre Hdrop].
    cbn. unfold Wrapper.wrapper_deploy, mbind, ste_bind, fresh, get, lift, Wrapper.set_state.
    cbn [acc_data]. rewrite decide_True by (rewrite length_replicate; lia). cbn.
    unfold Wrapper.copy_from_slice. cbn [acc_data set_data].
    rewrite length_app, length_drop, length_replicate, !bool_decide_true by lia. cbn.
    unfold mret, ste_ret. apply wp_ok. cbn.
    split_and!; [done|done|by rewrite !rb_blockhash_store| |].
    + eexists _, _, _. cbn. rewrite rb_get_store_ne by done. rewrite !rb_get_store by done.
      by split_and!.
    + intros k' H1 H2. by rewrite !rb_get_store_ne by done.
  - done.
Qed.
End Wrapper.

(** ** Preparing the accounts *)
Section Executing.
Context {Pubkey Signature Hash STx TransactionError Details IoError FG P B : Type}.
Context `{Countable Pubkey}.
Context `{!Loader Pubkey, !Outside Pubkey Signature, !BankOperations B Pubkey Hash}.
Context `{!BatchProcessor P FG B Pubkey STx TransactionError Details}.
Context `{!BankPromise B Pubkey Signature Hash}.
Abbreviation versioned := (VersionedTransaction Pubkey Signature Hash (list Z)).
Abbreviation simple_builder := (SimpleBuilder (Pubkey:=Pubkey) (Signature:=Signature)
  (TransactionError:=TransactionError) (FG:=FG) (P:=P) (B:=B)).
Abbreviation account := (AccountSharedData Pubkey).
Implicit Types (s : simple_builder) (l : list (AccountMeta Pubkey * option account)).

(** The account given last for a key. *)
Definition last_account l (k : Pubkey) : option account :=
  last (omap (λ x, if decide (meta_pubkey x.1 = k) then x.2 else None) l).
(** [b'] is [b] with the accounts of [l] stored. *)
Definition stored l (b b' : B) : Prop := ∀ k,
  match last_account l k with
  | Some a => (0 < lamports a)%Z → get_account_shared_data b' k = Some a
  | None => get_account_shared_data b' k = get_account_shared_data b k
  end.

Lemma last_account_cons m o l k :
  last_account ((m, o) :: l) k =
  match last_account l k with
  | Some a => Some a
  | None => if decide (meta_pubkey m = k) then o else None
  end.
Proof using Type.
  unfold last_account. cbn [omap list_omap fst snd].
  destruct (decide (meta_pubkey m = k)); [|by destruct (last _)].
  destruct o; [|by destruct (last _)]. rewrite last_cons. by destruct (last _).
Qed.

Lemma on_bank_wp {A} (m : ste (B * nat) string A) s n
    (Φ : simple_builder * nat * (A + SvmError IoError TransactionError) → Prop) :
  wp (m (sb_bank s, n)) (λ '(b, n, r),
    Φ (bank b s, n, match r with inl a => inl a | inr e => inr (BuilderError e) end)) →
  wp (on_bank m (s, n)) Φ.
Proof using Type.
  unfold on_bank. intros Hm. apply wp_bind. eapply wp_mono; [exact Hm|]. by intros [[b n'] r].
Qed.

(** Storing the account of one element. *)
Lemma prepare_one (m : AccountMeta Pubkey) (o : option account) s n :
  wp (match o with
      | Some a => on_bank (IoError:=IoError) (insert_account (meta_pubkey m) a)
      | None => mret ()
      end (s, n))
    (λ '(s', n', r), r = inl () ∧ n' = n ∧ s' = bank (sb_bank s') s ∧
      last_blockhash (sb_bank s') = last_blockhash (sb_bank s) ∧
      stored [(m, o)] (sb_bank s) (sb_bank s')).
Proof.
  destruct o as [a|]; cbn.
  - apply on_bank_wp. eapply wp_mono; [apply promise_insert|].
    intros [[b' n'] r] (-> & -> & Hh & Hg & Hne). split_and!; [done|done|done|done|].
    intros k. rewrite last_account_cons. cbn. case_decide; subst; [done|]. by apply Hne.
  - split_and!; [done|done|by destruct s|done|]. intros k. rewrite last_account_cons. cbn.
    by case_decide.
Qed.

Lemma stored_cons x l b1 b2 b3 : stored [x] b1 b2 → stored l b2 b3 → stored (x :: l) b1 b3.
Proof using Type.
  destruct x as [m o]. intros H1 H2 k. specialize (H1 k). specialize (H2 k).
  rewrite last_account_cons in H1 |- *. cbn in H1. destruct (last_account l k); [done|].
  case_decide; [|by rewrite H2]. destruct o; [|by rewrite H2]. intros Ha. rewrite H2. by apply H1.
Qed.

Lemma prepare_loop_ok l acc sigs s n :
  wp (prepare_loop (IoError:=IoError) l acc sigs (s, n)) (λ '(s', n', r), ∃ sigs',
    r = inl (acc ++ l.*1, sigs') ∧ s' = bank (sb_bank s') s ∧ n ≤ n' ∧
    last_blockhash (sb_bank s') = last_blockhash (sb_bank s) ∧
    stored l (sb_bank s) (sb_bank s') ∧
    (∀ k, is_Some (sigs !! k) → is_Some (sigs' !! k)) ∧
    Forall (λ m, meta_is_signer m = true → is_Some (sigs' !! meta_pubkey m)) l.*1).
Proof.
  revert acc sigs s n. induction l as [|[m o] l IH]; intros acc sigs s n; cbn [prepare_loop fmap list_fmap].
  - exists sigs. rewrite app_nil_r. split_and!; [done|by destruct s|done|done|done|done|done].
  - apply ste_bind_wp.
    eapply wp_mono; [apply prepare_one|].
    intros [[s1 n1] r] (-> & -> & Hs1 & Hh & Hst).
    set (sigs1 := λ n, if meta_is_signer m then <[meta_pubkey m := new_sig n]> sigs else sigs).
    assert (∃ n2, n ≤ n2 ∧ wp (prepare_loop l (acc ++ [m]) (sigs1 n) (s1, n2)) =
      wp ((if meta_is_signer m then
             sig ← fresh new_sig;
             prepare_loop l (acc ++ [m]) (<[meta_pubkey m := sig]> sigs)
           else prepare_loop (IoError:=IoError) l (acc ++ [m]) sigs) (s1, n))) as (n2 & Hn2 & <-).
    { unfold sigs1. destruct (meta_is_signer m); [by exists (S n); split; [lia|]|by exists n]. }
    eapply wp_mono; [apply IH|].
    intros [[s2 n3] r] (sigs' & -> & Hs2 & Hn3 & Hh2 & Hst2 & Hk & Hl). exists sigs'.
    split_and!; [by rewrite <-app_assoc| |lia|congruence| | |].
    + rewrite Hs2, Hs1. by destruct s.
    + by eapply stored_cons.
    + intros k Hk0. apply Hk. unfold sigs1. destruct (meta_is_signer m); [|done].
      destruct (decide (meta_pubkey m = k)) as [->|]; [rewrite lookup_insert_eq; by eexists|].
      by rewrite lookup_insert_ne.
    + constructor; [|done]. intros Hsig. simpl in Hsig |- *. apply Hk. unfold sigs1. rewrite Hsig, lookup_insert_eq.
      by eexists.
Qed.

(** ** One execution *)
Context (sanitizable : versioned → bool) (try_new : versioned → STx + TransactionError).
Context (read_file : string → list Z + IoError).

(** The bank in which the transaction runs, after the program [new_key n] was
    deployed, the accounts of the builder stored and the fee payer created. *)
Definition bank_prepared s (n : nat) (buffer : list Z) (payer : Pubkey) (b' : B) : Prop :=
  (∃ m, S n < m ∧ payer = new_key m) ∧
  ((0 < fee_payer_balance s)%Z →
   get_account_shared_data b' payer = Some (set_lamports (fee_payer_balance s) account_default)) ∧
  (∀ k a, k ≠ payer → last_account (sb_accounts s) k = Some a → (0 < lamports a)%Z →
   get_account_shared_data b' k = Some a) ∧
  (∀ k, (∀ m, k ≠ new_key m) → last_account (sb_accounts s) k = None →
   get_account_shared_data b' k = get_account_shared_data (sb_bank s) k) ∧
  ((∀ m, last_account (sb_accounts s) (new_key m) = None) → new_key n ≠ payer →
   new_key (S n) ≠ payer → deployed b' (new_key n) (new_key (S n)) buffer).

Lemma prepare_accounts_ok s n :
  wp (prepare_accounts (IoError:=IoError) (s, n)) (λ '(s', n', r), ∃ m sigs,
    r = inl (mkExecution (new_key m) (sb_accounts s).*1 sigs) ∧ n ≤ m ∧
    s' = bank (sb_bank s') s ∧ last_blockhash (sb_bank s') = last_blockhash (sb_bank s) ∧
    Forall (λ m, meta_is_signer m = true → is_Some (sigs !! meta_pubkey m)) (sb_accounts s).*1 ∧
    ∃ b1, stored (sb_accounts s) (sb_bank s) b1 ∧
      ((0 < fee_payer_balance s)%Z → get_account_shared_data (sb_bank s') (new_key m)
        = Some (set_lamports (fee_payer_balance s) account_default)) ∧
      ∀ k, k ≠ new_key m →
        get_account_shared_data (sb_bank s') k = get_account_shared_data b1 k).
Proof.
  unfold prepare_accounts. apply ste_bind_wp. unfold get at 1. apply wp_ok. cbn.
  apply ste_bind_wp. eapply wp_mono; [apply prepare_loop_ok|].
  intros [[s1 n1] r] (sigs & -> & Hs1 & Hn & Hh & Hst & _ & Hsig). cbn.
  apply ste_bind_wp. unfold create_fee_payer. apply ste_bind_wp. unfold fresh. apply wp_ok. cbn.
  apply ste_bind_wp. unfold get. apply wp_ok. cbn. apply ste_bind_wp. apply on_bank_wp.
  eapply wp_mono; [apply promise_insert|].
  intros [[b' n'] r] (-> & -> & Hh' & Hg & Hne). cbn. exists n1, sigs.
  split_and!; [done|done|by rewrite Hs1; destruct s|by etransitivity; [exact Hh'|]|done|].
  exists (sb_bank s1). split_and!; [done| |done]. rewrite Hs1 in Hg. by destruct s.
Qed.

Lemma prepared s n buffer m (b0 b1 b' : B) :
  last_blockhash b0 = last_blockhash (sb_bank s) →
  deployed b0 (new_key n) (new_key (S n)) buffer →
  (∀ k, k ≠ new_key n → k ≠ new_key (S n) →
     get_account_shared_data b0 k = get_account_shared_data (sb_bank s) k) →
  stored (sb_accounts s) b0 b1 → S (S n) ≤ m →
  ((0 < fee_payer_balance s)%Z → get_account_shared_data b' (new_key m)
     = Some (set_lamports (fee_payer_balance s) account_default)) →
  (∀ k, k ≠ new_key m → get_account_shared_data b' k = get_account_shared_data b1 k) →
  bank_prepared s n buffer (new_key m) b'.
Proof using Type.
  intros _ Hdep Hb0 Hst Hm Hpay Hb'. split_and!; [by exists m|done| | |].
  - intros k a Hk Ha Hpos. rewrite Hb' by done. specialize (Hst k). rewrite Ha in Hst. by apply Hst.
  - intros k Hk Ha. rewrite Hb' by done. specialize (Hst k). rewrite Ha in Hst. rewrite Hst.
    by apply Hb0.
  - intros Hnone H1 H2. destruct Hdep as (a & d & slot & Ha & ? & ? & Hd & ? & ?).
    exists a, d, slot. rewrite !Hb' by done.
    pose proof (Hst (new_key n)) as Hst1. rewrite Hnone in Hst1.
    pose proof (Hst (new_key (S n))) as Hst2. rewrite Hnone in Hst2.
    rewrite Hst1, Hst2. by split_and!.
Qed.

#[local] Arguments create_instruction : simpl never.
#[local] Arguments build : simpl never.

(** Building and executing on a new builder that has a processor: the program
    is deployed, the accounts stored, one transaction with the rights asked for
    is built, and the processor runs it on the prepared bank. *)
Lemma build_ex_ok s n buffer p :
  (∀ tx, sane tx → sanitizable tx = true) →
  sb_tx_builder s = builder_default → read_program read_file s = inl buffer →
  length (sb_accounts s) ≤ 254 → sb_tx_processor s = Some p →
  wp (build_ex sanitizable try_new read_file (s, n)) (λ '(s', n', r), ∃ payer tx,
    bank_prepared s n buffer payer (sb_bank s') ∧
    rights_granted tx (new_key n) (sb_accounts s).*1 (sb_calldata s) payer ∧
    match try_new tx with
    | inl st =>
        let '(p', results) := load_and_execute_sanitized_transactions (sb_bank s') [st]
          [get_checked_tx_details s] get_processing_config p in
        r = inl (results, tx) ∧ sb_tx_processor s' = Some p'
    | inr e => r = inr (SolanaTransactionError e) ∧ sb_tx_processor s' = Some p
    end).
Proof.
  intros Hsane Htx Hrd Hlen Hp. unfold build_ex. apply ste_bind_wp, on_bank_wp.
  rewrite promise_bump. apply wp_ok. cbn. apply ste_bind_wp. unfold get at 1. apply wp_ok. cbn.
  assert (bank (sb_bank s) s = s) as -> by by destruct s.
  apply ste_bind_wp. unfold of_sum. rewrite Hrd. apply wp_ok. cbn. apply ste_bind_wp, on_bank_wp.
  eapply wp_mono; [apply promise_deploy|].
  intros [[b0 n0] r0] (-> & -> & Hh0 & Hdep & Hb0). cbn. apply ste_bind_wp.
  eapply wp_mono; [apply prepare_accounts_ok|].
  intros [[s1 n1] r1] (m & sigs & -> & Hm & Hs1 & Hh1 & Hsig & b1 & Hst & Hpay & Hb1). cbn in *.
  apply ste_bind_wp. unfold on_tx_builder at 1. rewrite Hs1. cbn. rewrite Htx.
  destruct (one_instruction sanitizable try_new (new_key n) (sb_accounts s).*1 sigs (sb_calldata s)
    (last_blockhash (sb_bank s1)) (new_key m, new_sig n1) (sb_v0_message s) Hsane Hsig)
    as (t1 & t2 & tx & Hc & Hb & Hr); [by rewrite length_fmap|].
  rewrite Hc. cbn. apply ste_bind_wp. unfold fresh. apply wp_ok. apply ste_bind_wp. unfold get at 1.
  apply wp_ok. apply ste_bind_wp. unfold on_tx_builder. cbn. rewrite Hb. cbn.
  pose proof (prepared s n buffer m b0 b1 (sb_bank s1) Hh0 Hdep Hb0 Hst Hm Hpay Hb1) as Hprep.
  destruct (try_new tx) as [st|e] eqn:Ht; [|by exists (new_key m), tx; rewrite Ht].
  apply ste_bind_wp. unfold ensure_processor, get, mbind, ste_bind. cbn. rewrite Hp. apply wp_ok. cbn.
  destruct (load_and_execute_sanitized_transactions _ _ _ _ _) as [p' results] eqn:Hload.
  exists (new_key m), tx. split_and!; [done|done|]. rewrite Ht.
  unfold get_checked_tx_details in *. cbn in *. by rewrite Hload.
Qed.
End Executing.

(** ** Opening a bank

    [BankWrapper::new] and [BankWrapper::new_with_path] of
    [svm/executor/src/bank/wrapper.rs].  The genesis of [solana_ledger], the
    runtime's constructors of test banks and the creation of the directories of
    an accounts database are an interface. *)

(** [gen_config] and [gen_validator] are the parts of a [GenesisConfigInfo].
    [create_account_dirs] is [create_accounts_run_and_snapshot_dirs], which
    returns the [run] directory. *)
Class TestBanks (BK Gen Pubkey FS IoError : Type) := {
  create_genesis_config : Z → Gen;
  gen_validator : Gen → Pubkey;
  bank_for_tests : Gen → BK;
  bank_with_paths : Gen → list Path → BK;
  create_account_dirs : FS → Path → FS * (Path + IoError)
}.

Section Wrapping.
Context {Pubkey Signature Hash BK : Type} `{EqDecision Hash}.
Context `{!Loader Pubkey, !Outside Pubkey Signature}.
Context `{!RuntimeBank BK Pubkey Hash, !RuntimeBankLaws BK Pubkey Hash}.
Context (hashv : Hash → Z → Hash).

Lemma goto_end_loop_ends fuel (c : Wrapper.WrapperConfig) h (b : BK) :
  0 < rb_ticks_left b ≤ fuel → ∃ b', Wrapper.goto_end_loop hashv fuel c h b = Ok (rb_freeze b').
Proof using RuntimeBankLaws0.
  revert h b. induction fuel as [|fuel IH]; intros h b Hb; [lia|]. simpl.
  case_decide as Hh; [by eexists|]. apply IH. rewrite rb_tick_left.
  destruct (decide (rb_ticks_left b = 1)) as [H1|]; [|lia].
  exfalso. apply Hh. by rewrite rb_tick_last.
Qed.

(** Wrapping a bank returns: the loop to the end of its slot stops at the
    latest with the last tick, and the frozen bank gets its two children. *)
Theorem new_from_bank_returns (bank : BK) (c : Wrapper.WrapperConfig) :
  0 < rb_ticks_left bank →
  ∃ b, Wrapper.new_from_bank hashv (rb_ticks_left bank) bank c =
    Ok (Wrapper.mkWrapper
          (rb_new_from_parent default_key (Wrapper.latest_slot c)
            (rb_new_from_parent default_key (Wrapper.previous_slot c) (rb_freeze b)))
          c default_key).
Proof using Type RuntimeBankLaws0.
  intros Hb. unfold Wrapper.new_from_bank, Wrapper.goto_end_of_slot.
  destruct (goto_end_loop_ends (rb_ticks_left bank) c (rb_last_blockhash bank) bank) as [b ->];
    [lia|]. by exists b.
Qed.
End Wrapping.

Section Open.
Context {Pubkey Signature Hash BK Gen FS IoError : Type} `{EqDecision Hash}.
Context `{!Loader Pubkey, !Outside Pubkey Signature, !RuntimeBank BK Pubkey Hash}.
Context `{!TestBanks BK Gen Pubkey FS IoError}.
Context (hashv : Hash → Z → Hash).
Abbreviation wrapper := (Wrapper.BankWrapper Pubkey BK).

Definition with_validator (b : wrapper) (k : Pubkey) : wrapper :=
  Wrapper.mkWrapper (Wrapper.inner b) (Wrapper.cfg b) k.

Definition BankWrapper_new (fuel : nat) (c : Wrapper.WrapperConfig) : res wrapper :=
  let genesis := create_genesis_config (Wrapper.mint_lamports c) in
  wrap ← Wrapper.new_from_bank hashv fuel (bank_for_tests genesis) c;
  Ok (with_validator wrap (gen_validator genesis)).

(** [(0..dir_count).map(…).collect::<Result<Vec<_>, _>>()]: the first error
    ends the loop. *)
Fixpoint create_paths (fs : FS) (base_path : Path) (l : list nat) : FS * (list Path + IoError) :=
  match l with
  | [] => (fs, inl [])
  | i :: l =>
      match create_account_dirs fs (path_join base_path (pretty (N.of_nat i))) with
      | (fs, inr e) => (fs, inr e)
      | (fs, inl run_dir) =>
          match create_paths fs base_path l with
          | (fs, inl paths) => (fs, inl (run_dir :: paths))
          | (fs, inr e) => (fs, inr e)
          end
      end
  end.
Definition new_with_path (fuel : nat) (fs : FS) (base_path : Path) (dir_count : nat)
    (c : Wrapper.WrapperConfig) : res (FS * (wrapper + IoError)) :=
  match create_paths fs base_path (seq 0 dir_count) with
  | (fs, inr e) => Ok (fs, inr e)
  | (fs, inl paths) =>
      let genesis := create_genesis_config (Wrapper.mint_lamports c) in
      wrap ← Wrapper.new_from_bank hashv fuel (bank_with_paths genesis paths) c;
      Ok (fs, inl (with_validator wrap (gen_validator genesis)))
  end.

Lemma create_paths_length fs base l fs' paths :
  create_paths fs base l = (fs', inl paths) → length paths = length l.
Proof using Type.
  revert fs fs' paths. induction l as [|i l IH]; intros fs fs' paths; cbn; [by intros [= _ <-]|].
  destruct (create_account_dirs fs _) as [fs1 [d|e]]; [|done].
  destruct (create_paths fs1 base l) as [fs2 [ps|e]] eqn:Hp; [|done].
  intros [= _ <-]. cbn. f_equal. by eapply IH.
Qed.

(** The first directory that cannot be made ends the loop with its error. *)
Lemma create_paths_first_error fs base pre i post fs1 paths fs2 e :
  create_paths fs base pre = (fs1, inl paths) →
  create_account_dirs fs1 (path_join base (pretty (N.of_nat i))) = (fs2, inr e) →
  create_paths fs base (pre ++ i :: post) = (fs2, inr e).
Proof using Type.
  revert fs paths. induction pre as [|j pre IH]; intros fs paths; cbn.
  - intros [= <- _] He. by rewrite He.
  - destruct (create_account_dirs fs _) as [fs3 [d|?]]; [|done].
    destruct (create_paths fs3 base pre) as [fs4 [ps|?]] eqn:Hp; [|done].
    intros [= -> _] He. by rewrite (IH fs3 ps Hp He).
Qed.

(** When the directories can be made, a bank whose slot has ticks left is
    opened on the run directories, one for each number, and the wrapper names
    the validator of the genesis. *)
Theorem new_with_path_returns `{!RuntimeBankLaws BK Pubkey Hash} fs base n (c : Wrapper.WrapperConfig)
    fs' paths :
  let genesis := create_genesis_config (Wrapper.mint_lamports c) in
  let bank := bank_with_paths genesis paths in
  create_paths fs base (seq 0 n) = (fs', inl paths) → 0 < rb_ticks_left bank →
  length paths = n ∧
  ∃ b, new_with_path (rb_ticks_left bank) fs base n c = Ok (fs', inl b) ∧
    Wrapper.validator_pubkey b = gen_validator genesis ∧ Wrapper.cfg b = c.
Proof using Type.
  intros genesis bank Hp Hl. split; [by rewrite (create_paths_length _ _ _ _ _ Hp), length_seq|].
  unfold new_with_path. rewrite Hp. fold genesis bank.
  destruct (new_from_bank_returns hashv bank c Hl) as [b ->].
  cbn [mbind res_bind]. by eexists.
Qed.
End Open.
