(* ===== verification/Rollup.v ===== *)
(** * The example rollup: blocks

    [example/src/l1], [example/src/l2]: what is derived from layer 1, the
    transaction stream, the ledger, the producer and the block store of the
    example.  Executing one transaction, shredding and storing shreds are
    parameters; the random numbers and clock readings are arguments. *)
From S2P Require Import Prelude Banks.
Set Default Proof Using "Type*".

Section Data.
Context {Pubkey L1Hash L2Hash VTx : Type}.

(** ** Layer 1 *)

Record L1Head := mkL1Head { l1_hash : L1Hash; l1_height : Z; l1_timestamp : Z }.
Record EpochInfo := mkEpoch { epoch_hash : L1Hash; epoch_height : Z; epoch_timestamp : Z }.
Definition epoch_of_head (h : L1Head) : EpochInfo :=
  mkEpoch (l1_hash h) (l1_height h) (l1_timestamp h).

Record DepositTx := mkDeposit {
  d_from : Pubkey; d_to : Pubkey; d_amount : Z; d_calldata : list Z
}.
Record L2Transaction := mkL2Tx {
  t_from : Pubkey; t_to : Pubkey; t_amount : Z; t_calldata : list Z
}.
Definition l2_of_deposit (d : DepositTx) : L2Transaction :=
  mkL2Tx (d_from d) (d_to d) (d_amount d) (d_calldata d).

Record PayloadAttribute := mkAttribute {
  a_transactions : list L2Transaction; a_epoch : EpochInfo; a_sequence_number : Z
}.
Definition attribute_of_head (h : L1Head) : PayloadAttribute :=
  mkAttribute [] (epoch_of_head h) 0.

(** The batch of a layer 1 block carries no data. *)
Record L1BlockInfo := mkL1Block {
  deposit_txs : list DepositTx; batch_info : option unit; l1_head : L1Head
}.
Definition attribute_of_block (i : L1BlockInfo) : PayloadAttribute :=
  mkAttribute (l2_of_deposit <$> deposit_txs i) (epoch_of_head (l1_head i)) 0.

(** ** The transaction stream *)

Definition default_max_size : nat := 1024.
Definition stream_insert (transactions : list L2Transaction) (tx : L2Transaction) :
    list L2Transaction := transactions ++ [tx].
(** The batch drained, and what stays in the stream. *)
Definition next_batch (transactions : list L2Transaction) (max_size : nat) :
    list L2Transaction * list L2Transaction :=
  if decide (max_size ≤ length transactions)
  then (take max_size transactions, drop max_size transactions)
  else (transactions, []).

(** ** Blocks and ledger *)

Record L2Head := mkL2Head { l2_hash : L2Hash; l2_height : Z; l2_timestamp : Z }.
(** [BlockPayloadImpl] and [BlockImpl] have the same fields. *)
Record Block := mkBlock { block_head : L2Head; block_entries : list (Entry L2Hash VTx) }.

(** [SimpleEntry::new] *)
Definition simple_entry (hash_default : L2Hash) (txs : list VTx) : Entry L2Hash VTx :=
  mkEntry (Z.of_nat (length txs)) hash_default txs.

Context `{Countable L2Hash}.
Record MockLedger := mkLedger { blocks : gmap Z Block; hash_map : gmap L2Hash Z }.
Definition ledger_default : MockLedger := mkLedger ∅ ∅.
Definition ledger_new_block (l : MockLedger) (b : Block) : MockLedger * L2Head :=
  let head := block_head b in
  (mkLedger (<[l2_height head := b]> (blocks l)) (<[l2_hash head := l2_height head]> (hash_map l)),
   head).
(** The greatest key; heights are not negative. *)
Definition latest_height (l : MockLedger) : Z := foldr Z.max 0%Z (map_to_list (blocks l)).*1.
Definition get_head (l : MockLedger) (height : Z) : option L2Head :=
  block_head <$> blocks l !! height.
End Data.
Arguments L1Head : clear implicits.
Arguments EpochInfo : clear implicits.
Arguments L1BlockInfo : clear implicits.
Arguments L2Transaction : clear implicits.
Arguments PayloadAttribute : clear implicits.
Arguments Block : clear implicits.
Arguments MockLedger L2Hash VTx {_ _}.

(** ** The producer *)

Section Producer.
Context {Pubkey L1Hash L2Hash VTx W : Type} `{Countable L2Hash}.
Abbreviation l2tx := (L2Transaction Pubkey).
Abbreviation attribute := (PayloadAttribute Pubkey L1Hash).
(** [process_single_tx]: run the transfer program on the bank. *)
Context (process_single_tx : W → l2tx → W * (VTx + string)).
Context (hash_default : L2Hash).

Definition txs_per_entry : nat := 64.

(** The loop of [process_txs]: the entries so far and the open one. *)
Fixpoint process_loop (w : W) (txs : list l2tx) (result : list (Entry L2Hash VTx))
    (open : list VTx) : W * ((list (Entry L2Hash VTx) * list VTx) + string) :=
  match txs with
  | [] => (w, inl (result, open))
  | tx :: txs =>
      match process_single_tx w tx with
      | (w, inr e) => (w, inr e)
      | (w, inl vtx) =>
          let open := open ++ [vtx] in
          if decide (txs_per_entry ≤ length open)
          then process_loop w txs (result ++ [simple_entry hash_default open]) []
          else process_loop w txs result open
      end
  end.

Definition process_txs (w : W) (a : attribute) : W * (list (Entry L2Hash VTx) + string) :=
  match process_loop w (a_transactions a) [] [] with
  | (w, inr e) => (w, inr e)
  | (w, inl (result, open)) =>
      (w, inl (if decide (open ≠ []) then result ++ [simple_entry hash_default open] else result))
  end.

(** [produce] at time [now] *)
Definition produce (l : MockLedger L2Hash VTx) (w : W) (a : attribute) (now : Z) :
    res (W * (Block L2Hash VTx + string)) :=
  new_height ← checked_add u64_max (latest_height l) 1;
  Ok (match process_txs w a with
      | (w, inr e) => (w, inr e)
      | (w, inl entries) => (w, inl (mkBlock (mkL2Head hash_default new_height now) entries))
      end).
End Producer.

(** ** The block store

    [Shredder::new], [entries_to_shreds] (with the chained root and the two
    start indexes), [merkle_root] and [is_data] of a shred, and
    [Blockstore::insert_shreds], of [solana_ledger]. *)
Class SimpleShreds (Shred D L2Hash VTx : Type) := {
  ss_new : Z → Z → Z → Z → bool;
  ss_entries_to_shreds :
    Z → Z → Z → Z → list (Entry L2Hash VTx) → bool → option L2Hash → Z → Z →
    list Shred * list Shred;
  ss_merkle_root : Shred → option L2Hash;
  ss_is_data : Shred → bool;
  ss_insert : D → list Shred → D + string
}.

Section Store.
Context {L2Hash VTx Shred D : Type} `{!Entries L2Hash VTx, !SimpleShreds Shred D L2Hash VTx}.

Definition START_INDEX : Z := 0.
Definition VERSION : Z := 0.
Definition NUM_TICKS_IN_START_SLOT : Z := 0.

(** The local variables of [write_entries]; the shredder is what it was made
    from: slot, parent and reference tick. *)
Record writing := mkWriting {
  wr_slot : Z;
  wr_parent : Z;
  wr_remaining : Z;
  wr_shredder : Z * Z * Z;
  wr_all_shreds : list Shred;
  wr_entries : list (Entry L2Hash VTx);
  wr_root : option L2Hash
}.

(** The full slot is shredded and the next one begun.  [append] moves the
    coding shreds away, so [coding_shreds.last()] looks at an empty vector. *)
Definition next_slot_shreds (ticks_per_slot : Z) (s : writing) : res writing :=
  current_slot ← checked_add u64_max (wr_slot s) 1;
  parent_slot ← checked_sub current_slot 1;
  let '(slot, parent, tick) := wr_shredder s in
  let start_index := if decide (wr_all_shreds s = []) then START_INDEX else 0%Z in
  let '(data_shreds, coding_shreds) :=
    ss_entries_to_shreds slot parent tick VERSION (wr_entries s) true (wr_root s)
      start_index start_index in
  let all_shreds := wr_all_shreds s ++ data_shreds ++ coding_shreds in
  let coding_shreds : list Shred := [] in
  shred ← expect (last coding_shreds) "called `Option::unwrap()` on a `None` value";
  root ← expect (ss_merkle_root shred) "called `Result::unwrap()` on an `Err` value";
  ticks ← checked_sub ticks_per_slot ticks_per_slot;
  _ ← assert_res (ss_new current_slot parent_slot (ticks `mod` 2 ^ 8)%Z VERSION)
        "called `Result::unwrap()` on an `Err` value";
  Ok (mkWriting current_slot parent_slot ticks_per_slot
        (current_slot, parent_slot, (ticks `mod` 2 ^ 8)%Z) all_shreds [] (Some root)).

(** One iteration of the loop over the entries. *)
Definition write_entry (ticks_per_slot : Z) (s : writing) (e : Entry L2Hash VTx) : res writing :=
  s ← (if decide (wr_remaining s = 0%Z) then next_slot_shreds ticks_per_slot s else Ok s);
  remaining ← (if is_tick e then checked_sub (wr_remaining s) 1 else Ok (wr_remaining s));
  Ok (mkWriting (wr_slot s) (wr_parent s) remaining (wr_shredder s) (wr_all_shreds s)
        (wr_entries s ++ [e]) (wr_root s)).

(** [write_entries], with the random root [random_root]. *)
Definition write_entries (d : D) (random_root : L2Hash) (start_slot ticks_per_slot : Z)
    (parent : option Z) (is_full_slot : bool) (entries : list (Entry L2Hash VTx)) :
    res (D * (nat + string)) :=
  let parent_slot := default (saturating_sub start_slot 1) parent in
  gap ← checked_sub start_slot parent_slot;
  let num_slots := Z.max gap 1 in
  total ← checked_mul u64_max num_slots ticks_per_slot;
  _ ← assert_res (bool_decide (NUM_TICKS_IN_START_SLOT < total)%Z)
        "assertion failed: NUM_TICKS_IN_START_SLOT < num_slots * ticks_per_slot";
  remaining ← checked_sub total NUM_TICKS_IN_START_SLOT;
  _ ← assert_res (ss_new start_slot parent_slot 0 VERSION)
        "called `Result::unwrap()` on an `Err` value";
  s ← fold_res (write_entry ticks_per_slot)
        (mkWriting start_slot parent_slot remaining (start_slot, parent_slot, 0%Z) [] []
           (Some random_root)) entries;
  let all_shreds :=
    if decide (wr_entries s ≠ []) then
      let '(slot, parent, tick) := wr_shredder s in
      let '(data_shreds, coding_shreds) :=
        ss_entries_to_shreds slot parent tick VERSION (wr_entries s) is_full_slot (wr_root s) 0 0 in
      wr_all_shreds s ++ data_shreds ++ coding_shreds
    else wr_all_shreds s in
  let num_data := length (filter (λ s, ss_is_data s = true) all_shreds) in
  Ok (match ss_insert d all_shreds with
      | inl d => (d, inl num_data)
      | inr e => (d, inr e)
      end).
End Store.
