(* ===== verification/SvmProducer.v ===== *)
(** * Executing a transaction of the example rollup

    [process_single_tx] of [example/src/l2/producer.rs]: one transaction, built
    and executed with the SVM executor on the producer's bank. *)
From S2P Require Import Prelude StateError TxBuilder SvmBank SvmBuilder Rollup.
Set Default Proof Using "Type*".

(** [u64::to_be_bytes] *)
Definition to_be_bytes (x : Z) : list Z :=
  (λ i, (x / 2 ^ (8 * i)) `mod` 256)%Z <$> [7; 6; 5; 4; 3; 2; 1; 0]%Z.

Definition INIT_LAMPORTS : Z := 900000.

Section Producer.
Context {Pubkey Signature Hash STx TransactionError Details IoError FG P BK : Type}.
Context `{Countable Pubkey}.
Context `{!Loader Pubkey, !Outside Pubkey Signature, !RuntimeBank BK Pubkey Hash}.
Abbreviation wrapper := (Wrapper.BankWrapper Pubkey BK).
Context `{!BatchProcessor P FG wrapper Pubkey STx TransactionError Details}.
Abbreviation versioned := (VersionedTransaction Pubkey Signature Hash (list Z)).
Abbreviation simple_builder := (SimpleBuilder (Pubkey:=Pubkey) (Signature:=Signature)
  (TransactionError:=TransactionError) (FG:=FG) (P:=P) (B:=wrapper)).
Context (sanitizable : versioned → bool) (try_new : versioned → STx + TransactionError).
Context (read_file : string → list Z + IoError) (fork_graph_default : FG).
(** [BankWrapper::init] with the default configuration, and [to_string] of an
    error *)
Context (wrapper_init : wrapper + string).
Context (error_to_string : SvmError IoError TransactionError → string).

(** The fields of [SvmProducer] that a transaction uses, and the readings from
    outside so far. *)
Record SvmProducer := mkProducer {
  pr_bank : wrapper;
  pr_tx_processor : P;
  pr_fork_graph : FG;
  system_account : Pubkey;
  pr_reads : nat
}.
Definition get_program_path : string := "svm/executor/tests/simple_transfer_program.so".

(** The builder after the chain of setters. *)
Definition transfer_builder (w : SvmProducer) (tx : L2Transaction Pubkey)
    (s : simple_builder) : simple_builder :=
  calldata (to_be_bytes (t_amount tx))
    (v0_message true
      (account_with_balance (system_account w) None false false
        (account_with_balance (t_to tx) (Some INIT_LAMPORTS) false true
          (account_with_balance (t_from tx) (Some INIT_LAMPORTS) true true
            (program_path (Some get_program_path)
              (bank (pr_bank w)
                (fork_graph (pr_fork_graph w) (tx_processor (pr_tx_processor w) s)))))))).

(** The clone of the bank and the processor share their contents with the
    producer's. *)
Definition process_single_tx (w : SvmProducer) (tx : L2Transaction Pubkey) :
    res (SvmProducer * (versioned + string)) :=
  match init (IoError:=IoError) fork_graph_default wrapper_init with
  | inr e => Ok (w, inr (error_to_string e))
  | inl builder =>
      '(s, n, r) ← build_ex sanitizable try_new read_file (transfer_builder w tx builder, pr_reads w);
      let w := mkProducer (Wrapper.with_inner (pr_bank w) (Wrapper.inner (sb_bank s)))
                 (default (pr_tx_processor w) (sb_tx_processor s)) (pr_fork_graph w)
                 (system_account w) n in
      Ok (w, match r with
             | inr e => inr (error_to_string e)
             | inl ([], _) => inr "no result"
             | inl (NotExecuted _ :: _, _) => inr "no details"
             | inl (Executed (inr _) _ :: _, _) => inr "tx failed"
             | inl (Executed (inl _) _ :: _, tx) => inl tx
             end)
  end.
End Producer.
Arguments SvmProducer : clear implicits.
