(* ===== verification/SvmTheorems.v ===== *)
(** * Theorems about the SVM executor *)
From S2P Require Import Prelude StateError TxBuilder TxFacts SvmBank SvmBuilder SvmFacts.
From S2P Require Import Rollup SvmProducer.

(** ** The banks *)
Section Banks.
Context {Pubkey Signature Hash FeatureSet BK : Type} `{Countable Pubkey}.
Context `{!Loader Pubkey, !LoaderLaws Pubkey, !Outside Pubkey Signature}.
Context `{!OutsideLaws Pubkey Signature}.
Context `{!RuntimeBank BK Pubkey Hash, !RuntimeBankLaws BK Pubkey Hash}.
Context (hash_default : Hash) (loadable_account : string → Z → Z → AccountSharedData Pubkey).

(** C28: The mock bank and the wrapper of the runtime's bank both keep what the
    builder relies on: an account with lamports is read back as inserted, a
    program is deployed under two new keys with its code behind the metadata, and other
    accounts and the last blockhash are left alone. *)
Theorem banks_keep_promise :
  @BankPromise (MockBank.MockBankCallback Pubkey FeatureSet) Pubkey Signature Hash _ _
    (MockBank.mock_operations hash_default loadable_account) ∧
  @BankPromise (Wrapper.BankWrapper Pubkey BK) Pubkey Signature Hash _ _ Wrapper.wrapper_operations.
Proof using Type LoaderLaws0 OutsideLaws0 RuntimeBankLaws0.
  split; [by apply mock_promise|by apply wrapper_promise].
Qed.
End Banks.

(** ** Building and executing *)
Section Builder.
Context {Pubkey Signature Hash STx TransactionError Details IoError FG P B : Type}.
Context `{Countable Pubkey}.
Context `{!Loader Pubkey, !Outside Pubkey Signature, !BankOperations B Pubkey Hash}.
Context `{!BatchProcessor P FG B Pubkey STx TransactionError Details}.
Context `{!BankPromise B Pubkey Signature Hash}.
Abbreviation versioned := (VersionedTransaction Pubkey Signature Hash (list Z)).
Abbreviation simple_builder := (SimpleBuilder (Pubkey:=Pubkey) (Signature:=Signature)
  (TransactionError:=TransactionError) (FG:=FG) (P:=P) (B:=B)).
Context (sanitizable : versioned → bool) (try_new : versioned → STx + TransactionError).
Context (read_file : string → list Z + IoError).

(** C26: Executing a program on a new builder with a processor, on any bank that
    keeps its promise, does not panic: the processor runs one transaction,
    whose accounts have the rights asked for, on the bank with the program
    deployed, the given accounts stored and a fee payer created; and the bank
    is left so: the outcome is not stored. *)
Theorem build_ex_executes (s : simple_builder) n buffer p :
  (∀ tx, sane tx → sanitizable tx = true) →
  sb_tx_builder s = builder_default → read_program read_file s = inl buffer →
  length (sb_accounts s) ≤ 254 → sb_tx_processor s = Some p →
  ∃ s' n' r payer tx,
    build_ex sanitizable try_new read_file (s, n) = Ok (s', n', r) ∧
    bank_prepared s n buffer payer (sb_bank s') ∧
    rights_granted tx (new_key n) (sb_accounts s).*1 (sb_calldata s) payer ∧
    r = match try_new tx with
        | inl st =>
            inl ((load_and_execute_sanitized_transactions (sb_bank s') [st]
                    [get_checked_tx_details s] get_processing_config p).2, tx)
        | inr e => inr (SolanaTransactionError e)
        end.
Proof using Type BankPromise0.
  intros Hsane Htx Hrd Hlen Hp.
  destruct (wp_elim _ _ (build_ex_ok sanitizable try_new read_file s n buffer p Hsane Htx Hrd Hlen Hp))
    as ([[s' n'] r] & He & payer & tx & Hprep & Hr & Hres).
  exists s', n', r, payer, tx. split_and!; [done|done|done|].
  destruct (try_new tx); [|by destruct Hres]. by destruct (load_and_execute_sanitized_transactions _ _ _ _ _);
    destruct Hres.
Qed.

(** Without a program, or with both a buffer and a path, nothing is deployed. *)
Lemma build_ex_no_program (s : simple_builder) n e :
  read_program read_file s = inr e →
  build_ex sanitizable try_new read_file (s, n) = Ok (s, n, inr e).
Proof using Type BankPromise0.
  intros Hrd. unfold build_ex, mbind, ste_bind, on_bank. rewrite promise_bump. cbn.
  assert (bank (sb_bank s) s = s) as -> by by destruct s. unfold of_sum. by rewrite Hrd.
Qed.
End Builder.

(** ** Transactions of the example rollup *)
Section Producer.
Context {Pubkey Signature Hash STx TransactionError Details IoError FG P BK : Type}.
Context `{Countable Pubkey}.
Context `{!Loader Pubkey, !LoaderLaws Pubkey, !Outside Pubkey Signature}.
Context `{!OutsideLaws Pubkey Signature}.
Context `{!RuntimeBank BK Pubkey Hash, !RuntimeBankLaws BK Pubkey Hash}.
Abbreviation wrapper := (Wrapper.BankWrapper Pubkey BK).
Context `{!BatchProcessor P FG wrapper Pubkey STx TransactionError Details}.
Abbreviation versioned := (VersionedTransaction Pubkey Signature Hash (list Z)).
Abbreviation producer := (SvmProducer Pubkey FG P BK).
Context (sanitizable : versioned → bool) (try_new : versioned → STx + TransactionError).
Context (read_file : string → list Z + IoError) (fork_graph_default : FG).
Context (wrapper_init : wrapper + string).
Context (error_to_string : SvmError IoError TransactionError → string).
Local Abbreviation process_single_tx := (process_single_tx sanitizable try_new read_file
  fork_graph_default wrapper_init error_to_string).
Collection Env := Type LoaderLaws0 OutsideLaws0 RuntimeBankLaws0.

Definition balance_of (w : producer) (k : Pubkey) : option Z :=
  lamports <$> rb_get (Wrapper.inner (pr_bank w)) k.

(** C27: A transaction whose two accounts are none of the keys drawn for programs
    never panics.  If the bank can be opened and the program file read, a
    transfer moves nothing: both its accounts are set to 900000 lamports before
    it runs and have 900000 lamports after it, whatever they had and whatever
    the program did.  No other account changes its lamports, but those under
    drawn keys. *)
Theorem transfers_are_not_committed (w : producer) tx :
  (∀ t, sane t → sanitizable t = true) →
  (∀ m, new_key m ≠ t_from tx ∧ new_key m ≠ t_to tx) →
  ∃ w' r, process_single_tx w tx = Ok (w', r) ∧
    ((∃ b, wrapper_init = inl b) → (∃ code, read_file get_program_path = inl code) →
     balance_of w' (t_from tx) = Some INIT_LAMPORTS ∧ balance_of w' (t_to tx) = Some INIT_LAMPORTS) ∧
    (∀ k, k ≠ t_from tx → k ≠ t_to tx → (∀ m, k ≠ new_key m) →
     balance_of w' k = balance_of w k).
Proof using Env.
  intros Hsane Hkeys. unfold SvmProducer.process_single_tx, init.
  destruct wrapper_init as [b|e]; [|by eexists w, _; split_and!; [|by intros [? [=]]|]].
  set (s := transfer_builder w tx _).
  pose proof wrapper_promise as Hpromise.
  destruct (read_file get_program_path) as [code|e] eqn:Hread.
  - assert (read_program read_file s = inl code) as Hrd by (unfold read_program; simpl; by rewrite Hread).
    destruct (wp_elim _ _ (build_ex_ok sanitizable try_new read_file s (pr_reads w) code
      (pr_tx_processor w) Hsane eq_refl Hrd ltac:(simpl; lia) eq_refl))
      as ([[s' n'] r] & -> & payer & vt & ((m & Hm & ->) & _ & Hsome & Hnone & _) & _).
    eexists _, _. split; [done|]. unfold balance_of. cbn in *. split.
    + intros _ _. destruct (Hkeys m) as [Hf Ht].
      rewrite (Hsome (t_from tx) (set_lamports INIT_LAMPORTS account_default));
        [|done| |done].
      * rewrite (Hsome (t_to tx) (set_lamports INIT_LAMPORTS account_default)); [done|done| |done].
        unfold last_account. cbn. by repeat case_decide.
      * unfold last_account. cbn. by repeat case_decide.
    + intros k H1 H2 H3. f_equal. apply Hnone; [done|]. unfold last_account. cbn.
      by repeat case_decide.
  - rewrite (build_ex_no_program sanitizable try_new read_file s (pr_reads w) (StdIo e))
      by (unfold read_program; simpl; by rewrite Hread).
    eexists _, _. split; [done|]. split; [by intros _ [? [=]]|done].
Qed.
End Producer.

(** Keys are numbers; the keys from 100 on are the ones drawn. *)
Module SvmWitnesses.
#[local] Instance outside : Outside nat nat := {|
  new_key n := 100 + n; new_sig n := n; now n := Some (Z.of_nat n)
|}.
#[local] Instance outside_laws : OutsideLaws nat nat.
Proof. intros n m. simpl. lia. Qed.
#[local] Instance loader : Loader nat := {|
  default_key := 0;
  loader_id := 1;
  system_program_id := 2;
  clock_id := 3;
  serialize st := match st with
                  | Program a => [2; Z.of_nat a]%Z
                  | ProgramData slot _ => [3; slot; 0]%Z
                  end;
  serialize_clock c := [clock_slot c];
  size_of_programdata_metadata := 5
|}.
#[local] Instance loader_laws : LoaderLaws nat.
Proof. intros slot. simpl. lia. Qed.

(** Accounts, the last blockhash and the ticks left. *)
Definition demo_bank : Type := gmap nat (AccountSharedData nat) * nat * nat.
Definition empty_bank : demo_bank := (∅, 7, 4).
Definition find (b : demo_bank) (k : nat) : option (AccountSharedData nat) :=
  match b.1.1 !! k with
  | Some a => if decide (0 < lamports a)%Z then Some a else None
  | None => None
  end.
#[local] Instance runtime : RuntimeBank demo_bank nat nat := {|
  rb_store k a b := (<[k := a]> b.1.1, b.1.2, b.2);
  rb_get := find;
  rb_matches_owners _ _ _ := None;
  rb_add_builtin _ _ b := b;
  rb_last_blockhash b := b.1.2;
  rb_slot _ := 30%Z;
  rb_register_tick h b := (b.1.1, if decide (b.2 = 1) then h else b.1.2, b.2 - 1);
  rb_freeze b := b;
  rb_new_from_parent _ _ b := b;
  rb_ticks_left b := b.2
|}.
#[local] Instance runtime_laws : RuntimeBankLaws demo_bank nat nat.
Proof.
  split; simpl.
  - intros k a b Ha. unfold find. simpl. by rewrite lookup_insert_eq, decide_True.
  - intros k k' a b Hk. unfold find. simpl. by rewrite lookup_insert_ne.
  - done.
  - done.
  - intros h b ->. done.
Qed.

(** Every transaction is executed with success. *)
#[local] Instance processor {B} : BatchProcessor unit unit B nat nat unit unit := {|
  tp_new _ _ := ();
  create_executable_environment _ p := p;
  fill_missing_sysvar_cache_entries _ p := p;
  tp_add_builtin _ _ _ p := p;
  load_and_execute_sanitized_transactions _ txs _ _ p := (p, (λ _, Executed (inl ()) ()) <$> txs)
|}.

Abbreviation demo_tx := (VersionedTransaction nat nat nat (list Z)).
Definition accept (tx : demo_tx) : bool := true.
Definition count (tx : demo_tx) : nat + unit := inl (length (vt_signatures tx)).
Definition read_any (path : string) : list Z + unit := inl [9; 9]%Z.
Definition loadable (name : string) (l e : Z) : AccountSharedData nat := mkAccount l [] 1 true e.
Definition wrapped : Wrapper.BankWrapper nat demo_bank :=
  Wrapper.mkWrapper empty_bank Wrapper.config_default 0.

Lemma banks_keep_promise_witness :
  @BankPromise (MockBank.MockBankCallback nat unit) nat nat nat _ _
    (MockBank.mock_operations 0 loadable) ∧
  @BankPromise (Wrapper.BankWrapper nat demo_bank) nat nat nat _ _ Wrapper.wrapper_operations.
Proof. exact (banks_keep_promise 0 loadable). Defined.

Lemma new_from_bank_witness :
  ∃ b, Wrapper.new_from_bank (λ h _, S h) 4 empty_bank Wrapper.config_default =
    Ok (Wrapper.mkWrapper (rb_new_from_parent 0 30 (rb_new_from_parent 0 20 (rb_freeze b)))
          Wrapper.config_default 0).
Proof.
  assert (0 < rb_ticks_left empty_bank) as Hl by (simpl; lia).
  exact (new_from_bank_returns (λ h _, S h) empty_bank Wrapper.config_default Hl).
Defined.

#[local] Instance wrapper_keeps :
  BankPromise (Wrapper.BankWrapper nat demo_bank) nat nat nat.
Proof. exact wrapper_promise. Qed.
Definition demo_builder :=
  account_with_balance 10 (Some 500%Z) true true
    (program_buffer (Some [1; 2]%Z)
      (mkSimple (Signature:=nat) (TransactionError:=unit) wrapped 80000 builder_default (Some ()) () None None [] []
         false None)).

Lemma build_ex_witness :
  ∃ s n r payer (tx : demo_tx), build_ex (IoError:=unit) accept count read_any (demo_builder, 0) = Ok (s, n, r) ∧
    bank_prepared demo_builder 0 [1; 2]%Z payer (sb_bank s) ∧
    get_account_shared_data (sb_bank s) 10 = Some (set_lamports 500 account_default) ∧
    rights_granted tx 100 [mkMeta 10 true true] [] payer.
Proof.
  destruct (build_ex_executes (IoError:=unit) accept count read_any demo_builder 0 [1; 2]%Z ())
    as (s & n & r & payer & tx & Hb & Hp & Hr & _); [done|done|done|simpl; lia|done|].
  exists s, n, r, payer, tx. split; [exact Hb|]. split; [exact Hp|]. split; [|exact Hr].
  destruct Hp as ((m & Hm & ->) & _ & Hs & _). apply Hs; [simpl; lia|done|done].
Defined.

Lemma transfers_witness :
  ∃ w r, process_single_tx (IoError:=unit) accept count read_any () (inl wrapped) (λ _, "error")
      (mkProducer wrapped () () 0 0) (mkL2Tx 10 11 5%Z []) = Ok (w, r) ∧
    balance_of w 10 = Some INIT_LAMPORTS ∧ balance_of w 11 = Some INIT_LAMPORTS.
Proof.
  destruct (transfers_are_not_committed (IoError:=unit) accept count read_any () (inl wrapped)
    (λ _, "error") (mkProducer wrapped () () 0 0) (mkL2Tx 10 11 5%Z []))
    as (w & r & Hp & Hb & _); [done|simpl; lia|].
  exists w, r. split; [exact Hp|]. apply Hb; by eexists.
Defined.
End SvmWitnesses.
