(* ===== verification/Runner.v ===== *)
(** * The example rollup: engine, runner and tasks

    [example/src/l2/engine.rs], [example/src/runner.rs], [example/src/derive],
    [example/src/l2/batcher.rs] and the layer 1 of [example/src/mock/chain.rs].
    The tasks run one after the other, each from one wait to the next: the
    batcher's two loops, the DA loop, the sources, and [advance] of the runner,
    which is one step although the task may wait between its parts.
    A channel whose receiver is slow delays its sender, which the model does
    not show, except for the DA channel of capacity 1. *)
From S2P Require Import Prelude Banks Channels Rollup.
Set Default Proof Using "Type*".

Section Runner.
Context {Pubkey L1Hash L2Hash VTx Shred D W : Type} `{Countable L2Hash}.
Context `{!Entries L2Hash VTx, !SimpleShreds Shred D L2Hash VTx}.
Context (process_single_tx : W → L2Transaction Pubkey → W * (VTx + string)).
Context (hash_default : L2Hash).
(** The readings of the clock, the random roots, and whether the [info] level
    is logged. *)
Context (clock : nat → Z) (random_root : nat → L2Hash) (log_info : bool).
Abbreviation l2tx := (L2Transaction Pubkey).
Abbreviation attribute := (PayloadAttribute Pubkey L1Hash).
Abbreviation l1block := (L1BlockInfo Pubkey L1Hash).

(** ** The engine *)

(** [e_attributes] is the channel to the batcher; [e_reads] counts the
    readings of clock and random numbers. *)
Record SvmEngine := mkEngine {
  e_stream : list l2tx;
  e_ledger : MockLedger L2Hash VTx;
  e_store : D;
  e_world : W;
  e_attributes : list attribute;
  e_reads : nat
}.
Implicit Types (e : SvmEngine).

Definition produce_block e (a : attribute) : res (SvmEngine * (Block L2Hash VTx + string)) :=
  let '(extra_txs, stream) := next_batch (e_stream e) default_max_size in
  let new_attribute := mkAttribute (a_transactions a ++ extra_txs) (a_epoch a) (a_sequence_number a) in
  '(w, r) ← produce process_single_tx hash_default (e_ledger e) (e_world e) new_attribute
              (clock (e_reads e));
  Ok (match r with
      | inr msg => (mkEngine stream (e_ledger e) (e_store e) w (e_attributes e) (S (e_reads e)),
                    inr msg)
      | inl block => (mkEngine stream (e_ledger e) (e_store e) w (e_attributes e ++ [new_attribute])
                        (S (e_reads e)), inl block)
      end).

Definition engine_new_block e (block : Block L2Hash VTx) : res (SvmEngine * (L2Head + string)) :=
  let '(ledger, head) := ledger_new_block (e_ledger e) block in
  '(d, r) ← write_entries (e_store e) (random_root (e_reads e)) (l2_height head) 10
              (Some (saturating_sub (l2_height head) 1)) true (block_entries block);
  Ok (mkEngine (e_stream e) ledger d (e_world e) (e_attributes e) (S (e_reads e)),
      match r with inl _ => inl head | inr msg => inr msg end).

(** ** The runner *)

Record SimpleRunner := mkRunner {
  r_engine : SvmEngine;
  r_instant : option (Queue.t l1block);
  r_da : option (list attribute);
  r_head : option (L1Head L1Hash);
  r_sequence_number : Z
}.
Implicit Types (r : SimpleRunner).

Definition with_engine r e : SimpleRunner :=
  mkRunner e (r_instant r) (r_da r) (r_head r) (r_sequence_number r).
Definition runner_new e : SimpleRunner := mkRunner e None None None 0.
Definition register_instant r (q : Queue.t l1block) : SimpleRunner :=
  mkRunner (r_engine r) (Some q) (r_da r) (r_head r) (r_sequence_number r).
Definition register_da r (cached : list attribute) : SimpleRunner :=
  mkRunner (r_engine r) (r_instant r) (Some cached) (r_head r) (r_sequence_number r).

(** [get_new_block] *)
Definition get_new_block (q : Queue.t l1block) : Queue.t l1block * (option l1block + string) :=
  match Queue.recv q with
  | (inl info, q) => (q, inl (Some info))
  | (inr Empty, q) => (q, inl None)
  | (inr Disconnected, q) => (q, inr "Receiver disconnected")
  end.

(** The arguments of [info!] are evaluated when that level is logged. *)
Definition runner_new_block r (block : Block L2Hash VTx) : res (SimpleRunner * (L2Head + string)) :=
  '(e, res) ← engine_new_block (r_engine r) block;
  let r := with_engine r e in
  Ok (r, match res with
         | inr msg => inr msg
         | inl head =>
             if log_info && bool_decide (r_head r = None) then inr "No current head" else inl head
         end).

(** Produce a block for the attribute and apply it. *)
Definition execute r (a : attribute) : res (SimpleRunner * (unit + string)) :=
  '(e, res) ← produce_block (r_engine r) a;
  let r := with_engine r e in
  match res with
  | inr msg => Ok (r, inr msg)
  | inl block =>
      '(r, res) ← runner_new_block r block;
      Ok (r, match res with inl _ => inl () | inr msg => inr msg end)
  end.

Definition advance_unsafe r : res (SimpleRunner * (unit + string)) :=
  match r_instant r with
  | None => Ok (r, inr "Instant derive not registered")
  | Some q =>
      let '(q, info) := get_new_block q in
      let r := register_instant r q in
      match info with
      | inr msg => Ok (r, inr msg)
      | inl (Some i) =>
          let r := mkRunner (r_engine r) (r_instant r) (r_da r) (Some (l1_head i)) 0 in
          execute r (attribute_of_block i)
      | inl None =>
          match r_head r with
          | Some safe_head =>
              n ← checked_add u8_max (r_sequence_number r) 1;
              let r := mkRunner (r_engine r) (r_instant r) (r_da r) (r_head r) n in
              execute r (mkAttribute [] (epoch_of_head safe_head) n)
          | None => Ok (r, inl ())
          end
      end
  end.

Definition has_executed r (a : attribute) : bool :=
  match r_head r with
  | Some head =>
      if (epoch_height (a_epoch a) <? l1_height head)%Z then true
      else (a_sequence_number a <=? r_sequence_number r)%Z
  | None => false
  end.

(** The loop of [advance_safe]: [next] pops the last of the cached attributes;
    [rcached] is the cache in reverse. *)
Fixpoint safe_loop (rcached : list attribute) r : res (SimpleRunner * (unit + string)) :=
  match rcached with
  | [] => Ok (r, inl ())
  | a :: rcached =>
      let r := register_da r (reverse rcached) in
      if has_executed r a then safe_loop rcached r
      else
        '(r, res) ← execute r a;
        match res with
        | inr msg => Ok (r, inr msg)
        | inl _ => safe_loop rcached r
        end
  end.

Definition advance_safe r : res (SimpleRunner * (unit + string)) :=
  match r_da r with
  | None => Ok (r, inr "DA derive not registered")
  | Some cached => safe_loop (reverse cached) r
  end.

Definition advance r : res (SimpleRunner * (unit + string)) :=
  '(r, res) ← advance_safe r;
  match res with
  | inr msg => Ok (r, inr msg)
  | inl _ => advance_unsafe r
  end.

(** [n] rounds of the loop of [main], which logs errors and goes on. *)
Fixpoint main_loop (n : nat) r : res SimpleRunner :=
  match n with
  | 0 => Ok r
  | S n => '(r, _) ← advance r; main_loop n r
  end.

(** ** The tasks *)

(** The runner, the batcher's [cache] and [next_batch], the DA channel, and
    the height of the last layer 1 block. *)
Record system := mkSystem {
  s_runner : SimpleRunner;
  s_cache : list attribute;
  s_next_batch : list attribute;
  s_da_channel : list (list attribute);
  s_l1_height : Z
}.
Implicit Types (s : system).

Definition insert_tx r (tx : l2tx) : SimpleRunner :=
  let e := r_engine r in
  with_engine r (mkEngine (stream_insert (e_stream e) tx) (e_ledger e) (e_store e) (e_world e)
                   (e_attributes e) (e_reads e)).
Definition take_attributes r (l : list attribute) : SimpleRunner :=
  let e := r_engine r in
  with_engine r (mkEngine (e_stream e) (e_ledger e) (e_store e) (e_world e) l (e_reads e)).

(** One round of each loop.  The next batch is sent when the DA channel, of
    capacity 1, is empty; without a batch to send nothing waits. *)
Definition receive_tx (cache : list attribute) (block : attribute) : list attribute :=
  cache ++ [block].
Definition send_batch_round (cache next_batch : list attribute) (da_channel : list (list attribute)) :
    option (list attribute * list attribute * list (list attribute)) :=
  if decide (next_batch = []) then Some ([], cache, da_channel)
  else if decide (da_channel = []) then Some ([], cache, [next_batch])
  else None.
Definition try_update (cached payloads : list attribute) : list attribute := cached ++ payloads.

Inductive step : system → system → Prop :=
| step_tx r c n d h tx : step (mkSystem r c n d h) (mkSystem (insert_tx r tx) c n d h)
(** [MockLayer1]: the next block, one higher *)
| step_l1 r c n d h q info :
    r_instant r = Some q → Queue.connected q = true → l1_height (l1_head info) = (h + 1)%Z →
    step (mkSystem r c n d h)
         (mkSystem (register_instant r (Queue.mk true (Queue.queue q ++ [info]))) c n d (h + 1))
(** [receive_tx_loop] *)
| step_receive r c n d h a l :
    e_attributes (r_engine r) = a :: l →
    step (mkSystem r c n d h) (mkSystem (take_attributes r l) (receive_tx c a) n d h)
(** [send_batch_loop] *)
| step_send r c n d h c' n' d' :
    send_batch_round c n d = Some (c', n', d') → step (mkSystem r c n d h) (mkSystem r c' n' d' h)
(** [try_update] *)
| step_da r c n b d h cached :
    r_da r = Some cached →
    step (mkSystem r c n (b :: d) h) (mkSystem (register_da r (try_update cached b)) c n d h)
| step_advance r c n d h r' res :
    advance r = Ok (r', res) →
    step (mkSystem r c n d h) (mkSystem r' c n d h).

(** The start of [main]: both derivations registered, nothing in flight. *)
Definition start (h : Z) (d : D) (w : W) : system :=
  mkSystem (register_da (register_instant (runner_new (mkEngine [] ledger_default d w [] 0))
                           (Queue.mk true [])) []) [] [] [] h.

Inductive reachable (h : Z) (d : D) (w : W) : system → Prop :=
| reach_start : reachable h d w (start h d w)
| reach_step s s' : reachable h d w s → step s s' → reachable h d w s'.
End Runner.
