(* ===== verification/RunnerFacts.v ===== *)
(** * The example rollup: lemmas

    Entries of a block, heights of the ledger, and what one execution of an
    attribute changes. *)
From S2P Require Import Prelude Banks Channels Rollup Runner.
Set Default Proof Using "Type*".

(** ** Entries are chunks *)

Lemma chunks_from_enough {A} fuel n (v : list A) :
  0 < n → length v ≤ fuel → chunks_from fuel n v = chunks n v.
Proof.
  intros Hn. unfold chunks. revert v.
  assert (∀ k fuel (v : list A), length v ≤ k → length v ≤ fuel →
    chunks_from fuel n v = chunks_from k n v) as Hgen.
  { induction k as [|k IH]; intros f v Hk Hf.
    - destruct v; [by destruct f|simpl in *; lia].
    - destruct v as [|x v]; [by destruct f|]. destruct f as [|f]; [simpl in *; lia|].
      cbn [chunks_from]. f_equal. apply IH; rewrite length_drop; simpl in *; lia. }
  intros v Hv. by apply Hgen.
Qed.

Lemma chunks_full {A} n (x y : list A) :
  0 < n → length x = n → chunks n (x ++ y) = x :: chunks n y.
Proof.
  intros Hn Hx. destruct x as [|a x]; [simpl in *; lia|]. unfold chunks at 1.
  cbn [app length chunks_from]. change (a :: x ++ y) with ((a :: x) ++ y).
  rewrite (take_app_length' (a :: x) y n) by done.
  rewrite (drop_app_length' (a :: x) y n) by done. f_equal.
  apply chunks_from_enough; [done|]. rewrite length_app. lia.
Qed.

Lemma chunks_short {A} n (x : list A) :
  x ≠ [] → length x ≤ n → chunks n x = [x].
Proof.
  intros Hne Hx. destruct x as [|a x]; [done|]. unfold chunks. cbn [length chunks_from].
  rewrite take_ge by done. rewrite drop_ge by done. by destruct (length x).
Qed.

Section Entries.
Context {Pubkey L1Hash L2Hash VTx W : Type} `{Countable L2Hash}.
Context (process_single_tx : W → L2Transaction Pubkey → W * (VTx + string)).
Context (hash_default : L2Hash).

(** Reference: run the transactions one after the other. *)
Fixpoint process_each (w : W) (txs : list (L2Transaction Pubkey)) : W * (list VTx + string) :=
  match txs with
  | [] => (w, inl [])
  | tx :: txs =>
      match process_single_tx w tx with
      | (w, inr e) => (w, inr e)
      | (w, inl v) =>
          match process_each w txs with
          | (w, inl vs) => (w, inl (v :: vs))
          | (w, inr e) => (w, inr e)
          end
      end
  end.

Lemma process_loop_ok w txs result open :
  length open < txs_per_entry →
  match process_loop process_single_tx hash_default w txs result open with
  | (w', inl (result', open')) =>
      (w', inl (if decide (open' ≠ []) then result' ++ [simple_entry hash_default open']
                else result'))
  | (w', inr e) => (w', inr e)
  end =
  match process_each w txs with
  | (w', inl vs) =>
      (w', inl (result ++ (simple_entry hash_default <$> chunks txs_per_entry (open ++ vs))))
  | (w', inr e) => (w', inr e)
  end.
Proof.
  revert w result open. induction txs as [|tx txs IH]; intros w result open Hlen;
    cbn [process_loop process_each].
  - rewrite app_nil_r. destruct open as [|v open]; [simpl; by rewrite app_nil_r|].
    rewrite decide_True by done. by rewrite (chunks_short _ (v :: open)) by (done || lia).
  - destruct (process_single_tx w tx) as [w1 [v|e]]; [|done].
    case_decide as Hfull.
    + rewrite length_app in Hfull. simpl in Hfull. rewrite IH by (unfold txs_per_entry; simpl; lia).
      destruct (process_each w1 txs) as [w2 [vs|e]]; [|done].
      rewrite (cons_middle v open vs), (app_assoc open [v] vs),
        (chunks_full _ (open ++ [v]) vs); [|unfold txs_per_entry; lia|].
      * rewrite fmap_cons, <-(app_assoc result). done.
      * rewrite length_app. simpl. lia.
    + rewrite IH by (rewrite length_app in *; simpl in *; lia).
      destruct (process_each w1 txs) as [w2 [vs|e]]; [|done]. by rewrite <-app_assoc.
Qed.

Lemma process_txs_ok w (a : PayloadAttribute Pubkey L1Hash) :
  process_txs process_single_tx hash_default w a =
  match process_each w (a_transactions a) with
  | (w', inl vs) => (w', inl (simple_entry hash_default <$> chunks txs_per_entry vs))
  | (w', inr e) => (w', inr e)
  end.
Proof.
  unfold process_txs. pose proof (process_loop_ok w (a_transactions a) [] []) as Hl.
  simpl in Hl. rewrite <-Hl by (unfold txs_per_entry; lia).
  by destruct (process_loop _ _ _ _ _ _) as [w' [[r o]|e]].
Qed.

Lemma chunks_nonempty {A} n (v c : list A) : 0 < n → c ∈ chunks n v → c ≠ [].
Proof using Type.
  intros Hn [i Hi]%list_elem_of_lookup ->. rewrite chunks_lookup in Hi by done.
  case_decide; [|done]. injection Hi as Hi. apply (f_equal length) in Hi.
  rewrite length_take, length_drop in Hi. simpl in Hi. lia.
Qed.
End Entries.

(** ** Heights of the ledger *)
Section Heights.
Context {L2Hash VTx : Type} `{Countable L2Hash}.
Implicit Types (l : MockLedger L2Hash VTx).

(** The blocks have the heights 1, 2, ... up to the latest. *)
Definition contiguous l : Prop :=
  (∀ h b, blocks l !! h = Some b → l2_height (block_head b) = h) ∧
  (∀ h, is_Some (blocks l !! h) ↔ (1 ≤ h ≤ latest_height l)%Z).

Lemma latest_height_spec l n :
  (0 ≤ n)%Z → (∀ h, is_Some (blocks l !! h) → (h ≤ n)%Z) → (n = 0%Z ∨ is_Some (blocks l !! n)) →
  latest_height l = n.
Proof.
  intros Hn Hle Hin. unfold latest_height.
  assert (∀ h, h ∈ (map_to_list (blocks l)).*1 ↔ is_Some (blocks l !! h)) as Hdom.
  { intros h. rewrite list_elem_of_fmap. split.
    - intros ([h' b] & -> & ?%elem_of_map_to_list). by exists b.
    - intros [b Hb]. exists (h, b). split; [done|]. by apply elem_of_map_to_list. }
  setoid_rewrite <-Hdom in Hle. rewrite <-Hdom in Hin. clear Hdom.
  induction (map_to_list (blocks l)).*1 as [|h hs IH]; simpl.
  { destruct Hin as [?|?%elem_of_nil]; done. }
  assert (h ≤ n)%Z by (apply Hle; left).
  assert (foldr Z.max 0 hs ≤ n)%Z as Hhs.
  { clear IH Hin. assert (∀ x, x ∈ hs → (x ≤ n)%Z) as Hx by (intros; apply Hle; by right).
    clear Hle. induction hs as [|y hs IH]; simpl; [done|].
    assert (y ≤ n)%Z by (apply Hx; left). assert (foldr Z.max 0 hs ≤ n)%Z; [|lia].
    apply IH. intros x ?. apply Hx. by right. }
  destruct Hin as [->|[->|Hin]%elem_of_cons]; [|lia|].
  - rewrite IH; [lia|intros; apply Hle; by right|by left].
  - rewrite IH; [lia|intros; apply Hle; by right|by right].
Qed.

Lemma contiguous_default : contiguous (ledger_default (L2Hash:=L2Hash) (VTx:=VTx)).
Proof.
  split; [done|]. intros h. simpl. rewrite lookup_empty.
  change (latest_height _) with 0%Z. split; [by intros [? ?]|lia].
Qed.

Lemma contiguous_new_block l (b : Block L2Hash VTx) :
  contiguous l → l2_height (block_head b) = (latest_height l + 1)%Z → (0 ≤ latest_height l)%Z →
  contiguous (ledger_new_block l b).1 ∧
  latest_height (ledger_new_block l b).1 = (latest_height l + 1)%Z.
Proof.
  intros [Hk Hd] Hb H0. set (n := (latest_height l + 1)%Z) in *.
  assert (∀ h, is_Some (<[n := b]> (blocks l) !! h) ↔ (1 ≤ h ≤ n)%Z) as Hdom.
  { intros h. destruct (decide (h = n)) as [->|Hne].
    - rewrite lookup_insert_eq. split; [unfold n; lia|by eexists].
    - rewrite lookup_insert_ne by done. rewrite Hd. unfold n in *. lia. }
  assert (latest_height (ledger_new_block l b).1 = n) as Hlat.
  { apply latest_height_spec; simpl; rewrite ?Hb.
    - unfold n. lia.
    - intros h Hh%Hdom. lia.
    - right. apply Hdom. unfold n. lia. }
  split; [|done]. split.
  - intros h b'. simpl. rewrite Hb. destruct (decide (h = n)) as [->|Hne].
    + rewrite lookup_insert_eq. by intros [= <-].
    + rewrite lookup_insert_ne by done. apply Hk.
  - intros h. rewrite Hlat. simpl. rewrite Hb. apply Hdom.
Qed.

Lemma latest_nonneg l : (0 ≤ latest_height l)%Z.
Proof. unfold latest_height. induction (map_to_list (blocks l)).*1; simpl; lia. Qed.
End Heights.

(** ** Writing entries *)

(** A shredder exists for a slot above its parent by at most 65535. *)
Class SimpleShredsLaws (Shred D L2Hash VTx : Type) `{SimpleShreds Shred D L2Hash VTx} : Prop :=
  ss_new_ok slot parent tick version :
    (parent < slot ≤ parent + 65535)%Z → ss_new slot parent tick version = true.

Section Writing.
Context {L2Hash VTx Shred D : Type}.
Context `{!Entries L2Hash VTx, !EntriesLaws L2Hash VTx}.
Context `{!SimpleShreds Shred D L2Hash VTx, !SimpleShredsLaws Shred D L2Hash VTx}.

(** Entries without a tick go to one slot, in one call of the shredder. *)
Lemma write_entries_ok (d : D) root h (es : list (Entry L2Hash VTx)) :
  (1 ≤ h)%Z → Forall (λ e, entry_transactions e ≠ []) es →
  wp (write_entries d root h 10 (Some (saturating_sub h 1)) true es) (λ '(d', r),
    let '(data, coding) := ss_entries_to_shreds h (h - 1) 0 VERSION es true (Some root) 0 0 in
    match ss_insert d (if decide (es ≠ []) then data ++ coding else []) with
    | inl d2 => d' = d2 ∧ ∃ n, r = inl n
    | inr msg => d' = d ∧ r = inr msg
    end).
Proof.
  intros Hh Hes. unfold write_entries, saturating_sub. cbn [default id from_option]. unfold id.
  replace (Z.max (h - 1) 0) with (h - 1)%Z by lia. 
  wp_step. wp_step; [lia|].
  wp_step. replace (Z.max (h - (h - 1)) 1) with 1%Z by lia.
  change (checked_mul u64_max 1 10) with (Ok 10%Z). wp_step. wp_step.
  wp_step; [done|]. wp_step. wp_step; [done|]. cbn [Z.sub].
  wp_step. wp_step; [apply ss_new_ok; lia|]. wp_step.
  apply wp_mono with (λ s, s = mkWriting h (h - 1) 10 (h, (h - 1)%Z, 0%Z) [] es (Some root)).
  - apply (wp_fold_res _ (λ pre s,
      s = mkWriting h (h - 1) 10 (h, (h - 1)%Z, 0%Z) [] pre (Some root))); [done|].
    intros pre e post s Heq ->. unfold write_entry. simpl. wp_step.
    assert (is_tick e = false) as ->.
    { rewrite Heq in Hes. apply Forall_app in Hes as [_ [He _]%Forall_cons].
      apply not_true_iff_false. by rewrite is_tick_spec. }
    wp_step. by wp_step.
  - intros s ->. wp_step. simpl.
    destruct (ss_entries_to_shreds h (h - 1) 0 VERSION es true (Some root) 0 0) as [data coding].
    destruct (ss_insert d _) as [d2|msg]; [by eauto|done].
Qed.
End Writing.

(** ** Executing an attribute *)
Section Executing.
Context {Pubkey L1Hash L2Hash VTx Shred D W : Type} `{Countable L2Hash}.
Context `{!Entries L2Hash VTx, !EntriesLaws L2Hash VTx}.
Context `{!SimpleShreds Shred D L2Hash VTx, !SimpleShredsLaws Shred D L2Hash VTx}.
Context (process_single_tx : W → L2Transaction Pubkey → W * (VTx + string)).
Context (hash_default : L2Hash).
Context (clock : nat → Z) (random_root : nat → L2Hash) (log_info : bool).
Abbreviation attribute := (PayloadAttribute Pubkey L1Hash).
Abbreviation engine :=
  (SvmEngine (Pubkey:=Pubkey) (L1Hash:=L1Hash) (L2Hash:=L2Hash) (VTx:=VTx) (D:=D) (W:=W)).
Abbreviation runner :=
  (SimpleRunner (Pubkey:=Pubkey) (L1Hash:=L1Hash) (L2Hash:=L2Hash) (VTx:=VTx) (D:=D) (W:=W)).
Implicit Types (e : engine) (r : runner).
Local Abbreviation execute := (execute process_single_tx hash_default clock random_root log_info).

(** [e'] is [e] after an attribute of this epoch and sequence number: the
    ledger has at most one block more, and so has the channel to the batcher. *)
Definition executed_one (a : attribute) e e' : Prop :=
  contiguous (e_ledger e') ∧
  (latest_height (e_ledger e) ≤ latest_height (e_ledger e') ≤ latest_height (e_ledger e) + 1)%Z ∧
  (e_attributes e' = e_attributes e ∨ ∃ a', e_attributes e' = e_attributes e ++ [a'] ∧
     a_epoch a' = a_epoch a ∧ a_sequence_number a' = a_sequence_number a).

Definition same_controls r r' : Prop :=
  r_instant r' = r_instant r ∧ r_da r' = r_da r ∧ r_head r' = r_head r ∧
  r_sequence_number r' = r_sequence_number r.

(** What became of the attribute: a block with its transactions and those
    drained from the stream, and a message to the batcher; or, if one of the
    transactions fails, neither. *)
Definition block_applied (a : attribute) e e' (x : unit + string) : Prop :=
  let '(extra, stream) := next_batch (e_stream e) default_max_size in
  let txs := a_transactions a ++ extra in
  e_stream e' = stream ∧
  match process_each process_single_tx (e_world e) txs with
  | (w, inl vs) =>
      e_world e' = w ∧
      e_attributes e' = e_attributes e ++ [mkAttribute txs (a_epoch a) (a_sequence_number a)] ∧
      latest_height (e_ledger e') = (latest_height (e_ledger e) + 1)%Z ∧
      ∃ b, blocks (e_ledger e') !! (latest_height (e_ledger e) + 1)%Z = Some b ∧
        block_entries b = simple_entry hash_default <$> chunks txs_per_entry vs
  | (w, inr msg) =>
      e_world e' = w ∧ e_attributes e' = e_attributes e ∧ e_ledger e' = e_ledger e ∧ x = inr msg
  end.

Lemma execute_ok r a :
  contiguous (e_ledger (r_engine r)) → (latest_height (e_ledger (r_engine r)) < u64_max)%Z →
  wp (execute r a) (λ '(r', x),
    executed_one a (r_engine r) (r_engine r') ∧ same_controls r r' ∧
    block_applied a (r_engine r) (r_engine r') x).
Proof.
  intros Hc Hmax. pose proof (latest_nonneg (e_ledger (r_engine r))) as H0.
  unfold Runner.execute, produce_block, block_applied.
  destruct (next_batch (e_stream (r_engine r)) default_max_size) as [extra stream].
  set (a' := mkAttribute _ _ _). unfold produce. wp_step. wp_step. wp_step. wp_step; [lia|].
  wp_step. rewrite process_txs_ok. cbn [a_transactions a'].
  destruct (process_each process_single_tx (e_world (r_engine r)) (a_transactions a ++ extra))
    as [w [vs|msg]].
  - wp_step. wp_step. unfold runner_new_block, engine_new_block. wp_step.
    set (block := mkBlock _ _). destruct (ledger_new_block _ block) as [l head] eqn:Hl.
    simpl in Hl. assert (head = block_head block) as -> by (by injection Hl).
    destruct (contiguous_new_block (e_ledger (r_engine r)) block Hc eq_refl H0) as [Hc' Hlat].
    rewrite Hl in Hc', Hlat. simpl in Hc', Hlat. wp_step. simpl.
    eapply wp_mono.
    { apply write_entries_ok; simpl; [lia|]. apply Forall_fmap, Forall_forall.
      intros c Hc0. simpl. apply (chunks_nonempty txs_per_entry vs); [unfold txs_per_entry; lia|done]. }
    intros [d res] _. wp_step. wp_step. wp_step. simpl. split_and!; [|done..|].
    + split_and!; simpl; [done|lia|lia|]. right. by exists a'.
    + exists block. injection Hl as <-. simpl. by rewrite lookup_insert_eq.
  - wp_step. wp_step. simpl. split_and!; [|done..]. split_and!; simpl; [done|lia|lia|by left].
Qed.

(** A cache of attributes that were all executed is emptied without effect. *)
Lemma safe_loop_skips rcached r :
  (∀ a, a ∈ rcached → has_executed r a = true) →
  Runner.safe_loop process_single_tx hash_default clock random_root log_info rcached r =
  Ok (match rcached with [] => r | _ => register_da r [] end, inl ()).
Proof using Type.
  revert r. induction rcached as [|a l IH]; intros r Hall; [done|]. cbn [safe_loop].
  assert (has_executed (register_da r (reverse l)) a = true) as -> by (apply Hall; left).
  rewrite IH by (intros x Hx; apply Hall; by right). by destruct l.
Qed.
End Executing.
