(* ===== verification/RollupTheorems.v ===== *)
(** * Theorems about the example rollup *)
From S2P Require Import Prelude Banks Channels Rollup Runner RunnerFacts.

Section Theorems.
Context {Pubkey L1Hash L2Hash VTx Shred D W : Type} `{Countable L2Hash}.
Context `{!Entries L2Hash VTx, !EntriesLaws L2Hash VTx}.
Context `{!SimpleShreds Shred D L2Hash VTx, !SimpleShredsLaws Shred D L2Hash VTx}.
Context (process_single_tx : W → L2Transaction Pubkey → W * (VTx + string)).
Context (hash_default : L2Hash).
Context (clock : nat → Z) (random_root : nat → L2Hash) (log_info : bool).
Abbreviation attribute := (PayloadAttribute Pubkey L1Hash).
Abbreviation runner :=
  (SimpleRunner (Pubkey:=Pubkey) (L1Hash:=L1Hash) (L2Hash:=L2Hash) (VTx:=VTx) (D:=D) (W:=W)).
Abbreviation system :=
  (system (Pubkey:=Pubkey) (L1Hash:=L1Hash) (L2Hash:=L2Hash) (VTx:=VTx) (D:=D) (W:=W)).
Implicit Types (r : runner) (s : system).
Local Abbreviation execute := (execute process_single_tx hash_default clock random_root log_info).
Local Abbreviation advance := (advance process_single_tx hash_default clock random_root log_info).
Local Abbreviation advance_safe :=
  (advance_safe process_single_tx hash_default clock random_root log_info).
Local Abbreviation reachable :=
  (reachable process_single_tx hash_default clock random_root log_info).
Collection Env := Type Pubkey L1Hash L2Hash VTx Shred D W EqDecision0 H Entries0 SimpleShreds0
  process_single_tx hash_default clock random_root log_info EntriesLaws0 SimpleShredsLaws0.

(** The attribute was executed for the current layer 1 head or an earlier one. *)
Definition past r (a : attribute) : Prop :=
  ∃ head, r_head r = Some head ∧
    ((epoch_height (a_epoch a) < l1_height head)%Z ∨
     epoch_height (a_epoch a) = l1_height head ∧ (a_sequence_number a ≤ r_sequence_number r)%Z).

(** The heights of the layer 1 blocks seen and queued, in order. *)
Definition l1_heights r (q : Queue.t (L1BlockInfo Pubkey L1Hash)) : list Z :=
  match r_head r with Some h => [l1_height h] | None => [] end
  ++ ((λ i, l1_height (l1_head i)) <$> Queue.queue q).

Definition in_flight s : list attribute :=
  e_attributes (r_engine (s_runner s)) ++ s_cache s ++ s_next_batch s ++ concat (s_da_channel s)
  ++ default [] (r_da (s_runner s)).

Record inv s : Prop := {
  inv_ledger : contiguous (e_ledger (r_engine (s_runner s)));
  inv_da : is_Some (r_da (s_runner s));
  inv_l1 : ∃ q, r_instant (s_runner s) = Some q ∧ StronglySorted Z.lt (l1_heights (s_runner s) q) ∧
    Forall (λ h, h ≤ s_l1_height s)%Z (l1_heights (s_runner s) q);
  inv_past : Forall (past (s_runner s)) (in_flight s)
}.

Lemma past_executed r a : past r a → has_executed r a = true.
Proof using Type.
  intros (h & Hh & Ha). unfold has_executed. rewrite Hh.
  destruct (Z.ltb_spec (epoch_height (a_epoch a)) (l1_height h)); [done|].
  apply Z.leb_le. lia.
Qed.

Lemma advance_safe_skips r cached :
  r_da r = Some cached → Forall (past r) cached →
  advance_safe r = Ok (register_da r [], inl ()).
Proof using Type.
  intros Hd Hall. unfold Runner.advance_safe. rewrite Hd, safe_loop_skips.
  - destruct (reverse cached) eqn:Hr; [|done].
    apply (f_equal reverse) in Hr. rewrite reverse_involutive in Hr. simpl in Hr. subst cached.
    destruct r; simpl in *. by subst.
  - intros a Ha. apply past_executed. rewrite elem_of_reverse in Ha.
    by eapply Forall_forall in Hall.
Qed.

Lemma execute_height r a r' x :
  execute r a = Ok (r', x) → (latest_height (e_ledger (r_engine r)) < u64_max)%Z.
Proof using Type.
  unfold Runner.execute, produce_block. destruct (next_batch _ _) as [ex st]. unfold produce.
  intros He. res_split He as [e1 x1] He1. res_split He1 as [w y] He2. res_split He2 as n Hn.
  unfold checked_add in Hn. destruct (Z.leb_spec (latest_height (e_ledger (r_engine r)) + 1) u64_max);
    [lia|done].
Qed.

(** An execution that returned: what it changed. *)
Lemma execute_inv r a r' x :
  contiguous (e_ledger (r_engine r)) → execute r a = Ok (r', x) →
  executed_one a (r_engine r) (r_engine r') ∧ same_controls r r' ∧
  block_applied process_single_tx hash_default a (r_engine r) (r_engine r') x.
Proof using Env.
  intros Hc He. pose proof (execute_height _ _ _ _ He).
  destruct (wp_elim _ _ (execute_ok process_single_tx hash_default clock random_root log_info r a Hc
    ltac:(done))) as ([r2 y] & He2 & Hpost). congruence.
Qed.

Lemma past_controls r r' a : same_controls r r' → past r a → past r' a.
Proof using Type.
  intros (_ & _ & Hh & Hs) (h & Hr & Ha). exists h. by rewrite Hh, Hs.
Qed.

(** After executing an attribute of the current head, everything in flight is
    past. *)
Lemma execute_past r a r' x (rest : list attribute) :
  contiguous (e_ledger (r_engine r)) → execute r a = Ok (r', x) → past r a →
  Forall (past r) (e_attributes (r_engine r) ++ rest) →
  contiguous (e_ledger (r_engine r')) ∧ same_controls r r' ∧
  Forall (past r') (e_attributes (r_engine r') ++ rest).
Proof using Env.
  intros Hc He Ha Hall. destruct (execute_inv _ _ _ _ Hc He) as ((Hc' & _ & Hat) & Hs & _).
  split_and!; [done|done|]. rewrite Forall_app in *. destruct Hall as [H1 H2].
  assert (∀ l, Forall (past r) l → Forall (past r') l) as Himp.
  { intros l Hl. eapply Forall_impl; [exact Hl|]. intros y. by apply past_controls. }
  split; [|by apply Himp]. apply Himp.
  destruct Hat as [->|(a' & -> & Hep & Hsq)]; [done|].
  apply Forall_app. split; [done|]. apply Forall_singleton.
  destruct Ha as (h & Hh & Hor). exists h. by rewrite Hep, Hsq.
Qed.

(** The layer 1 blocks still queued, after the next one became the head. *)
Lemma l1_heights_next r r' q i l :
  Queue.queue q = i :: l → r_head r' = Some (l1_head i) →
  StronglySorted Z.lt (l1_heights r q) →
  StronglySorted Z.lt (l1_heights r' (Queue.mk (Queue.connected q) l)) ∧
  l1_heights r' (Queue.mk (Queue.connected q) l) ⊆ l1_heights r q ∧
  ∀ h, r_head r = Some h → (l1_height h < l1_height (l1_head i))%Z.
Proof using Type.
  unfold l1_heights. intros Hq Hh Hs. rewrite Hq, Hh in *. simpl in *.
  destruct (r_head r) as [h|]; simpl in *.
  - apply StronglySorted_inv in Hs as [Hs [Hlt _]%Forall_cons].
    split_and!; [done|intros x Hx; by right|]. by intros h' [= <-].
  - split_and!; [done|done|done].
Qed.

Lemma advance_unsafe_inv c n d h r r' x :
  inv (mkSystem r c n d h) →
  advance_unsafe process_single_tx hash_default clock random_root log_info r = Ok (r', x) →
  inv (mkSystem r' c n d h).
Proof using Env.
  intros [Hc Hda (q & Hq & Hs & Hle) Hall] Ha. simpl in *. unfold advance_unsafe, get_new_block in Ha.
  rewrite Hq in Ha. unfold Queue.recv in Ha. unfold in_flight in Hall. simpl in Hall.
  destruct (Queue.queue q) as [|i l] eqn:Hqq.
  - assert (register_instant r q = r) as Hr by (destruct r; simpl in *; by subst).
    destruct (Queue.connected q); rewrite ?Hr in Ha; [|by injection Ha as <- _; split; simpl; eauto].
    destruct (r_head r) as [head|] eqn:Hh; [|by injection Ha as <- _; split; simpl; eauto].
    res_split Ha as k Hk. unfold checked_add in Hk. case_match; [|done].
    injection Hk as <-. match type of Ha with Runner.execute _ _ _ _ _ ?x _ = _ => set (r1 := x) in Ha end.
    destruct (execute_past r1 _ _ _ (c ++ n ++ concat d ++ default [] (r_da r)) Hc Ha)
      as (Hc' & (Hi' & Hd' & Hh' & Hs') & Hall').
    + exists head. simpl. split; [done|]. right. lia.
    + eapply Forall_impl; [exact Hall|]. intros y (h' & Hh1 & Hor). exists h'. simpl.
      split; [congruence|]. lia.
    + split; simpl; [done|by rewrite Hd'| |unfold in_flight; simpl; by rewrite Hd'].
      exists q. unfold l1_heights in *. rewrite Hi', Hh'. simpl. by rewrite Hh in *.
  - match type of Ha with Runner.execute _ _ _ _ _ ?x _ = _ => set (r1 := x) in Ha end.
    destruct (l1_heights_next r r1 q i l Hqq eq_refl Hs) as (Hs1 & Hsub & Hlt).
    destruct (execute_past r1 _ _ _ (c ++ n ++ concat d ++ default [] (r_da r)) Hc Ha)
      as (Hc' & (Hi' & Hd' & Hh' & Hs') & Hall').
    + exists (l1_head i). simpl. split; [done|]. right. done.
    + eapply Forall_impl; [exact Hall|]. intros y (h' & Hh1 & Hor). exists (l1_head i).
      split; [done|]. left. specialize (Hlt h' Hh1). lia.
    + split; simpl; [done|by rewrite Hd'| |unfold in_flight; simpl; by rewrite Hd'].
      exists (Queue.mk (Queue.connected q) l).
      assert (l1_heights r' (Queue.mk (Queue.connected q) l)
        = l1_heights r1 (Queue.mk (Queue.connected q) l)) as -> by (unfold l1_heights; by rewrite Hh').
      split_and!; [done|done|]. rewrite Forall_forall in *. intros z Hz. by apply Hle, Hsub.
Qed.

Lemma inv_safe c n d h r :
  inv (mkSystem r c n d h) →
  advance_safe r = Ok (register_da r [], inl ()) ∧ inv (mkSystem (register_da r []) c n d h).
Proof using Type.
  intros [Hc [cached Hda] Hl Hall]. simpl in *. unfold in_flight in Hall. simpl in Hall.
  rewrite Hda in Hall. simpl in Hall. split.
  - apply advance_safe_skips with cached; [done|]. by repeat (apply Forall_app in Hall as [_ Hall]).
  - split; simpl; [done|by eexists|done|]. unfold in_flight. simpl. rewrite app_nil_r.
    rewrite !app_assoc in Hall. apply Forall_app in Hall as [Hall _]. by rewrite !app_assoc.
Qed.

(** An attribute that only moves between the queues stays past. *)
Lemma inv_moves r r' c c' n n' d d' h :
  same_controls (register_da r []) (register_da r' []) →
  e_ledger (r_engine r') = e_ledger (r_engine r) → is_Some (r_da r') →
  in_flight (mkSystem r' c' n' d' h) ⊆ in_flight (mkSystem r c n d h) →
  inv (mkSystem r c n d h) → inv (mkSystem r' c' n' d' h).
Proof using Type.
  intros (Hi & _ & Hh & Hs) Hl Hda' Hsub [Hc Hda Hl1 Hall]. simpl in *.
  split; simpl; [by rewrite Hl|done| |].
  - destruct Hl1 as (q & Hq & Hl1). exists q. rewrite Hi. split; [done|].
    unfold l1_heights in *. by rewrite Hh.
  - rewrite Forall_forall in *. intros a Ha. destruct (Hall a (Hsub a Ha)) as (hd & Hhd & Hp).
    exists hd. by rewrite Hh, Hs.
Qed.

Lemma inv_l1_block r c n d h q (i : L1BlockInfo Pubkey L1Hash) :
  r_instant r = Some q → l1_height (l1_head i) = (h + 1)%Z → inv (mkSystem r c n d h) →
  inv (mkSystem (register_instant r (Queue.mk true (Queue.queue q ++ [i]))) c n d (h + 1)).
Proof using Type.
  intros Hq Hi [Hc Hda (q' & Hq' & Hs & Hle) Hall]. simpl in *. simplify_eq.
  split; simpl; [done|done| |exact Hall].
  eexists. split; [done|]. unfold l1_heights in *. simpl.
  rewrite fmap_app, app_assoc. simpl. rewrite Hi. split.
  - apply StronglySorted_app_2; [|done|by repeat constructor].
    intros x y Hx ->%list_elem_of_singleton. rewrite Forall_forall in Hle. specialize (Hle x Hx). lia.
  - apply Forall_app. split; [|by constructor]. eapply Forall_impl; [exact Hle|]. simpl. lia.
Qed.

Lemma inv_step s s' :
  step process_single_tx hash_default clock random_root log_info s s' → inv s → inv s'.
Proof using Env.
  intros Hstep Hinv. destruct Hstep as [| |? ? ? ? ? ? ? Hat|? ? ? ? ? ? ? ? Hsend|? ? ? ? ? ? ? Hcd|].
  - eapply inv_moves, Hinv; [done|done|exact (inv_da _ Hinv)|done].
  - by eapply inv_l1_block.
  - eapply inv_moves, Hinv; [done|done|exact (inv_da _ Hinv)|].
    unfold in_flight. simpl. rewrite Hat. unfold receive_tx. set_solver.
  - eapply inv_moves, Hinv; [done|done|exact (inv_da _ Hinv)|].
    unfold in_flight, send_batch_round in *. repeat case_decide; simplify_eq/=; set_solver.
  - eapply inv_moves, Hinv; [done|done|by eexists|].
    unfold in_flight. simpl. rewrite Hcd. unfold try_update. simpl. set_solver.
  - destruct (inv_safe _ _ _ _ _ Hinv) as [Hsafe Hinv']. unfold Runner.advance in *.
    rewrite Hsafe in *. simpl in *. by eapply advance_unsafe_inv.
Qed.

Lemma reachable_inv h d w s : reachable h d w s → inv s.
Proof using Env.
  induction 1 as [|s s' _ IH Hstep]; [|by eapply inv_step].
  split; simpl; [apply contiguous_default|by eexists| |constructor].
  eexists. split; [done|]. split; constructor.
Qed.

(** A round that takes a layer 1 block from the queue. *)
Lemma advance_block h d w s q i l :
  reachable h d w s → r_instant (s_runner s) = Some q → Queue.queue q = i :: l →
  (latest_height (e_ledger (r_engine (s_runner s))) < u64_max)%Z →
  wp (advance (s_runner s)) (λ '(r', x),
    r_instant r' = Some (Queue.mk (Queue.connected q) l) ∧ r_head r' = Some (l1_head i) ∧
    r_sequence_number r' = 0%Z ∧
    (latest_height (e_ledger (r_engine r'))
     ≤ latest_height (e_ledger (r_engine (s_runner s))) + 1)%Z ∧
    block_applied process_single_tx hash_default (attribute_of_block i)
      (r_engine (s_runner s)) (r_engine r') x).
Proof using Env.
  intros Hr%reachable_inv Hq Hl Hmax. destruct s as [r c n da hh]. simpl in *.
  destruct (inv_safe _ _ _ _ _ Hr) as [Hsafe [Hc _ _ _]]. simpl in Hc.
  unfold Runner.advance. rewrite Hsafe. wp_step. wp_step.
  unfold advance_unsafe, get_new_block, Queue.recv. simpl. rewrite Hq, Hl. 
  eapply wp_mono; [by apply execute_ok|].
  intros [r' x] ((_ & Hle & _) & (Hi & _ & Hh & Hs) & Happ). simpl in *. by split_and!; [| | |lia|].
Qed.

Lemma process_each_total w txs :
  (∀ w tx, ∃ w' v, process_single_tx w tx = (w', inl v)) →
  ∃ w' vs, process_each process_single_tx w txs = (w', inl vs).
Proof using Type.
  intros Hok. revert w. induction txs as [|tx txs IH]; intros w; simpl; [by eauto|].
  destruct (Hok w tx) as (w1 & v & ->). destruct (IH w1) as (w2 & vs & ->). by eauto.
Qed.

(** C29: Every attribute that is on its way back through the batcher and the data
    availability layer was executed already: [advance_safe] empties the cache
    and leaves the engine, the head and the sequence number as they are. *)
Theorem never_reexecutes h d w s :
  reachable h d w s →
  (∀ a, a ∈ in_flight s → has_executed (s_runner s) a = true) ∧
  advance_safe (s_runner s) = Ok (register_da (s_runner s) [], inl ()).
Proof using Env.
  intros Hr%reachable_inv. split.
  - intros a Ha. apply past_executed. by eapply Forall_forall in Ha; [|exact (inv_past _ Hr)].
  - destruct s. by eapply inv_safe.
Qed.

(** The ledger has exactly the heights from 1 to its latest, each block under
    the height in its head. *)
Theorem ledger_contiguous h d w s :
  reachable h d w s →
  let l := e_ledger (r_engine (s_runner s)) in
  (∀ k, is_Some (get_head l k) ↔ (1 ≤ k ≤ latest_height l)%Z) ∧
  (∀ k hd, get_head l k = Some hd → l2_height hd = k).
Proof using Env.
  intros Hr%reachable_inv l. destruct (inv_ledger _ Hr) as [Hk Hd]. unfold get_head. split.
  - intros k. by rewrite fmap_is_Some.
  - intros k hd (b & Hb & ->)%fmap_Some. by apply Hk.
Qed.

(** C30: A round executes the next layer 1 block: its deposits, then the
    transactions drained from the stream, in entries of at most 64.  If one of
    them fails the round gives that error and the block is lost, with its
    deposits and the drained transactions, while the head has moved. *)
Theorem advance_executes_block h d w s q i l :
  reachable h d w s → r_instant (s_runner s) = Some q → Queue.queue q = i :: l →
  (latest_height (e_ledger (r_engine (s_runner s))) < u64_max)%Z →
  ∃ r' x, advance (s_runner s) = Ok (r', x) ∧
    r_instant r' = Some (Queue.mk (Queue.connected q) l) ∧ r_head r' = Some (l1_head i) ∧
    r_sequence_number r' = 0%Z ∧
    block_applied process_single_tx hash_default (attribute_of_block i)
      (r_engine (s_runner s)) (r_engine r') x.
Proof using Env.
  intros Hr Hq Hl Hmax.
  destruct (wp_elim _ _ (advance_block _ _ _ _ _ _ _ Hr Hq Hl Hmax)) as ([r' x] & Ha & Hpost).
  exists r', x. naive_solver.
Qed.

(** C32: Below the last height a round panics in one case only: the instant
    channel is open and empty, a layer 1 head is known and its sequence number
    is already 255, so that the next does not fit a byte.  The number starts at
    0 in the round that takes the head, so this is the 256th round after it. *)
Theorem advance_panics_exactly h d w s q :
  reachable h d w s → r_instant (s_runner s) = Some q →
  (latest_height (e_ledger (r_engine (s_runner s))) < u64_max)%Z →
  ((∃ msg, advance (s_runner s) = Panic msg) ↔
   Queue.queue q = [] ∧ Queue.connected q = true ∧ is_Some (r_head (s_runner s)) ∧
   (255 ≤ r_sequence_number (s_runner s))%Z).
Proof using Env.
  intros Hr Hq Hmax. destruct (Queue.queue q) as [|i l] eqn:Hl; last first.
  { destruct (wp_elim _ _ (advance_block _ _ _ _ _ _ _ Hr Hq Hl Hmax)) as (? & -> & _).
    split; [by intros [? ?]|by intros [? _]]. }
  apply reachable_inv in Hr. destruct s as [r c n da hh]. simpl in *.
  destruct (inv_safe _ _ _ _ _ Hr) as [Hsafe [Hc _ _ _]]. simpl in Hc.
  unfold Runner.advance. rewrite Hsafe. cbn [mbind res_bind].
  unfold advance_unsafe, get_new_block, Queue.recv. simpl. rewrite Hq, Hl.
  destruct (Queue.connected q); [|split; [by intros [? ?]|naive_solver]]. simpl.
  destruct (r_head r) as [head|]; [|split; [by intros [? ?]|by intros (_ & _ & [? ?] & _)]].
  unfold checked_add. destruct (Z.leb_spec (r_sequence_number r + 1) u8_max) as [Hle|Hgt].
  - cbn [mbind res_bind]. match goal with |- context[execute ?x ?a] => 
      destruct (wp_elim _ _ (execute_ok process_single_tx hash_default clock random_root log_info
        x a Hc Hmax)) as (? & -> & _) end.
    split; [by intros [? ?]|]. intros (_ & _ & _ & Hs). unfold u8_max in Hle. lia.
  - split; [|by eauto]. intros _. split_and!; [done|done|by eexists|]. unfold u8_max in Hgt. lia.
Qed.

(** After as many rounds of [main] as there are layer 1 blocks queued, the
    queue is empty and the last of them is the head; if no transaction fails,
    the ledger has grown by one block for each. *)
Theorem queued_blocks_executed h d w s q :
  reachable h d w s → r_instant (s_runner s) = Some q →
  let height r := latest_height (e_ledger (r_engine r)) in
  let n := length (Queue.queue q) in
  (height (s_runner s) + Z.of_nat n ≤ u64_max)%Z →
  ∃ r', main_loop process_single_tx hash_default clock random_root log_info n (s_runner s) = Ok r' ∧
    r_instant r' = Some (Queue.mk (Queue.connected q) []) ∧
    (∀ i, last (Queue.queue q) = Some i → r_head r' = Some (l1_head i)) ∧
    ((∀ w tx, ∃ w' v, process_single_tx w tx = (w', inl v)) →
     height r' = (height (s_runner s) + Z.of_nat n)%Z).
Proof using Env.
  destruct q as [conn l]. simpl. revert s.
  induction l as [|i l IH]; intros s Hr Hq Hmax; cbn [length main_loop] in *.
  { exists (s_runner s). split_and!; [done|done|done|]. intros _. lia. }
  destruct (wp_elim _ _ (advance_block _ _ _ _ _ _ _ Hr Hq eq_refl ltac:(lia)))
    as ([r x] & Ha & Hi & Hh & Hsq & Hle & Happ). simpl in Hi.
  set (s' := mkSystem r (s_cache s) (s_next_batch s) (s_da_channel s) (s_l1_height s)).
  assert (reachable h d w s') as Hr'.
  { eapply reach_step; [exact Hr|]. destruct s. by eapply step_advance. }
  destruct (IH s' Hr' Hi) as (r' & Hm & Hi' & Hl' & Hgrow); [simpl; lia|].
  exists r'. rewrite Ha. cbn [mbind res_bind]. split_and!; [done|done| |].
  - intros j. destruct l as [|i2 l]; [|by apply Hl'].
    intros [= <-]. cbn in Hm. injection Hm as <-. by simpl in Hh.
  - intros Hok. rewrite (Hgrow Hok). simpl. unfold block_applied in Happ.
    destruct (next_batch _ _) as [extra st]. destruct Happ as [_ Happ].
    destruct (process_each_total (e_world (r_engine (s_runner s)))
      (a_transactions (attribute_of_block (L1Hash:=L1Hash) i) ++ extra) Hok) as (w' & vs & Heq).
    rewrite Heq in Happ. destruct Happ as (_ & _ & -> & _). lia.
Qed.
End Theorems.

(** Two layer 1 blocks, with a bank that has 10 to spend. *)
Module RollupWitnesses.
#[export] Instance entries : Entries nat Z := {|
  next_hash h _ _ := S h;
  is_tick e := bool_decide (entry_transactions e = [])
|}.
#[export] Instance entries_laws : EntriesLaws nat Z.
Proof. intros e. apply bool_decide_eq_true. Qed.
#[export] Instance shreds : SimpleShreds Z (list Z) nat Z := {|
  ss_new slot parent _ _ := bool_decide (parent < slot ≤ parent + 65535)%Z;
  ss_entries_to_shreds slot _ _ _ es _ _ _ _ := ([slot], [Z.of_nat (length es)]);
  ss_merkle_root _ := Some 0;
  ss_is_data _ := true;
  ss_insert d l := inl (d ++ l)
|}.
#[export] Instance shreds_laws : SimpleShredsLaws Z (list Z) nat Z.
Proof. intros slot parent tick version Hs. by apply bool_decide_eq_true. Qed.

Definition pay (w : Z) (tx : L2Transaction nat) : Z * (Z + string) :=
  if (t_amount tx <=? w)%Z then ((w - t_amount tx)%Z, inl (t_amount tx)) else (w, inr "tx failed").
Definition clock (n : nat) : Z := Z.of_nat n.
Definition l1_block (h : Z) (amount : Z) : L1BlockInfo nat nat :=
  mkL1Block [mkDeposit 1 2 amount []] None (mkL1Head 0 h 0).
Abbreviation demo_system :=
  (system (Pubkey:=nat) (L1Hash:=nat) (L2Hash:=nat) (VTx:=Z) (D:=list Z) (W:=Z)).
Abbreviation reach := (reachable (L1Hash:=nat) pay 0 clock id true 0 [] 10%Z).

Definition q2 := Queue.mk true [l1_block 1 4; l1_block 2 5].
Definition s2 : demo_system :=
  mkSystem (register_da (register_instant (runner_new (mkEngine [] ledger_default [] 10%Z [] 0)) q2)
              []) [] [] [] 2.
Definition s1 : demo_system :=
  mkSystem (register_instant (s_runner (start 0 [] 10%Z)) (Queue.mk true [l1_block 1 4])) [] [] [] 1.
Lemma s2_reachable : reach s2.
Proof.
  apply (reach_step _ _ _ _ _ _ _ _ s1); [apply (reach_step _ _ _ _ _ _ _ _ (start 0 [] 10%Z))|].
  - constructor.
  - exact (step_l1 _ _ _ _ _ (s_runner (start 0 [] 10%Z)) [] [] [] 0 (Queue.mk true [])
             (l1_block 1 4) eq_refl eq_refl eq_refl).
  - exact (step_l1 _ _ _ _ _ (s_runner s1) [] [] [] 1 (Queue.mk true [l1_block 1 4])
             (l1_block 2 5) eq_refl eq_refl eq_refl).
Qed.

(** The states after rounds of [main]. *)
Lemma rounds_reachable n (s : demo_system) r :
  reach s → main_loop pay 0 clock id true n (s_runner s) = Ok r →
  reach (mkSystem r (s_cache s) (s_next_batch s) (s_da_channel s) (s_l1_height s)).
Proof.
  revert s. induction n as [|n IH]; intros s Hr; cbn [main_loop].
  - intros [= <-]. by destruct s.
  - intros Hm. res_split Hm as [r1 x] H1.
    apply (IH (mkSystem r1 (s_cache s) (s_next_batch s) (s_da_channel s) (s_l1_height s))); [|done].
    eapply reach_step; [exact Hr|]. destruct s. by eapply step_advance.
Qed.
Definition after (n : nat) : demo_system :=
  match main_loop pay 0 clock id true n (s_runner s2) with
  | Ok r => mkSystem r [] [] [] 2
  | Panic _ => s2
  end.
Lemma after_reachable n : reach (after n).
Proof.
  unfold after. destruct (main_loop pay 0 clock id true n (s_runner s2)) as [r|msg] eqn:Hm;
    [|exact s2_reachable]. exact (rounds_reachable n s2 r s2_reachable Hm).
Qed.

(** The second block's attribute has come back through the DA channel. *)
Lemma never_reexecutes_witness :
  ∃ s a, reach s ∧ r_da (s_runner s) = Some [a] ∧ has_executed (s_runner s) a = true ∧
    advance_safe pay 0 clock id true (s_runner s) = Ok (register_da (s_runner s) [], inl ()).
Proof.
  pose (r := take_attributes (s_runner (after 1)) []).
  pose (a := mkAttribute [mkL2Tx 1 2 4%Z []] (mkEpoch 0 1%Z 0%Z) 0%Z
         : PayloadAttribute nat nat).
  assert (reach (mkSystem (register_da r (try_update [] [a])) [] [] [] 2)) as Hr.
  { eapply reach_step; [|by apply step_da].
    eapply reach_step; [|by eapply (step_send _ _ _ _ _ _ [] [a] [])].
    eapply reach_step; [|by eapply (step_send _ _ _ _ _ _ [a] [] [])].
    eapply reach_step; [|by apply (step_receive _ _ _ _ _ (s_runner (after 1)) [] [] [] 2 a)].
    exact (after_reachable 1). }
  destruct (never_reexecutes pay 0 clock id true _ _ _ _ Hr) as [Hall Hsafe].
  exists (mkSystem (register_da r (try_update [] [a])) [] [] [] 2), a.
  split; [exact Hr|]. split; [done|]. split; [|exact Hsafe]. apply Hall. by vm_compute; left.
Defined.

Lemma ledger_contiguous_witness :
  latest_height (e_ledger (r_engine (s_runner (after 5)))) = 5%Z ∧
  is_Some (get_head (e_ledger (r_engine (s_runner (after 5)))) 3).
Proof.
  destruct (ledger_contiguous pay 0 clock id true _ _ _ _ (after_reachable 5)) as [Hd _].
  assert (latest_height (e_ledger (r_engine (s_runner (after 5)))) = 5%Z) as Hl by by vm_compute.
  split; [exact Hl|]. apply Hd. rewrite Hl. lia.
Defined.

Lemma advance_executes_witness :
  ∃ r x, advance pay 0 clock id true (s_runner s2) = Ok (r, x) ∧ r_head r = Some (mkL1Head 0 1%Z 0%Z).
Proof.
  destruct (advance_executes_block pay 0 clock id true 0 [] 10%Z s2 q2 (l1_block 1 4) [l1_block 2 5]
    s2_reachable eq_refl eq_refl) as (r & x & Ha & _ & Hh & _); [by vm_compute|].
  by exists r, x.
Defined.

Lemma advance_panics_witness :
  ∃ msg, advance pay 0 clock id true (s_runner (after 257)) = Panic msg.
Proof.
  apply (advance_panics_exactly pay 0 clock id true 0 [] 10%Z (after 257) (Queue.mk true [])
    (after_reachable 257)); [by vm_compute|by vm_compute|].
  split_and!; [done|done|by vm_compute; eexists|by vm_compute].
Defined.

Lemma queued_blocks_witness :
  ∃ r, main_loop pay 0 clock id true 2 (s_runner s2) = Ok r ∧ r_head r = Some (mkL1Head 0 2%Z 0%Z).
Proof.
  destruct (queued_blocks_executed pay 0 clock id true 0 [] 10%Z s2 q2 s2_reachable eq_refl)
    as (r & Hm & _ & Hh & _); [by vm_compute|].
  exists r. split; [exact Hm|]. exact (Hh (l1_block 2 5) eq_refl).
Defined.
End RollupWitnesses.
