(* ===== verification/MockChain.v ===== *)
(** * The mock layer 1 and the mock server of transactions

    [example/src/mock/chain.rs] and [example/src/mock/stream.rs].  The readings of the clock, the random numbers
    and the fresh keys are streams; a round of the loop of [run] sends one
    block, and the channel may have been closed. *)
From S2P Require Import Prelude Banks Channels Rollup Runner RunnerFacts RollupTheorems.
Set Default Proof Using "Type*".

(** [start_height]; the sender is the far end of the queue of the runner. *)
Record MockLayer1 := mkMockLayer1 { start_height : Z }.
Definition layer1_new (start_height : Z) : MockLayer1 := mkMockLayer1 start_height.

Section MockChain.
Context {Pubkey L1Hash : Type} (hash_default : L1Hash).
(** [Utc::now().timestamp()] of the block of a height, a signed number of seconds *)
Context (now : Z → Z).
(** [rand::random::<u64>()] and the keys of [Keypair::new()]: the number drawn
    for a block, and the keys and the number of its [i]-th deposit *)
Context (draw_count : Z → Z) (draw : Z → nat → Pubkey * Pubkey * Z).
Abbreviation l1block := (L1BlockInfo Pubkey L1Hash).

(** [as u64] *)
Definition random_head (height : Z) : L1Head L1Hash :=
  mkL1Head hash_default height (now height `mod` 2 ^ 64)%Z.
Definition random_deposit_tx (d : Pubkey * Pubkey * Z) : DepositTx :=
  let '(from, to, r) := d in mkDeposit from to (r `mod` 100)%Z [].
Definition random_deposit_txs (height : Z) : list DepositTx :=
  let rand_count := Z.to_nat (draw_count height `mod` 10) in
  (λ i, random_deposit_tx (draw height i)) <$> seq 0 rand_count.
Definition generate_block (height : Z) : l1block :=
  mkL1Block (random_deposit_txs height) None (random_head height).

(** [rounds] turns of the loop of [run]: the height after them and the queue
    at the other end.  A block for a closed channel is lost, with an error in
    the log. *)
Definition run_round (st : Z * Queue.t l1block) : res (Z * Queue.t l1block) :=
  height ← checked_add u64_max st.1 1;
  let q := st.2 in
  Ok (height, if Queue.connected q
              then Queue.mk true (Queue.queue q ++ [generate_block height]) else q).
Fixpoint run_loop (rounds : nat) (st : Z * Queue.t l1block) : res (Z * Queue.t l1block) :=
  match rounds with
  | 0 => Ok st
  | S rounds => st ← run_round st; run_loop rounds st
  end.
Definition run (c : MockLayer1) (q : Queue.t l1block) (rounds : nat) : res (Z * Queue.t l1block) :=
  run_loop rounds (start_height c, q).

(** [TxServer]: one turn of its loop, from the random byte and the transactions drawn *)
Definition random_l2_tx (d : Pubkey * Pubkey * Z) : L2Transaction Pubkey :=
  let '(from, to, r) := d in mkL2Tx from to (r `mod` 100)%Z [].
Definition server_round (byte : Z) (drawn : nat → Pubkey * Pubkey * Z)
    (stream : list (L2Transaction Pubkey)) : list (L2Transaction Pubkey) :=
  let tx_count := Z.to_nat (byte `mod` 5) in
  foldl (λ stream i, stream_insert stream (random_l2_tx (drawn i))) stream (seq 0 tx_count).

(** The blocks of [n] rounds from a height *)
Definition blocks_from (height : Z) (n : nat) : list l1block :=
  (λ i, generate_block (height + 1 + Z.of_nat i)) <$> seq 0 n.

Lemma blocks_from_S height n :
  blocks_from height (S n) = generate_block (height + 1) :: blocks_from (height + 1) n.
Proof.
  unfold blocks_from. cbn [seq]. rewrite fmap_cons. f_equal; [f_equal; lia|].
  rewrite <-fmap_S_seq, <-list_fmap_compose. apply list_fmap_ext. intros i x _. unfold compose. f_equal. lia.
Qed.

Lemma run_loop_connected n height l :
  (height + Z.of_nat n ≤ u64_max)%Z →
  run_loop n (height, Queue.mk true l) =
    Ok ((height + Z.of_nat n)%Z, Queue.mk true (l ++ blocks_from height n)).
Proof.
  revert height l. induction n as [|n IH]; intros height l Hmax.
  { cbn. rewrite app_nil_r. do 2 f_equal. lia. }
  cbn [run_loop]. unfold run_round, checked_add. cbn [fst snd].
  rewrite (proj2 (Z.leb_le _ _)) by lia. cbn [mbind res_bind Queue.connected Queue.queue].
  rewrite IH by lia. rewrite blocks_from_S, <-app_assoc. do 2 f_equal. lia.
Qed.

(** At the greatest height the loop panics. *)
Lemma run_round_overflow q : run_round (u64_max, q) = Panic "attempt to add with overflow".
Proof. done. Qed.

(** Every deposit carries less than 100 and no data, and a block has less than ten. *)
Lemma generated_deposits height :
  length (deposit_txs (generate_block height)) < 10 ∧
  Forall (λ d, 0 ≤ d_amount d < 100 ∧ d_calldata d = [])%Z (deposit_txs (generate_block height)).
Proof.
  cbn. unfold random_deposit_txs. split.
  - rewrite length_fmap, length_seq. pose proof (Z.mod_pos_bound (draw_count height) 10). lia.
  - apply Forall_fmap, Forall_forall. intros i _. cbn. destruct (draw height i) as [[? ?] r]. cbn.
    split; [apply Z.mod_pos_bound; lia|done].
Qed.
End MockChain.

(** A turn of the server is a sequence of steps of the system. *)
Lemma server_round_steps {Pubkey L1Hash L2Hash VTx Shred D W : Type} `{Countable L2Hash}
    `{!Entries L2Hash VTx, !SimpleShreds Shred D L2Hash VTx}
    (process : W → L2Transaction Pubkey → W * (VTx + string)) hash clock root log byte drawn
    (s : system (L1Hash:=L1Hash) (D:=D)) :
  ∃ s', rtc (step process hash clock root log) s s' ∧
    e_stream (r_engine (s_runner s')) = server_round byte drawn (e_stream (r_engine (s_runner s))).
Proof.
  unfold server_round. generalize (seq 0 (Z.to_nat (byte `mod` 5))). intros l.
  revert s. induction l as [|i l IH]; intros s; [by eexists|].
  destruct s as [r c n d h].
  destruct (IH (mkSystem (insert_tx r (random_l2_tx (drawn i))) c n d h)) as (s' & Hs & He).
  exists s'. split; [|exact He]. eapply rtc_l; [apply step_tx|exact Hs].
Qed.

(** ** From layer 1 to the ledger *)

Section Layer1.
Context {Pubkey L1Hash L2Hash VTx Shred D W : Type} `{Countable L2Hash}.
Context `{!Entries L2Hash VTx, !EntriesLaws L2Hash VTx}.
Context `{!SimpleShreds Shred D L2Hash VTx, !SimpleShredsLaws Shred D L2Hash VTx}.
Context (process_single_tx : W → L2Transaction Pubkey → W * (VTx + string)).
Context (l2_hash_default : L2Hash) (clock : nat → Z) (random_root : nat → L2Hash) (log_info : bool).
Context (hash_default : L1Hash) (now draw_count : Z → Z) (draw : Z → nat → Pubkey * Pubkey * Z).
Local Abbreviation reachable :=
  (reachable process_single_tx l2_hash_default clock random_root log_info).
Local Abbreviation main_loop :=
  (main_loop process_single_tx l2_hash_default clock random_root log_info).
Local Abbreviation blocks_from := (blocks_from hash_default now draw_count draw).
Local Abbreviation run := (run hash_default now draw_count draw).
Local Abbreviation random_head := (random_head hash_default now).

(** The system after the blocks of [n] rounds of layer 1 *)
Definition delivered (s : system) (q : Queue.t (L1BlockInfo Pubkey L1Hash)) (n : nat) :
    system (L2Hash:=L2Hash) (VTx:=VTx) (D:=D) (W:=W) :=
  mkSystem (register_instant (s_runner s) (Queue.mk true (Queue.queue q ++ blocks_from (s_l1_height s) n)))
    (s_cache s) (s_next_batch s) (s_da_channel s) (s_l1_height s + Z.of_nat n)%Z.

Lemma delivered_reachable h d w s q n :
  reachable h d w s → r_instant (s_runner s) = Some q → Queue.connected q = true →
  reachable h d w (delivered s q n).
Proof.
  intros Hr Hq Hc. induction n as [|n IH].
  { unfold delivered. cbn. rewrite app_nil_r, Z.add_0_r. destruct s as [r c nb da hh], r, q. cbn in *. by subst. }
  eapply reach_step; [exact IH|].
  assert (delivered s q (S n) = mkSystem (register_instant (s_runner (delivered s q n))
    (Queue.mk true ((Queue.queue q ++ blocks_from (s_l1_height s) n)
       ++ [generate_block hash_default now draw_count draw (s_l1_height s + Z.of_nat n + 1)])))
    (s_cache s) (s_next_batch s) (s_da_channel s) (s_l1_height s + Z.of_nat n + 1)%Z) as ->.
  { unfold delivered, MockChain.blocks_from. rewrite seq_S, fmap_app, app_assoc. cbn -[Z.of_nat].
    replace (s_l1_height s + 1 + Z.of_nat n)%Z with (s_l1_height s + Z.of_nat n + 1)%Z by lia.
    f_equal. lia. }
  exact (step_l1 _ _ _ _ _ (s_runner (delivered s q n)) _ _ _ _
    (Queue.mk true (Queue.queue q ++ blocks_from (s_l1_height s) n))
    (generate_block hash_default now draw_count draw (s_l1_height s + Z.of_nat n + 1))
    eq_refl eq_refl eq_refl).
Qed.

(** C31: The blocks of [n] rounds of the mock layer 1 reach the runner and are
    executed: the loop of [run] does not panic, and after as many rounds of
    [main] as there are blocks queued the queue is empty and the head is the
    last block of layer 1; if no transaction fails, the ledger has grown by one
    block for each block queued before and each block of these rounds. *)
Theorem layer1_executed h d w s q n :
  reachable h d w s → r_instant (s_runner s) = Some q → Queue.connected q = true →
  let height r := latest_height (e_ledger (r_engine r)) in
  let blocks := length (Queue.queue q) + n in
  (s_l1_height s + Z.of_nat n ≤ u64_max)%Z →
  (height (s_runner s) + Z.of_nat blocks ≤ u64_max)%Z →
  ∃ q' r', run (layer1_new (s_l1_height s)) q n = Ok ((s_l1_height s + Z.of_nat n)%Z, q') ∧
    main_loop blocks (register_instant (s_runner s) q') = Ok r' ∧
    r_instant r' = Some (Queue.mk true []) ∧
    (0 < n → r_head r' = Some (random_head (s_l1_height s + Z.of_nat n))) ∧
    ((∀ w tx, ∃ w' v, process_single_tx w tx = (w', inl v)) →
     height r' = (height (s_runner s) + Z.of_nat blocks)%Z).
Proof.
  intros Hr Hq Hc height blocks Hl1 Hmax. destruct q as [conn l]. cbn in Hc. subst conn.
  set (q' := Queue.mk true (l ++ blocks_from (s_l1_height s) n)).
  assert (length (Queue.queue q') = blocks) as Hlen.
  { cbn. unfold MockChain.blocks_from. by rewrite length_app, length_fmap, length_seq. }
  destruct (queued_blocks_executed _ _ _ _ _ _ _ _ _ q' (delivered_reachable h d w s _ n Hr Hq eq_refl) eq_refl)
    as (r' & Hm & Hi & Hh & Hg); [by rewrite Hlen|]. rewrite Hlen in *.
  exists q', r'. split_and!; [by apply run_loop_connected|exact Hm|exact Hi| |exact Hg].
  intros Hn. destruct n as [|n]; [lia|].
  rewrite (Hh (generate_block hash_default now draw_count draw (s_l1_height s + 1 + Z.of_nat n))).
  - cbn. do 2 f_equal; lia.
  - unfold q', MockChain.blocks_from. cbn [Queue.queue]. by rewrite seq_S, fmap_app, app_assoc, fmap_cons, fmap_nil, last_snoc.
Qed.
End Layer1.

(** Two rounds of layer 1 from height 0, with a bank that has 10 to spend and
    deposits of 3. *)
Module MockChainWitnesses.
Import RollupWitnesses.

Lemma layer1_executed_witness :
  ∃ q' r', run 0 id (λ _, 21%Z) (λ _ _, (1, 2, 103%Z)) (layer1_new 0) (Queue.mk true []) 2 = Ok (2%Z, q') ∧
    main_loop pay 0 clock id true 2 (register_instant (s_runner (start 0 [] 10%Z)) q') = Ok r' ∧
    r_head r' = Some (mkL1Head 0 2%Z 2%Z).
Proof.
  destruct (layer1_executed pay 0 clock id true 0 id (λ _, 21%Z) (λ _ _, (1, 2, 103%Z)) 0 [] 10%Z
    (start 0 [] 10%Z) (Queue.mk true []) 2 (reach_start _ _ _ _ _ _ _ _) eq_refl eq_refl)
    as (q' & r' & Hrun & Hm & _ & Hh & _); [by vm_compute|by vm_compute|].
  exists q', r'. split_and!; [exact Hrun|exact Hm|]. rewrite Hh by lia. by vm_compute.
Defined.
End MockChainWitnesses.
