(* ===== verification/RpcBase.v ===== *)
(** * The RPC service: requests and the processor

    The parts of [rpc/src/jsonrpc/core.rs] that all requests share: errors, the
    processor and the bank a request is answered from.  Banks, the block store
    and the long-term storage are interfaces; a request reads each of them at
    one moment. *)
From S2P Require Import Prelude.
Set Default Proof Using "Type*".

(** ** Errors *)

(** [RpcCustomError], with texts for what it carries of other crates *)
Inductive RpcCustomError :=
| BlockCleanedUp (slot first_available_block : Z)
| BlockNotAvailable (slot : Z)
| BlockStatusNotAvailableYet (slot : Z)
| SlotSkipped (slot : Z)
| LongTermStorageSlotSkipped (slot : Z)
| TransactionHistoryNotAvailable
| MinContextSlotNotReached (context_slot : Z)
| KeyExcludedFromSecondaryIndex (index_key : string)
| ScanError (message : string)
| EpochRewardsPeriodActive (slot current_block_height rewards_complete_block_height : Z)
| TransactionSignatureVerificationFailure
| TransactionPrecompileVerificationFailure (message : string)
| SendTransactionPreflightFailure (message : string)
| UnsupportedTransactionVersion (version : Z)
| NoSnapshot.
(** [jsonrpc_core::Error] by its code, and the custom errors converted to one *)
Inductive RpcError :=
| InvalidParams (message : string)
| InvalidRequest
| InvalidRequestWith (message : string)
| InternalError
| Custom (e : RpcCustomError).

(** [Result<T>] *)
Definition rpc (A : Type) : Type := A + RpcError.
#[global] Instance rpc_ret : MRet rpc := λ A a, inl a.
#[global] Instance rpc_bind : MBind rpc := λ A B k m,
  match m with inl a => k a | inr e => inr e end.
Definition fail {A} (e : RpcError) : rpc A := inr e.
Definition custom {A} (e : RpcCustomError) : rpc A := inr (Custom e).
Definition ok_or {A} (o : option A) (e : RpcError) : rpc A :=
  match o with Some a => inl a | None => inr e end.
(** [r.map_err(|_| e)] *)
Definition map_err {A E} (r : A + E) (e : E → RpcError) : rpc A :=
  match r with inl a => inl a | inr x => inr (e x) end.
(** [iter.map(f).collect::<Result<Vec<_>>>()] *)
Fixpoint collect_rpc {A B} (f : A → rpc B) (l : list A) : rpc (list B) :=
  match l with
  | [] => inl []
  | x :: l => y ← f x; ys ← collect_rpc f l; inl (y :: ys)
  end.

Lemma collect_rpc_ok {A B} (f : A → rpc B) l ys :
  collect_rpc f l = inl ys ↔ Forall2 (λ x y, f x = inl y) l ys.
Proof.
  revert ys. induction l as [|x l IH]; intros ys; cbn.
  - split; [intros [= <-]; constructor|by inversion 1].
  - split.
    + destruct (f x) as [y|] eqn:Hf; [|done]. cbn. destruct (collect_rpc f l) as [zs|]; [|done].
      intros [= <-]. constructor; [done|by apply IH].
    + inversion 1 as [|? y ? zs Hy Hzs]; subst. rewrite Hy. cbn. apply IH in Hzs. by rewrite Hzs.
Qed.

(** ** Commitment and context *)

(** The levels that are not deprecated. *)
Inductive CommitmentLevel := Processed | Confirmed | Finalized.
Definition commitment_default : CommitmentLevel := Finalized.
Definition is_confirmed (c : CommitmentLevel) : bool :=
  match c with Confirmed => true | _ => false end.
Definition is_at_least_confirmed (c : CommitmentLevel) : bool :=
  match c with Processed => false | _ => true end.
Record RpcContextConfig := mkContext {
  cx_commitment : option CommitmentLevel; cx_min_context_slot : option Z
}.
Definition context_default : RpcContextConfig := mkContext None None.

Definition check_is_at_least_confirmed (c : CommitmentLevel) : rpc unit :=
  if is_at_least_confirmed c then inl ()
  else fail (InvalidParams "Method does not support commitment below `confirmed`").

Record RpcResponse (T : Type) := mkResponse { r_context_slot : Z; r_value : T }.
Arguments mkResponse {_}.
Arguments r_context_slot {_}.
Arguments r_value {_}.

(** ** Banks

    [Bank] as the requests use it. *)
Class QueryBank (BK Pubkey Hash Signature Account TransactionError : Type) := {
  qb_slot : BK → Z;
  qb_block_height : BK → Z;
  qb_unix_timestamp : BK → Z;
  qb_genesis_creation_time : BK → Z;
  qb_collector_id : BK → Pubkey;
  qb_transaction_count : BK → Z;
  qb_get_balance : BK → Pubkey → Z;
  qb_get_account : BK → Pubkey → option Account;
  qb_status_cache_ancestors : BK → list Z;
  qb_signature_status : BK → Signature → option (unit + TransactionError);
  qb_signature_status_slot : BK → Signature → option (Z * (unit + TransactionError));
  qb_last_blockhash : BK → Hash;
  qb_is_blockhash_valid : BK → Hash → bool;
  qb_last_valid_block_height : BK → Hash → option Z;
  qb_minimum_balance_for_rent_exemption : BK → Z → Z;
  pubkey_to_string : Pubkey → string;
  hash_to_string : Hash → string
}.

(** The bank forks at one moment. *)
Record Forks (BK : Type) := mkForks {
  fk_root : Z; fk_working_bank : BK; fk_get : Z → option BK
}.
Arguments mkForks {_}.
Arguments fk_root {_}.
Arguments fk_working_bank {_}.
Arguments fk_get {_}.

(** The fields of [JsonRpcRequestProcessor] the modelled requests use. *)
Record Processor (BK BS BT : Type) := mkProcessor {
  bank_forks : Forks BK;
  blockstore : BS;
  enable_rpc_transaction_history : bool;
  bigtable_ledger_storage : option BT;
  max_complete_transaction_status_slot : Z
}.
Arguments mkProcessor {_ _ _}.
Arguments bank_forks {_ _ _}.
Arguments blockstore {_ _ _}.
Arguments enable_rpc_transaction_history {_ _ _}.
Arguments bigtable_ledger_storage {_ _ _}.
Arguments max_complete_transaction_status_slot {_ _ _}.

Section Bank.
Context {BK BS BT Pubkey Hash Signature Account TransactionError : Type}.
Context `{!QueryBank BK Pubkey Hash Signature Account TransactionError}.
Implicit Types (p : Processor BK BS BT).

Definition clone_without_bigtable p : Processor BK BS BT :=
  mkProcessor (bank_forks p) (blockstore p) (enable_rpc_transaction_history p) None
    (max_complete_transaction_status_slot p).

(** The commitment is ignored. *)
Definition rpc_bank p (c : option CommitmentLevel) : BK := fk_working_bank (bank_forks p).

Definition get_bank_with_config p (config : RpcContextConfig) : rpc BK :=
  let bank := rpc_bank p (cx_commitment config) in
  match cx_min_context_slot config with
  | Some min_context_slot =>
      if (qb_slot bank <? min_context_slot)%Z then custom (MinContextSlotNotReached (qb_slot bank))
      else inl bank
  | None => inl bank
  end.

Definition new_response {T} (bank : BK) (value : T) : RpcResponse T :=
  mkResponse (qb_slot bank) value.
Definition genesis_creation_time p : Z := qb_genesis_creation_time (rpc_bank p None).

(** ** Requests answered by the bank alone *)

Definition get_balance p (pubkey : Pubkey) (config : RpcContextConfig) : rpc (RpcResponse Z) :=
  bank ← get_bank_with_config p config;
  inl (new_response bank (qb_get_balance bank pubkey)).
Definition get_slot p (config : RpcContextConfig) : rpc Z :=
  bank ← get_bank_with_config p config; inl (qb_slot bank).
Definition get_block_height p (config : RpcContextConfig) : rpc Z :=
  bank ← get_bank_with_config p config; inl (qb_block_height bank).
Definition get_slot_leader p (config : RpcContextConfig) : rpc string :=
  bank ← get_bank_with_config p config; inl (pubkey_to_string (qb_collector_id bank)).
Definition get_slot_leaders p (c : option CommitmentLevel) (start_slot : Z) (limit : nat) :
    rpc (list Pubkey) := inl [qb_collector_id (rpc_bank p c)].
Definition get_transaction_count p (config : RpcContextConfig) : rpc Z :=
  bank ← get_bank_with_config p config; inl (qb_transaction_count bank).
Definition get_minimum_balance_for_rent_exemption p (data_len : Z) (c : option CommitmentLevel) : Z :=
  qb_minimum_balance_for_rent_exemption (rpc_bank p c) data_len.
Definition confirm_transaction p (signature : Signature) (c : option CommitmentLevel) :
    rpc (RpcResponse bool) :=
  let bank := rpc_bank p c in
  match qb_signature_status bank signature with
  | Some status => inl (new_response bank (match status with inl _ => true | inr _ => false end))
  | None => inl (new_response bank false)
  end.
Definition is_blockhash_valid p (blockhash : Hash) (config : RpcContextConfig) :
    rpc (RpcResponse bool) :=
  bank ← get_bank_with_config p config;
  inl (new_response bank (qb_is_blockhash_valid bank blockhash)).
(** The blockhash and the last block height it is valid for. *)
Definition get_latest_blockhash p (config : RpcContextConfig) :
    res (rpc (RpcResponse (string * Z))) :=
  match get_bank_with_config p config with
  | inr e => Ok (inr e)
  | inl bank =>
      let blockhash := qb_last_blockhash bank in
      height ← expect (qb_last_valid_block_height bank blockhash)
                 "bank blockhash queue should contain blockhash";
      Ok (inl (new_response bank (hash_to_string blockhash, height)))
  end.
Definition get_signature_status p (signature : Signature) (c : option CommitmentLevel) :
    rpc (option (unit + TransactionError)) :=
  inl (snd <$> qb_signature_status_slot (rpc_bank p c) signature).
End Bank.
