(* ===== verification/RpcBlocks.v ===== *)
(** * The RPC service: blocks

    [get_block], [get_blocks], [get_blocks_with_limit], [get_block_time] and
    their checks.  A block is read from the block store and, where that has
    lost it, from the long-term storage (BigTable). *)
From stdpp Require Import sorting pretty.
From S2P Require Import Prelude RpcBase.
Set Default Proof Using "Type*".

(** ** The two storages *)

Inductive BlockstoreError := SlotCleanedUp | BlockstoreOther (message : string).
Inductive BigTableError := BlockNotFound (slot : Z) | SignatureNotFound | StorageOther (message : string).

(** [ConfirmedBlock], and [UiConfirmedBlock] for an encoded body *)
Record ConfirmedBlock (Body : Type) := mkConfirmedBlock {
  cb_block_time : option Z; cb_block_height : option Z; cb_body : Body
}.
Arguments mkConfirmedBlock {_}.
Arguments cb_block_time {_}.
Arguments cb_block_height {_}.
Arguments cb_body {_}.

(** [Blockstore] as the block requests use it *)
Class BlockReads (BS Body : Type) := {
  bs_max_root : BS → Z;
  bs_is_root : BS → Z → bool;
  bs_is_skipped : BS → Z → bool;
  bs_first_available_block : BS → Z + BlockstoreError;
  bs_get_rooted_block : BS → Z → ConfirmedBlock Body + BlockstoreError;
  bs_get_complete_block : BS → Z → ConfirmedBlock Body + BlockstoreError;
  bs_get_rooted_block_time : BS → Z → Z + BlockstoreError;
  bs_rooted_slot_iterator : BS → Z → list Z + BlockstoreError;
  bs_slot_meta_iterator : BS → Z → list Z + BlockstoreError
}.
(** [solana_storage_bigtable::LedgerStorage] as the block requests use it *)
Class BigTable (BT Body : Type) := {
  bt_get_confirmed_block : BT → Z → ConfirmedBlock Body + BigTableError;
  bt_get_confirmed_blocks : BT → Z → nat → list Z + BigTableError;
  bt_first_available_block : BT → option Z + BigTableError
}.

(** What the block store promises: the roots from a slot on in ascending order,
    and the time of a block that has one. *)
Class BlockReadsLaws (BS Body : Type) `{!BlockReads BS Body} : Prop := {
  rooted_slots_sorted bs from l :
    bs_rooted_slot_iterator bs from = inl l → StronglySorted Z.lt l;
  rooted_slots_exact bs from l s :
    bs_rooted_slot_iterator bs from = inl l → s ∈ l ↔ (from ≤ s)%Z ∧ bs_is_root bs s = true;
  rooted_time_of_block bs s b t :
    bs_get_rooted_block bs s = inl b → cb_block_time b = Some t →
    bs_get_rooted_block_time bs s = inl t
}.
(** [x.unwrap_or_default()] for slots *)
Definition slot_or_default {E} (r : Z + E) : Z := match r with inl s => s | inr _ => 0%Z end.
Definition result_ok {A E} (r : A + E) : option A := match r with inl a => Some a | inr _ => None end.
(** [o.map(f).transpose()] *)
Definition transpose {A B} (f : A → rpc B) (o : option A) : rpc (option B) :=
  match o with Some a => b ← f a; inl (Some b) | None => inl None end.

Section Blocks.
Context {BK BS BT Pubkey Hash Signature Account TransactionError Body UiBody Enc Details : Type}.
Context `{!QueryBank BK Pubkey Hash Signature Account TransactionError}.
Context `{!BlockReads BS Body, !BigTable BT Body}.
(** [MAX_GET_CONFIRMED_BLOCKS_RANGE], and [encode_with_options] with its error
    as the RPC error it is turned into *)
Context (MAX_RANGE : Z).
Context (json : Enc) (details_default : Details).
Context (encode_with_options :
  Enc → Details → bool → option Z → ConfirmedBlock Body → ConfirmedBlock UiBody + RpcCustomError).
Implicit Types (p : Processor BK BS BT).

Definition is_finalized (bank : BK) (bs : BS) (slot : Z) : bool :=
  bs_is_root bs slot || bool_decide (slot ∈ qb_status_cache_ancestors bank).

(** ** Checks on a read *)

Definition check_blockstore_root {T} p (result : T + BlockstoreError) (slot : Z) : rpc unit :=
  match result with
  | inr _ =>
      if (bs_max_root (blockstore p) <=? slot)%Z then custom (BlockNotAvailable slot)
      else if bs_is_skipped (blockstore p) slot then custom (SlotSkipped slot)
      else inl ()
  | inl _ => inl ()
  end.
Definition check_slot_cleaned_up {T} p (result : T + BlockstoreError) (slot : Z) : rpc unit :=
  let first_available_block := slot_or_default (bs_first_available_block (blockstore p)) in
  match result with
  | inr SlotCleanedUp => custom (BlockCleanedUp slot first_available_block)
  | _ =>
      if (slot <? first_available_block)%Z
      then custom (BlockCleanedUp slot first_available_block) else inl ()
  end.
Definition check_bigtable_result {T} (result : T + BigTableError) : rpc unit :=
  match result with
  | inr (BlockNotFound slot) => custom (LongTermStorageSlotSkipped slot)
  | _ => inl ()
  end.
Definition check_blockstore_writes_complete p (slot : Z) : rpc unit :=
  if (max_complete_transaction_status_slot p <? slot)%Z
  then custom (BlockStatusNotAvailableYet slot) else inl ().

(** ** One block *)

(** [RpcBlockConfig] *)
Record RpcBlockConfig := mkBlockConfig {
  bc_encoding : option Enc; bc_transaction_details : option Details;
  bc_rewards : option bool; bc_commitment : option CommitmentLevel;
  bc_max_supported_transaction_version : option Z
}.
Definition block_config_default : RpcBlockConfig := mkBlockConfig None None None None None.
Definition encode_with (config : RpcBlockConfig) (b : ConfirmedBlock Body) :
    rpc (ConfirmedBlock UiBody) :=
  map_err (encode_with_options (default json (bc_encoding config))
             (default details_default (bc_transaction_details config))
             (default true (bc_rewards config))
             (bc_max_supported_transaction_version config) b) Custom.
(** the closure [encode_block] *)
Definition encode_block p (config : RpcBlockConfig) (slot : Z) (b : ConfirmedBlock Body) :
    rpc (ConfirmedBlock UiBody) :=
  e ← encode_with config b;
  inl (if (slot =? 0)%Z
       then mkConfirmedBlock (Some (genesis_creation_time p)) (Some 0%Z) (cb_body e) else e).
(** A confirmed block without a time or a height gets them from its bank. *)
Definition complete_from_bank p (slot : Z) (b : ConfirmedBlock Body) : ConfirmedBlock Body :=
  match cb_block_time b, cb_block_height b with
  | Some _, Some _ => b
  | _, _ =>
      match fk_get (bank_forks p) slot with
      | Some bank =>
          mkConfirmedBlock
            (Some (default (qb_unix_timestamp bank) (cb_block_time b)))
            (Some (default (qb_block_height bank) (cb_block_height b))) (cb_body b)
      | None => b
      end
  end.

Definition get_finalized_block p (config : RpcBlockConfig) (slot : Z) :
    rpc (option (ConfirmedBlock UiBody)) :=
  check_blockstore_writes_complete p slot ;;
  let result := bs_get_rooted_block (blockstore p) slot in
  check_blockstore_root p result slot ;;
  match result, bigtable_ledger_storage p with
  | inr _, Some bt =>
      let bigtable_result := bt_get_confirmed_block bt slot in
      check_bigtable_result bigtable_result ;;
      transpose (encode_block p config slot) (result_ok bigtable_result)
  | _, _ =>
      check_slot_cleaned_up p result slot ;;
      transpose (encode_block p config slot) (result_ok result)
  end.
Definition get_block p (slot : Z) (config : option RpcBlockConfig) :
    rpc (option (ConfirmedBlock UiBody)) :=
  if enable_rpc_transaction_history p then
    let config := default block_config_default config in
    let commitment := default commitment_default (bc_commitment config) in
    check_is_at_least_confirmed commitment ;;
    if (slot <=? fk_root (bank_forks p))%Z then get_finalized_block p config slot
    else if is_confirmed commitment then
      transpose (λ b, encode_with config (complete_from_bank p slot b))
        (result_ok (bs_get_complete_block (blockstore p) slot))
    else custom (BlockNotAvailable slot)
  else custom TransactionHistoryNotAvailable.

Definition get_block_time p (slot : Z) : rpc (option Z) :=
  if (slot =? 0)%Z then inl (Some (genesis_creation_time p))
  else if (slot <=? fk_root (bank_forks p))%Z then
    let result := bs_get_rooted_block_time (blockstore p) slot in
    check_blockstore_root p result slot ;;
    match result, bigtable_ledger_storage p with
    | inr _, Some bt =>
        let bigtable_result := bt_get_confirmed_block bt slot in
        check_bigtable_result bigtable_result ;;
        inl (result_ok bigtable_result ≫= cb_block_time)
    | _, _ => check_slot_cleaned_up p result slot ;; inl (result_ok result)
    end
  else match fk_get (bank_forks p) slot with
       | Some bank => inl (Some (qb_unix_timestamp bank))
       | None => custom (BlockNotAvailable slot)
       end.

(** ** Lists of blocks *)

Definition rooted_from p (start_slot lowest : Z) : rpc (list Z) :=
  map_err (bs_rooted_slot_iterator (blockstore p) (Z.max start_slot lowest)) (λ _, InternalError).
Definition range_error : RpcError :=
  InvalidParams ("Slot range too large; max " +:+ pretty MAX_RANGE).
Definition limit_error : RpcError :=
  InvalidParams ("Limit too large; max " +:+ pretty MAX_RANGE).
Definition bigtable_error : RpcError :=
  InvalidParams "BigTable query failed (maybe timeout due to too large range?)".

(** The end slot a request of blocks reaches. *)
Definition last_slot (start_slot : Z) (end_slot : option Z) (current_slot : Z) : Z :=
  Z.min (default (saturating_add u64_max start_slot MAX_RANGE) end_slot) current_slot.
Definition get_blocks p (start_slot : Z) (end_slot : option Z) (config : option RpcContextConfig) :
    rpc (list Z) :=
  let config := default context_default config in
  check_is_at_least_confirmed (default commitment_default (cx_commitment config)) ;;
  bank ← get_bank_with_config p config;
  let current_slot := qb_slot bank in
  let end_slot := last_slot start_slot end_slot current_slot in
  if (end_slot <? start_slot)%Z then inl []
  else if (MAX_RANGE <? end_slot - start_slot)%Z then fail range_error
  else
    let lowest := slot_or_default (bs_first_available_block (blockstore p)) in
    match (if (start_slot <? lowest)%Z then bigtable_ledger_storage p else None) with
    | Some bt =>
        blocks ← map_err (bt_get_confirmed_blocks bt start_slot
                            (Z.to_nat (end_slot - start_slot) + 1)) (λ _, bigtable_error);
        inl (filter (λ slot, slot ≤ end_slot)%Z blocks)
    | None =>
        slots ← rooted_from p start_slot lowest;
        inl (filter (λ slot, slot ≤ end_slot ∧ slot ≤ current_slot)%Z slots)
    end.

Definition get_blocks_with_limit p (start_slot : Z) (limit : nat) (config : option RpcContextConfig) :
    rpc (list Z) :=
  let config := default context_default config in
  check_is_at_least_confirmed (default commitment_default (cx_commitment config)) ;;
  if (MAX_RANGE <? Z.of_nat limit)%Z then fail limit_error
  else
    let lowest := slot_or_default (bs_first_available_block (blockstore p)) in
    match (if (start_slot <? lowest)%Z then bigtable_ledger_storage p else None) with
    | Some bt => inl (default [] (result_ok (bt_get_confirmed_blocks bt start_slot limit)))
    | None =>
        bank ← get_bank_with_config p config;
        slots ← rooted_from p start_slot lowest;
        inl (filter (λ slot, slot ≤ qb_slot bank)%Z (take limit slots))
    end.

Definition minimum_ledger_slot p : rpc Z :=
  match bs_slot_meta_iterator (blockstore p) 0 with
  | inl (slot :: _) => inl slot
  | _ => fail InvalidRequest
  end.
Definition get_first_available_block p : Z :=
  let slot := slot_or_default (bs_first_available_block (blockstore p)) in
  match bigtable_ledger_storage p with
  | Some bt =>
      let bigtable_slot := default slot (default None (result_ok (bt_first_available_block bt))) in
      if (bigtable_slot <? slot)%Z then bigtable_slot else slot
  | None => slot
  end.
End Blocks.
Arguments mkBlockConfig {_ _}.

(** ** What block requests return

    The lists of blocks are exact and bounded, and a block's time is the one
    the time request gives. *)

(** ** Sorted slots *)

Lemma sorted_cap_take (c : Z) n (l : list Z) : StronglySorted Z.lt l →
  filter (λ s, s ≤ c)%Z (take n l) = take n (filter (λ s, s ≤ c)%Z l).
Proof.
  intros Hs. revert n. induction Hs as [|x l Hs IH Hx]; intros [|n]; try done.
  cbn [take]. destruct (decide (x ≤ c)%Z) as [Hle|Hgt].
  - rewrite !filter_cons_True by done. cbn. by rewrite IH.
  - assert (Hnil : ∀ k, filter (λ s, s ≤ c)%Z (take k l) = []).
    { intros k. apply elem_of_nil_inv. intros y [Hy Hin]%list_elem_of_filter.
      rewrite Forall_forall in Hx. specialize (Hx y (subseteq_take k l y Hin)). lia. }
    rewrite !filter_cons_False by done. rewrite Hnil.
    specialize (Hnil (length l)). rewrite firstn_all in Hnil. by rewrite Hnil, take_nil.
Qed.
Lemma sorted_filter (P : Z → Prop) `{!∀ s, Decision (P s)} (l : list Z) :
  StronglySorted Z.lt l → StronglySorted Z.lt (filter P l).
Proof.
  induction 1 as [|x l Hs IH Hx]; [constructor|]. rewrite filter_cons.
  case_decide; [constructor|]; try done. rewrite Forall_forall in Hx |- *.
  intros y [_ Hy]%list_elem_of_filter. by apply Hx.
Qed.
Lemma sorted_length (a b : Z) (l : list Z) : StronglySorted Z.lt l →
  Forall (λ s, a ≤ s ≤ b)%Z l → (Z.of_nat (length l) ≤ Z.max 0 (b - a + 1))%Z.
Proof.
  intros Hs. revert a. induction Hs as [|x l Hs IH Hx]; intros a Ha; cbn; [lia|].
  apply Forall_cons in Ha as [Hxa Ha]. specialize (IH (x + 1)%Z).
  assert (Forall (λ s, x + 1 ≤ s ≤ b)%Z l).
  { rewrite Forall_forall in Hx, Ha |- *. intros s Hs'. specialize (Hx s Hs').
    specialize (Ha s Hs'). lia. }
  specialize (IH H). lia.
Qed.

Section Theorems.
Context {BK BS BT Pubkey Hash Signature Account TransactionError Body : Type}.
Context `{!QueryBank BK Pubkey Hash Signature Account TransactionError}.
Context `{!BlockReads BS Body, !BigTable BT Body}.
Context `{HBS : !BlockReadsLaws BS Body}.
Context (MAX_RANGE : Z).
Implicit Types (p : Processor BK BS BT).
Collection Env := Type HBS MAX_RANGE.

(** The lowest slot of the block store, and when a request of blocks stays in
    the block store. *)
Definition lowest p : Z := slot_or_default (bs_first_available_block (blockstore p)).
Definition local p (start_slot : Z) : Prop :=
  bigtable_ledger_storage p = None ∨ (lowest p ≤ start_slot)%Z.
Definition confirmed (config : option RpcContextConfig) : Prop :=
  is_at_least_confirmed
    (default commitment_default (cx_commitment (default context_default config))) = true.

Lemma local_none p start_slot : local p start_slot →
  (if (start_slot <? lowest p)%Z then bigtable_ledger_storage p else None) = None.
Proof using Type. intros [Hn|Hl]; [by rewrite Hn; case_match|]. by destruct (Z.ltb_spec start_slot (lowest p)); [lia|]. Qed.
Lemma confirmed_check config : confirmed config →
  check_is_at_least_confirmed
    (default commitment_default (cx_commitment (default context_default config))) = inl ().
Proof using Type. unfold confirmed, check_is_at_least_confirmed. by intros ->. Qed.

(** [get_blocks] on the block store is the filtered list of roots. *)
Lemma get_blocks_local p start_slot end_slot config bank slots :
  confirmed config → local p start_slot →
  get_bank_with_config p (default context_default config) = inl bank →
  bs_rooted_slot_iterator (blockstore p) (Z.max start_slot (lowest p)) = inl slots →
  get_blocks MAX_RANGE p start_slot end_slot config =
    let e := last_slot MAX_RANGE start_slot end_slot (qb_slot bank) in
    if (e <? start_slot)%Z then inl []
    else if (MAX_RANGE <? e - start_slot)%Z then inr (range_error MAX_RANGE)
    else inl (filter (λ s, s ≤ e ∧ s ≤ qb_slot bank)%Z slots).
Proof using Env.
  intros Hc Hl Hb Hs. unfold get_blocks. rewrite (confirmed_check _ Hc). cbn. rewrite Hb. cbn.
  case_match; [done|]. case_match; [done|].
  fold (lowest p). rewrite (local_none _ _ Hl). unfold rooted_from. by rewrite Hs.
Qed.

(** C37: From the block store, [getBlocks] answers with exactly the roots
    between the start slot, the lowest slot kept and the end of the request, in
    ascending order and never more than the permitted range and one; a larger
    range is refused. *)
Theorem get_blocks_exact p start_slot end_slot config bank slots :
  (0 ≤ MAX_RANGE)%Z → confirmed config → local p start_slot →
  get_bank_with_config p (default context_default config) = inl bank →
  bs_rooted_slot_iterator (blockstore p) (Z.max start_slot (lowest p)) = inl slots →
  let e := last_slot MAX_RANGE start_slot end_slot (qb_slot bank) in
  (MAX_RANGE < e - start_slot)%Z ∧
    get_blocks MAX_RANGE p start_slot end_slot config = inr (range_error MAX_RANGE) ∨
  (e - start_slot ≤ MAX_RANGE)%Z ∧
    ∃ l, get_blocks MAX_RANGE p start_slot end_slot config = inl l ∧
      StronglySorted Z.lt l ∧ (Z.of_nat (length l) ≤ MAX_RANGE + 1)%Z ∧
      ∀ s, s ∈ l ↔ (start_slot ≤ s ≤ e)%Z ∧ (lowest p ≤ s)%Z ∧ bs_is_root (blockstore p) s = true.
Proof using Env.
  intros HM Hc Hl Hb Hs. rewrite (get_blocks_local _ _ _ _ _ _ Hc Hl Hb Hs). cbn zeta.
  assert (Hcur : (last_slot MAX_RANGE start_slot end_slot (qb_slot bank) ≤ qb_slot bank)%Z)
    by (unfold last_slot; lia).
  set (e := last_slot _ _ _ _) in *.
  destruct (Z.ltb_spec e start_slot) as [He|He].
  { right. split; [lia|]. exists []. split_and!; [done|constructor|cbn; lia|].
    intros s. rewrite elem_of_nil. split; [done|lia]. }
  destruct (Z.ltb_spec MAX_RANGE (e - start_slot)) as [Hr|Hr]; [by left|right].
  split; [done|]. eexists. split; [done|].
  assert (Hin : ∀ s, s ∈ filter (λ s, s ≤ e ∧ s ≤ qb_slot bank)%Z slots ↔
    (start_slot ≤ s ≤ e)%Z ∧ (lowest p ≤ s)%Z ∧ bs_is_root (blockstore p) s = true).
  { intros s. rewrite list_elem_of_filter, (rooted_slots_exact _ _ _ _ Hs). intuition lia. }
  assert (Hsort : StronglySorted Z.lt (filter (λ s, s ≤ e ∧ s ≤ qb_slot bank)%Z slots))
    by (apply sorted_filter; eauto using rooted_slots_sorted).
  split_and!; [done| |done].
  pose proof (sorted_length start_slot e _ Hsort) as Hlen.
  rewrite Forall_forall in Hlen. specialize (Hlen (λ s Hin', proj1 (proj1 (Hin s) Hin'))). lia.
Qed.

(** Asking for a number of blocks is asking for all the blocks up to the
    current slot and keeping the first ones, although the code takes that many
    roots before it drops those above the current slot. *)
Theorem get_blocks_with_limit_prefix p start_slot limit config bank slots blocks :
  (Z.of_nat limit ≤ MAX_RANGE)%Z → confirmed config → local p start_slot →
  get_bank_with_config p (default context_default config) = inl bank →
  (start_slot ≤ qb_slot bank)%Z →
  bs_rooted_slot_iterator (blockstore p) (Z.max start_slot (lowest p)) = inl slots →
  get_blocks MAX_RANGE p start_slot (Some (qb_slot bank)) config = inl blocks →
  get_blocks_with_limit MAX_RANGE p start_slot limit config = inl (take limit blocks).
Proof using Env.
  intros HM Hc Hl Hb Hst Hs. rewrite (get_blocks_local _ _ _ _ _ _ Hc Hl Hb Hs).
  unfold last_slot. cbn [default]. rewrite Z.min_id. cbn zeta.
  destruct (Z.ltb_spec (qb_slot bank) start_slot); [lia|]. case_match; [done|]. intros [= <-].
  unfold get_blocks_with_limit. rewrite (confirmed_check _ Hc). cbn.
  destruct (Z.ltb_spec MAX_RANGE (Z.of_nat limit)); [lia|].
  fold (lowest p). rewrite (local_none _ _ Hl), Hb. unfold rooted_from. rewrite Hs. cbn.
  rewrite sorted_cap_take by eauto using rooted_slots_sorted.
  do 2 f_equal. apply list_filter_iff. intros s. tauto.
Qed.

Context {UiBody Enc Details : Type} (json : Enc) (details_default : Details).
Context (encode_with_options :
  Enc → Details → bool → option Z → ConfirmedBlock Body → ConfirmedBlock UiBody + RpcCustomError).

(** The time in a finalized block that [getBlock] answers with from the
    block store is the time [getBlockTime] answers with; for the first block
    both are the creation time of the genesis. *)
Theorem get_block_time_agrees p slot config b e :
  (slot ≤ fk_root (bank_forks p))%Z →
  (∀ enc det rew ver x y, encode_with_options enc det rew ver x = inl y →
     cb_block_time y = cb_block_time x) →
  bs_get_rooted_block (blockstore p) slot = inl b →
  get_block json details_default encode_with_options p slot config = inl (Some e) →
  ∀ t, cb_block_time e = Some t → get_block_time p slot = inl (Some t).
Proof using Type HBS.
  intros Hr Henc Hb He t Ht. unfold get_block in He.
  destruct (enable_rpc_transaction_history p); [|done].
  unfold check_is_at_least_confirmed in He.
  destruct (is_at_least_confirmed _); [|done]. cbn in He.
  destruct (Z.leb_spec slot (fk_root (bank_forks p))) as [_|]; [|lia].
  unfold get_finalized_block, check_blockstore_writes_complete in He.
  destruct (_ <? slot)%Z; [done|]. cbn in He. rewrite Hb in He. cbn in He.
  unfold check_slot_cleaned_up in *.
  destruct (slot <? slot_or_default _)%Z eqn:Hclean; [done|]. cbn in He.
  unfold encode_block, encode_with in He.
  destruct (encode_with_options _ _ _ _ b) as [y|] eqn:Hy; [|done]. cbn in He.
  injection He as <-. unfold get_block_time.
  destruct (slot =? 0)%Z; [by cbn in Ht; simplify_eq|].
  destruct (Z.leb_spec slot (fk_root (bank_forks p))) as [_|]; [|lia].
  rewrite (Henc _ _ _ _ _ _ Hy) in Ht. rewrite (rooted_time_of_block _ _ _ _ Hb Ht). cbn.
  unfold check_slot_cleaned_up. by rewrite Hclean.
Qed.
End Theorems.
