(* ===== verification/RpcSignatures.v ===== *)
(** * The RPC service: transactions and signatures

    [get_signature_statuses], [get_transaction] and
    [get_signatures_for_address], which merges a page of the block store with
    one of the long-term storage. *)
From stdpp Require Import pretty.
From S2P Require Import Prelude RpcBase RpcBlocks.
Set Default Proof Using "Type*".

Inductive TransactionConfirmationStatus := StatusProcessed | StatusConfirmed | StatusFinalized.

(** [ConfirmedTransactionStatusWithSignature] *)
Record SignatureInfo (Signature TransactionError : Type) := mkSignatureInfo {
  si_signature : Signature; si_slot : Z; si_err : option TransactionError;
  si_memo : option string; si_block_time : option Z
}.
Arguments mkSignatureInfo {_ _}.
Arguments si_signature {_ _}.
Arguments si_slot {_ _}.
Arguments si_err {_ _}.
Arguments si_memo {_ _}.
Arguments si_block_time {_ _}.
(** [RpcConfirmedTransactionStatusWithSignature]: the information and its
    confirmation status *)
Record RpcSignatureInfo (Signature TransactionError : Type) := mkRpcSignatureInfo {
  rs_info : SignatureInfo Signature TransactionError;
  rs_confirmation_status : option TransactionConfirmationStatus
}.
Arguments mkRpcSignatureInfo {_ _}.
Arguments rs_info {_ _}.
Arguments rs_confirmation_status {_ _}.

Record TransactionStatus (TransactionError : Type) := mkTransactionStatus {
  ts_slot : Z; ts_confirmations : option nat; ts_status : unit + TransactionError;
  ts_err : option TransactionError; ts_confirmation_status : option TransactionConfirmationStatus
}.
Arguments mkTransactionStatus {_}.

(** [ConfirmedTransactionWithStatusMeta] *)
Record ConfirmedTransaction (Tx : Type) := mkConfirmedTransaction {
  ct_slot : Z; ct_block_time : option Z; ct_tx_with_meta : Tx
}.
Arguments mkConfirmedTransaction {_}.
Arguments ct_slot {_}.
Arguments ct_block_time {_}.
Arguments ct_tx_with_meta {_}.

(** The storages as the signature requests use them *)
Class SignatureReads (BS Pubkey Signature TransactionError Tx : Type) := {
  bs_signatures_for_address : BS → Pubkey → Z → option Signature → option Signature → nat →
    list (SignatureInfo Signature TransactionError) * bool + BlockstoreError;
  bs_rooted_transaction_status : BS → Signature →
    option (Z * (unit + TransactionError)) + BlockstoreError;
  bs_get_complete_transaction : BS → Signature → Z →
    option (ConfirmedTransaction Tx) + BlockstoreError;
  bs_get_rooted_transaction : BS → Signature → option (ConfirmedTransaction Tx) + BlockstoreError;
  bs_old_signatures_for_address : BS → Pubkey → Z → Z → list Signature + BlockstoreError;
  bs_error_message : BlockstoreError → string
}.
Class SignatureTable (BT Pubkey Signature TransactionError Tx : Type) := {
  bt_get_signature_status : BT → Signature → TransactionStatus TransactionError + BigTableError;
  bt_get_confirmed_transaction : BT → Signature → option (ConfirmedTransaction Tx) + BigTableError;
  bt_signatures_for_address : BT → Pubkey → option Signature → option Signature → nat →
    list (SignatureInfo Signature TransactionError * Z) + BigTableError
}.
(** What both promise of a page: no signature twice and at most as many as
    asked for; the block store leaves out the signature it starts before. *)
Class SignatureLaws (BS BT Pubkey Signature TransactionError Tx : Type)
    `{!SignatureReads BS Pubkey Signature TransactionError Tx}
    `{!SignatureTable BT Pubkey Signature TransactionError Tx} : Prop := {
  local_page bs address highest before until n l found :
    bs_signatures_for_address bs address highest before until n = inl (l, found) →
    NoDup (si_signature <$> l) ∧ length l ≤ n ∧
    ∀ s, before = Some s → s ∉ si_signature <$> l;
  long_term_page bt address before until n l :
    bt_signatures_for_address bt address before until n = inl l →
    NoDup (si_signature ∘ fst <$> l) ∧ length l ≤ n
}.

Section Signatures.
Context {BK BS BT Pubkey Hash Signature Account TransactionError Tx UiTx Enc : Type}.
Context `{!EqDecision Signature}.
Context `{!QueryBank BK Pubkey Hash Signature Account TransactionError}.
Context `{!SignatureReads BS Pubkey Signature TransactionError Tx}.
Context `{!SignatureTable BT Pubkey Signature TransactionError Tx}.
Implicit Types (p : Processor BK BS BT).
Abbreviation Info := (SignatureInfo Signature TransactionError).

(** ** Statuses *)

Definition result_err {A E} (r : A + E) : option E := match r with inl _ => None | inr e => Some e end.
Definition finalized_status (slot : Z) (status : unit + TransactionError) :
    TransactionStatus TransactionError :=
  mkTransactionStatus slot None status (result_err status) (Some StatusFinalized).
Definition get_transaction_status (signature : Signature) (bank : BK) :
    option (TransactionStatus TransactionError) :=
  '(slot, status) ← qb_signature_status_slot bank signature;
  Some (finalized_status slot status).

(** the body of the loop of [get_signature_statuses] *)
Definition signature_status p (bank : BK) (search_transaction_history : bool) (signature : Signature) :
    rpc (option (TransactionStatus TransactionError)) :=
  match get_transaction_status signature bank with
  | Some status => inl (Some status)
  | None =>
      if enable_rpc_transaction_history p && search_transaction_history then
        found ← map_err (bs_rooted_transaction_status (blockstore p) signature) (λ _, InternalError);
        match found ≫= (λ x, if (x.1 <=? fk_root (bank_forks p))%Z then Some x else None) with
        | Some (slot, status) => inl (Some (finalized_status slot status))
        | None =>
            inl (bt ← bigtable_ledger_storage p; result_ok (bt_get_signature_status bt signature))
        end
      else inl None
  end.
Definition get_signature_statuses p (signatures : list Signature) (search : option bool) :
    rpc (RpcResponse (list (option (TransactionStatus TransactionError)))) :=
  let search_transaction_history := default false search in
  let bank := rpc_bank p None in
  if search_transaction_history && negb (enable_rpc_transaction_history p)
  then custom TransactionHistoryNotAvailable
  else
    statuses ← collect_rpc (signature_status p bank search_transaction_history) signatures;
    inl (new_response bank statuses).

(** ** One transaction *)

Section Transaction.
(** [encode] with its error as the RPC error it is turned into *)
Context (json : Enc).
Context (encode : Enc → option Z → ConfirmedTransaction Tx → UiTx + RpcCustomError).

Record RpcTransactionConfig := mkTransactionConfig {
  tc_encoding : option Enc; tc_commitment : option CommitmentLevel;
  tc_max_supported_transaction_version : option Z
}.
Definition transaction_config_default : RpcTransactionConfig := mkTransactionConfig None None None.
(** the closure [encode_transaction] *)
Definition encode_transaction (config : RpcTransactionConfig) (t : ConfirmedTransaction Tx) : rpc UiTx :=
  map_err (encode (default json (tc_encoding config))
             (tc_max_supported_transaction_version config) t) Custom.
(** A confirmed transaction without a time gets it from its bank. *)
Definition time_from_bank p (t : ConfirmedTransaction Tx) : ConfirmedTransaction Tx :=
  match ct_block_time t with
  | Some _ => t
  | None =>
      mkConfirmedTransaction (ct_slot t) (qb_unix_timestamp <$> fk_get (bank_forks p) (ct_slot t))
        (ct_tx_with_meta t)
  end.
Definition get_transaction p (signature : Signature) (config : option RpcTransactionConfig) :
    rpc (option UiTx) :=
  let config := default transaction_config_default config in
  let commitment := default commitment_default (tc_commitment config) in
  check_is_at_least_confirmed commitment ;;
  if enable_rpc_transaction_history p then
    let confirmed_bank := rpc_bank p None in
    let confirmed_transaction :=
      if is_confirmed commitment
      then bs_get_complete_transaction (blockstore p) signature (qb_slot confirmed_bank)
      else bs_get_rooted_transaction (blockstore p) signature in
    match default None (result_ok confirmed_transaction) with
    | Some t =>
        if is_confirmed commitment &&
           bool_decide (ct_slot t ∈ qb_status_cache_ancestors confirmed_bank)
        then e ← encode_transaction config (time_from_bank p t); inl (Some e)
        else if (ct_slot t <=? fk_root (bank_forks p))%Z
        then e ← encode_transaction config t; inl (Some e)
        else inl None
    | None =>
        match bigtable_ledger_storage p with
        | Some bt =>
            transpose (encode_transaction config)
              (default None (result_ok (bt_get_confirmed_transaction bt signature)))
        | None => inl None
        end
    end
  else custom TransactionHistoryNotAvailable.
End Transaction.

(** ** The signatures of an address *)

Definition get_confirmed_signatures_for_address p (pubkey : Pubkey) (start_slot end_slot : Z) :
    list Signature :=
  if enable_rpc_transaction_history p
  then default [] (result_ok (bs_old_signatures_for_address (blockstore p) pubkey start_slot end_slot))
  else [].

(** one result of the closure [map_results] *)
Definition map_result p (x : Info) : RpcSignatureInfo Signature TransactionError :=
  let block_time :=
    match si_block_time x with
    | Some t => Some t
    | None => qb_unix_timestamp <$> fk_get (bank_forks p) (si_slot x)
    end in
  mkRpcSignatureInfo
    (mkSignatureInfo (si_signature x) (si_slot x) (si_err x) (si_memo x) block_time)
    (Some StatusFinalized).
(** The results of the long-term storage that are not there yet *)
Definition push_new (before : option Signature) (results : list Info) (long_term : list (Info * Z)) :
    list Info :=
  let results_set := si_signature <$> results in
  results ++ filter (λ x, before ≠ Some (si_signature x) ∧ si_signature x ∉ results_set)
               (fst <$> long_term).

(** The query of the long-term storage and its results pushed *)
Definition query_results (bt : BT) (address : Pubkey) (before until : option Signature) (limit : nat)
    (results : list Info) (bigtable_before : option Signature) : list Info :=
  match bt_signatures_for_address bt address bigtable_before until limit with
  | inl bigtable_results => push_new before results bigtable_results
  | inr _ => results
  end.
(** The results with those of the long-term storage *)
Definition extend_results (bt : BT) (address : Pubkey) (before until : option Signature) (limit : nat)
    (results : list Info) (found_before : bool) : list Info :=
  let limit := limit - length results in
  let bigtable_before :=
    match last results with Some x => Some (si_signature x) | None => before end in
  let query := query_results bt address before until limit results in
  match (if found_before then bigtable_before else None) with
  | Some s =>
      match bt_get_signature_status bt s with
      | inr SignatureNotFound => query None
      | inr _ => results
      | inl _ => query bigtable_before
      end
  | None => query bigtable_before
  end.
Definition get_signatures_for_address p (address : Pubkey) (before until : option Signature)
    (limit : nat) (config : RpcContextConfig) : rpc (list (RpcSignatureInfo Signature TransactionError)) :=
  check_is_at_least_confirmed (default commitment_default (cx_commitment config)) ;;
  if enable_rpc_transaction_history p then
    bank ← get_bank_with_config p config;
    '(results, found_before) ←
      map_err (bs_signatures_for_address (blockstore p) address (qb_slot bank) before until limit)
        (λ e, InvalidParams (bs_error_message e));
    inl (map_result p <$>
      if length results <? limit then
        match bigtable_ledger_storage p with
        | Some bt => extend_results bt address before until limit results found_before
        | None => results
        end
      else results)
  else custom TransactionHistoryNotAvailable.

(** ** Parsing the parameters *)

Section Verify.
(** [MAX_GET_CONFIRMED_SIGNATURES_FOR_ADDRESS2_LIMIT] and the parsers *)
Context (MAX_LIMIT : nat).
Context (parse_pubkey : string → Pubkey + string) (parse_signature : string → Signature + string).

Definition invalid_param (e : string) : RpcError := InvalidParams ("Invalid param: " +:+ e).
Definition verify_pubkey (input : string) : rpc Pubkey := map_err (parse_pubkey input) invalid_param.
Definition verify_signature (input : string) : rpc Signature :=
  map_err (parse_signature input) invalid_param.
Definition verify_and_parse_signatures_for_address_params (address : string)
    (before until : option string) (limit : option nat) :
    rpc (Pubkey * option Signature * option Signature * nat) :=
  address ← verify_pubkey address;
  before ← transpose verify_signature before;
  until ← transpose verify_signature until;
  let limit := default MAX_LIMIT limit in
  if (limit =? 0) || (MAX_LIMIT <? limit)
  then fail (InvalidParams ("Invalid limit; max " +:+ pretty MAX_LIMIT))
  else inl (address, before, until, limit).
End Verify.
End Signatures.
Arguments mkTransactionConfig {_}.

(** ** What transaction and signature requests return *)

Section Theorems.
Context {BK BS BT Pubkey Hash Signature Account TransactionError Tx : Type}.
Context `{!EqDecision Signature}.
Context `{!QueryBank BK Pubkey Hash Signature Account TransactionError}.
Context `{!SignatureReads BS Pubkey Signature TransactionError Tx}.
Context `{!SignatureTable BT Pubkey Signature TransactionError Tx}.
Context `{HL : !SignatureLaws BS BT Pubkey Signature TransactionError Tx}.
Implicit Types (p : Processor BK BS BT).
Abbreviation Info := (SignatureInfo Signature TransactionError).

(** A page as the requests want it *)
Definition page (before : option Signature) (n : nat) (l : list Info) : Prop :=
  NoDup (si_signature <$> l) ∧ length l ≤ n ∧ ∀ s, before = Some s → s ∉ si_signature <$> l.

Lemma nodup_sigs_filter (P : Info → Prop) `{!∀ x, Decision (P x)} (l : list Info) :
  NoDup (si_signature <$> l) → NoDup (si_signature <$> filter P l).
Proof using Type.
  intros Hd. apply (sublist_NoDup _ _ Hd). apply fmap_sublist, sublist_filter.
Qed.
Lemma push_new_page before n m (l : list Info) bl :
  page before n l → NoDup (si_signature ∘ fst <$> bl) → length bl ≤ m →
  page before (n + m) (push_new before l bl) ∧
  l `prefix_of` push_new before l bl.
Proof using Type.
  intros (Hd & Hn & Hb) Hbl Hm. unfold push_new. split; [|by eexists].
  set (f := filter _ _).
  assert (Hf : ∀ x, x ∈ f → before ≠ Some (si_signature x) ∧ si_signature x ∉ si_signature <$> l)
    by (by intros x [? _]%list_elem_of_filter).
  split_and!.
  - rewrite fmap_app. apply NoDup_app. split_and!; [done| |].
    + intros s Hs (x & -> & Hx)%list_elem_of_fmap. by apply (Hf x) in Hx as [_ ?].
    + apply nodup_sigs_filter. by rewrite <- list_fmap_compose.
  - rewrite length_app. assert (length f ≤ length (fst <$> bl)) by apply length_filter.
    rewrite length_fmap in *. lia.
  - intros s -> . rewrite fmap_app, elem_of_app. intros [?|(x & -> & Hx)%list_elem_of_fmap].
    + by eapply Hb.
    + by apply (Hf x) in Hx as [? _].
Qed.
Lemma extend_results_page bt address before until n (l : list Info) found :
  page before n l → page before n (extend_results bt address before until n l found) ∧
  l `prefix_of` extend_results bt address before until n l found.
Proof using Type HL.
  intros Hl. assert (Hq : ∀ b, let r := query_results bt address before until (n - length l) l b in
    page before n r ∧ l `prefix_of` r).
  { intros b. unfold query_results.
    destruct (bt_signatures_for_address _ _ _ _ _) as [bl|] eqn:Hbt; [|by split].
    apply long_term_page in Hbt as [Hd Hm].
    assert (Hl' : page before (length l) l) by (destruct Hl as (? & ? & ?); by split_and!).
    destruct (push_new_page _ _ _ _ _ Hl' Hd Hm) as [Hp ?]. split; [|done].
    destruct Hp as (? & ? & ?), Hl as (? & ? & ?). split_and!; [done|lia|done]. }
  unfold extend_results. by repeat case_match.
Qed.
Lemma map_result_sigs p (l : list Info) :
  si_signature ∘ rs_info <$> (map_result p <$> l) = si_signature <$> l.
Proof using Type. rewrite <- list_fmap_compose. by apply list_fmap_ext. Qed.

(** C38: A page of the signatures of an address starts with those of the block
    store, has no signature twice, never the one it starts before and at most
    as many as asked for; failures of the long-term storage do not fail the
    request. *)
Theorem signatures_for_address_page p address before until limit config bank l found :
  enable_rpc_transaction_history p = true →
  is_at_least_confirmed (default commitment_default (cx_commitment config)) = true →
  get_bank_with_config p config = inl bank →
  bs_signatures_for_address (blockstore p) address (qb_slot bank) before until limit =
    inl (l, found) →
  ∃ r, get_signatures_for_address p address before until limit config = inl r ∧
    let sigs := si_signature ∘ rs_info <$> r in
    (si_signature <$> l) `prefix_of` sigs ∧ NoDup sigs ∧ length sigs ≤ limit ∧
    (∀ s, before = Some s → s ∉ sigs) ∧
    Forall (λ x, rs_confirmation_status x = Some StatusFinalized) r.
Proof using Type HL.
  intros Hh Hc Hb Hs. pose proof (local_page _ _ _ _ _ _ _ _ Hs) as Hl.
  unfold get_signatures_for_address, check_is_at_least_confirmed. rewrite Hc. cbn.
  rewrite Hh, Hb. cbn. rewrite Hs. cbn. eexists. split; [done|]. cbn zeta.
  match goal with |- context [map_result p <$> ?x] =>
    assert (page before limit x ∧ l `prefix_of` x) as Hr; [|generalize dependent x; intros r Hr] end.
  { repeat case_match; try by split. by apply extend_results_page. }
  rewrite map_result_sigs.
  destruct Hr as [(Hd & Hn & Hnb) [k ->]]. rewrite length_fmap. split_and!; try done.
  - rewrite fmap_app. by eexists.
  - by apply Forall_fmap, Forall_true.
Qed.

(** The statuses come in the order of the signatures, one each: a status the
    working bank has is answered without the history, and without a search of
    the history the others are unknown. *)
Theorem signature_statuses_in_order p sigs search :
  search && negb (enable_rpc_transaction_history p) = false →
  (search = true → ∀ s, s ∈ sigs → is_Some (result_ok (bs_rooted_transaction_status (blockstore p) s))) →
  ∃ r, get_signature_statuses p sigs (Some search) = inl r ∧
    r_context_slot r = qb_slot (rpc_bank p None) ∧
    Forall2 (λ s st,
      match qb_signature_status_slot (rpc_bank p None) s with
      | Some (slot, status) => st = Some (finalized_status slot status)
      | None => search = false → st = None
      end) sigs (r_value r).
Proof using Type.
  intros Hs Hreads. unfold get_signature_statuses.
  change (default false (Some search)) with search. rewrite Hs.
  set (bank := rpc_bank p None).
  assert (∃ ys, collect_rpc (signature_status p bank search) sigs = inl ys) as [ys Hys].
  { clear Hs. induction sigs as [|s sigs IH]; [by eexists|]. destruct IH as [ys Hys].
    { intros Ht s' Hs'. apply Hreads; [done|by right]. }
    assert (∃ y, signature_status p bank search s = inl y) as [y Hy].
    { unfold signature_status. case_match; [by eexists|].
      destruct (enable_rpc_transaction_history p && search) eqn:He; [|by eexists].
      apply andb_true_iff in He as [_ He]. destruct (Hreads He s (list_elem_of_here _ _)) as [x Hx].
      destruct (bs_rooted_transaction_status _ _); [|done]. cbn. repeat case_match; by eexists. }
    exists (y :: ys). cbn. rewrite Hy. cbn. by rewrite Hys. }
  rewrite Hys. cbn. eexists. split_and!; [done|done|]. cbn.
  apply collect_rpc_ok in Hys. eapply Forall2_impl; [exact Hys|]. cbn. intros s st.
  unfold signature_status, get_transaction_status.
  destruct (qb_signature_status_slot bank s) as [[slot status]|]; cbn; [by intros [= <-]|].
  intros Hst ->. rewrite andb_false_r in Hst. by injection Hst.
Qed.
End Theorems.
