(* ===== verification/RpcAccounts.v ===== *)
(** * The RPC service: accounts of programs

    [get_program_accounts] and the scans below it, with or without a secondary
    index; [filter.rs], [account_resolver.rs] and [parsed_token_accounts.rs].
    The bank's scans, the comparison filters, the token programs' account
    layouts and the encoder are interfaces. *)
From stdpp Require Import pretty.
From S2P Require Import Prelude RpcBase.
Set Default Proof Using "Type*".

Inductive UiAccountEncoding := Binary | Base58 | Base64 | JsonParsed | Base64Zstd.
#[global] Instance encoding_eq : EqDecision UiAccountEncoding.
Proof. solve_decision. Defined.
Record UiDataSliceConfig := mkSlice { sl_offset : nat; sl_length : nat }.
Record RpcAccountInfoConfig := mkAccountInfo {
  ac_encoding : option UiAccountEncoding; ac_data_slice : option UiDataSliceConfig;
  ac_commitment : option CommitmentLevel; ac_min_context_slot : option Z
}.
Definition account_info_default : RpcAccountInfoConfig := mkAccountInfo None None None None.

Inductive AccountIndex := IndexProgramId | IndexSplTokenMint | IndexSplTokenOwner.
Inductive IndexKey (Pubkey : Type) :=
| KeyProgramId (k : Pubkey) | KeySplTokenMint (k : Pubkey) | KeySplTokenOwner (k : Pubkey).
Arguments KeyProgramId {_}.
Arguments KeySplTokenMint {_}.
Arguments KeySplTokenOwner {_}.
(** [AccountSecondaryIndexes]: the enabled indexes and the keys they keep *)
Record AccountSecondaryIndexes (Pubkey : Type) := mkIndexes {
  ai_contains : AccountIndex → bool; ai_include_key : Pubkey → bool
}.
Arguments mkIndexes {_}.
Arguments ai_contains {_}.
Arguments ai_include_key {_}.

(** [RpcFilterType] *)
Inductive RpcFilterType (Memcmp : Type) :=
| DataSize (size : Z) | MemcmpFilter (compare : Memcmp) | TokenAccountState.
Arguments DataSize {_}.
Arguments MemcmpFilter {_}.
Arguments TokenAccountState {_}.

Abbreviation bytes := (list Z).

(** [Memcmp]; [mc_convert] is [convert_to_raw_bytes], which leaves a filter it
    cannot decode as it is. *)
Class MemcmpOps (Memcmp : Type) := {
  mc_offset : Memcmp → nat;
  mc_raw_bytes : Memcmp → option bytes;
  mc_new_raw : nat → bytes → Memcmp;
  mc_convert : Memcmp → Memcmp;
  mc_bytes_match : Memcmp → bytes → bool
}.
Class AccountView (Account Pubkey : Type) := {
  acc_owner : Account → Pubkey; acc_data : Account → bytes
}.
(** The scans of [Bank]; the flag is that of [ScanConfig]. *)
Class ScanBank (BK Pubkey Account : Type) := {
  sb_filtered_indexed_accounts :
    BK → IndexKey Pubkey → (Account → bool) → bool → list (Pubkey * Account) + string;
  sb_filtered_program_accounts :
    BK → Pubkey → (Account → bool) → bool → list (Pubkey * Account) + string
}.
(** The token programs and the layout of their accounts *)
Class TokenPrograms (Pubkey : Type) := {
  is_known_spl_token_id : Pubkey → bool;
  spl_token_id : Pubkey;
  token_2022_id : Pubkey;
  native_mint_id : Pubkey;
  native_mint_decimals : Z;
  SPL_TOKEN_ACCOUNT_OWNER_OFFSET : nat;
  SPL_TOKEN_ACCOUNT_MINT_OFFSET : nat;
  account_packed_len : nat;
  ACCOUNTTYPE_ACCOUNT : Z;
  PUBKEY_BYTES : nat;
  pubkey_to_bytes : Pubkey → bytes;
  pubkey_try_from : bytes → option Pubkey;
  valid_account_data : bytes → bool;
  get_token_account_mint : bytes → option Pubkey
}.

(** [SplTokenAdditionalData] *)
Record SplTokenAdditionalData (Interest : Type) := mkAdditional {
  ad_decimals : Z; ad_interest_bearing_config : option (Interest * Z)
}.
Arguments mkAdditional {_}.
Arguments ad_decimals {_}.
Record Mint (Interest : Type) := mkMint {
  mint_supply : Z; mint_decimals : Z; mint_interest : option Interest
}.
Arguments mkMint {_}.
Arguments mint_supply {_}.
Arguments mint_decimals {_}.
Arguments mint_interest {_}.
(** [StateWithExtensions::unpack] for mints and [UiAccount::encode]; [ui_is_json]
    tells whether the data of an encoded account is parsed. *)
Class Decoders (Pubkey Account UiAccount Interest : Type) := {
  unpack_mint : bytes → option (Mint Interest);
  ui_encode : Pubkey → Account → UiAccountEncoding → option (SplTokenAdditionalData Interest) →
    option UiDataSliceConfig → UiAccount;
  ui_is_json : UiAccount → bool;
  MAX_BASE58_BYTES : nat
}.

Inductive OptionalContext (T : Type) := WithContext (r : RpcResponse T) | NoContext (v : T).
Arguments WithContext {_}.
Arguments NoContext {_}.

Section Accounts.
Context {BK BS BT Pubkey Hash Signature Account TransactionError Memcmp UiAccount Interest : Type}.
Context `{!EqDecision Pubkey, !Countable Pubkey}.
Context `{!QueryBank BK Pubkey Hash Signature Account TransactionError}.
Context `{!ScanBank BK Pubkey Account, !AccountView Account Pubkey, !MemcmpOps Memcmp}.
Context `{!TokenPrograms Pubkey, !Decoders Pubkey Account UiAccount Interest}.
Implicit Types (p : Processor BK BS BT) (bank : BK) (ix : AccountSecondaryIndexes Pubkey).
Implicit Types (filters : list (RpcFilterType Memcmp)).

(** ** Filters *)

Definition filter_allows (f : RpcFilterType Memcmp) (account : Account) : bool :=
  match f with
  | DataSize size => (Z.of_nat (length (acc_data account)) =? size)%Z
  | MemcmpFilter compare => mc_bytes_match compare (acc_data account)
  | TokenAccountState => valid_account_data (acc_data account)
  end.
Definition all_allow filters (account : Account) : bool :=
  forallb (λ f, filter_allows f account) filters.
Definition optimize_filters filters : list (RpcFilterType Memcmp) :=
  (λ f, match f with MemcmpFilter m => MemcmpFilter (mc_convert m) | f => f end) <$> filters.

(** The locals of the loop over the filters *)
Record FilterScan := mkFilterScan {
  fs_data_size : option Z; fs_memcmp : option bytes; fs_key : option Pubkey; fs_state : bool
}.
(** one turn of that loop, for the key at [key_offset] *)
Definition scan_filter (program_id : Pubkey) (key_offset : nat) (s : FilterScan)
    (f : RpcFilterType Memcmp) : FilterScan :=
  match f with
  | DataSize size => mkFilterScan (Some size) (fs_memcmp s) (fs_key s) (fs_state s)
  | MemcmpFilter m =>
      match mc_raw_bytes m with
      | Some b =>
          if (mc_offset m =? account_packed_len) && bool_decide (program_id = token_2022_id)
          then mkFilterScan (fs_data_size s) (Some b) (fs_key s) (fs_state s)
          else if mc_offset m =? key_offset then
            if length b =? PUBKEY_BYTES
            then mkFilterScan (fs_data_size s) (fs_memcmp s) (pubkey_try_from b) (fs_state s)
            else s
          else s
      | None => s
      end
  | TokenAccountState => mkFilterScan (fs_data_size s) (fs_memcmp s) (fs_key s) true
  end.
Definition key_filter (key_offset : nat) (program_id : Pubkey) filters : option Pubkey :=
  if is_known_spl_token_id program_id then
    let s := foldl (scan_filter program_id key_offset) (mkFilterScan None None None false) filters in
    if bool_decide (fs_data_size s = Some (Z.of_nat account_packed_len)) ||
       bool_decide (fs_memcmp s = Some [ACCOUNTTYPE_ACCOUNT]) || fs_state s
    then fs_key s else None
  else None.
Definition get_spl_token_owner_filter (program_id : Pubkey) filters : option Pubkey :=
  key_filter SPL_TOKEN_ACCOUNT_OWNER_OFFSET program_id filters.
Definition get_spl_token_mint_filter (program_id : Pubkey) filters : option Pubkey :=
  key_filter SPL_TOKEN_ACCOUNT_MINT_OFFSET program_id filters.

(** ** Scans *)

Definition key_excluded {A} (key : Pubkey) : A + RpcCustomError :=
  inr (KeyExcludedFromSecondaryIndex (pubkey_to_string key)).
Definition scan_result {A} (r : A + string) : A + RpcCustomError :=
  match r with inl a => inl a | inr e => inr (ScanError e) end.

Definition get_filtered_program_accounts ix bank (program_id : Pubkey) filters (sort_results : bool) :
    list (Pubkey * Account) + RpcCustomError :=
  let filters := optimize_filters filters in
  if ai_contains ix IndexProgramId then
    if negb (ai_include_key ix program_id) then key_excluded program_id
    else scan_result (sb_filtered_indexed_accounts bank (KeyProgramId program_id)
           (λ account, bool_decide (acc_owner account = program_id) && all_allow filters account)
           (negb sort_results))
  else scan_result (sb_filtered_program_accounts bank program_id (all_allow filters)
         (negb sort_results)).

Definition get_filtered_spl_token_accounts_by_owner ix bank (program_id owner_key : Pubkey) filters
    (sort_results : bool) : list (Pubkey * Account) + RpcCustomError :=
  let filters := filters ++
    [TokenAccountState;
     MemcmpFilter (mc_new_raw SPL_TOKEN_ACCOUNT_OWNER_OFFSET (pubkey_to_bytes owner_key))] in
  if ai_contains ix IndexSplTokenOwner then
    if negb (ai_include_key ix owner_key) then key_excluded owner_key
    else scan_result (sb_filtered_indexed_accounts bank (KeySplTokenOwner owner_key)
           (λ account, bool_decide (acc_owner account = program_id) && all_allow filters account)
           (negb sort_results))
  else get_filtered_program_accounts ix bank program_id filters sort_results.

Definition get_filtered_spl_token_accounts_by_mint ix bank (program_id mint_key : Pubkey) filters
    (sort_results : bool) : list (Pubkey * Account) + RpcCustomError :=
  let filters := filters ++
    [TokenAccountState;
     MemcmpFilter (mc_new_raw SPL_TOKEN_ACCOUNT_MINT_OFFSET (pubkey_to_bytes mint_key))] in
  if ai_contains ix IndexSplTokenMint then
    if negb (ai_include_key ix mint_key) then key_excluded mint_key
    else scan_result (sb_filtered_indexed_accounts bank (KeySplTokenMint mint_key)
           (λ account, bool_decide (acc_owner account = program_id) && all_allow filters account)
           (negb sort_results))
  else get_filtered_program_accounts ix bank program_id filters sort_results.

(** The choice of scan in [get_program_accounts] *)
Definition keyed_accounts ix bank (program_id : Pubkey) filters (sort_results : bool) :
    list (Pubkey * Account) + RpcCustomError :=
  match get_spl_token_owner_filter program_id filters with
  | Some owner =>
      get_filtered_spl_token_accounts_by_owner ix bank program_id owner filters sort_results
  | None =>
      match get_spl_token_mint_filter program_id filters with
      | Some mint =>
          get_filtered_spl_token_accounts_by_mint ix bank program_id mint filters sort_results
      | None => get_filtered_program_accounts ix bank program_id filters sort_results
      end
  end.

(** ** Encoding *)

Definition get_account_from_overwrites_or_bank (pubkey : Pubkey) bank
    (overwrite_accounts : option (gmap Pubkey Account)) : option Account :=
  match overwrite_accounts ≫= (λ accounts, accounts !! pubkey) with
  | Some account => Some account
  | None => qb_get_account bank pubkey
  end.

Definition base58_error : RpcError :=
  InvalidRequestWith ("Encoded binary (base 58) data should be less than " +:+
    pretty MAX_BASE58_BYTES +:+ " bytes, please use Base64 encoding.").
Definition encode_account (account : Account) (pubkey : Pubkey) (encoding : UiAccountEncoding)
    (data_slice : option UiDataSliceConfig) : rpc UiAccount :=
  let len := length (acc_data account) in
  if (bool_decide (encoding = Binary) || bool_decide (encoding = Base58)) &&
     (MAX_BASE58_BYTES <?
        match data_slice with Some s => sl_length s `min` (len - sl_offset s) | None => len end)
  then fail base58_error
  else inl (ui_encode pubkey account encoding None data_slice).

Definition get_additional_mint_data bank (data : bytes) : rpc (SplTokenAdditionalData Interest) :=
  match unpack_mint data with
  | None => fail (InvalidParams "Invalid param: Token mint could not be unpacked")
  | Some mint =>
      inl (mkAdditional (mint_decimals mint)
             ((λ x, (x, qb_unix_timestamp bank)) <$> mint_interest mint))
  end.
Definition get_mint_owner_and_additional_data bank (mint : Pubkey) :
    rpc (Pubkey * SplTokenAdditionalData Interest) :=
  if bool_decide (mint = native_mint_id)
  then inl (spl_token_id, mkAdditional native_mint_decimals None)
  else
    mint_account ← ok_or (qb_get_account bank mint)
                     (InvalidParams "Invalid param: could not find mint");
    mint_data ← get_additional_mint_data bank (acc_data mint_account);
    inl (acc_owner mint_account, mint_data).

Definition rpc_ok {A} (r : rpc A) : option A := match r with inl a => Some a | inr _ => None end.
Definition get_parsed_token_account bank (pubkey : Pubkey) (account : Account)
    (overwrite_accounts : option (gmap Pubkey Account)) : UiAccount :=
  let additional_data :=
    mint_pubkey ← get_token_account_mint (acc_data account);
    mint_account ← get_account_from_overwrites_or_bank mint_pubkey bank overwrite_accounts;
    rpc_ok (get_additional_mint_data bank (acc_data mint_account)) in
  ui_encode pubkey account JsonParsed additional_data None.

(** [RpcKeyedAccount] *)
Abbreviation KeyedUi := (string * UiAccount)%type.
(** The data of a mint, with the map of the mints seen so far *)
Definition mint_data_cached bank (seen : gmap Pubkey (SplTokenAdditionalData Interest))
    (mint_pubkey : Pubkey) :
    gmap Pubkey (SplTokenAdditionalData Interest) * option (SplTokenAdditionalData Interest) :=
  match seen !! mint_pubkey with
  | Some data => (seen, Some data)
  | None =>
      match get_mint_owner_and_additional_data bank mint_pubkey with
      | inl (_, data) => (<[mint_pubkey := data]> seen, Some data)
      | inr _ => (seen, None)
      end
  end.
(** the closure of [filter_map] and the map it captures *)
Fixpoint get_parsed_token_accounts_from bank (seen : gmap Pubkey (SplTokenAdditionalData Interest))
    (l : list (Pubkey * Account)) : list KeyedUi :=
  match l with
  | [] => []
  | (pubkey, account) :: l =>
      let '(seen, additional_data) :=
        match get_token_account_mint (acc_data account) with
        | Some mint_pubkey => mint_data_cached bank seen mint_pubkey
        | None => (seen, None)
        end in
      let maybe_encoded_account := ui_encode pubkey account JsonParsed additional_data None in
      if ui_is_json maybe_encoded_account
      then (pubkey_to_string pubkey, maybe_encoded_account) ::
             get_parsed_token_accounts_from bank seen l
      else get_parsed_token_accounts_from bank seen l
  end.
Definition get_parsed_token_accounts bank (l : list (Pubkey * Account)) : list KeyedUi :=
  get_parsed_token_accounts_from bank ∅ l.

(** ** Requests *)

(** The encoding of the found accounts, which three requests share *)
Definition encode_keyed (parsed : bool) (encoding : UiAccountEncoding)
    (data_slice : option UiDataSliceConfig) bank (l : list (Pubkey * Account)) : rpc (list KeyedUi) :=
  if parsed && bool_decide (encoding = JsonParsed) then inl (get_parsed_token_accounts bank l)
  else collect_rpc (λ x, u ← encode_account x.2 x.1 encoding data_slice;
                     inl (pubkey_to_string x.1, u)) l.

Definition context_of (config : RpcAccountInfoConfig) : RpcContextConfig :=
  mkContext (ac_commitment config) (ac_min_context_slot config).
Definition get_program_accounts ix p (program_id : Pubkey) (config : option RpcAccountInfoConfig)
    filters (with_context sort_results : bool) : rpc (OptionalContext (list KeyedUi)) :=
  let config := default account_info_default config in
  bank ← get_bank_with_config p (context_of config);
  let encoding := default Binary (ac_encoding config) in
  let filters := optimize_filters filters in
  found ← map_err (keyed_accounts ix bank program_id filters sort_results) Custom;
  accounts ← encode_keyed (is_known_spl_token_id program_id) encoding (ac_data_slice config) bank found;
  inl (if with_context then WithContext (new_response bank accounts) else NoContext accounts).

Definition get_encoded_account bank (pubkey : Pubkey) (encoding : UiAccountEncoding)
    (data_slice : option UiDataSliceConfig) (overwrite_accounts : option (gmap Pubkey Account)) :
    rpc (option UiAccount) :=
  match get_account_from_overwrites_or_bank pubkey bank overwrite_accounts with
  | Some account =>
      response ←
        if is_known_spl_token_id (acc_owner account) && bool_decide (encoding = JsonParsed)
        then inl (get_parsed_token_account bank pubkey account overwrite_accounts)
        else encode_account account pubkey encoding data_slice;
      inl (Some response)
  | None => inl None
  end.
Definition get_account_info p (pubkey : Pubkey) (config : option RpcAccountInfoConfig) :
    rpc (RpcResponse (option UiAccount)) :=
  let config := default account_info_default config in
  bank ← get_bank_with_config p (context_of config);
  response ← get_encoded_account bank pubkey (default Binary (ac_encoding config))
               (ac_data_slice config) None;
  inl (new_response bank response).
Definition get_multiple_accounts p (pubkeys : list Pubkey) (config : option RpcAccountInfoConfig) :
    rpc (RpcResponse (list (option UiAccount))) :=
  let config := default account_info_default config in
  bank ← get_bank_with_config p (context_of config);
  accounts ← collect_rpc (λ pubkey, get_encoded_account bank pubkey (default Base64 (ac_encoding config))
                                  (ac_data_slice config) None) pubkeys;
  inl (new_response bank accounts).

(** [TokenAccountsFilter] *)
Inductive TokenAccountsFilter := FilterMint (k : Pubkey) | FilterProgramId (k : Pubkey).
Definition get_token_program_id_and_mint bank (f : TokenAccountsFilter) :
    rpc (Pubkey * option Pubkey) :=
  match f with
  | FilterMint mint =>
      '(mint_owner, _) ← get_mint_owner_and_additional_data bank mint;
      if negb (is_known_spl_token_id mint_owner)
      then fail (InvalidParams "Invalid param: not a Token mint") else inl (mint_owner, Some mint)
  | FilterProgramId program_id =>
      if is_known_spl_token_id program_id then inl (program_id, None)
      else fail (InvalidParams "Invalid param: unrecognized Token program id")
  end.
Definition get_token_accounts_by_owner ix p (owner : Pubkey) (f : TokenAccountsFilter)
    (config : option RpcAccountInfoConfig) (sort_results : bool) : rpc (RpcResponse (list KeyedUi)) :=
  let config := default account_info_default config in
  bank ← get_bank_with_config p (context_of config);
  '(token_program_id, mint) ← get_token_program_id_and_mint bank f;
  let filters := match mint with
                 | Some mint => [MemcmpFilter (mc_new_raw 0 (pubkey_to_bytes mint))]
                 | None => []
                 end in
  found ← map_err (get_filtered_spl_token_accounts_by_owner ix bank token_program_id owner filters
                     sort_results) Custom;
  accounts ← encode_keyed true (default Binary (ac_encoding config)) (ac_data_slice config) bank found;
  inl (new_response bank accounts).
(** [bincode::serialize(&1u32)] is the four bytes of one, lowest first. *)
Definition get_token_accounts_by_delegate ix p (delegate : Pubkey) (f : TokenAccountsFilter)
    (config : option RpcAccountInfoConfig) (sort_results : bool) : rpc (RpcResponse (list KeyedUi)) :=
  let config := default account_info_default config in
  bank ← get_bank_with_config p (context_of config);
  '(token_program_id, mint) ← get_token_program_id_and_mint bank f;
  let filters := [MemcmpFilter (mc_new_raw 72 [1; 0; 0; 0]%Z);
                  MemcmpFilter (mc_new_raw 76 (pubkey_to_bytes delegate))] in
  found ← map_err
    match mint with
    | Some mint =>
        get_filtered_spl_token_accounts_by_mint ix bank token_program_id mint filters sort_results
    | None =>
        get_filtered_program_accounts ix bank token_program_id (filters ++ [TokenAccountState])
          sort_results
    end Custom;
  accounts ← encode_keyed true (default Binary (ac_encoding config)) (ac_data_slice config) bank found;
  inl (new_response bank accounts).
End Accounts.

(** ** What account requests return

    The accounts a request of a program's accounts finds are exactly the stored
    ones that pass its filters, whichever scan and index serve it, and the map
    of mints changes no parsed account. *)

Section Laws.
Context {BK Pubkey Account Memcmp : Type}.
Context `{!AccountView Account Pubkey, !MemcmpOps Memcmp, !TokenPrograms Pubkey}.
Context `{!ScanBank BK Pubkey Account}.

(** The accounts an index has under a key, as the code's comments say: it
    checks the owning program, or the state of a token account and its owner or
    mint. *)
Definition token_key (offset : nat) (k : Pubkey) (a : Account) : Prop :=
  is_known_spl_token_id (acc_owner a) = true ∧ valid_account_data (acc_data a) = true ∧
  mc_bytes_match (mc_new_raw (Memcmp := Memcmp) offset (pubkey_to_bytes k)) (acc_data a) = true.
Definition indexed (key : IndexKey Pubkey) (a : Account) : Prop :=
  match key with
  | KeyProgramId k => acc_owner a = k
  | KeySplTokenOwner k => token_key SPL_TOKEN_ACCOUNT_OWNER_OFFSET k a
  | KeySplTokenMint k => token_key SPL_TOKEN_ACCOUNT_MINT_OFFSET k a
  end.

(** The scan of a program finds its stored accounts that pass; an index may
    still list accounts that have changed, so its scan only promises to find
    the indexed ones and to return accounts that pass. *)
Class ScanLaws (stored : BK → Pubkey → Account → Prop) : Prop := {
  program_scan bank prog f flag l k a :
    sb_filtered_program_accounts bank prog f flag = inl l →
    (k, a) ∈ l ↔ stored bank k a ∧ acc_owner a = prog ∧ f a = true;
  index_scan_sound bank key f flag l k a :
    sb_filtered_indexed_accounts bank key f flag = inl l →
    (k, a) ∈ l → stored bank k a ∧ f a = true;
  index_scan_complete bank key f flag l k a :
    sb_filtered_indexed_accounts bank key f flag = inl l →
    stored bank k a → indexed key a → f a = true → (k, a) ∈ l
}.
(** Decoding a comparison does not change it, and a key is its bytes. *)
Class FilterLaws : Prop := {
  convert_match (m : Memcmp) d : mc_bytes_match (mc_convert m) d = mc_bytes_match m d;
  raw_match (m : Memcmp) b d : mc_raw_bytes m = Some b →
    mc_bytes_match m d = mc_bytes_match (mc_new_raw (Memcmp := Memcmp) (mc_offset m) b) d;
  pubkey_bytes (k : Pubkey) b : pubkey_try_from b = Some k → pubkey_to_bytes k = b
}.
End Laws.

Section Theorems.
Context {BK BS BT Pubkey Hash Signature Account TransactionError Memcmp UiAccount Interest : Type}.
Context `{!EqDecision Pubkey, !Countable Pubkey}.
Context `{!QueryBank BK Pubkey Hash Signature Account TransactionError}.
Context `{!ScanBank BK Pubkey Account, !AccountView Account Pubkey, !MemcmpOps Memcmp}.
Context `{!TokenPrograms Pubkey, !Decoders Pubkey Account UiAccount Interest}.
Context (stored : BK → Pubkey → Account → Prop).
Context {HS : ScanLaws (Memcmp := Memcmp) stored} {HF : FilterLaws (Pubkey := Pubkey) (Memcmp := Memcmp)}.
Implicit Types (bank : BK) (ix : AccountSecondaryIndexes Pubkey) (p : Processor BK BS BT).
Implicit Types (filters : list (RpcFilterType Memcmp)).

Lemma optimize_allows filters (a : Account) : all_allow (optimize_filters filters) a = all_allow filters a.
Proof using Type HF.
  unfold all_allow, optimize_filters. induction filters as [|f fs IH]; [done|]. cbn.
  rewrite IH. f_equal. destruct f; cbn; [done|apply convert_match|done].
Qed.
Lemma allow_app filters1 filters2 (a : Account) :
  all_allow (filters1 ++ filters2) a = all_allow filters1 a && all_allow filters2 a.
Proof using Type. apply forallb_app. Qed.

(** ** The key a list of filters fixes *)

Lemma scan_filter_key program_id off filters s k :
  fs_key (foldl (scan_filter program_id off) s filters) = Some k →
  fs_key s = Some k ∨ ∃ m b, MemcmpFilter m ∈ filters ∧ mc_offset m = off ∧
    mc_raw_bytes m = Some b ∧ pubkey_try_from b = Some k.
Proof using Type.
  revert s. induction filters as [|f fs IH]; intros s Hk; [by left|]. cbn in Hk.
  destruct (IH _ Hk) as [Hs|(m & b & Hm & ?)]; [|right; exists m, b; split; [by right|done]].
  destruct f as [|m|]; cbn in Hs; [by left| |by left].
  destruct (mc_raw_bytes m) as [b|] eqn:Hb; [|by left].
  case_match; [by left|]. destruct (Nat.eqb_spec (mc_offset m) off); [|by left].
  destruct (length b =? PUBKEY_BYTES); [|by left].
  right. exists m, b. split_and!; [left|done..].
Qed.
Lemma key_filter_spec off program_id filters k :
  key_filter off program_id filters = Some k →
  is_known_spl_token_id program_id = true ∧
  ∀ a, all_allow filters a = true →
    mc_bytes_match (mc_new_raw (Memcmp := Memcmp) off (pubkey_to_bytes k)) (acc_data a) = true.
Proof using Type HF.
  unfold key_filter. destruct (is_known_spl_token_id program_id); [|done].
  case_match; [|done]. intros [|(m & b & Hm & <- & Hb & Hk)]%scan_filter_key; [done|].
  split; [done|]. intros a Ha. rewrite (pubkey_bytes _ _ Hk), <- (raw_match _ _ _ Hb).
  unfold all_allow in Ha. rewrite forallb_forall in Ha. apply (Ha (MemcmpFilter m)).
  by apply list_elem_of_In.
Qed.

(** ** The scans *)

(** Exactly the stored accounts of a program that pass *)
Definition finds bank (program_id : Pubkey) filters (l : list (Pubkey * Account)) : Prop :=
  ∀ k a, (k, a) ∈ l ↔ stored bank k a ∧ acc_owner a = program_id ∧ all_allow filters a = true.

Lemma scan_result_ok {A} (r : A + string) a : scan_result r = inl a → r = inl a.
Proof using Type. by destruct r; cbn; intros [= ->]. Qed.
Lemma index_finds bank key program_id filters flag l :
  scan_result (sb_filtered_indexed_accounts bank key
    (λ a, bool_decide (acc_owner a = program_id) && all_allow filters a) flag) = inl l →
  (∀ a, acc_owner a = program_id → all_allow filters a = true → indexed (Memcmp := Memcmp) key a) →
  finds bank program_id filters l.
Proof using Type HS.
  intros Hl%scan_result_ok Hix k a. split.
  - intros Hin. destruct (index_scan_sound _ _ _ _ _ _ _ Hl Hin) as [? Hf].
    apply andb_true_iff in Hf as [Ho%bool_decide_eq_true_1 ?]. done.
  - intros (Hst & Ho & Ha). eapply index_scan_complete; eauto.
    cbn. by rewrite bool_decide_eq_true_2, Ha.
Qed.
Lemma program_finds ix bank program_id filters sort l :
  get_filtered_program_accounts ix bank program_id filters sort = inl l →
  finds bank program_id filters l.
Proof using Type HS HF.
  unfold get_filtered_program_accounts, key_excluded. case_match.
  - case_match; [done|]. intros Hl.
    pose proof (index_finds _ _ _ _ _ _ Hl ltac:(done)) as Hf.
    intros k a. by rewrite (Hf k a), optimize_allows.
  - intros Hl%scan_result_ok k a. rewrite (program_scan _ _ _ _ _ _ _ Hl).
    by rewrite optimize_allows.
Qed.
Lemma token_suffix_allows filters off k (a : Account) :
  all_allow (filters ++ [TokenAccountState; MemcmpFilter (mc_new_raw off (pubkey_to_bytes k))]) a = true ↔
  all_allow filters a = true ∧ valid_account_data (acc_data a) = true ∧
  mc_bytes_match (mc_new_raw (Memcmp := Memcmp) off (pubkey_to_bytes k)) (acc_data a) = true.
Proof using Type. rewrite allow_app. cbn. rewrite !andb_true_iff. tauto. Qed.
Lemma owner_finds ix bank program_id key filters sort l :
  is_known_spl_token_id program_id = true →
  get_filtered_spl_token_accounts_by_owner ix bank program_id key filters sort = inl l →
  finds bank program_id (filters ++ [TokenAccountState;
    MemcmpFilter (mc_new_raw SPL_TOKEN_ACCOUNT_OWNER_OFFSET (pubkey_to_bytes key))]) l.
Proof using Type HS HF.
  intros Hk. unfold get_filtered_spl_token_accounts_by_owner, key_excluded.
  case_match; [|apply program_finds]. case_match; [done|]. intros Hl. apply (index_finds _ _ _ _ _ _ Hl).
  intros a Ho (_ & Hv & Hm)%token_suffix_allows. cbn. unfold token_key. by rewrite Ho.
Qed.
Lemma mint_finds ix bank program_id key filters sort l :
  is_known_spl_token_id program_id = true →
  get_filtered_spl_token_accounts_by_mint ix bank program_id key filters sort = inl l →
  finds bank program_id (filters ++ [TokenAccountState;
    MemcmpFilter (mc_new_raw SPL_TOKEN_ACCOUNT_MINT_OFFSET (pubkey_to_bytes key))]) l.
Proof using Type HS HF.
  intros Hk. unfold get_filtered_spl_token_accounts_by_mint, key_excluded.
  case_match; [|apply program_finds]. case_match; [done|]. intros Hl. apply (index_finds _ _ _ _ _ _ Hl).
  intros a Ho (_ & Hv & Hm)%token_suffix_allows. cbn. unfold token_key. by rewrite Ho.
Qed.

(** Whether the filters of a request fix the owner or the mint of token
    accounts, in which case only initialized token accounts are found. *)
Definition token_request (program_id : Pubkey) filters : bool :=
  bool_decide (is_Some (get_spl_token_owner_filter program_id filters)) ||
  bool_decide (is_Some (get_spl_token_mint_filter program_id filters)).
Definition wanted bank (program_id : Pubkey) filters (l : list (Pubkey * Account)) : Prop :=
  ∀ k a, (k, a) ∈ l ↔ stored bank k a ∧ acc_owner a = program_id ∧ all_allow filters a = true ∧
    (token_request program_id filters = true → valid_account_data (acc_data a) = true).

Lemma token_wanted bank program_id filters off key l :
  key_filter off program_id filters = Some key → token_request program_id filters = true →
  finds bank program_id (filters ++ [TokenAccountState;
    MemcmpFilter (mc_new_raw off (pubkey_to_bytes key))]) l →
  wanted bank program_id filters l.
Proof using Type HF.
  intros [_ Hk]%key_filter_spec Ht Hf k a. rewrite (Hf k a), token_suffix_allows, Ht.
  specialize (Hk a). tauto.
Qed.
Lemma keyed_wanted ix bank program_id filters sort l :
  keyed_accounts ix bank program_id filters sort = inl l → wanted bank program_id filters l.
Proof using Type HS HF.
  unfold keyed_accounts.
  destruct (get_spl_token_owner_filter program_id filters) as [o|] eqn:Ho;
    [|destruct (get_spl_token_mint_filter program_id filters) as [m|] eqn:Hm]; intros Hl.
  - eapply token_wanted; [exact Ho|unfold token_request; by rewrite Ho|].
    eapply owner_finds; [|done]. by apply key_filter_spec in Ho as [? _].
  - eapply token_wanted; [exact Hm|unfold token_request; by rewrite Ho, Hm|].
    eapply mint_finds; [|done]. by apply key_filter_spec in Hm as [? _].
  - intros k a. rewrite (program_finds _ _ _ _ _ _ Hl k a). unfold token_request. rewrite Ho, Hm.
    cbn. intuition done.
Qed.

(** The scans of a bank succeed, and no enabled index leaves out a key. *)
Definition scans_succeed bank : Prop :=
  (∀ key (f : Account → bool) flag, is_Some (rpc_ok (map_err (sb_filtered_indexed_accounts bank key f flag)
     (λ _, InternalError)))) ∧
  ∀ (prog : Pubkey) (f : Account → bool) flag,
    is_Some (rpc_ok (map_err (sb_filtered_program_accounts bank prog f flag) (λ _, InternalError))).
Lemma scan_succeeds {A} (r : A + string) :
  is_Some (rpc_ok (map_err r (λ _, InternalError))) → ∃ a, scan_result r = inl a.
Proof using Type. destruct r as [a|]; cbn; [by exists a|by intros [? [=]]]. Qed.
Lemma keyed_succeeds ix bank program_id filters sort :
  scans_succeed bank → (∀ k, ai_include_key ix k = true) →
  ∃ l, keyed_accounts ix bank program_id filters sort = inl l.
Proof using Type.
  intros [Hi Hp] Hk.
  assert (Hg : ∀ fs, ∃ l, get_filtered_program_accounts ix bank program_id fs sort = inl l).
  { intros fs. unfold get_filtered_program_accounts. rewrite Hk. cbn.
    case_match; by apply scan_succeeds. }
  unfold keyed_accounts, get_filtered_spl_token_accounts_by_owner,
    get_filtered_spl_token_accounts_by_mint.
  repeat case_match; rewrite ?Hk in *; try done; eauto using scan_succeeds.
Qed.

(** C34: A request of a program's accounts encodes exactly the stored accounts
    that the program owns and that pass every filter, whichever secondary
    indexes are enabled and whichever scan the filters select; where the filters
    fix the owner or the mint of a token account, also only initialized token
    accounts.  This is where the bank of the request is known, the scans of the
    accounts succeed and the indexes exclude no key. *)
Theorem program_accounts_exact ix p bank program_id config filters with_context sort :
  get_bank_with_config p (context_of (default account_info_default config)) = inl bank →
  scans_succeed bank → (∀ k, ai_include_key ix k = true) →
  ∃ l, wanted bank program_id (optimize_filters filters) l ∧
    (∀ k a, (k, a) ∈ l → all_allow filters a = true) ∧
    get_program_accounts ix p program_id config filters with_context sort =
      (accounts ← encode_keyed (is_known_spl_token_id program_id)
         (default Binary (ac_encoding (default account_info_default config)))
         (ac_data_slice (default account_info_default config)) bank l;
       inl (if with_context then WithContext (new_response bank accounts) else NoContext accounts)).
Proof using Type HS HF.
  intros Hb Hs Hk. destruct (keyed_succeeds ix bank program_id (optimize_filters filters) sort Hs Hk)
    as [l Hl].
  exists l. pose proof (keyed_wanted _ _ _ _ _ _ Hl) as Hw. split_and!; [done| |].
  - intros k a (_ & _ & Ha & _)%Hw. by rewrite optimize_allows in Ha.
  - unfold get_program_accounts. rewrite Hb. cbn. by rewrite Hl.
Qed.

(** ** The map of mints *)

(** An account parsed without a map *)
Definition parse_one bank (x : Pubkey * Account) : option (string * UiAccount) :=
  let data := mint ← get_token_account_mint (acc_data x.2);
              snd <$> rpc_ok (get_mint_owner_and_additional_data bank mint) in
  let u := ui_encode x.1 x.2 JsonParsed data None in
  if ui_is_json u then Some (pubkey_to_string x.1, u) else None.
Definition mints_right bank (seen : gmap Pubkey (SplTokenAdditionalData Interest)) : Prop :=
  ∀ m d, seen !! m = Some d → snd <$> rpc_ok (get_mint_owner_and_additional_data bank m) = Some d.

Lemma mint_data_cached_right bank seen m : mints_right bank seen →
  mints_right bank (mint_data_cached bank seen m).1 ∧
  (mint_data_cached bank seen m).2 = snd <$> rpc_ok (get_mint_owner_and_additional_data bank m).
Proof using Type.
  intros Hs. unfold mint_data_cached. destruct (seen !! m) as [d|] eqn:Hm.
  { split; [done|]. cbn. by rewrite (Hs _ _ Hm). }
  destruct (get_mint_owner_and_additional_data bank m) as [[o d]|] eqn:Hg; cbn; [|done].
  split; [|done]. intros m' d' [[<- <-]|[_ ?]]%lookup_insert_Some; [by rewrite Hg|by apply Hs].
Qed.

(** Keeping the data of the mints seen so far changes no parsed token
    account: the accounts are those parsed one by one. *)
Theorem parsed_accounts_memo bank (l : list (Pubkey * Account)) :
  get_parsed_token_accounts bank l = omap (parse_one bank) l.
Proof using Type.
  unfold get_parsed_token_accounts.
  assert (Hgen : ∀ seen, mints_right bank seen →
    get_parsed_token_accounts_from bank seen l = omap (parse_one bank) l).
  { induction l as [|[k a] l IH]; intros seen Hs; [done|]. cbn. unfold parse_one. cbn.
    destruct (get_token_account_mint (acc_data a)) as [m|]; cbn;
      [|case_match; cbn; [f_equal|]; by apply IH].
    destruct (mint_data_cached_right bank seen m Hs) as [Hs' Hd].
    destruct (mint_data_cached bank seen m) as [seen' d]. cbn in *. subst d.
    case_match; cbn; [f_equal|]; by apply IH. }
  apply Hgen. by intros m d ?%lookup_empty_Some.
Qed.
End Theorems.
