(* ===== verification/RpcTokens.v ===== *)
(** * The RPC service: balances, supplies and votes

    The token requests with the bounded heap of the largest accounts, the cache
    of the largest accounts ([cache.rs]), the supply and the vote accounts. *)
From stdpp Require Import sorting.
From S2P Require Import Prelude RpcBase RpcAccounts.
Set Default Proof Using "Type*".

(** ** The heap

    [BinaryHeap<Reverse<E>>]: its entries in ascending order, so that the first
    is the one [peek] and [pop] see. *)
Section Heap.
Context {E : Type} (le : E → E → bool).

Fixpoint heap_push (e : E) (h : list E) : list E :=
  match h with
  | [] => [e]
  | x :: h' => if le e x then e :: h else x :: heap_push e h'
  end.
(** the body of the loop of [get_token_largest_accounts], with [n] for
    [NUM_LARGEST_ACCOUNTS] *)
Definition keep_largest (n : nat) (h : list E) (new_entry : E) : res (list E) :=
  if n <=? length h then
    entry ← expect (head h) "BinaryHeap::peek should succeed when len > 0";
    if le new_entry entry then Ok h else Ok (heap_push new_entry (tail h))
  else Ok (heap_push new_entry h).
(** The loop, then [into_sorted_vec]: ascending in [Reverse] *)
Fixpoint keep_all (n : nat) (h : list E) (entries : list E) : res (list E) :=
  match entries with
  | [] => Ok h
  | e :: entries => h ← keep_largest n h e; keep_all n h entries
  end.
Definition largest (n : nat) (entries : list E) : res (list E) :=
  h ← keep_all n [] entries; Ok (reverse h).
End Heap.

(** ** The cache of the largest accounts *)

Inductive RpcLargestAccountsFilter := Circulating | NonCirculating.
#[global] Instance largest_filter_eq : EqDecision RpcLargestAccountsFilter.
Proof. solve_decision. Defined.
#[global] Instance largest_filter_countable : Countable RpcLargestAccountsFilter.
Proof.
  apply (inj_countable' (λ f, match f with Circulating => true | _ => false end)
           (λ b : bool, if b then Circulating else NonCirculating)). by intros [].
Defined.

(** [RpcAccountBalance] is an address and its lamports; times are nanoseconds. *)
Record LargestAccountsCacheValue := mkCacheValue {
  cv_accounts : list (string * Z); cv_slot : Z; cv_cached_time : Z
}.
Record LargestAccountsCache := mkCache {
  lc_duration : Z; lc_cache : gmap (option RpcLargestAccountsFilter) LargestAccountsCacheValue
}.
Definition new_cache (duration : Z) : LargestAccountsCache := mkCache duration ∅.
Definition cache_get (c : LargestAccountsCache) (f : option RpcLargestAccountsFilter) (now : Z) :
    option (Z * list (string * Z)) :=
  value ← lc_cache c !! f;
  if (cv_cached_time value <=? now)%Z &&
     (now - cv_cached_time value <? lc_duration c * 10 ^ 9)%Z
  then Some (cv_slot value, cv_accounts value) else None.
Definition cache_set (c : LargestAccountsCache) (f : option RpcLargestAccountsFilter) (slot : Z)
    (accounts : list (string * Z)) (now : Z) : LargestAccountsCache :=
  mkCache (lc_duration c) (<[f := mkCacheValue accounts slot now]> (lc_cache c)).

(** [AccountAddressFilter] and the bank's part *)
Inductive AccountAddressFilter := Exclude | Include.
Class SupplyBank (BK Pubkey : Type) := {
  calculate_non_circulating_supply : BK → (Z * list Pubkey) + string;
  sb_capitalization : BK → Z;
  sb_largest_accounts :
    BK → nat → list Pubkey → AccountAddressFilter → bool → list (Pubkey * Z) + string
}.
Record RpcLargestAccountsConfig := mkLargestConfig {
  la_commitment : option CommitmentLevel; la_filter : option RpcLargestAccountsFilter;
  la_sort_results : option bool
}.
Record RpcSupply := mkSupply {
  su_total : Z; su_circulating : Z; su_non_circulating : Z; su_accounts : list string
}.

(** ** Vote accounts *)

Record VoteState (Pubkey : Type) := mkVoteState {
  vs_votes : list Z; vs_epoch_credits : list (Z * Z * Z); vs_node_pubkey : Pubkey;
  vs_commission : Z; vs_root_slot : option Z
}.
Arguments mkVoteState {_}.
Arguments vs_votes {_}.
Arguments vs_epoch_credits {_}.
Arguments vs_node_pubkey {_}.
Arguments vs_commission {_}.
Arguments vs_root_slot {_}.
Class VoteBank (BK Pubkey : Type) := {
  vb_vote_accounts : BK → list (Pubkey * (Z * option (VoteState Pubkey)));
  vb_epoch_vote_accounts : BK → option (list Pubkey)
}.
Record RpcVoteAccountInfo := mkVoteInfo {
  vi_vote_pubkey : string; vi_node_pubkey : string; vi_activated_stake : Z; vi_commission : Z;
  vi_root_slot : Z; vi_epoch_credits : list (Z * Z * Z); vi_epoch_vote_account : bool;
  vi_last_vote : Z
}.
Record RpcGetVoteAccountsConfig := mkVoteConfig {
  vc_vote_pubkey : option string; vc_commitment : option CommitmentLevel;
  vc_keep_unstaked_delinquents : option bool; vc_delinquent_slot_distance : option Z
}.

Section Tokens.
Context {BK BS BT Pubkey Hash Signature Account TransactionError Memcmp UiAccount Interest Amount : Type}.
Context `{!EqDecision Pubkey, !Countable Pubkey}.
Context `{!QueryBank BK Pubkey Hash Signature Account TransactionError}.
Context `{!ScanBank BK Pubkey Account, !AccountView Account Pubkey, !MemcmpOps Memcmp}.
Context `{!TokenPrograms Pubkey, !Decoders Pubkey Account UiAccount Interest}.
Context `{!SupplyBank BK Pubkey, !VoteBank BK Pubkey}.
(** [StateWithExtensions::unpack] for token accounts, as mint and amount, where
    the mint is a key already, so that printing and parsing it again is left out;
    [token_amount_to_ui_amount_v2]; the order of keys; [VoteState::default]
    and constants of the client interface *)
Context (unpack_token_account : bytes → option (Pubkey * Z)).
Context (token_amount_to_ui_amount : Z → SplTokenAdditionalData Interest → Amount).
Context (pubkey_le : Pubkey → Pubkey → bool).
Context (parse_pubkey : string → Pubkey + string).
Context (NUM_LARGEST_ACCOUNTS MAX_EPOCH_CREDITS_HISTORY : nat).
Context (DELINQUENT_VALIDATOR_SLOT_DISTANCE : Z) (default_vote_state : VoteState Pubkey).
Implicit Types (p : Processor BK BS BT) (bank : BK) (ix : AccountSecondaryIndexes Pubkey).

(** ** Token requests *)

Definition not_a_token_account : RpcError := InvalidParams "Invalid param: not a Token account".
Definition not_a_token_mint : RpcError := InvalidParams "Invalid param: not a Token mint".
Definition account_not_found : RpcError := InvalidParams "Invalid param: could not find account".

Definition get_token_account_balance p (pubkey : Pubkey) (c : option CommitmentLevel) :
    rpc (RpcResponse Amount) :=
  let bank := rpc_bank p c in
  account ← ok_or (qb_get_account bank pubkey) account_not_found;
  if negb (is_known_spl_token_id (acc_owner account)) then fail not_a_token_account
  else
    '(mint, amount) ← ok_or (unpack_token_account (acc_data account)) not_a_token_account;
    '(_, data) ← get_mint_owner_and_additional_data bank mint;
    inl (new_response bank (token_amount_to_ui_amount amount data)).
Definition get_token_supply p (mint : Pubkey) (c : option CommitmentLevel) :
    rpc (RpcResponse Amount) :=
  let bank := rpc_bank p c in
  mint_account ← ok_or (qb_get_account bank mint) account_not_found;
  if negb (is_known_spl_token_id (acc_owner mint_account)) then fail not_a_token_mint
  else
    mint ← ok_or (unpack_mint (acc_data mint_account))
             (InvalidParams "Invalid param: mint could not be unpacked");
    let interest := (λ x, (x, qb_unix_timestamp bank)) <$> mint_interest mint in
    inl (new_response bank
           (token_amount_to_ui_amount (mint_supply mint) (mkAdditional (mint_decimals mint) interest))).

(** the order of [(u64, Pubkey)] *)
Definition entry_le (x y : Z * Pubkey) : bool :=
  (x.1 <? y.1)%Z || (x.1 =? y.1)%Z && pubkey_le x.2 y.2.
Definition token_entry (x : Pubkey * Account) : Z * Pubkey :=
  (match unpack_token_account (acc_data x.2) with Some (_, amount) => amount | None => 0%Z end, x.1).
Definition token_balance (data : SplTokenAdditionalData Interest) (x : Z * Pubkey) : string * Amount :=
  (pubkey_to_string x.2, token_amount_to_ui_amount x.1 data).
(** The part before the heap: the data of the mint and its accounts *)
Definition token_accounts_of_mint ix bank (mint : Pubkey) :
    rpc (SplTokenAdditionalData Interest * list (Pubkey * Account)) :=
  '(mint_owner, data) ← get_mint_owner_and_additional_data bank mint;
  if negb (is_known_spl_token_id mint_owner) then fail not_a_token_mint
  else
    found ← map_err (get_filtered_spl_token_accounts_by_mint ix bank mint_owner mint [] true) Custom;
    inl (data, found).
Definition get_token_largest_accounts ix p (mint : Pubkey) (c : option CommitmentLevel) :
    res (rpc (RpcResponse (list (string * Amount)))) :=
  let bank := rpc_bank p c in
  match token_accounts_of_mint ix bank mint with
  | inr e => Ok (inr e)
  | inl (data, found) =>
      token_balances ← largest entry_le NUM_LARGEST_ACCOUNTS (map token_entry found);
      Ok (inl (new_response bank (map (token_balance data) token_balances)))
  end.

(** ** Largest accounts and supply *)

Definition scan_error {A} (r : A + string) : rpc A := map_err r (λ e, Custom (ScanError e)).
(** The scan after a miss of the cache *)
Definition scan_largest bank (f : option RpcLargestAccountsFilter) (sort_results : bool) :
    rpc (list (Pubkey * Z)) :=
  '(addresses, address_filter) ←
    match f with
    | Some f =>
        supply ← scan_error (calculate_non_circulating_supply bank);
        inl (supply.2, match f with Circulating => Exclude | NonCirculating => Include end)
    | None => inl ([], Exclude)
    end;
  scan_error (sb_largest_accounts bank NUM_LARGEST_ACCOUNTS addresses address_filter sort_results).
(** The cache is read at [now] and written at [later]. *)
Definition get_largest_accounts p (cache : LargestAccountsCache)
    (config : option RpcLargestAccountsConfig) (now later : Z) :
    LargestAccountsCache * rpc (RpcResponse (list (string * Z))) :=
  let config := default (mkLargestConfig None None None) config in
  let bank := rpc_bank p (la_commitment config) in
  let sort_results := default true (la_sort_results config) in
  match cache_get cache (la_filter config) now with
  | Some (slot, accounts) => (cache, inl (mkResponse slot accounts))
  | None =>
      match scan_largest bank (la_filter config) sort_results with
      | inr e => (cache, inr e)
      | inl found =>
          let accounts := (λ x, (pubkey_to_string x.1, x.2)) <$> found in
          (cache_set cache (la_filter config) (qb_slot bank) accounts later,
           inl (new_response bank accounts))
      end
  end.
Definition get_supply p (exclude_accounts_list : bool) (c : option CommitmentLevel) :
    res (rpc (RpcResponse RpcSupply)) :=
  let bank := rpc_bank p c in
  match scan_error (calculate_non_circulating_supply bank) with
  | inr e => Ok (inr e)
  | inl (lamports, accounts) =>
      let total := sb_capitalization bank in
      circulating ← checked_sub total lamports;
      Ok (inl (new_response bank (mkSupply total circulating lamports
        (if exclude_accounts_list then [] else pubkey_to_string <$> accounts))))
  end.

(** ** Votes *)

(** the closure of [filter_map], after its filter on the key *)
Definition vote_account_info (epoch_vote_accounts : list Pubkey)
    (x : Pubkey * (Z * option (VoteState Pubkey))) : RpcVoteAccountInfo :=
  let '(vote_pubkey, (activated_stake, state)) := x in
  let vote_state := default default_vote_state state in
  let credits := vs_epoch_credits vote_state in
  mkVoteInfo (pubkey_to_string vote_pubkey) (pubkey_to_string (vs_node_pubkey vote_state))
    activated_stake (vs_commission vote_state) (default 0%Z (vs_root_slot vote_state))
    (if MAX_EPOCH_CREDITS_HISTORY <? length credits
     then drop (length credits - MAX_EPOCH_CREDITS_HISTORY) credits else credits)
    (bool_decide (vote_pubkey ∈ epoch_vote_accounts))
    (default 0%Z (last (vs_votes vote_state))).
Definition is_current (slot distance : Z) (v : RpcVoteAccountInfo) : bool :=
  if (distance <=? slot)%Z then (slot - distance <? vi_last_vote v)%Z else (0 <? vi_last_vote v)%Z.
Definition get_vote_accounts p (config : option RpcGetVoteAccountsConfig) :
    rpc (list RpcVoteAccountInfo * list RpcVoteAccountInfo) :=
  let config := default (mkVoteConfig None None None None) config in
  only ← match vc_vote_pubkey config with
         | Some s => k ← map_err (parse_pubkey s) (λ e, InvalidParams ("Invalid param: " +:+ e));
                     inl (Some k)
         | None => inl None
         end;
  let bank := rpc_bank p (vc_commitment config) in
  epoch_vote_accounts ← ok_or (vb_epoch_vote_accounts bank) InvalidRequest;
  let distance := default DELINQUENT_VALIDATOR_SLOT_DISTANCE (vc_delinquent_slot_distance config) in
  let infos := vote_account_info epoch_vote_accounts <$>
    filter (λ x, from_option (λ k, bool_decide (x.1 = k)) true only = true) (vb_vote_accounts bank) in
  let current := filter (λ v, is_current (qb_slot bank) distance v = true) infos in
  let delinquent := filter (λ v, is_current (qb_slot bank) distance v = false) infos in
  inl (current,
       if default false (vc_keep_unstaked_delinquents config) then delinquent
       else filter (λ v, 0 < vi_activated_stake v)%Z delinquent).
End Tokens.

(** ** The largest token accounts and the cache

    The bounded heap keeps the largest entries, and a cached answer is repeated
    as long as it is kept. *)

(** ** The heap *)

Section Heap.
Context {E : Type} (le : E → E → bool).
(** [le] is a total order. *)
Class EntryOrder : Prop := {
  le_total x y : le x y = true ∨ le y x = true;
  le_trans x y z : le x y = true → le y z = true → le x z = true
}.
Context {HO : EntryOrder}.
Abbreviation ascending := (StronglySorted (λ x y, le x y = true)).

Lemma push_perm e h : heap_push le e h ≡ₚ e :: h.
Proof using Type.
  induction h as [|x h IH]; [done|]. cbn. case_match; [done|]. rewrite IH. apply Permutation_swap.
Qed.
Lemma push_ascending e h : ascending h → ascending (heap_push le e h).
Proof using HO.
  induction 1 as [|x h Hh IH Hx]; cbn; [by repeat constructor|].
  destruct (le e x) eqn:He.
  - constructor; [by constructor|]. constructor; [done|].
    eapply Forall_impl; [exact Hx|]. cbn. intros y. by apply le_trans.
  - constructor; [done|]. rewrite push_perm. constructor; [|done].
    destruct (le_total e x); congruence.
Qed.
(** All entries pushed, in ascending order *)
Fixpoint push_all (s : list E) (l : list E) : list E :=
  match l with [] => s | e :: l => push_all (heap_push le e s) l end.
Lemma push_all_spec l s : ascending s → ascending (push_all s l) ∧ push_all s l ≡ₚ s ++ l.
Proof using HO.
  revert s. induction l as [|e l IH]; intros s Hs; cbn; [by rewrite app_nil_r|].
  destruct (IH _ (push_ascending e s Hs)) as [? Hp]. split; [done|].
  rewrite Hp, push_perm. by rewrite <- Permutation_middle.
Qed.

(** Pushing below or above the first kept entry *)
Lemma push_below e s k x : ascending s → s !! k = Some x → le e x = true →
  drop (S k) (heap_push le e s) = drop k s.
Proof using HO.
  intros Hs. revert k. induction Hs as [|y s Hs IH Hy]; intros k Hk He; [done|]. cbn.
  destruct (le e y) eqn:Hey; [done|]. destruct k as [|k]; [by simplify_eq/=; congruence|].
  cbn in Hk |- *. by rewrite <- (IH k).
Qed.
Lemma push_above e s k x : ascending s → s !! k = Some x → le e x = false →
  drop (S k) (heap_push le e s) = heap_push le e (drop (S k) s).
Proof using HO.
  intros Hs. revert k. induction Hs as [|y s Hs IH Hy]; intros k Hk He; [done|]. cbn.
  destruct (le e y) eqn:Hey.
  - destruct k as [|k]; [by simplify_eq/=; congruence|]. cbn in Hk.
    rewrite Forall_lookup in Hy. specialize (Hy _ _ Hk). cbn in Hy.
    by rewrite (le_trans e y x Hey Hy) in He.
  - destruct k as [|k]; [done|]. cbn in Hk. by apply IH.
Qed.

(** The heap holds the last [n] of all the entries seen. *)
Lemma keep_largest_ok n s e : 0 < n → ascending s →
  keep_largest le n (drop (length s - n) s) e =
    Ok (drop (length (heap_push le e s) - n) (heap_push le e s)).
Proof using HO.
  intros Hn Hs. unfold keep_largest. rewrite length_drop, (Permutation_length (push_perm e s)).
  cbn [length]. destruct (Nat.leb_spec n (length s - (length s - n))) as [Hl|Hl].
  - destruct (lookup_lt_is_Some_2 s (length s - n)) as [x Hx]; [lia|].
    rewrite (drop_S _ _ _ Hx). cbn. replace (S (length s) - n) with (S (length s - n)) by lia.
    destruct (le e x) eqn:He.
    + by rewrite (push_below _ _ _ _ Hs Hx He), (drop_S _ _ _ Hx).
    + by rewrite (push_above _ _ _ _ Hs Hx He).
  - replace (length s - n) with 0 by lia. by replace (S (length s) - n) with 0 by lia.
Qed.
Lemma keep_all_ok n l s : 0 < n → ascending s →
  keep_all le n (drop (length s - n) s) l =
    Ok (drop (length (push_all s l) - n) (push_all s l)).
Proof using HO.
  intros Hn. revert s. induction l as [|e l IH]; intros s Hs; [done|].
  cbn [keep_all push_all]. rewrite keep_largest_ok by done. cbn. by apply IH, push_ascending.
Qed.
Lemma largest_ok n l : 0 < n →
  ∃ s, s ≡ₚ l ∧ StronglySorted (λ x y, le y x = true) s ∧ largest le n l = Ok (take n s).
Proof using HO.
  intros Hn. assert (Hnil : ascending []) by constructor.
  destruct (push_all_spec l [] Hnil) as [Ha Hp].
  exists (reverse (push_all [] l)). split_and!; [by rewrite reverse_Permutation| |].
  - clear Hp Hn. induction Ha as [|x s Hs IH Hx]; [constructor|]. rewrite reverse_cons.
    apply StronglySorted_app_2; [|done|by repeat constructor].
    intros y z Hy ->%list_elem_of_singleton. rewrite elem_of_reverse in Hy.
    rewrite Forall_forall in Hx. exact (Hx y Hy).
  - unfold largest. pose proof (keep_all_ok n l [] Hn Hnil) as Hk.
    rewrite drop_nil in Hk. rewrite Hk. cbn. f_equal. by rewrite take_reverse.
Qed.
End Heap.

Section Theorems.
Context {BK BS BT Pubkey Hash Signature Account TransactionError Memcmp UiAccount Interest Amount : Type}.
Context `{!EqDecision Pubkey, !Countable Pubkey}.
Context `{!QueryBank BK Pubkey Hash Signature Account TransactionError}.
Context `{!ScanBank BK Pubkey Account, !AccountView Account Pubkey, !MemcmpOps Memcmp}.
Context `{!TokenPrograms Pubkey, !Decoders Pubkey Account UiAccount Interest}.
Context `{!SupplyBank BK Pubkey}.
Context (unpack_token_account : bytes → option (Pubkey * Z)).
Context (token_amount_to_ui_amount : Z → SplTokenAdditionalData Interest → Amount).
Context (pubkey_le : Pubkey → Pubkey → bool).
Context (NUM_LARGEST_ACCOUNTS : nat).
Implicit Types (p : Processor BK BS BT) (ix : AccountSecondaryIndexes Pubkey).

Lemma entry_order : EntryOrder pubkey_le → EntryOrder (entry_le pubkey_le).
Proof using Type.
  intros HO. unfold entry_le. split.
  - intros [x k] [y j]. cbn. destruct (le_total pubkey_le k j) as [->| ->];
      destruct (Z.ltb_spec x y), (Z.ltb_spec y x), (Z.eqb_spec x y), (Z.eqb_spec y x); cbn; auto; lia.
  - intros [x k] [y j] [z i]. cbn. rewrite !orb_true_iff, !andb_true_iff, !Z.ltb_lt, !Z.eqb_eq.
    intros [?|[-> ?]] [?|[<- ?]]; [left; lia..|]. right. split; [done|by eapply le_trans].
Qed.

(** C39: Where the accounts of a mint are found, the request of its largest token
    accounts never panics and answers with the first accounts of all the mint's
    accounts ordered by amount, from the largest: the bounded heap the code
    collects them in loses none of these.  Keys are totally ordered and at least
    one account is asked for. *)
Theorem token_largest_accounts_top ix p mint c data found :
  EntryOrder pubkey_le → 0 < NUM_LARGEST_ACCOUNTS →
  token_accounts_of_mint (Memcmp := Memcmp) ix (rpc_bank p c) mint = inl (data, found) →
  ∃ s, s ≡ₚ map (token_entry unpack_token_account) found ∧
    StronglySorted (λ x y, entry_le pubkey_le y x = true) s ∧
    get_token_largest_accounts (Memcmp := Memcmp) unpack_token_account token_amount_to_ui_amount
      pubkey_le NUM_LARGEST_ACCOUNTS ix p mint c =
    Ok (inl (new_response (rpc_bank p c)
      (map (token_balance token_amount_to_ui_amount data) (take NUM_LARGEST_ACCOUNTS s)))).
Proof using Type.
  intros HO%entry_order Hn Hf.
  destruct (largest_ok (entry_le pubkey_le) NUM_LARGEST_ACCOUNTS
              (map (token_entry unpack_token_account) found) Hn) as (s & Hp & Hs & Hl).
  exists s. split_and!; [done..|]. unfold get_token_largest_accounts. rewrite Hf. by rewrite Hl.
Qed.

(** ** The cache *)

Lemma cache_hit c f slot accounts later now :
  (later ≤ now < later + lc_duration c * 10 ^ 9)%Z →
  cache_get (cache_set c f slot accounts later) f now = Some (slot, accounts).
Proof using Type.
  intros Hnow. unfold cache_get, cache_set. cbn. rewrite lookup_insert_eq. cbn.
  rewrite (proj2 (Z.leb_le _ _)) by lia. by rewrite (proj2 (Z.ltb_lt _ _)) by lia.
Qed.

(** An answer about the largest accounts that came from a scan is repeated
    for the duration of the cache to every request with the same filter, also
    to one that asks for sorted results where the first did not, or is served by
    another bank. *)
Theorem largest_accounts_repeated p p' cache cache' config config' now later now' later' r :
  cache_get cache (la_filter config) now = None →
  get_largest_accounts NUM_LARGEST_ACCOUNTS p cache (Some config) now later = (cache', inl r) →
  la_filter config' = la_filter config →
  (later ≤ now' < later + lc_duration cache * 10 ^ 9)%Z →
  get_largest_accounts NUM_LARGEST_ACCOUNTS p' cache' (Some config') now' later' = (cache', inl r).
Proof using Type.
  intros Hmiss Hget Hf Hnow. unfold get_largest_accounts in *. cbn in *. rewrite Hmiss in Hget.
  destruct (scan_largest _ _ _ _) as [found|]; [|done]. injection Hget as <- <-.
  rewrite Hf, cache_hit by done. done.
Qed.
End Theorems.
