(* ===== verification/RpcTransactions.v ===== *)
(** * The RPC service: sending and simulating transactions

    Decoding, sanitizing, checking and queueing a transaction for the producer,
    and its simulation.  The decoders, the sanitizer and the bank's simulation
    are an interface. *)
From stdpp Require Import pretty.
From S2P Require Import Prelude RpcBase RpcAccounts.
Set Default Proof Using "Type*".

Inductive TransactionBinaryEncoding := EncBase58 | EncBase64.

(** [TransactionSimulationResult], with the return data and the inner
    instructions in the form the answer has them in *)
Record SimulationResult (Pubkey Account TransactionError Return Inner : Type) := mkSimulation {
  sm_result : unit + TransactionError; sm_logs : list string;
  sm_post_simulation_accounts : list (Pubkey * Account); sm_units_consumed : Z;
  sm_return_data : option Return; sm_inner_instructions : option Inner
}.
Arguments mkSimulation {_ _ _ _ _}.
Arguments sm_result {_ _ _ _ _}.
Arguments sm_logs {_ _ _ _ _}.
Arguments sm_post_simulation_accounts {_ _ _ _ _}.
Arguments sm_units_consumed {_ _ _ _ _}.
Arguments sm_return_data {_ _ _ _ _}.
Arguments sm_inner_instructions {_ _ _ _ _}.

Class TxRuntime (BK Pubkey Hash Signature Account TransactionError V Tx Enc Return Inner : Type) := {
  into_binary_encoding : Enc → option TransactionBinaryEncoding;
  enc_base58 : Enc;
  enc_to_string : Enc → string;
  bs58_decode : string → bytes + string;
  base64_decode : string → bytes + string;
  deserialize_tx : bytes → V + string;
  tx_type_name : string;
  PACKET_DATA_SIZE : nat;
  MAX_PROCESSING_AGE : Z;
  set_recent_blockhash : V → Hash → V;
  try_create : BK → V → Tx + string;
  tx_signature : Tx → Signature;
  tx_recent_blockhash : Tx → Hash;
  tx_durable_nonce : Tx → option Pubkey;
  tx_account_keys : Tx → list Pubkey;
  tx_verify : Tx → bool;
  tx_verify_precompiles : BK → Tx → unit + string;
  simulate : BK → Tx → bool → SimulationResult Pubkey Account TransactionError Return Inner;
  signature_to_string : Signature → string;
  tx_error_to_string : TransactionError → string
}.

(** The channel to the producer: the transactions queued.  The request
    processor owns a receiver of the channel besides the sender, so the channel
    cannot become disconnected while a request is served. *)
Record TxChannel (Tx : Type) := mkTxChannel { ch_queue : list Tx }.
Arguments mkTxChannel {_}.
Arguments ch_queue {_}.

Section Transactions.
Context {BK BS BT Pubkey Hash Signature Account TransactionError : Type}.
Context {UiAccount Interest V Tx Enc Return Inner : Type}.
Context `{!EqDecision Pubkey, !Countable Pubkey}.
Context `{!QueryBank BK Pubkey Hash Signature Account TransactionError}.
Context `{!AccountView Account Pubkey, !TokenPrograms Pubkey}.
Context `{!Decoders Pubkey Account UiAccount Interest}.
Context {RT : TxRuntime BK Pubkey Hash Signature Account TransactionError V Tx Enc Return Inner}.
Implicit Types (p : Processor BK BS BT) (bank : BK) (ch : TxChannel Tx).

(** ** Decoding and checks *)

Definition MAX_BASE58_SIZE : nat := 1683.
Definition MAX_BASE64_SIZE : nat := 1644.

Definition encoded_too_large (kind : string) (len max : nat) : RpcError :=
  InvalidParams (kind +:+ " encoded " +:+ tx_type_name +:+ " too large: " +:+ pretty len +:+
    " bytes (max: encoded/raw " +:+ pretty max +:+ "/" +:+ pretty PACKET_DATA_SIZE +:+ ")").
(** the bytes of an encoded transaction *)
Definition decode_wire (encoded : string) (encoding : TransactionBinaryEncoding) : rpc bytes :=
  match encoding with
  | EncBase58 =>
      if MAX_BASE58_SIZE <? String.length encoded
      then fail (encoded_too_large "base58" (String.length encoded) MAX_BASE58_SIZE)
      else map_err (bs58_decode encoded) (λ e, InvalidParams ("invalid base58 encoding: " +:+ e))
  | EncBase64 =>
      if MAX_BASE64_SIZE <? String.length encoded
      then fail (encoded_too_large "base64" (String.length encoded) MAX_BASE64_SIZE)
      else map_err (base64_decode encoded) (λ e, InvalidParams ("invalid base64 encoding: " +:+ e))
  end.
Definition decode_and_deserialize (encoded : string) (encoding : TransactionBinaryEncoding) : rpc V :=
  wire_output ← decode_wire encoded encoding;
  if PACKET_DATA_SIZE <? length wire_output
  then fail (InvalidParams ("decoded " +:+ tx_type_name +:+ " too large: " +:+
               pretty (length wire_output) +:+ " bytes (max: " +:+ pretty PACKET_DATA_SIZE +:+ " bytes)"))
  else map_err (deserialize_tx wire_output)
         (λ e, InvalidParams ("failed to deserialize " +:+ tx_type_name +:+ ": " +:+ e)).
Definition sanitize_transaction (transaction : V) bank : rpc Tx :=
  map_err (try_create bank transaction) (λ e, InvalidParams ("invalid transaction: " +:+ e)).
Definition verify_transaction (transaction : Tx) bank : rpc unit :=
  if negb (tx_verify transaction) then custom TransactionSignatureVerificationFailure
  else map_err (tx_verify_precompiles bank transaction)
         (λ e, Custom (TransactionPrecompileVerificationFailure e)).
(** The encoding of a request and the transaction in it *)
Definition read_transaction (data : string) (encoding : option Enc) : rpc V :=
  let tx_encoding := default enc_base58 encoding in
  binary_encoding ← ok_or (into_binary_encoding tx_encoding)
    (InvalidParams ("unsupported encoding: " +:+ enc_to_string tx_encoding +:+
                    ". Supported encodings: base58, base64"));
  decode_and_deserialize data binary_encoding.

(** ** Sending *)

(** A send fails, which the code would log, only when no receiver is left. *)
Definition channel_send ch (transaction : Tx) : TxChannel Tx :=
  mkTxChannel (ch_queue ch ++ [transaction]).
Definition _send_transaction ch (signature : Signature) (transaction : Tx) :
    TxChannel Tx * rpc string :=
  (channel_send ch transaction, inl (signature_to_string signature)).

Record RpcSendTransactionConfig := mkSendConfig {
  sc_skip_preflight : bool; sc_preflight_commitment : option CommitmentLevel;
  sc_encoding : option Enc; sc_min_context_slot : option Z
}.
Definition send_config_default : RpcSendTransactionConfig := mkSendConfig false None None None.
(** The checks before a transaction is queued *)
Definition preflight bank (transaction : Tx) : rpc unit :=
  verify_transaction transaction bank ;;
  match sm_result (simulate bank transaction false) with
  | inr err => custom (SendTransactionPreflightFailure
                         ("Transaction simulation failed: " +:+ tx_error_to_string err))
  | inl _ => inl ()
  end.
(** The transaction of a request, sanitized against the preflight bank *)
Definition receive_transaction p (data : string) (config : RpcSendTransactionConfig) : rpc (BK * Tx) :=
  unsanitized_tx ← read_transaction data (sc_encoding config);
  let preflight_commitment :=
    if sc_skip_preflight config then Some Processed else sc_preflight_commitment config in
  bank ← get_bank_with_config p (mkContext preflight_commitment (sc_min_context_slot config));
  transaction ← sanitize_transaction unsanitized_tx bank;
  inl (bank, transaction).
(** The last block height the transaction may be in, which is not used yet *)
Definition last_valid_height bank (transaction : Tx) (skip_preflight : bool) : res Z :=
  let height := default 0%Z (qb_last_valid_block_height bank (tx_recent_blockhash transaction)) in
  if bool_decide (is_Some (tx_durable_nonce transaction)) || skip_preflight && (height =? 0)%Z
  then checked_add u64_max (qb_block_height bank) MAX_PROCESSING_AGE else Ok height.
Definition send_transaction p ch (data : string) (config : option RpcSendTransactionConfig) :
    res (TxChannel Tx * rpc string) :=
  let config := default send_config_default config in
  match receive_transaction p data config with
  | inr e => Ok (ch, inr e)
  | inl (bank, transaction) =>
      last_valid_block_height ← last_valid_height bank transaction (sc_skip_preflight config);
      match (if sc_skip_preflight config then inl () else preflight bank transaction) with
      | inr e => Ok (ch, inr e)
      | inl _ => Ok (_send_transaction ch (tx_signature transaction) transaction)
      end
  end.

(** ** Simulation *)

Record RpcSimulateTransactionConfig := mkSimulateConfig {
  mc_sig_verify : bool; mc_replace_recent_blockhash : bool; mc_commitment : option CommitmentLevel;
  mc_encoding : option Enc; mc_accounts : option (option UiAccountEncoding * list string);
  mc_min_context_slot : option Z; mc_inner_instructions : bool
}.
Definition simulate_config_default : RpcSimulateTransactionConfig :=
  mkSimulateConfig false false None None None None false.
Record RpcSimulateTransactionResult := mkSimulateResult {
  sr_err : option TransactionError; sr_logs : list string;
  sr_accounts : option (list (option UiAccount)); sr_units_consumed : Z;
  sr_return_data : option Return; sr_inner_instructions : option Inner;
  sr_replacement_blockhash : option (string * Z)
}.
Context (parse_pubkey : string → Pubkey + string).

(** The accounts a request wants to see after the simulation *)
Definition simulated_accounts bank (transaction : Tx)
    (sim : SimulationResult Pubkey Account TransactionError Return Inner)
    (config_accounts : option (option UiAccountEncoding * list string)) :
    rpc (option (list (option UiAccount))) :=
  match config_accounts with
  | None => inl None
  | Some (encoding, addresses) =>
      let accounts_encoding := default Base64 encoding in
      let number_of_accounts := length (tx_account_keys transaction) in
      if bool_decide (accounts_encoding = Binary) || bool_decide (accounts_encoding = Base58)
      then fail (InvalidParams "base58 encoding not supported")
      else if number_of_accounts <? length addresses
      then fail (InvalidParams ("Too many accounts provided; max " +:+ pretty number_of_accounts))
      else match sm_result sim with
           | inr _ => inl (Some (replicate (length addresses) None))
           | inl _ =>
               let post := foldl (λ m x, <[x.1 := x.2]> m) ∅ (sm_post_simulation_accounts sim) in
               accounts ← collect_rpc (λ s,
                 pubkey ← map_err (parse_pubkey s) (λ e, InvalidParams ("Invalid param: " +:+ e));
                 get_encoded_account bank pubkey accounts_encoding None (Some post)) addresses;
               inl (Some accounts)
           end
  end.
(** The blockhash a request may ask to be replaced *)
Definition replace_blockhash bank (config : RpcSimulateTransactionConfig) (tx : V) :
    res (rpc (V * option (string * Z))) :=
  if mc_replace_recent_blockhash config then
    if mc_sig_verify config
    then Ok (fail (InvalidParams "sigVerify may not be used with replaceRecentBlockhash"))
    else
      let recent_blockhash := qb_last_blockhash bank in
      height ← expect (qb_last_valid_block_height bank recent_blockhash)
                 "bank blockhash queue should contain blockhash";
      Ok (inl (set_recent_blockhash tx recent_blockhash,
               Some (hash_to_string recent_blockhash, height)))
  else Ok (inl (tx, None)).
Definition simulate_sanitized bank (config : RpcSimulateTransactionConfig) (tx : V)
    (blockhash : option (string * Z)) : rpc (RpcResponse RpcSimulateTransactionResult) :=
  transaction ← sanitize_transaction tx bank;
  (if mc_sig_verify config then verify_transaction transaction bank else inl ()) ;;
  let sim := simulate bank transaction (mc_inner_instructions config) in
  accounts ← simulated_accounts bank transaction sim (mc_accounts config);
  inl (new_response bank (mkSimulateResult
    (match sm_result sim with inr e => Some e | inl _ => None end)
    (sm_logs sim) accounts (sm_units_consumed sim) (sm_return_data sim)
    (sm_inner_instructions sim) blockhash)).
Definition simulate_transaction p (data : string) (config : option RpcSimulateTransactionConfig) :
    res (rpc (RpcResponse RpcSimulateTransactionResult)) :=
  let config := default simulate_config_default config in
  match (unsanitized_tx ← read_transaction data (mc_encoding config);
         bank ← get_bank_with_config p (mkContext (mc_commitment config) (mc_min_context_slot config));
         inl (unsanitized_tx, bank)) : rpc (V * BK) with
  | inr e => Ok (inr e)
  | inl (unsanitized_tx, bank) =>
      replaced ← replace_blockhash bank config unsanitized_tx;
      Ok (match replaced with
          | inr e => inr e
          | inl (tx, blockhash) => simulate_sanitized bank config tx blockhash
          end)
  end.
End Transactions.

(** ** What is queued *)

Section Theorems.
Context {BK BS BT Pubkey Hash Signature Account TransactionError : Type}.
Context {UiAccount Interest V Tx Enc Return Inner : Type}.
Context `{!EqDecision Pubkey, !Countable Pubkey}.
Context `{!QueryBank BK Pubkey Hash Signature Account TransactionError}.
Context {RT : TxRuntime BK Pubkey Hash Signature Account TransactionError V Tx Enc Return Inner}.
Implicit Types (p : Processor BK BS BT) (ch : TxChannel Tx).

Lemma preflight_ok bank (t : Tx) : preflight bank t = inl () ↔
  tx_verify t = true ∧ tx_verify_precompiles bank t = inl () ∧
  sm_result (simulate bank t false) = inl ().
Proof using Type.
  unfold preflight, verify_transaction. destruct (tx_verify t); cbn; [|intuition done].
  destruct (tx_verify_precompiles bank t) as [[]|]; cbn; [|intuition done].
  destruct (sm_result _) as [[]|]; cbn; intuition done.
Qed.

Lemma last_valid_height_ok bank (t : Tx) skip :
  (∀ bank : BK, qb_block_height bank + MAX_PROCESSING_AGE ≤ u64_max)%Z →
  ∃ h, last_valid_height bank t skip = Ok h.
Proof using Type.
  intros Hh. unfold last_valid_height, checked_add. case_match; [|by eexists].
  destruct (Z.leb_spec (qb_block_height bank + MAX_PROCESSING_AGE) u64_max) as [_|Hgt];
    [by eexists|]. specialize (Hh bank). lia.
Qed.

End Theorems.
