(* ===== verification/RpcServer.v ===== *)
(** * The RPC server in front of the methods

    [rpc/src/jsonrpc/service.rs] and [rpc/src/service.rs]: the middleware that
    answers redirects, the supply pages, file downloads and the health check
    before a request reaches the JSON-RPC methods, and how the processor and
    the method tables are put together.  The HTTP server is a crate outside
    this repository; so are the patterns of snapshot archive names, of which
    the model uses that they match no slash. *)
From Stdlib Require Import Ascii.
From S2P Require Import Prelude Banks Ledger StateError StorageConfig StorageOpen RpcBase RpcTokens.
From S2P Require Import StorageOpenFacts MapForks VerifierFacts StorageDemo StorageOpenTheorems.
Set Default Proof Using "Type*".

Definition FULL_SNAPSHOT_REQUEST_PATH : string := "/snapshot.tar.bz2".
Definition INCREMENTAL_SNAPSHOT_REQUEST_PATH : string := "/incremental-snapshot.tar.bz2".
Definition LARGEST_ACCOUNTS_CACHE_DURATION : Z := 60 * 60 * 2.

(** [snapshot_utils] and the genesis path of [solana_sdk].  Of an archive the
    redirect uses the slot and the name of its file, none where the path has no
    name or it is not UTF-8. *)
Class Archives (FS : Type) := {
  full_regex : string → bool;
  incremental_regex : string → bool;
  DEFAULT_GENESIS_DOWNLOAD_PATH : string;
  highest_full_archive : FS → Path → option (Z * option string);
  highest_incremental_archive : FS → Path → Z → option (Z * option string);
  (** [build_snapshot_archives_remote_dir] *)
  remote_dir : Path → Path
}.
Fixpoint has_slash (s : string) : bool :=
  match s with
  | "" => false
  | String c s => Ascii.eqb c "/"%char || has_slash s
  end.
(** Names of archives are single names; so is that of the genesis, behind a
    leading slash. *)
Class ArchivesLaws (FS : Type) `{!Archives FS} : Prop := {
  full_no_slash s : full_regex s = true → has_slash s = false;
  incremental_no_slash s : incremental_regex s = true → has_slash s = false;
  genesis_path : ∃ name, DEFAULT_GENESIS_DOWNLOAD_PATH = String "/" name ∧ has_slash name = false
}.
(** What the server asks of the file system *)
Inductive OpenError := NotFound | OtherError.
Class ServedFiles (FS Contents : Type) := {
  path_exists : FS → Path → bool;
  (** [std::fs::metadata(path).len()] *)
  metadata_len : FS → Path → option Z;
  open_no_follow : FS → Path → Contents + OpenError
}.

Inductive Status := OK | SEE_OTHER | NOT_FOUND | INTERNAL_SERVER_ERROR.
Inductive Body (Contents : Type) := Empty | Text (s : string) | FileStream (p : Path) (c : Contents).
Arguments Empty {_}.
Arguments Text {_}.
Arguments FileStream {_}.
Record Response (Contents : Type) := mkReply {
  status : Status; location : option string; content_length : option Z; body : Body Contents
}.
Arguments mkReply {_}.
Arguments status {_}.
Arguments location {_}.
Arguments content_length {_}.
Arguments body {_}.
(** [RequestMiddlewareAction]: answer, or go on to the methods.  Hosts are
    validated in both. *)
Inductive Action (Contents : Type) := Respond (r : Response Contents) | Proceed.
Arguments Respond {_}.
Arguments Proceed {_}.

Section Middleware.
Context {FS Contents BK Pubkey SnapRest : Type}.
Context `{!Archives FS, !ServedFiles FS Contents}.

(** [RpcRequestMiddleware]; the forks are those at the moment of a request,
    given to it. *)
Record RpcRequestMiddleware := mkMiddleware {
  mw_ledger_path : Path; mw_snapshot_config : option (SnapshotConfig SnapRest)
}.
Implicit Types (m : RpcRequestMiddleware) (fs : FS) (path : string).

Definition redirect (to : string) : Response Contents := mkReply SEE_OTHER (Some to) None (Text to).
Definition not_found : Response Contents := mkReply NOT_FOUND None None Empty.
Definition internal_server_error : Response Contents := mkReply INTERNAL_SERVER_ERROR None None Empty.
Definition ok_text (s : string) : Response Contents := mkReply OK None None (Text s).

Definition strip_leading_slash path : option string :=
  match path with String "/" rest => Some rest | _ => None end.

Definition is_file_get_path m path : bool :=
  if bool_decide (path = DEFAULT_GENESIS_DOWNLOAD_PATH) then true
  else match mw_snapshot_config m with
       | None => false
       | Some _ =>
           match strip_leading_slash path with
           | None => false
           | Some path => full_regex path || incremental_regex path
           end
       end.

Definition find_snapshot_file m fs (stem : string) : res Path :=
  cfg ← expect (mw_snapshot_config m) "called `Option::unwrap()` on a `None` value";
  let root := if full_regex (path_join "" stem) then full_archives_dir cfg
              else incremental_archives_dir cfg in
  let local_path := path_join root stem in
  Ok (if path_exists fs local_path then local_path else path_join (remote_dir root) stem).

(** The file a path names; its response is made when it is opened. *)
Definition file_name m fs path : res Path :=
  stem ← expect (strip_leading_slash path) "path already verified";
  if bool_decide (path = DEFAULT_GENESIS_DOWNLOAD_PATH) then Ok (path_join (mw_ledger_path m) stem)
  else find_snapshot_file m fs stem.
Definition process_file_get m fs path : res (Action Contents) :=
  filename ← file_name m fs path;
  let file_length := default 0%Z (metadata_len fs filename) in
  Ok (Respond
    (match open_no_follow fs filename with
     | inr NotFound => not_found
     | inr OtherError => internal_server_error
     | inl file => mkReply OK None (Some file_length) (FileStream filename file)
     end)).

Definition health_check : string := "ok".

(** ** The supply pages, from the root bank *)

Context `{!SupplyBank BK Pubkey}.
(** [format!("{}", lamports_to_sol(lamports))] *)
Context (show_sol : Z → string).

Definition process_rest (root_bank : BK) path : res (option string) :=
  if bool_decide (path = "/v0/circulating-supply") then
    let total_supply := sb_capitalization root_bank in
    non_circulating_supply ←
      match calculate_non_circulating_supply root_bank with
      | inl (lamports, _) => Ok lamports
      | inr _ => Panic "Scan should not error on root banks"
      end;
    circulating ← checked_sub total_supply non_circulating_supply;
    Ok (Some (show_sol circulating))
  else if bool_decide (path = "/v0/total-supply") then
    Ok (Some (show_sol (sb_capitalization root_bank)))
  else Ok None.

(** ** [on_request] *)

Definition is_snapshot_request path : bool :=
  bool_decide (path = FULL_SNAPSHOT_REQUEST_PATH)
  || bool_decide (path = INCREMENTAL_SNAPSHOT_REQUEST_PATH).
(** The convenience redirect to the latest snapshot *)
Definition latest_snapshot (cfg : SnapshotConfig SnapRest) fs path : Response Contents :=
  let snapshot_archive_info :=
    match highest_full_archive fs (full_archives_dir cfg) with
    | Some (slot, name) =>
        if bool_decide (path = FULL_SNAPSHOT_REQUEST_PATH) then Some name
        else snd <$> highest_incremental_archive fs (incremental_archives_dir cfg) slot
    | None => None
    end in
  match snapshot_archive_info with
  | Some name => redirect ("/" +:+ default "" name)
  | None => not_found
  end.
Definition answer_locally m fs (root_bank : BK) path : res (Action Contents) :=
  rest ← process_rest root_bank path;
  match rest with
  | Some result => Ok (Respond (ok_text result))
  | None =>
      if is_file_get_path m path then process_file_get m fs path
      else if bool_decide (path = "/health") then Ok (Respond (ok_text health_check))
      else Ok Proceed
  end.
Definition on_request m fs (root_bank : BK) path : res (Action Contents) :=
  match mw_snapshot_config m with
  | Some cfg =>
      if is_snapshot_request path then Ok (Respond (latest_snapshot cfg fs path))
      else answer_locally m fs root_bank path
  | None => answer_locally m fs root_bank path
  end.
End Middleware.
Arguments RpcRequestMiddleware : clear implicits.

(** ** Putting the service together *)

(** The tables of methods a server answers *)
Inductive MethodTable := MinimalMethods | BankDataMethods | AccountsDataMethods | AccountsScanMethods
  | FullMethods.
Definition method_tables (full_api : bool) : list MethodTable :=
  [MinimalMethods] ++
  (if full_api then [BankDataMethods; AccountsDataMethods; AccountsScanMethods; FullMethods] else []).

Definition MAX_REQUEST_BODY_SIZE : Z := 50 * Z.shiftl 1 10.
(** Of [JsonRpcConfig] what the service reads itself *)
Record ServiceConfig := mkServiceConfig {
  sc_enable_rpc_transaction_history : bool; sc_rpc_threads : Z; sc_full_api : bool;
  sc_max_request_body_size : option Z
}.
Definition service_config_default : ServiceConfig := mkServiceConfig false 0 false None.

Section Service.
Context {FS Contents BK BS BT SnapRest : Type}.

Record JsonRpcService := mkService {
  js_threads : Z; js_tables : list MethodTable; js_max_request_body_size : Z;
  js_middleware : RpcRequestMiddleware SnapRest; js_cache : LargestAccountsCache;
  js_processor : Processor BK BS BT
}.
(** [JsonRpcService::new], when the server starts.  No storage is uploaded to:
    the processor has no long-term storage. *)
Definition jsonrpc_service_new (config : ServiceConfig) (snapshot_config : option (SnapshotConfig SnapRest))
    (bank_forks : Forks BK) (blockstore : BS) (ledger_path : Path) (max_complete : Z) : JsonRpcService :=
  mkService (Z.max 1 (sc_rpc_threads config)) (method_tables (sc_full_api config))
    (default MAX_REQUEST_BODY_SIZE (sc_max_request_body_size config))
    (mkMiddleware ledger_path snapshot_config) (new_cache LARGEST_ACCOUNTS_CACHE_DURATION)
    (mkProcessor bank_forks blockstore (sc_enable_rpc_transaction_history config) None max_complete).
(** The closure given to [with_meta_extractor]: the processor for a request
    with this [x-bigtable] header *)
Definition meta_extractor (s : JsonRpcService) (xbigtable : option string) : Processor BK BS BT :=
  if bool_decide (xbigtable = Some "disabled") then clone_without_bigtable (js_processor s)
  else js_processor s.
End Service.

(** ** [RpcService::new], on an opened storage *)

(** The service, the thread parked with it running, or the error of a server
    that does not start *)
Inductive Start (Service : Type) := Started (s : Service) | Parked (s : Service) | InitJsonRpc (msg : string).
Arguments Started {_}.
Arguments Parked {_}.
Arguments InitJsonRpc {_}.

Section RpcService.
Context {FS Keypair Pubkey Hash Genesis B F D W LSC Rx SnapRest Schedule Recovery Key : Type}.
Context {Indexes DbConfig Shrink Columns Runtime UseSnapshots BK BT : Type}.
Abbreviation boptions := (BlockstoreOptions Recovery Columns).
Abbreviation poptions := (ProcessOptions Key Indexes DbConfig Shrink Runtime UseSnapshots).
Context `{!LedgerFiles FS Keypair Pubkey Hash Genesis D F W LSC Rx SnapRest Schedule boptions poptions}.
Abbreviation opened := (Opened (Keypair := Keypair) (Pubkey := Pubkey) (Hash := Hash)
  (Genesis := Genesis) (B := B) (F := F) (D := D) (W := W) (LSC := LSC) (Rx := Rx)
  (SnapRest := SnapRest) (Schedule := Schedule) (Recovery := Recovery) (Key := Key)
  (Indexes := Indexes) (DbConfig := DbConfig) (Shrink := Shrink) (Columns := Columns)
  (Runtime := Runtime) (UseSnapshots := UseSnapshots)).
(** The forks as the requests read them *)
Context (forks_view : F → W → Forks BK).

Definition rpc_genesis_hash (o : opened) : Hash :=
  default (genesis_hash (genesis (op_config o)))
    (expected_genesis_hash (storage_config (op_config o))).
Definition new_rpc_service (server : unit + string) (config : ServiceConfig) (o : opened) :
    (JsonRpcService (BT := BT) * Hash) + string :=
  match server with
  | inl _ =>
      inl (jsonrpc_service_new config (Some (snapshot_config (storage_config (op_config o))))
             (forks_view (st_bank_forks (op_storage o)) (st_world (op_storage o)))
             (st_blockstore (op_storage o)) (ledger_path (op_config o))
             (hs_max_complete_transaction_status_slot (op_history o)), rpc_genesis_hash o)
  | inr e => inr e
  end.
Definition rpc_service_new (server : unit + string) (config : ServiceConfig) (o : opened) :
    Start (JsonRpcService * Hash) :=
  match new_rpc_service server config o with
  | inr e => InitJsonRpc e
  | inl s => match halt_at_slot (storage_config (op_config o)) with Some _ => Parked s | None => Started s end
  end.
End RpcService.

(** ** Which files it serves *)
Section Files.
Context {FS Contents BK Pubkey SnapRest : Type}.
Context `{!Archives FS, !ArchivesLaws FS, !ServedFiles FS Contents, !SupplyBank BK Pubkey}.
Context (show_sol : Z → string).
Implicit Types (m : RpcRequestMiddleware SnapRest) (fs : FS).

(** A file that may be downloaded for a path: the genesis of the ledger, or a
    name without a slash in one of the archive directories, by its kind *)
Definition may_serve m (path : string) (file : Path) : Prop :=
  ∃ stem, path = String "/" stem ∧ has_slash stem = false ∧
    ((path = DEFAULT_GENESIS_DOWNLOAD_PATH ∧ file = path_join (mw_ledger_path m) stem) ∨
     ∃ cfg dir, mw_snapshot_config m = Some cfg ∧
       ((full_regex stem = true ∧ dir = full_archives_dir cfg) ∨
        (full_regex stem = false ∧ incremental_regex stem = true ∧ dir = incremental_archives_dir cfg)) ∧
       (file = path_join dir stem ∨ file = path_join (remote_dir dir) stem)).

Lemma strip_leading_slash_Some path stem :
  strip_leading_slash path = Some stem ↔ path = String "/" stem.
Proof using Type.
  unfold strip_leading_slash. split; [|by intros ->].
  destruct path as [|c path]; [done|]. intros H.
  repeat match goal with b : bool |- _ => destruct b | c : ascii |- _ => destruct c end; by simplify_eq.
Qed.
Lemma path_join_empty s : has_slash s = false → path_join "" s = s.
Proof using Type.
  unfold path_join. destruct s as [|c s]; [done|]. cbn. intros [Hc _]%orb_false_iff.
  rewrite bool_decide_true by done. cbn.
  repeat match goal with b : bool |- _ => destruct b | c : ascii |- _ => destruct c end; done.
Qed.

(** A verified path names a file that may be served. *)
Lemma file_name_ok m fs path :
  is_file_get_path m path = true → wp (file_name m fs path) (may_serve m path).
Proof.
  unfold is_file_get_path, file_name, find_snapshot_file, may_serve. intros H.
  destruct (bool_decide_reflect (path = DEFAULT_GENESIS_DOWNLOAD_PATH)) as [Hp|Hp].
  - destruct genesis_path as (name & Hn & Hs). rewrite Hp, Hn. apply wp_ok. exists name. auto.
  - destruct (mw_snapshot_config m) as [cfg|] eqn:Hcfg; [|done].
    destruct (strip_leading_slash path) as [stem|] eqn:Hstem; [|done].
    apply strip_leading_slash_Some in Hstem. apply orb_true_iff in H.
    assert (has_slash stem = false) as Hs.
    { destruct H; [by apply full_no_slash|by apply incremental_no_slash]. }
    cbn. rewrite path_join_empty by done. apply wp_ok. exists stem. split_and!; [done..|]. right.
    exists cfg, (if full_regex stem then full_archives_dir cfg else incremental_archives_dir cfg).
    split; [done|]. split; [|destruct (path_exists _ _); auto].
    destruct (full_regex stem); [by left|right; naive_solver].
Qed.

Lemma process_file_get_ok m fs path :
  is_file_get_path m path = true →
  wp (process_file_get (Contents := Contents) m fs path) (λ a,
    ∃ r file, a = Respond r ∧ may_serve m path file ∧
      (r = not_found ∨ r = internal_server_error ∨
       ∃ c, open_no_follow fs file = inl c ∧ body r = FileStream file c)).
Proof.
  intros H. unfold process_file_get. apply wp_bind. eapply wp_mono; [by apply file_name_ok|].
  intros file Hf. apply wp_ok. eexists _, file. split_and!; [done..|].
  destruct (open_no_follow fs file) as [c|[]]; [|auto..]. right. right. by exists c.
Qed.

(** What reaches the methods *)
Definition proceeds m (path : string) : Prop :=
  (mw_snapshot_config m = None ∨ is_snapshot_request path = false) ∧
  (path ∉ ["/v0/circulating-supply"; "/v0/total-supply"; "/health"]) ∧ is_file_get_path m path = false.

(** The circulating supply of the root bank can be computed. *)
Definition supply_known (bank : BK) : Prop :=
  ∃ l keys, calculate_non_circulating_supply bank = inl (l, keys) ∧ (l ≤ sb_capitalization bank)%Z.

Definition answer_ok m fs (path : string) (a : Action Contents) : Prop :=
  (a = Proceed ↔ proceeds m path) ∧
  ∀ r file c, a = Respond r → body r = FileStream file c →
    may_serve m path file ∧ open_no_follow fs file = inl c.
Lemma answer_ok_text m fs path r : ¬ proceeds m path → (∀ f c, body r ≠ FileStream f c) →
  answer_ok m fs path (Respond r).
Proof using Type. unfold answer_ok. naive_solver. Qed.

Lemma answer_locally_ok m fs bank path :
  supply_known bank → (mw_snapshot_config m = None ∨ is_snapshot_request path = false) →
  wp (answer_locally show_sol m fs bank path) (answer_ok m fs path).
Proof.
  intros (l & keys & Hl & Hle) Hsnap. unfold answer_locally, process_rest.
  destruct (bool_decide_reflect (path = "/v0/circulating-supply")) as [H1|H1].
  { rewrite Hl. cbn. rewrite (proj2 (checked_sub_Ok _ _ _)) by done. apply wp_ok.
    apply answer_ok_text; [|done]. intros (_ & H & _). set_solver. }
  destruct (bool_decide_reflect (path = "/v0/total-supply")) as [H2|H2].
  { apply wp_ok. apply answer_ok_text; [|done]. intros (_ & H & _). set_solver. }
  cbn. destruct (is_file_get_path m path) eqn:Hf.
  { eapply wp_mono; [by apply process_file_get_ok|].
    intros a (r & file & -> & Hm & Hr). split.
    - split; [done|]. intros (_ & _ & H). by rewrite Hf in H.
    - intros ? f c [= <-] Hb. destruct Hr as [->|[->|(c' & Ho & Hb')]]; [done..|].
      rewrite Hb in Hb'. by simplify_eq. }
  case_bool_decide as H3; apply wp_ok.
  - apply answer_ok_text; [|done]. intros (_ & H & _). set_solver.
  - split; [|done]. split; [|done]. intros _. split_and!; [done| |done]. set_solver.
Qed.

(** C35: As long as the supply of the root bank can be computed and what does not
    circulate is no more than its capitalization, every request is
    answered or handed on to the methods, without a panic, and a file is served only if it is the genesis of the ledger or an archive in
    its directory: a path never leaves these directories. *)
Theorem on_request_confined m fs bank path :
  supply_known bank →
  wp (on_request show_sol m fs bank path) (λ a,
    (a = Proceed ↔ proceeds m path) ∧
    ∀ r file c, a = Respond r → body r = FileStream file c →
      may_serve m path file ∧ open_no_follow fs file = inl c).
Proof.
  intros Hb. unfold on_request. destruct (mw_snapshot_config m) as [cfg|] eqn:Hc;
    [|apply answer_locally_ok; auto].
  destruct (is_snapshot_request path) eqn:Hp; [|apply answer_locally_ok; auto].
  apply wp_ok. apply answer_ok_text.
  - intros ([H|H] & _); [by rewrite Hc in H|by rewrite Hp in H].
  - unfold latest_snapshot. intros f c. repeat case_match; done.
Qed.
End Files.

(** ** The genesis hash it reports *)
Section GenesisHash.
Context {FS Keypair Pubkey Hash Genesis B F D W Account LSC Rx SnapRest Schedule Recovery Key : Type}.
Context {Indexes DbConfig Shrink Columns Runtime UseSnapshots BK BT : Type}.
Context `{!EqDecision Hash}.
Context `{!Banks B, !BankForks F B, !Blockstore D, !BankWorld W B Hash Pubkey Account}.
Context `{!ConfigFiles FS Keypair, !ConfigFilesLaws FS Keypair}.
Context `{!Settings_of_crates SnapRest Schedule Recovery Key Indexes DbConfig Shrink Columns Runtime
            UseSnapshots}.
Abbreviation boptions := (BlockstoreOptions Recovery Columns).
Abbreviation poptions := (ProcessOptions Key Indexes DbConfig Shrink Runtime UseSnapshots).
Context `{!LedgerFiles FS Keypair Pubkey Hash Genesis D F W LSC Rx SnapRest Schedule boptions poptions}.
Context `{!LedgerFilesLaws FS Keypair Pubkey Hash Genesis D F W LSC Rx SnapRest Schedule boptions poptions}.
Context (forks_view : F → W → Forks BK).

(** The service of a storage that opened reports the hash of the genesis on
    disk, whether or not one was expected, and answers no request from the
    long-term storage, whatever the header says. *)
Theorem rpc_reports_genesis_on_disk (k : FreshKeys Keypair Pubkey) c fs fs' o config s h :
  max_genesis_archive_unpacked_size (storage_config c) = MAX_GENESIS_ARCHIVE_UNPACKED_SIZE →
  storage_new (B := B) (F := F) (D := D) (W := W) (LSC := LSC) (Rx := Rx) k c fs = Ok (fs', inl o) →
  rpc_service_new (BT := BT) forks_view (inl ()) config o = Started (s, h) →
  (∃ g, on_disk fs' c = inl g ∧ h = genesis_hash g) ∧
  halt_at_slot (storage_config c) = None ∧
  ∀ header, bigtable_ledger_storage (meta_extractor s header) = None.
Proof.
  intros Hmax Ho Hs. pose proof (storage_new_wp k c fs) as Hwp. rewrite Ho in Hwp.
  destruct (opened_from_disk _ _ _ _ _ Hmax Hwp) as (Hd & Hst & Hh & _).
  unfold rpc_service_new, new_rpc_service, rpc_genesis_hash in Hs. rewrite Hst in Hs.
  destruct (halt_at_slot _); simplify_eq/=. split_and!; [|done|].
  - exists (genesis (op_config o)). split; [done|].
    destruct (expected_genesis_hash _) as [h|]; [|done]. symmetry. by apply Hh.
  - intros header. unfold meta_extractor. by case_bool_decide.
Qed.
End GenesisHash.

(** ** A directory of files *)

Module RpcServerWitnesses.
Import StorageDemo StorageOpenWitnesses.

Definition files := list (Path * string).
Fixpoint find_file (l : files) (p : Path) : option string :=
  match l with [] => None | (q, c) :: l => if decide (q = p) then Some c else find_file l p end.
#[export] Instance archives : Archives files := {|
  full_regex s := bool_decide (s = "snapshot-100-abc.tar.zst");
  incremental_regex s := bool_decide (s = "incremental-snapshot-100-150-abc.tar.zst");
  DEFAULT_GENESIS_DOWNLOAD_PATH := "/genesis.tar.bz2";
  highest_full_archive _ _ := Some (100%Z, Some "snapshot-100-abc.tar.zst");
  highest_incremental_archive _ _ _ := None;
  remote_dir p := path_join p "remote"
|}.
#[export] Instance archives_laws : ArchivesLaws files.
Proof.
  split.
  - intros s ->%bool_decide_eq_true. done.
  - intros s ->%bool_decide_eq_true. done.
  - by exists "genesis.tar.bz2".
Qed.
#[export] Instance served : ServedFiles files string := {|
  path_exists l p := bool_decide (is_Some (find_file l p));
  metadata_len l p := Z.of_nat ∘ String.length <$> find_file l p;
  open_no_follow l p := match find_file l p with Some c => inl c | None => inr NotFound end
|}.
#[export] Instance supply : SupplyBank unit nat := {|
  calculate_non_circulating_supply _ := inl (5%Z, []);
  sb_capitalization _ := 100%Z;
  sb_largest_accounts _ _ _ _ _ := inl []
|}.
Definition middleware : RpcRequestMiddleware unit :=
  mkMiddleware "ledger" (Some (mkSnapshotConfig 2500 500 "ledger/full" "ledger/inc" "ledger" ())).
Definition root : files := [("ledger/full/snapshot-100-abc.tar.zst", "data"); ("ledger/key.json", "secret")].

(** The archive is served; a path that leaves the directory is not. *)
Lemma on_request_confined_witness :
  may_serve middleware "/snapshot-100-abc.tar.zst" "ledger/full/snapshot-100-abc.tar.zst" ∧
  on_request (λ _, "sol") middleware root () "/../key.json" = Ok Proceed ∧
  on_request (λ _, "sol") middleware root () "/snapshot.tar.bz2" =
    Ok (Respond (redirect "/snapshot-100-abc.tar.zst")).
Proof.
  split; [|by vm_compute].
  assert (supply_known (BK := unit) ()) as Hb by (exists 5%Z, []; split; [reflexivity|vm_compute; discriminate]).
  pose proof (on_request_confined (λ _, "sol") middleware root () "/snapshot-100-abc.tar.zst" Hb) as H.
  eassert (on_request (λ _, "sol") middleware root () "/snapshot-100-abc.tar.zst" = Ok (Respond _)) as Hr
    by (vm_compute; reflexivity).
  rewrite Hr in H. destruct H as [_ H]. by destruct (H _ _ "data" eq_refl eq_refl) as [Hm _].
Defined.

Definition view : MapForks.t PathBank.t → world → Forks unit := λ _ _, mkForks 0 () (λ _, None).
Lemma rpc_reports_genesis_witness : ∃ o s,
  demo_open keys1 config [] = Ok ([("ledger", 64%Z)], inl o) ∧
  rpc_service_new (BT := unit) view (inl ()) service_config_default o = Started (s, (64 * 31)%Z) ∧
  ∃ g, on_disk [("ledger", 64%Z)] config = inl g ∧ (64 * 31)%Z = genesis_hash g.
Proof.
  eassert (demo_open keys1 config [] = Ok ([("ledger", 64%Z)], inl _)) as Ho by reflexivity.
  eexists _, _. split; [exact Ho|]. split; [reflexivity|].
  eapply (rpc_reports_genesis_on_disk (BT := unit) view keys1 config [] _ _ service_config_default _ _ eq_refl Ho).
  reflexivity.
Defined.
End RpcServerWitnesses.
