(* ===== verification/RpcRewards.v ===== *)
(** * The RPC service: inflation rewards

    [get_inflation_reward] of [rpc/src/jsonrpc/core.rs] and its filters: the
    rewards of an epoch are read from the first block of the next one, and the
    staking rewards, once they are partitioned, from the block of the partition
    an address hashes to.  The iteration order of a [HashMap] is a parameter. *)
From stdpp Require Import gmap strings.
From S2P Require Import Prelude RpcBase RpcBlocks.
Set Default Proof Using "Type*".

Inductive RewardType := Fee | Rent | Staking | Voting.
#[global] Instance RewardType_eq_dec : EqDecision RewardType.
Proof. solve_decision. Defined.
Record Reward := mkReward {
  rw_pubkey : string; rw_lamports : Z; rw_post_balance : Z; rw_type : option RewardType;
  rw_commission : option Z
}.
Record RpcInflationReward := mkInflationReward {
  ir_epoch : Z; ir_effective_slot : Z; ir_amount : Z; ir_post_balance : Z; ir_commission : option Z
}.
Record RpcEpochConfig := mkEpochConfig {
  ep_epoch : option Z; ep_commitment : option CommitmentLevel; ep_min_context_slot : option Z
}.

(** The epochs of a bank and the slot at which partitioned rewards were enabled *)
Class EpochBank (BK : Type) := {
  eb_get_epoch : BK → Z → Z;
  eb_first_slot_in_epoch : BK → Z → Z;
  eb_partitioned_rewards_slot : BK → option Z
}.
(** Of an encoded block, the rewards, the number of partitions and the hash;
    [partition_of] is [EpochRewardsHasher::new(n, hash).hash_address_to_partition] *)
Class RewardBlocks (UiBody Hash Pubkey : Type) := {
  ub_rewards : UiBody → option (list Reward);
  ub_num_reward_partitions : UiBody → option Z;
  ub_previous_blockhash : UiBody → string;
  parse_hash : string → option Hash;
  partition_of : nat → Hash → Pubkey → nat
}.

(** [?] in a method that may panic *)
Definition and_then {A B} (m : res (rpc A)) (k : A → res (rpc B)) : res (rpc B) :=
  match m with Ok (inl a) => k a | Ok (inr e) => Ok (inr e) | Panic msg => Panic msg end.
Notation "x ←? m ; k" := (and_then m (λ x, k))
  (at level 20, m at level 100, k at level 200, only parsing) : stdpp_scope.

(** ** Filters *)

Definition filter_rewards (rewards : option (list Reward)) (f : RewardType → bool) : list Reward :=
  filter (λ r, match rw_type r with Some t => f t | None => false end = true) (default [] rewards).
(** Collected into a map, a later reward of an address replaces an earlier one. *)
Definition collect_rewards (slot : Z) (l : list Reward) : gmap string (Reward * Z) :=
  foldl (λ m r, <[rw_pubkey r := (r, slot)]> m) ∅ l.
Definition filter_map_rewards (rewards : option (list Reward)) (slot : Z) (addresses : list string)
    (f : RewardType → bool) : gmap string (Reward * Z) :=
  collect_rewards slot (filter (λ r, rw_pubkey r ∈ addresses) (filter_rewards rewards f)).

Section Rewards.
Context {BK BS BT Pubkey Hash Signature Account TransactionError Body UiBody Enc Details : Type}.
Context `{!QueryBank BK Pubkey Hash Signature Account TransactionError}.
Context `{!BlockReads BS Body, !BigTable BT Body, !EpochBank BK, !RewardBlocks UiBody Hash Pubkey}.
Context (MAX_RANGE : Z) (json : Enc) (details_default : Details).
Context (encode_with_options :
  Enc → Details → bool → option Z → ConfirmedBlock Body → ConfirmedBlock UiBody + RpcCustomError).
(** [RpcBlockConfig::rewards_with_commitment], and the order a map is iterated in *)
Context (rewards_with_commitment : option CommitmentLevel → RpcBlockConfig (Enc := Enc) (Details := Details)).
Context (iter_order : gmap nat (list string) → list (nat * list string)).
Implicit Types (p : Processor BK BS BT).

Abbreviation block := (ConfirmedBlock UiBody).
Definition read_block p (config : RpcEpochConfig) (slot : Z) : rpc block :=
  match get_block json details_default encode_with_options p slot
          (Some (rewards_with_commitment (ep_commitment config))) with
  | inl (Some b) => inl b
  | _ => custom (BlockNotAvailable slot)
  end.

(** The filter of the first block of the next epoch *)
Definition boundary_reward (partitioned : bool) (t : RewardType) : bool :=
  bool_decide (t = Voting) || negb partitioned && bool_decide (t = Staking).
Definition is_staking (t : RewardType) : bool := bool_decide (t = Staking).

(** The addresses without a reward so far, by partition *)
Definition add_to_partition (i : nat) (a : string) (m : gmap nat (list string)) :
    gmap nat (list string) :=
  <[i := default [] (m !! i) ++ [a]]> m.
Definition partition_addresses (partition : Pubkey → nat) (reward_map : gmap string (Reward * Z))
    (addresses : list Pubkey) : gmap nat (list string) :=
  foldl (λ m address,
    match reward_map !! pubkey_to_string address with
    | Some _ => m
    | None => add_to_partition (partition address) (pubkey_to_string address) m
    end) ∅ addresses.

(** One round of the loop over the partitions *)
Definition partition_rewards p (config : RpcEpochConfig) (bank : BK) (boundary : block)
    (num_partitions : nat) (block_list : list Z) (reward_map : gmap string (Reward * Z))
    (partition : nat * list string) : res (rpc (gmap string (Reward * Z))) :=
  match block_list !! partition.1 with
  | None =>
      height ← expect (cb_block_height boundary)
        "every block after partitioned_epoch_reward_enabled should have a populated block_height";
      Ok (custom (EpochRewardsPeriodActive (qb_slot bank) (qb_block_height bank)
            (saturating_add u64_max (saturating_add u64_max height (Z.of_nat num_partitions)) 1)))
  | Some slot =>
      match read_block p config slot with
      | inr e => Ok (inr e)
      | inl b =>
          Ok (inl (filter_map_rewards (ub_rewards (cb_body b)) slot partition.2 is_staking ∪ reward_map))
      end
  end.
Fixpoint all_partitions p config bank boundary num_partitions block_list
    (reward_map : gmap string (Reward * Z)) (partitions : list (nat * list string)) :
    res (rpc (gmap string (Reward * Z))) :=
  match partitions with
  | [] => Ok (inl reward_map)
  | x :: partitions =>
      reward_map ←? partition_rewards p config bank boundary num_partitions block_list reward_map x;
      all_partitions p config bank boundary num_partitions block_list reward_map partitions
  end.

(** The staking rewards of the partitions, on top of those of the first block *)
Definition add_partitions p (config : RpcEpochConfig) (context : RpcContextConfig) (bank : BK)
    (first : Z) (boundary : block) (addresses : list Pubkey)
    (reward_map : gmap string (Reward * Z)) : res (rpc (gmap string (Reward * Z))) :=
  n ← expect (ub_num_reward_partitions (cb_body boundary))
    "epoch-boundary block should have num_reward_partitions after partitioned epoch rewards enabled";
  let num_partitions := Z.to_nat n in
  hash ← expect (parse_hash (ub_previous_blockhash (cb_body boundary)))
    "UiConfirmedBlock::previous_blockhash should be properly formed";
  let partitions :=
    partition_addresses (partition_of num_partitions hash) reward_map addresses in
  next ← checked_add u64_max first 1;
  block_list ←? Ok (get_blocks_with_limit MAX_RANGE p next num_partitions (Some context));
  all_partitions p config bank boundary num_partitions block_list reward_map (iter_order partitions).

Definition epoch_of p (config : RpcEpochConfig) (context : RpcContextConfig) : rpc Z :=
  match ep_epoch config with
  | Some epoch => inl epoch
  | None => slot ← get_slot p context;
            inl (saturating_sub (eb_get_epoch (rpc_bank p None) slot) 1)
  end.
(** The first confirmed block at or after the first slot of the next epoch *)
Definition first_confirmed_block p (context : RpcContextConfig) (first_slot_in_epoch : Z) : rpc Z :=
  let first_available_block := get_first_available_block p in
  if (first_slot_in_epoch <? first_available_block)%Z then
    match bigtable_ledger_storage p with
    | Some _ => custom (LongTermStorageSlotSkipped first_slot_in_epoch)
    | None => custom (BlockCleanedUp first_slot_in_epoch first_available_block)
    end
  else
    blocks ← get_blocks_with_limit MAX_RANGE p first_slot_in_epoch 1 (Some context);
    ok_or (head blocks) (Custom (BlockNotAvailable first_slot_in_epoch)).
Definition partitioned_rewards (bank : BK) (first : Z) : bool :=
  match eb_partitioned_rewards_slot bank with Some slot => (slot <=? first)%Z | None => false end.

Definition inflation_reward (epoch : Z) (entry : Reward * Z) : RpcInflationReward :=
  mkInflationReward epoch entry.2 (Z.abs (rw_lamports entry.1)) (rw_post_balance entry.1)
    (rw_commission entry.1).
Definition get_inflation_reward p (addresses : list Pubkey) (config : option RpcEpochConfig) :
    res (rpc (list (option RpcInflationReward))) :=
  let config := default (mkEpochConfig None None None) config in
  let context := mkContext (ep_commitment config) (ep_min_context_slot config) in
  epoch ←? Ok (epoch_of p config context);
  let first_slot_in_epoch :=
    eb_first_slot_in_epoch (rpc_bank p None) (saturating_add u64_max epoch 1) in
  first ←? Ok (first_confirmed_block p context first_slot_in_epoch);
  bank ←? Ok (get_bank_with_config p context);
  let partitioned := partitioned_rewards bank first in
  boundary ←? Ok (read_block p config first);
  let reward_map :=
    filter_map_rewards (ub_rewards (cb_body boundary)) first (pubkey_to_string <$> addresses)
      (boundary_reward partitioned) in
  reward_map ←?
    (if partitioned then add_partitions p config context bank first boundary addresses reward_map
     else Ok (inl reward_map));
  Ok (inl ((λ address, inflation_reward epoch <$> reward_map !! pubkey_to_string address) <$> addresses)).
End Rewards.

(** ** What is reported

    The rewards [get_inflation_reward] reports are those a reader finds block by
    block, without maps and in no particular order. *)

(** The last reward of an address in a block, by kind *)
Definition last_reward (rewards : option (list Reward)) (f : RewardType → bool) (a : string) :
    option Reward :=
  last (filter (λ r, rw_pubkey r = a) (filter_rewards rewards f)).

Lemma collect_rewards_lookup slot l a :
  collect_rewards slot l !! a = (., slot) <$> last (filter (λ r, rw_pubkey r = a) l).
Proof.
  unfold collect_rewards. induction l as [|r l IH] using rev_ind; [done|].
  rewrite foldl_app, filter_app. cbn [foldl]. rewrite filter_cons, filter_nil.
  destruct (decide (rw_pubkey r = a)) as [<-|Hne].
  - by rewrite lookup_insert_eq, last_snoc.
  - by rewrite lookup_insert_ne, app_nil_r.
Qed.
Lemma filter_map_rewards_lookup rewards slot addresses f a :
  filter_map_rewards rewards slot addresses f !! a =
    if decide (a ∈ addresses) then (., slot) <$> last_reward rewards f a else None.
Proof.
  unfold filter_map_rewards, last_reward. rewrite collect_rewards_lookup, list_filter_filter.
  destruct (decide (a ∈ addresses)) as [Ha|Ha].
  - do 2 f_equal. apply list_filter_iff. intros r. split; [by intros [? _]|]. by intros <-.
  - match goal with |- context [last ?l] => assert (l = []) as -> end; [|done].
    apply elem_of_nil_inv. intros r. rewrite list_elem_of_filter. by intros [[<- ?] _].
Qed.

(** ** The partitions *)

Section Partitions.
Context {BK Pubkey Hash Signature Account TransactionError : Type}.
Context `{!QueryBank BK Pubkey Hash Signature Account TransactionError}.
Abbreviation text := (pubkey_to_string (BK := BK)).

Lemma partition_addresses_elem (partition : Pubkey → nat) reward_map addresses i a :
  a ∈ default [] (partition_addresses (BK := BK) partition reward_map addresses !! i) ↔
  ∃ address, address ∈ addresses ∧ text address = a ∧ partition address = i ∧ reward_map !! a = None.
Proof using Type.
  unfold partition_addresses. induction addresses as [|x l IH] using rev_ind.
  { cbn. rewrite lookup_empty. cbn. set_solver. }
  rewrite foldl_app. cbn [foldl]. setoid_rewrite elem_of_app. setoid_rewrite list_elem_of_singleton.
  destruct (reward_map !! text x) as [r|] eqn:Hx.
  { rewrite IH. split; [intros (y & ? & ?); eauto|].
    intros (y & [?| ->] & <- & ? & ?); [by eauto 10|congruence]. }
  unfold add_to_partition. destruct (decide (partition x = i)) as [<-|Hne].
  - rewrite lookup_insert_eq. cbn. rewrite elem_of_app, list_elem_of_singleton, IH. split.
    + intros [(y & ? & ?)| ->]; eauto 10.
    + intros (y & [?| ->] & <- & ?); eauto 10.
  - rewrite lookup_insert_ne by done. rewrite IH. split; [intros (y & ? & ?); eauto|].
    intros (y & [?| ->] & <- & ? & ?); [by eauto 10|congruence].
Qed.
Lemma partition_addresses_nonempty (partition : Pubkey → nat) reward_map addresses i l :
  partition_addresses (BK := BK) partition reward_map addresses !! i = Some l → ∃ a, a ∈ l.
Proof using Type.
  unfold partition_addresses. revert l. induction addresses as [|x addresses IH] using rev_ind; [done|].
  intros l. rewrite foldl_app. cbn [foldl]. destruct (reward_map !! text x); [by apply IH|].
  unfold add_to_partition. intros [[_ <-]|[_ H]]%lookup_insert_Some; [|by eapply IH].
  exists (text x). rewrite elem_of_app, list_elem_of_singleton. by right.
Qed.
End Partitions.

Lemma option_union_twice {A} (o m : option A) : o ∪ (o ∪ m) = o ∪ m.
Proof. by destruct o, m. Qed.

Section Rewards.
Context {BK BS BT Pubkey Hash Signature Account TransactionError Body UiBody Enc Details : Type}.
Context `{!QueryBank BK Pubkey Hash Signature Account TransactionError}.
Context `{!BlockReads BS Body, !BigTable BT Body, !EpochBank BK, !RewardBlocks UiBody Hash Pubkey}.
Context (MAX_RANGE : Z) (json : Enc) (details_default : Details).
Context (encode_with_options :
  Enc → Details → bool → option Z → ConfirmedBlock Body → ConfirmedBlock UiBody + RpcCustomError).
Context (rewards_with_commitment : option CommitmentLevel → RpcBlockConfig (Enc := Enc) (Details := Details)).
Context (iter_order : gmap nat (list string) → list (nat * list string)).
Implicit Types (p : Processor BK BS BT).
Abbreviation read := (read_block json details_default encode_with_options rewards_with_commitment).
Abbreviation text := (pubkey_to_string (BK := BK)).


(** The staking reward of an address in the block of its partition *)
Definition staking_reward p config (block_list : list Z) (i : nat) (a : string) : option (Reward * Z) :=
  slot ← block_list !! i;
  b ← result_ok (read p config slot);
  (., slot) <$> last_reward (ub_rewards (cb_body b)) is_staking a.

(** Every partition that has addresses has a block, and it can be read. *)
Definition blocks_readable p config (block_list : list Z) (partitions : list (nat * list string)) : Prop :=
  ∀ i l, (i, l) ∈ partitions → ∃ slot b, block_list !! i = Some slot ∧ read p config slot = inl b.

(** The loop, over partitions without a common address *)
Lemma all_partitions_ok p config bank boundary n block_list m partitions :
  blocks_readable p config block_list partitions →
  (∀ i l j k a, (i, l) ∈ partitions → (j, k) ∈ partitions → a ∈ l → a ∈ k → i = j) →
  wp (all_partitions json details_default encode_with_options rewards_with_commitment p config bank
        boundary n block_list m partitions)
    (λ r, ∃ m', r = inl m' ∧
       ∀ a, (∀ i l, (i, l) ∈ partitions → a ∈ l →
               m' !! a = staking_reward p config block_list i a ∪ m !! a) ∧
            ((∀ i l, (i, l) ∈ partitions → a ∉ l) → m' !! a = m !! a)).
Proof.
  revert m. induction partitions as [|[i l] partitions IH]; intros m Hr Hd.
  { apply wp_ok. exists m. split; [done|]. intros a. split; [set_solver|done]. }
  cbn [all_partitions]. unfold and_then, partition_rewards.
  destruct (Hr i l) as (slot & b & Hslot & Hb); [left|]. cbn [fst snd]. rewrite Hslot, Hb.
  set (m1 := filter_map_rewards _ _ _ _ ∪ m).
  eapply wp_mono; [apply (IH m1)|].
  { intros j k Hj. apply (Hr j k). by right. }
  { intros j k j' k' a Hj Hj'. apply Hd; by right. }
  intros r (m' & -> & Hm'). exists m'. split; [done|]. intros a. specialize (Hm' a) as [Hin Hout].
  assert (m1 !! a = (if decide (a ∈ l) then staking_reward p config block_list i a else None) ∪ m !! a) as Hm1.
  { unfold m1, staking_reward. rewrite lookup_union, filter_map_rewards_lookup, Hslot. cbn. by rewrite Hb. }
  split.
  - intros j k Hj Ha. destruct (decide (Exists (λ x, a ∈ x.2) partitions)) as [He|He].
    + apply Exists_exists in He as ([j' k'] & Hj' & Ha'). cbn in Ha'.
      rewrite (Hin j' k' Hj' Ha'), Hm1.
      assert (j' = j) as -> by (eapply Hd; [by right|done|done|done]).
      case_decide as Hl; [|by rewrite (left_id_L None _)].
      assert (i = j) as -> by (eapply Hd; [left|done|done|done]).
      by rewrite option_union_twice.
    + rewrite Hout, Hm1.
      * apply elem_of_cons in Hj as [[= -> ->]|Hj]; [by rewrite decide_True|].
        destruct He. apply Exists_exists. by exists (j, k).
      * intros j' k' Hj' Ha'. apply He, Exists_exists. by exists (j', k').
  - intros Hno. assert (a ∉ l) as Hl by (apply (Hno i); left).
    rewrite Hout, Hm1, decide_False by (done || (intros j k Hj; apply (Hno j); by right)).
    by rewrite (left_id_L None _).
Qed.

(** ** The whole request *)

(** The reward of an address, read block by block: the last one of a kind the
    first block of the next epoch pays, else, once rewards are partitioned, the
    last staking reward in the block of the partition of the address *)
Definition reward_of p config (bank : BK) (first : Z) (boundary : ConfirmedBlock UiBody)
    (block_list : list Z) (partition : Pubkey → nat) (address : Pubkey) : option (Reward * Z) :=
  let partitioned := partitioned_rewards bank first in
  match last_reward (ub_rewards (cb_body boundary)) (boundary_reward partitioned) (text address) with
  | Some r => Some (r, first)
  | None => if partitioned then staking_reward p config block_list (partition address) (text address)
            else None
  end.

(** What the request reads about the epoch *)
Definition epoch_read p config context (epoch first : Z) (bank : BK) (boundary : ConfirmedBlock UiBody) : Prop :=
  epoch_of p config context = inl epoch ∧
  first_confirmed_block MAX_RANGE p context
    (eb_first_slot_in_epoch (rpc_bank p None) (saturating_add u64_max epoch 1)) = inl first ∧
  get_bank_with_config p context = inl bank ∧
  read p config first = inl boundary.
(** What it reads about the partitions *)
Definition partitions_read p config context (first : Z) (boundary : ConfirmedBlock UiBody)
    (block_list : list Z) (partition : Pubkey → nat) : Prop :=
  ∃ n hash, ub_num_reward_partitions (cb_body boundary) = Some n ∧
    parse_hash (ub_previous_blockhash (cb_body boundary)) = Some hash ∧
    partition = partition_of (Z.to_nat n) hash ∧ (first + 1 ≤ u64_max)%Z ∧
    get_blocks_with_limit MAX_RANGE p (first + 1) (Z.to_nat n) (Some context) = inl block_list ∧
    (∀ a, partition a < length block_list) ∧
    (∀ slot, slot ∈ block_list → ∃ b, read p config slot = inl b).

Lemma add_partitions_ok p config context bank first boundary block_list partition addresses m :
  (∀ x y, text x = text y → x = y) → (∀ g, iter_order g ≡ₚ map_to_list g) →
  partitions_read p config context first boundary block_list partition →
  wp (add_partitions MAX_RANGE json details_default encode_with_options rewards_with_commitment iter_order
        p config context bank first boundary addresses m)
    (λ r, ∃ m', r = inl m' ∧ ∀ address, address ∈ addresses →
       m' !! text address = match m !! text address with
                            | Some e => Some e
                            | None => staking_reward p config block_list (partition address) (text address)
                            end).
Proof.
  intros Hinj Hord (n & hash & Hn & Hh & -> & Hmax & Hbl & Hlt & Hread).
  unfold add_partitions. rewrite Hn, Hh. cbn. rewrite (proj2 (checked_add_Ok _ _ _ (first + 1)%Z)) by done.
  cbn. rewrite Hbl. cbn.
  set (g := partition_addresses _ _ _).
  assert (∀ i l a, (i, l) ∈ iter_order g → a ∈ l → ∃ address, address ∈ addresses ∧
    text address = a ∧ partition_of (Z.to_nat n) hash address = i ∧ m !! a = None) as Hg.
  { intros i l a Hi Ha. rewrite Hord in Hi. apply elem_of_map_to_list in Hi.
    apply partition_addresses_elem. fold g. by rewrite Hi. }
  eapply wp_mono; [apply all_partitions_ok|].
  - intros i l Hi. pose proof Hi as Hi'. rewrite Hord in Hi'. apply elem_of_map_to_list in Hi'.
    destruct (partition_addresses_nonempty _ _ _ _ _ Hi') as [a Ha].
    destruct (Hg i l a Hi Ha) as (address & _ & _ & <- & _).
    destruct (lookup_lt_is_Some_2 _ _ (Hlt address)) as [slot Hs].
    destruct (Hread slot) as [b Hb]; [by eapply list_elem_of_lookup_2|]. eauto.
  - intros i l j k a Hi Hj Ha Ha'. destruct (Hg _ _ _ Hi Ha) as (x & _ & Hx & <- & _).
    destruct (Hg _ _ _ Hj Ha') as (y & _ & Hy & <- & _). f_equal. apply Hinj. congruence.
  - intros r (m' & -> & Hm'). exists m'. split; [done|]. intros address Hin.
    destruct (Hm' (text address)) as [Hpart Hout].
    destruct (m !! text address) as [e|] eqn:Hm.
    + rewrite Hout; [done|]. intros i l Hi Ha. destruct (Hg _ _ _ Hi Ha) as (x & _ & _ & _ & ?). congruence.
    + assert (text address ∈ default [] (g !! partition_of (Z.to_nat n) hash address)) as Ha.
      { apply partition_addresses_elem. eauto. }
      destruct (g !! partition_of (Z.to_nat n) hash address) as [l|] eqn:Hl; [|set_solver].
      rewrite (Hpart (partition_of (Z.to_nat n) hash address) l); [|by rewrite Hord; apply elem_of_map_to_list|done].
      by destruct (staking_reward _ _ _ _ _).
Qed.

(** C36: Where the blocks of the epoch can be read, the request succeeds and reports
    for every address the reward found block by block, whatever order the map
    of the partitions is iterated in. *)
Theorem inflation_rewards_exact p addresses config epoch first bank boundary block_list partition :
  let config' := default (mkEpochConfig None None None) config in
  let context := mkContext (ep_commitment config') (ep_min_context_slot config') in
  (∀ x y, text x = text y → x = y) → (∀ g, iter_order g ≡ₚ map_to_list g) →
  epoch_read p config' context epoch first bank boundary →
  (partitioned_rewards bank first = true →
   partitions_read p config' context first boundary block_list partition) →
  get_inflation_reward MAX_RANGE json details_default encode_with_options rewards_with_commitment iter_order
    p addresses config =
  Ok (inl ((λ address, inflation_reward epoch <$>
              reward_of p config' bank first boundary block_list partition address) <$> addresses)).
Proof.
  intros config' context Hinj Hord (He & Hf & Hb & Hr) Hpart.
  unfold get_inflation_reward. fold config'. fold context. rewrite He. cbn. rewrite Hf. cbn. rewrite Hb.
  cbn. rewrite Hr. cbn.
  set (m := filter_map_rewards _ _ _ _).
  assert (∀ address, address ∈ addresses → m !! text address = (., first) <$>
    last_reward (ub_rewards (cb_body boundary)) (boundary_reward (partitioned_rewards bank first))
      (text address)) as Hm.
  { intros a Ha. unfold m. rewrite filter_map_rewards_lookup, decide_True; [done|].
    apply list_elem_of_fmap. eauto. }
  unfold reward_of. destruct (partitioned_rewards bank first) eqn:Hp.
  - pose proof (add_partitions_ok p config' context bank first boundary block_list partition addresses m
      Hinj Hord (Hpart eq_refl)) as Hwp.
    destruct (add_partitions _ _ _ _ _ _ _ _ _ _ _ _ _ _) as [r|]; [|done].
    destruct Hwp as (m' & -> & Hm'). cbn. do 2 f_equal. apply list_fmap_ext. intros i a Ha.
    apply list_elem_of_lookup_2 in Ha. rewrite Hm', Hm by done. by destruct (last_reward _ _ _).
  - cbn. do 2 f_equal. apply list_fmap_ext. intros i a Ha.
    apply list_elem_of_lookup_2 in Ha. rewrite Hm by done. by destruct (last_reward _ _ _).
Qed.
End Rewards.
