(* ===== verification/RpcMethods.v ===== *)
(** * The RPC service: the method tables

    The implementations of the five tables of methods in
    [rpc/src/jsonrpc/core.rs] ([MinimalImpl], [BankDataImpl], [AccountsDataImpl],
    [AccountsScanImpl] and [FullImpl]): they parse their parameters, check the
    limits and hand the request to the processor.  A method of the table is
    [method_] and its name; [send_transaction] and [simulate_transaction] are in
    [RpcTransactions]. *)
From stdpp Require Import gmap pretty.
From S2P Require Import Prelude StorageConfig RpcBase RpcBlocks RpcSignatures RpcAccounts RpcTokens.
From S2P Require Import RpcTransactions RpcRewards RpcServer.
Set Default Proof Using "Type*".

(** The parsers of keys, hashes and signatures *)
Class Parsers (Pubkey Hash Signature : Type) := {
  from_str_pubkey : string → Pubkey + string;
  from_str_hash : string → Hash + string;
  from_str_signature : string → Signature + string
}.
Section Parsing.
Context {Pubkey Hash Signature : Type} `{!Parsers Pubkey Hash Signature}.
Definition parsed_pubkey (s : string) : rpc Pubkey := verify_pubkey from_str_pubkey s.
Definition parsed_signature (s : string) : rpc Signature := verify_signature from_str_signature s.
Definition verify_hash (s : string) : rpc Hash := map_err (from_str_hash s) invalid_param.
(** The loops that collect the parsed keys or stop at the first error *)
Definition parsed_pubkeys (l : list string) : rpc (list Pubkey) := collect_rpc parsed_pubkey l.
Definition parsed_signatures (l : list string) : rpc (list Signature) := collect_rpc parsed_signature l.

(** [RpcTokenAccountsFilter] *)
Inductive RpcTokenAccountsFilter := RpcMint (s : string) | RpcProgramId (s : string).
Definition verify_token_account_filter (f : RpcTokenAccountsFilter) : rpc (TokenAccountsFilter (Pubkey := Pubkey)) :=
  match f with
  | RpcMint s => mint ← parsed_pubkey s; inl (FilterMint mint)
  | RpcProgramId s => program_id ← parsed_pubkey s; inl (FilterProgramId program_id)
  end.
End Parsing.

(** The rest of what the methods ask of a bank *)
Class MethodBank (BK EpochInfo Governor Schedule Inflation Num SlotHistory : Type) := {
  mb_epoch_info : BK → EpochInfo;
  mb_epoch : BK → Z;
  mb_epoch_schedule : BK → Schedule;
  mb_inflation : BK → Inflation;
  (** [RpcInflationGovernor::from] *)
  inflation_governor : Inflation → Governor;
  mb_slot_in_year_for_inflation : BK → Num;
  inflation_total : Inflation → Num → Num;
  inflation_validator : Inflation → Num → Num;
  inflation_foundation : Inflation → Num → Num;
  mb_slot_history : BK → SlotHistory;
  sh_oldest : SlotHistory → Z;
  sh_newest : SlotHistory → Z;
  (** [check(slot) == Check::Found] *)
  sh_found : SlotHistory → Z → bool;
  (** [solana_stake_program::get_minimum_delegation(&bank.feature_set)] *)
  mb_stake_minimum_delegation : BK → Z
}.

(** ** [MinimalImpl] *)

Section Minimal.
Context {BK BS BT Pubkey Hash Signature Account TransactionError FS SnapRest : Type}.
Context {EpochInfo Governor Schedule Inflation Num SlotHistory : Type}.
Context `{!QueryBank BK Pubkey Hash Signature Account TransactionError, !Parsers Pubkey Hash Signature}.
Context `{!MethodBank BK EpochInfo Governor Schedule Inflation Num SlotHistory, !Archives FS}.
Implicit Types (meta : Processor BK BS BT) (config : option RpcContextConfig).

Definition method_get_balance meta (pubkey_str : string) config : rpc (RpcResponse Z) :=
  pubkey ← parsed_pubkey pubkey_str;
  get_balance meta pubkey (default context_default config).
Definition method_get_epoch_info meta config : rpc EpochInfo :=
  bank ← get_bank_with_config meta (default context_default config);
  inl (mb_epoch_info bank).
Definition method_get_genesis_hash (genesis_hash : Hash) : rpc string := inl (hash_to_string (BK := BK) genesis_hash).
Definition method_get_health : rpc string := inl "ok".
Definition method_get_identity meta : rpc string :=
  inl (pubkey_to_string (qb_collector_id (rpc_bank meta None))).
Definition method_get_slot meta config : rpc Z := get_slot meta (default context_default config).
Definition method_get_block_height meta config : rpc Z :=
  get_block_height meta (default context_default config).

(** [RpcSnapshotSlotInfo]: the full and the incremental slot *)
Definition method_get_highest_snapshot_slot (snapshot_config : option (SnapshotConfig SnapRest))
    (fs : FS) : rpc (Z * option Z) :=
  match snapshot_config with
  | None => custom NoSnapshot
  | Some cfg =>
      full ← ok_or (fst <$> highest_full_archive fs (full_archives_dir cfg)) (Custom NoSnapshot);
      inl (full, fst <$> highest_incremental_archive fs (incremental_archives_dir cfg) full)
  end.
Definition method_get_transaction_count meta config : rpc Z :=
  get_transaction_count meta (default context_default config).
(** The version of the node and its feature set *)
Definition method_get_version (version : string) (feature_set : Z) : rpc (string * option Z) :=
  inl (version, Some feature_set).
Definition method_get_leader_schedule {Options Config RpcLeaderSchedule} meta (_ : option Options)
    (_ : option Config) : rpc (option RpcLeaderSchedule) := inl None.
End Minimal.

(** ** [BankDataImpl] *)

Section BankData.
Context {BK BS BT Pubkey Hash Signature Account TransactionError : Type}.
Context {EpochInfo Governor Schedule Inflation Num SlotHistory : Type}.
Context `{!EqDecision Pubkey, !Countable Pubkey}.
Context `{!QueryBank BK Pubkey Hash Signature Account TransactionError, !Parsers Pubkey Hash Signature}.
Context `{!MethodBank BK EpochInfo Governor Schedule Inflation Num SlotHistory, !EpochBank BK}.
(** [system_instruction::MAX_PERMITTED_DATA_LENGTH] and [MAX_GET_SLOT_LEADERS] *)
Context (MAX_PERMITTED_DATA_LENGTH : Z) (MAX_GET_SLOT_LEADERS : nat).
Implicit Types (meta : Processor BK BS BT).

Definition method_get_minimum_balance_for_rent_exemption meta (data_len : Z)
    (c : option CommitmentLevel) : rpc Z :=
  if (MAX_PERMITTED_DATA_LENGTH <? data_len)%Z then fail InvalidRequest
  else inl (get_minimum_balance_for_rent_exemption meta data_len c).
Definition get_inflation_governor meta (c : option CommitmentLevel) : Governor :=
  inflation_governor (mb_inflation (rpc_bank meta c)).
(** total, validator, foundation and epoch *)
Definition get_inflation_rate meta : Num * Num * Num * Z :=
  let bank := rpc_bank meta None in
  let epoch := mb_epoch bank in
  let inflation := mb_inflation bank in
  let slot_in_year := mb_slot_in_year_for_inflation bank in
  (inflation_total inflation slot_in_year, inflation_validator inflation slot_in_year,
   inflation_foundation inflation slot_in_year, epoch).
Definition get_epoch_schedule meta : Schedule := mb_epoch_schedule (rpc_bank meta None).
Definition method_get_slot_leader meta (config : option RpcContextConfig) : rpc string :=
  get_slot_leader meta (default context_default config).
Definition method_get_slot_leaders meta (start_slot : Z) (limit : nat) : rpc (list string) :=
  if MAX_GET_SLOT_LEADERS <? limit
  then fail (InvalidParams ("Invalid limit; max " +:+ pretty MAX_GET_SLOT_LEADERS))
  else leaders ← get_slot_leaders meta None start_slot limit;
       inl (pubkey_to_string (BK := BK) <$> leaders).

Record RpcBlockProductionConfig := mkProductionConfig {
  bp_identity : option string;
  (** first and last slot *)
  bp_range : option (Z * option Z);
  bp_commitment : option CommitmentLevel
}.
(** Leader slots and blocks produced by identity, and the range *)
Record RpcBlockProduction := mkProduction {
  by_identity : gmap string (Z * Z); production_range : Z * Z
}.
Definition production_slots (bank : BK) (range : option (Z * option Z)) : rpc (Z * Z) :=
  match range with
  | None => inl (eb_first_slot_in_epoch bank (mb_epoch bank), qb_slot bank)
  | Some (first_slot, last) =>
      let last_slot := default (qb_slot bank) last in
      if (last_slot <? first_slot)%Z
      then fail (InvalidParams ("lastSlot, " +:+ pretty last_slot +:+
                   ", cannot be less than firstSlot, " +:+ pretty first_slot))
      else inl (first_slot, last_slot)
  end.
Definition production_in_history (history : SlotHistory) (first_slot last_slot : Z) : rpc unit :=
  if (first_slot <? sh_oldest (BK := BK) history)%Z
  then fail (InvalidParams ("firstSlot, " +:+ pretty first_slot +:+ ", is too small; min " +:+
               pretty (sh_oldest (BK := BK) history)))
  else if (sh_newest (BK := BK) history <? last_slot)%Z
  then fail (InvalidParams ("lastSlot, " +:+ pretty last_slot +:+ ", is too large; max " +:+
               pretty (sh_newest (BK := BK) history)))
  else inl ().
(** The loop over the leaders *)
Fixpoint count_production (history : SlotHistory) (filter_by_identity : option Pubkey) (slot : Z)
    (production : gmap Pubkey (Z * Z)) (leaders : list Pubkey) : res (gmap Pubkey (Z * Z)) :=
  match leaders with
  | [] => Ok production
  | identity :: leaders =>
      next ← checked_add u64_max slot 1;
      if bool_decide (is_Some filter_by_identity) && negb (bool_decide (filter_by_identity = Some identity))
      then count_production history filter_by_identity next production leaders
      else
        let '(leader_slots, blocks_produced) := default (0, 0)%Z (production !! identity) in
        let blocks_produced :=
          if sh_found (BK := BK) history slot then (blocks_produced + 1)%Z else blocks_produced in
        count_production history filter_by_identity next
          (<[identity := ((leader_slots + 1)%Z, blocks_produced)]> production) leaders
  end.
Definition by_text (production : gmap Pubkey (Z * Z)) : gmap string (Z * Z) :=
  list_to_map ((λ e, (pubkey_to_string (BK := BK) e.1, e.2)) <$> map_to_list production).
Definition produced meta (bank : BK) (config : RpcBlockProductionConfig) (identity : option Pubkey)
    (first_slot last_slot : Z) : res (rpc (RpcResponse RpcBlockProduction)) :=
  n ← checked_add u64_max (saturating_sub last_slot first_slot) 1;
  slot_leaders ←? Ok (get_slot_leaders meta (bp_commitment config) first_slot (Z.to_nat n));
  production ← count_production (mb_slot_history bank) identity first_slot ∅ slot_leaders;
  Ok (inl (new_response bank (mkProduction (by_text production) (first_slot, last_slot)))).
Definition method_get_block_production meta (config : option RpcBlockProductionConfig) :
    res (rpc (RpcResponse RpcBlockProduction)) :=
  let config := default (mkProductionConfig None None None) config in
  filter_by_identity ←? Ok (transpose parsed_pubkey (bp_identity config));
  let bank := rpc_bank meta (bp_commitment config) in
  range ←? Ok (production_slots bank (bp_range config));
  _ ←? Ok (production_in_history (mb_slot_history bank) range.1 range.2);
  produced meta bank config filter_by_identity range.1 range.2.
End BankData.

(** ** [AccountsDataImpl] and [AccountsScanImpl] *)

Section AccountMethods.
Context {BK BS BT Pubkey Hash Signature Account TransactionError Memcmp UiAccount Interest Amount : Type}.
Context `{!EqDecision Pubkey, !Countable Pubkey}.
Context `{!QueryBank BK Pubkey Hash Signature Account TransactionError, !Parsers Pubkey Hash Signature}.
Context `{!ScanBank BK Pubkey Account, !AccountView Account Pubkey, !MemcmpOps Memcmp}.
Context `{!TokenPrograms Pubkey, !Decoders Pubkey Account UiAccount Interest, !SupplyBank BK Pubkey}.
Context (unpack_token_account : bytes → option (Pubkey * Z)).
Context (token_amount_to_ui_amount : Z → SplTokenAdditionalData Interest → Amount).
Context (pubkey_le : Pubkey → Pubkey → bool) (NUM_LARGEST_ACCOUNTS : nat).
(** [MAX_MULTIPLE_ACCOUNTS] and [MAX_GET_PROGRAM_ACCOUNT_FILTERS], and
    [RpcFilterType::verify] *)
Context (MAX_MULTIPLE_ACCOUNTS MAX_GET_PROGRAM_ACCOUNT_FILTERS : nat).
Context (filter_verify : RpcFilterType Memcmp → unit + string).
Implicit Types (meta : Processor BK BS BT) (config : option RpcAccountInfoConfig).
Implicit Types (ix : AccountSecondaryIndexes Pubkey) (c : option CommitmentLevel).

Definition too_many_inputs (max : nat) : RpcError :=
  InvalidParams ("Too many inputs provided; max " +:+ pretty max).

Definition method_get_account_info meta (pubkey_str : string) config :
    rpc (RpcResponse (option UiAccount)) :=
  pubkey ← parsed_pubkey pubkey_str; get_account_info meta pubkey config.
(** with [max_multiple_accounts] of the configuration *)
Definition method_get_multiple_accounts meta (max_multiple_accounts : option nat)
    (pubkey_strs : list string) config : rpc (RpcResponse (list (option UiAccount))) :=
  let max := default MAX_MULTIPLE_ACCOUNTS max_multiple_accounts in
  if max <? length pubkey_strs then fail (too_many_inputs max)
  else pubkeys ← parsed_pubkeys pubkey_strs; get_multiple_accounts meta pubkeys config.
(** Commitments are not supported: none, and a total stake of 0. *)
Definition get_block_commitment {CommitmentArray} meta (block : Z) : option CommitmentArray * Z :=
  (None, 0%Z).
Definition method_get_token_account_balance meta (pubkey_str : string) c : rpc (RpcResponse Amount) :=
  pubkey ← parsed_pubkey pubkey_str;
  get_token_account_balance unpack_token_account token_amount_to_ui_amount meta pubkey c.
Definition method_get_token_supply meta (mint_str : string) c : rpc (RpcResponse Amount) :=
  mint ← parsed_pubkey mint_str; get_token_supply token_amount_to_ui_amount meta mint c.

Definition verify_filter (f : RpcFilterType Memcmp) : rpc unit := map_err (filter_verify f) invalid_param.
Record RpcProgramAccountsConfig := mkProgramConfig {
  pa_account_config : RpcAccountInfoConfig; pa_filters : option (list (RpcFilterType Memcmp));
  pa_with_context : option bool; pa_sort_results : option bool
}.
Definition method_get_program_accounts ix meta (program_id_str : string)
    (config : option RpcProgramAccountsConfig) : rpc (OptionalContext (list (string * UiAccount))) :=
  program_id ← parsed_pubkey program_id_str;
  let '(account_config, filters, with_context, sort_results) :=
    match config with
    | Some config =>
        (Some (pa_account_config config), default [] (pa_filters config),
         default false (pa_with_context config), default true (pa_sort_results config))
    | None => (None, [], false, true)
    end in
  if MAX_GET_PROGRAM_ACCOUNT_FILTERS <? length filters
  then fail (InvalidParams ("Too many filters provided; max " +:+ pretty MAX_GET_PROGRAM_ACCOUNT_FILTERS))
  else
    _ ← collect_rpc verify_filter filters;
    get_program_accounts ix meta program_id account_config filters with_context sort_results.
Definition method_get_token_largest_accounts ix meta (mint_str : string) c :
    res (rpc (RpcResponse (list (string * Amount)))) :=
  mint ←? Ok (parsed_pubkey mint_str);
  get_token_largest_accounts unpack_token_account token_amount_to_ui_amount pubkey_le
    NUM_LARGEST_ACCOUNTS ix meta mint c.
Definition method_get_token_accounts_by_owner ix meta (owner_str : string) (f : RpcTokenAccountsFilter)
    config : rpc (RpcResponse (list (string * UiAccount))) :=
  owner ← parsed_pubkey owner_str;
  f ← verify_token_account_filter f;
  get_token_accounts_by_owner ix meta owner f config true.
Definition method_get_token_accounts_by_delegate ix meta (delegate_str : string)
    (f : RpcTokenAccountsFilter) config : rpc (RpcResponse (list (string * UiAccount))) :=
  delegate ← parsed_pubkey delegate_str;
  f ← verify_token_account_filter f;
  get_token_accounts_by_delegate ix meta delegate f config true.
End AccountMethods.

(** ** [FullImpl] *)

Definition PERFORMANCE_SAMPLES_LIMIT : nat := 720.
Inductive PerfSample :=
| PerfSampleV1 (num_transactions num_slots sample_period_secs : Z)
| PerfSampleV2 (num_transactions num_non_vote_transactions num_slots sample_period_secs : Z).
Record RpcPerfSample := mkPerfSample {
  ps_slot : Z; ps_num_transactions : Z; ps_num_non_vote_transactions : option Z; ps_num_slots : Z;
  ps_sample_period_secs : Z
}.
Definition rpc_perf_sample_from_perf_sample (slot : Z) (sample : PerfSample) : RpcPerfSample :=
  match sample with
  | PerfSampleV1 num_transactions num_slots sample_period_secs =>
      mkPerfSample slot num_transactions None num_slots sample_period_secs
  | PerfSampleV2 num_transactions num_non_vote_transactions num_slots sample_period_secs =>
      mkPerfSample slot num_transactions (Some num_non_vote_transactions) num_slots sample_period_secs
  end.

Section FullMethods.
Context {BK BS BT Pubkey Hash Signature Account TransactionError : Type}.
Context {V Tx Enc Return Inner Msg SMsg Faucet HTx UiTx : Type}.
Context `{!QueryBank BK Pubkey Hash Signature Account TransactionError, !Parsers Pubkey Hash Signature}.
Context `{!SignatureReads BS Pubkey Signature TransactionError HTx}.
Context `{!SignatureTable BT Pubkey Signature TransactionError HTx, !EqDecision Signature}.
Context {RT : TxRuntime BK Pubkey Hash Signature Account TransactionError V Tx Enc Return Inner}.
(** decoding and sanitizing at the type of messages *)
Context {RM : TxRuntime BK Pubkey Hash Signature Account TransactionError Msg SMsg Enc Return Inner}.
Context (MAX_GET_SIGNATURE_STATUSES_QUERY_ITEMS MAX_TX_ACCOUNT_LOCKS MAX_LIMIT : nat).
Context (get_recent_perf_samples : BS → nat → list (Z * PerfSample) + BlockstoreError).
Context (confirmed_last_blockhash : BK → Hash) (bank_fee_for_message : BK → SMsg → option Z).
Context (request_airdrop_transaction : Faucet → Pubkey → Z → Hash → V + string).
Context (get_prioritization_fees : list Pubkey → list (Z * Z)).
Context (stake_minimum_delegation : BK → Z).
Context (json : Enc) (encode : Enc → option Z → ConfirmedTransaction HTx → UiTx + RpcCustomError).
Implicit Types (meta : Processor BK BS BT) (config : option RpcContextConfig) (ch : TxChannel Tx).

(** This node alone: its key, version and feature set, and no addresses *)
Definition method_get_cluster_nodes meta (version : string) (feature_set : Z) :
    rpc (list (string * option string * option Z)) :=
  inl [(pubkey_to_string (qb_collector_id (rpc_bank meta None)), Some version, Some feature_set)].
Definition method_get_recent_performance_samples meta (limit : option nat) : rpc (list RpcPerfSample) :=
  let limit := default PERFORMANCE_SAMPLES_LIMIT limit in
  if PERFORMANCE_SAMPLES_LIMIT <? limit
  then fail (InvalidParams ("Invalid limit; max " +:+ pretty PERFORMANCE_SAMPLES_LIMIT))
  else
    samples ← map_err (get_recent_perf_samples (blockstore meta) limit) (λ _, InvalidRequest);
    inl ((λ e, rpc_perf_sample_from_perf_sample e.1 e.2) <$> samples).
Definition method_get_signature_statuses meta (signature_strs : list string) (search : option bool) :
    rpc (RpcResponse (list (option (TransactionStatus TransactionError)))) :=
  if MAX_GET_SIGNATURE_STATUSES_QUERY_ITEMS <? length signature_strs
  then fail (too_many_inputs MAX_GET_SIGNATURE_STATUSES_QUERY_ITEMS)
  else signatures ← parsed_signatures signature_strs; get_signature_statuses meta signatures search.

(** The transaction of the faucet is sanitized and queued. *)
Definition airdrop_transaction meta (faucet_addr : option Faucet) (pubkey_str : string) (lamports : Z)
    (recent_blockhash : option string) (c : option CommitmentLevel) : rpc Tx :=
  faucet_addr ← ok_or faucet_addr InvalidRequest;
  pubkey ← parsed_pubkey pubkey_str;
  let bank := rpc_bank meta c in
  blockhash ← match recent_blockhash with
              | Some blockhash => verify_hash blockhash
              | None => inl (confirmed_last_blockhash bank)
              end;
  unsanitized_tx ← map_err (request_airdrop_transaction faucet_addr pubkey lamports blockhash)
                     (λ _, InternalError);
  sanitize_transaction unsanitized_tx bank.
Definition request_airdrop meta ch (faucet_addr : option Faucet) (pubkey_str : string) (lamports : Z)
    (recent_blockhash : option string) (c : option CommitmentLevel) : TxChannel Tx * rpc string :=
  match airdrop_transaction meta faucet_addr pubkey_str lamports recent_blockhash c with
  | inr e => (ch, inr e)
  | inl transaction => _send_transaction ch (tx_signature transaction) transaction
  end.

Definition method_get_transaction meta (signature_str : string)
    (config : option (RpcTransactionConfig (Enc := Enc))) : rpc (option UiTx) :=
  signature ← parsed_signature signature_str; get_transaction json encode meta signature config.
Record RpcSignaturesForAddressConfig := mkSignaturesConfig {
  sg_before : option string; sg_until : option string; sg_limit : option nat;
  sg_commitment : option CommitmentLevel; sg_min_context_slot : option Z
}.
Definition method_get_signatures_for_address meta (address : string)
    (config : option RpcSignaturesForAddressConfig) :
    rpc (list (RpcSignatureInfo Signature TransactionError)) :=
  let config := default (mkSignaturesConfig None None None None None) config in
  '(address, before, until, limit) ←
    verify_and_parse_signatures_for_address_params MAX_LIMIT from_str_pubkey from_str_signature
      address (sg_before config) (sg_until config) (sg_limit config);
  get_signatures_for_address meta address before until limit
    (mkContext (sg_commitment config) (sg_min_context_slot config)).

Definition method_get_latest_blockhash meta config : res (rpc (RpcResponse (string * Z))) :=
  get_latest_blockhash meta (default context_default config).
Definition method_is_blockhash_valid meta (blockhash : string) config : rpc (RpcResponse bool) :=
  blockhash ← map_err (from_str_hash blockhash) InvalidParams;
  is_blockhash_valid meta blockhash (default context_default config).
Definition invalid_message (e : string) : RpcError := InvalidParams ("invalid transaction message: " +:+ e).
Definition method_get_fee_for_message meta (data : string) config : rpc (RpcResponse (option Z)) :=
  message ← decode_and_deserialize (RT := RM) data EncBase64;
  bank ← get_bank_with_config meta (default context_default config);
  sanitized_message ← map_err (try_create (TxRuntime := RM) bank message) invalid_message;
  inl (new_response bank (bank_fee_for_message bank sanitized_message)).
Definition get_stake_minimum_delegation meta (config : RpcContextConfig) : rpc (RpcResponse Z) :=
  bank ← get_bank_with_config meta config;
  inl (new_response bank (stake_minimum_delegation bank)).
(** Slots and their fees *)
Definition get_recent_prioritization_fees meta (pubkeys : list Pubkey) : rpc (list (Z * Z)) :=
  inl (get_prioritization_fees pubkeys).
Definition method_get_recent_prioritization_fees meta (pubkey_strs : option (list string)) :
    rpc (list (Z * Z)) :=
  let pubkey_strs := default [] pubkey_strs in
  if MAX_TX_ACCOUNT_LOCKS <? length pubkey_strs then fail (too_many_inputs MAX_TX_ACCOUNT_LOCKS)
  else pubkeys ← parsed_pubkeys pubkey_strs; get_recent_prioritization_fees meta pubkeys.
End FullMethods.

Section RewardMethod.
Context {BK BS BT Pubkey Hash Signature Account TransactionError Body UiBody Enc Details : Type}.
Context `{!QueryBank BK Pubkey Hash Signature Account TransactionError, !Parsers Pubkey Hash Signature}.
Context `{!BlockReads BS Body, !BigTable BT Body, !EpochBank BK, !RewardBlocks UiBody Hash Pubkey}.
Context (MAX_RANGE : Z) (json : Enc) (details_default : Details).
Context (encode_with_options :
  Enc → Details → bool → option Z → ConfirmedBlock Body → ConfirmedBlock UiBody + RpcCustomError).
Context (rewards_with_commitment : option CommitmentLevel → RpcBlockConfig (Enc := Enc) (Details := Details)).
Context (iter_order : gmap nat (list string) → list (nat * list string)).

Definition method_get_inflation_reward (meta : Processor BK BS BT) (address_strs : list string)
    (config : option RpcEpochConfig) : res (rpc (list (option RpcInflationReward))) :=
  addresses ←? Ok (parsed_pubkeys address_strs);
  get_inflation_reward MAX_RANGE json details_default encode_with_options rewards_with_commitment
    iter_order meta addresses config.
End RewardMethod.

(** ** Block production and the airdrop

    What block production counts, and when an airdrop is queued. *)

#[local] Arguments saturating_sub : simpl never.
#[local] Arguments checked_add : simpl never.

Section Production.
Context {BK BS BT Pubkey Hash Signature Account TransactionError : Type}.
Context {EpochInfo Governor Schedule Inflation Num SlotHistory : Type}.
Context `{!EqDecision Pubkey, !Countable Pubkey}.
Context `{!QueryBank BK Pubkey Hash Signature Account TransactionError, !Parsers Pubkey Hash Signature}.
Context `{!MethodBank BK EpochInfo Governor Schedule Inflation Num SlotHistory, !EpochBank BK}.
Implicit Types (meta : Processor BK BS BT).

(** Of a range of slots only the first is counted, as one of the leader of the
    working bank: the list of leaders has that one element, whatever the range. *)
Theorem block_production_counts_first_slot meta config identity first last :
  let bank := rpc_bank meta (bp_commitment config) in
  let leader := qb_collector_id bank in
  transpose parsed_pubkey (bp_identity config) = inl identity →
  production_slots bank (bp_range config) = inl (first, last) →
  production_in_history (BK := BK) (mb_slot_history bank) first last = inl () →
  (0 ≤ first < u64_max)%Z → (0 ≤ last ≤ u64_max)%Z → (last - first < u64_max)%Z →
  method_get_block_production meta (Some config) =
  Ok (inl (mkResponse (qb_slot bank) (mkProduction
    (if decide (identity = None ∨ identity = Some leader)
     then {[ pubkey_to_string (BK := BK) leader :=
              (1, if sh_found (BK := BK) (mb_slot_history bank) first then 1 else 0)%Z ]}
     else ∅) (first, last)))).
Proof.
  intros bank leader Hid Hs Hh Hf Hl Hd.
  unfold method_get_block_production, produced. cbn. rewrite Hid. cbn. fold bank. rewrite Hs. cbn.
  rewrite Hh. cbn.
  assert (saturating_sub last first ≤ u64_max - 1)%Z as Hn by (unfold saturating_sub; lia).
  rewrite (proj2 (checked_add_Ok u64_max (saturating_sub last first) 1 _)) by (split; [lia|done]).
  cbn. rewrite (proj2 (checked_add_Ok u64_max first 1 _)) by (split; [lia|done]). cbn.
  fold bank leader. rewrite lookup_empty. cbn.
  destruct (decide (identity = None ∨ identity = Some leader)) as [Hi|Hi].
  - assert (bool_decide (is_Some identity) && negb (bool_decide (identity = Some leader)) = false) as ->.
    { destruct Hi as [->| ->]; [done|]. by rewrite (bool_decide_true (Some leader = Some leader)). }
    cbn. unfold new_response, by_text. rewrite insert_empty, map_to_list_singleton. cbn.
    by rewrite insert_empty.
  - assert (bool_decide (is_Some identity) && negb (bool_decide (identity = Some leader)) = true) as ->.
    { destruct identity as [k|]; [|by destruct Hi; left]. rewrite bool_decide_true by done.
      rewrite bool_decide_false; [done|]. intros H. apply Hi. by right. }
    cbn. unfold new_response, by_text. by rewrite map_to_list_empty.
Qed.
End Production.

Section Airdrop.
Context {BK BS BT Pubkey Hash Signature Account TransactionError V Tx Enc Return Inner Faucet : Type}.
Context `{!QueryBank BK Pubkey Hash Signature Account TransactionError, !Parsers Pubkey Hash Signature}.
Context {RT : TxRuntime BK Pubkey Hash Signature Account TransactionError V Tx Enc Return Inner}.
Context (confirmed_last_blockhash : BK → Hash).
Context (request_airdrop_transaction : Faucet → Pubkey → Z → Hash → V + string).
Implicit Types (meta : Processor BK BS BT) (ch : TxChannel Tx).

(** Without a faucet every airdrop is an invalid request, and an airdrop that is
    refused leaves the channel to the producer as it was. *)
Lemma airdrop_refused meta ch faucet key lamports blockhash c ch' e :
  request_airdrop confirmed_last_blockhash request_airdrop_transaction meta ch faucet key lamports
    blockhash c = (ch', inr e) →
  ch' = ch ∧ (faucet = None → e = InvalidRequest).
Proof.
  unfold request_airdrop, airdrop_transaction, _send_transaction. destruct faucet as [f|]; cbn.
  - intros H. split; [|done].
    match goal with H : context [match ?x with inl _ => _ | inr _ => _ end] |- _ =>
      destruct x as [t|e'] end; by simplify_eq.
  - by intros [= <- <-].
Qed.
End Airdrop.
