(* ===== verification/RpcWitnesses.v ===== *)
(** * The RPC service: a small node

    Concrete banks and storages for the interfaces of the RPC service, with
    their laws, and the theorems applied to them. *)
From stdpp Require Import sorting pretty.
From S2P Require Import Prelude RpcBase RpcBlocks RpcSignatures.
From S2P Require Import RpcAccounts RpcTokens.
From S2P Require Import RpcTransactions RpcRewards.
From S2P Require Import RpcServer RpcMethods.

Module RpcDemo.

(** Keys, hashes, signatures and errors are numbers; an account is its owner and
    its data. *)
Definition DemoAccount : Type := Z * list Z.
Record DemoBank := mkDemoBank { db_slot : Z; db_accounts : list (Z * DemoAccount) }.
#[global] Instance demo_query : QueryBank DemoBank Z Z Z DemoAccount Z := {
  qb_slot := db_slot;
  qb_block_height b := 0%Z;
  qb_unix_timestamp b := (1000 + db_slot b)%Z;
  qb_genesis_creation_time b := 1000%Z;
  qb_collector_id b := 0%Z;
  qb_transaction_count b := 0%Z;
  qb_get_balance b k := 0%Z;
  qb_get_account b k := (list_to_map (db_accounts b) : gmap Z DemoAccount) !! k;
  qb_status_cache_ancestors b := [];
  qb_signature_status b s := None;
  qb_signature_status_slot b s := None;
  qb_last_blockhash b := 0%Z;
  qb_is_blockhash_valid b h := true;
  qb_last_valid_block_height b h := Some 0%Z;
  qb_minimum_balance_for_rent_exemption b n := n;
  pubkey_to_string k := pretty k;
  hash_to_string h := "hash"
}.

(** A block store of the first [n] slots, all of them roots *)
Definition roots (n : nat) : list Z := seqZ 0 (Z.of_nat n).
Definition has_slot (n : nat) (s : Z) : bool := bool_decide (s ∈ roots n).
Definition demo_block (s : Z) : ConfirmedBlock Z := mkConfirmedBlock (Some (1000 + s)%Z) None s.
Definition from_store {A} (n : nat) (s : Z) (a : A) : A + BlockstoreError :=
  if has_slot n s then inl a else inr (BlockstoreOther "none").
#[global] Instance demo_blocks : BlockReads nat Z := {
  bs_max_root n := Z.of_nat n;
  bs_is_root := has_slot;
  bs_is_skipped n s := false;
  bs_first_available_block n := inl 0%Z;
  bs_get_rooted_block n s := from_store n s (demo_block s);
  bs_get_complete_block n s := from_store n s (demo_block s);
  bs_get_rooted_block_time n s := from_store n s (1000 + s)%Z;
  bs_rooted_slot_iterator n s := inl (filter (λ x, s ≤ x)%Z (roots n));
  bs_slot_meta_iterator n s := inl (roots n)
}.
#[global] Instance demo_table : BigTable unit Z := {
  bt_get_confirmed_block _ s := inr (BlockNotFound s);
  bt_get_confirmed_blocks _ s n := inl [];
  bt_first_available_block _ := inl None
}.

(** Signatures 1 and 2 in the block store, 2 and 3 in the long-term storage *)
Definition demo_info (s : Z) : SignatureInfo Z Z := mkSignatureInfo s s None None None.
Definition demo_page (before : option Z) (n : nat) (l : list Z) : list Z :=
  take n (filter (λ s, before ≠ Some s) l).
#[global] Instance demo_signatures : SignatureReads nat Z Z Z Z := {
  bs_signatures_for_address _ _ _ before _ n := inl (demo_info <$> demo_page before n [1; 2]%Z, true);
  bs_rooted_transaction_status _ s := inl None;
  bs_get_complete_transaction _ _ _ := inl None;
  bs_get_rooted_transaction _ _ := inl None;
  bs_old_signatures_for_address _ _ _ _ := inl [];
  bs_error_message _ := "error"
}.
#[global] Instance demo_signature_table : SignatureTable unit Z Z Z Z := {
  bt_get_signature_status _ s := inr SignatureNotFound;
  bt_get_confirmed_transaction _ s := inl None;
  bt_signatures_for_address _ _ before _ n :=
    inl ((λ s, (demo_info s, 0%Z)) <$> demo_page before n [2; 3]%Z)
}.

(** Token accounts are a mint and an owner; the token programs are 7 and 8. *)
#[global] Instance demo_view : AccountView DemoAccount Z := { acc_owner := fst; acc_data := snd }.
#[global] Instance demo_memcmp : MemcmpOps (nat * list Z) := {
  mc_offset := fst;
  mc_raw_bytes m := Some m.2;
  mc_new_raw o b := (o, b);
  mc_convert m := m;
  mc_bytes_match m d := bool_decide (take (length m.2) (drop m.1 d) = m.2)
}.
#[global] Instance demo_tokens : TokenPrograms Z := {
  is_known_spl_token_id k := bool_decide (k = 7%Z) || bool_decide (k = 8%Z);
  spl_token_id := 7%Z;
  token_2022_id := 8%Z;
  native_mint_id := 9%Z;
  native_mint_decimals := 9%Z;
  SPL_TOKEN_ACCOUNT_OWNER_OFFSET := 1;
  SPL_TOKEN_ACCOUNT_MINT_OFFSET := 0;
  account_packed_len := 3;
  ACCOUNTTYPE_ACCOUNT := 2%Z;
  PUBKEY_BYTES := 1;
  pubkey_to_bytes k := [k];
  pubkey_try_from b := match b with [k] => Some k | _ => None end;
  valid_account_data d := bool_decide (length d = 3);
  get_token_account_mint d := head d
}.
#[global] Instance demo_scan : ScanBank DemoBank Z DemoAccount := {
  sb_filtered_indexed_accounts b key f _ := inl (filter (λ x, f x.2 = true) (db_accounts b));
  sb_filtered_program_accounts b prog f _ :=
    inl (filter (λ x, x.2.1 = prog ∧ f x.2 = true) (db_accounts b))
}.
#[global] Instance demo_decoders : Decoders Z DemoAccount (list Z) unit := {
  unpack_mint d := Some (mkMint 0%Z 0%Z None);
  ui_encode k a _ _ _ := a.2;
  ui_is_json u := true;
  MAX_BASE58_BYTES := 128
}.
#[global] Instance demo_supply : SupplyBank DemoBank Z := {
  calculate_non_circulating_supply b := inl (0%Z, []);
  sb_capitalization b := 0%Z;
  sb_largest_accounts b n _ _ _ := inl [(1, 10); (2, 20)]%Z
}.
#[global] Instance demo_runtime : TxRuntime DemoBank Z Z Z DemoAccount Z (list Z) (list Z) unit unit unit := {
  into_binary_encoding _ := Some EncBase58;
  enc_base58 := ();
  enc_to_string _ := "base58";
  bs58_decode s := inl [Z.of_nat (String.length s)];
  base64_decode s := inl [Z.of_nat (String.length s)];
  deserialize_tx b := inl b;
  tx_type_name := "transaction";
  PACKET_DATA_SIZE := 1232;
  MAX_PROCESSING_AGE := 150%Z;
  set_recent_blockhash v _ := v;
  try_create _ v := inl v;
  tx_signature t := 5%Z;
  tx_recent_blockhash t := 0%Z;
  tx_durable_nonce t := None;
  tx_account_keys t := [1%Z];
  tx_verify t := bool_decide (t ≠ [3%Z]);
  tx_verify_precompiles _ t := inl ();
  simulate _ t _ := mkSimulation (inl ()) [] [] 0%Z None None;
  signature_to_string _ := "signature";
  tx_error_to_string _ := "error"
}.

Definition demo_bank : DemoBank :=
  mkDemoBank 6 [(1, (7, [9; 5; 30])); (2, (7, [9; 6; 40])); (3, (7, [9; 5])); (4, (0, []))]%Z.
Definition demo_processor : Processor DemoBank nat unit :=
  mkProcessor (mkForks 8%Z demo_bank (λ _, None)) 10 true (Some ()) 9%Z.

(** ** The laws *)

Lemma roots_from_sorted a n : StronglySorted Z.lt (seqZ a (Z.of_nat n)).
Proof.
  revert a. induction n as [|n IH]; intros a; [constructor|].
  rewrite seqZ_cons by lia. replace (Z.pred (Z.of_nat (S n))) with (Z.of_nat n) by lia.
  constructor; [apply IH|]. apply Forall_forall. intros x Hx%elem_of_seqZ. lia.
Qed.
#[global] Instance demo_block_laws : BlockReadsLaws nat Z.
Proof.
  split.
  - intros n s l [= <-]. apply sorted_filter, roots_from_sorted.
  - intros n s l x [= <-]. rewrite list_elem_of_filter. cbn. unfold has_slot.
    by rewrite bool_decide_eq_true.
  - cbn. unfold from_store. intros n s b t. case_match; [|done]. by intros [= <-] [= <-].
Qed.
Lemma demo_page_nodup before n l : NoDup l → NoDup (demo_page before n l).
Proof.
  intros Hl. apply (sublist_NoDup _ l Hl). unfold demo_page.
  transitivity (filter (λ s, before ≠ Some s) l); [apply sublist_take|apply sublist_filter].
Qed.
#[global] Instance demo_signature_laws : SignatureLaws nat unit Z Z Z Z.
Proof.
  assert (Hlen : ∀ before n l, length (demo_page before n l) ≤ n)
    by (intros; unfold demo_page; rewrite length_take; lia).
  split.
  - intros bs a h before u n l f [= <- <-]. rewrite <- list_fmap_compose, length_fmap.
    rewrite (list_fmap_ext _ id) by done. rewrite list_fmap_id. split_and!; [|done|].
    + apply demo_page_nodup. repeat constructor; set_solver.
    + intros s -> Hs%(subseteq_take n _ s)%list_elem_of_filter. by destruct Hs.
  - intros bt a before u n l [= <-]. rewrite <- list_fmap_compose, length_fmap.
    rewrite (list_fmap_ext _ id) by done. rewrite list_fmap_id. split; [|done].
    apply demo_page_nodup. repeat constructor; set_solver.
Qed.
Definition demo_stored (b : DemoBank) (k : Z) (a : DemoAccount) : Prop := (k, a) ∈ db_accounts b.
#[global] Instance demo_scan_laws : ScanLaws (Memcmp := nat * list Z) demo_stored.
Proof.
  split; unfold demo_stored.
  - intros b prog f flag l k a [= <-]. rewrite list_elem_of_filter. cbn. tauto.
  - intros b key f flag l k a [= <-] [? ?]%list_elem_of_filter. done.
  - intros b key f flag l k a [= <-] ? _ ?. by apply list_elem_of_filter.
Qed.
#[global] Instance demo_filter_laws : FilterLaws (Pubkey := Z) (Memcmp := nat * list Z).
Proof. split; [done|by intros [o b] ? ? [= <-]|]. intros k [|x [|]]; naive_solver. Qed.
End RpcDemo.

Module RpcApplied.
Import RpcDemo.

Lemma get_blocks_exact_witness :
  ∃ l, get_blocks 5 demo_processor 2 None None = inl l ∧
    ∀ s, s ∈ l ↔ (2 ≤ s ≤ 6)%Z ∧ (0 ≤ s)%Z ∧ has_slot 10 s = true.
Proof.
  destruct (get_blocks_exact 5 demo_processor 2 None None demo_bank [2; 3; 4; 5; 6; 7; 8; 9]%Z)
    as [[Hr _]|(_ & l & Hl & _ & _ & Hin)].
  - lia.
  - reflexivity.
  - right. vm_compute. discriminate.
  - reflexivity.
  - vm_compute. reflexivity.
  - exfalso. vm_compute in Hr. discriminate.
  - exists l. split; [exact Hl|exact Hin].
Defined.

Lemma get_blocks_with_limit_prefix_witness :
  get_blocks_with_limit 5 demo_processor 2 3 None = inl (take 3 [2; 3; 4; 5; 6]%Z).
Proof.
  apply (get_blocks_with_limit_prefix 5 demo_processor 2 3 None demo_bank
           [2; 3; 4; 5; 6; 7; 8; 9]%Z).
  - lia.
  - reflexivity.
  - right. vm_compute. discriminate.
  - reflexivity.
  - vm_compute. discriminate.
  - vm_compute. reflexivity.
  - vm_compute. reflexivity.
Defined.

(** Blocks are encoded as they are. *)
Definition demo_encode (_ _ : unit) (_ : bool) (_ : option Z) (b : ConfirmedBlock Z) :
    ConfirmedBlock Z + RpcCustomError := inl b.
Lemma get_block_time_agrees_witness :
  get_block_time demo_processor 3 = inl (Some 1003%Z).
Proof.
  apply (get_block_time_agrees () () demo_encode demo_processor 3 None (demo_block 3) (demo_block 3)).
  - vm_compute. discriminate.
  - intros ? ? ? ? x y [= <-]. reflexivity.
  - vm_compute. reflexivity.
  - vm_compute. reflexivity.
  - reflexivity.
Defined.

Lemma signatures_for_address_page_witness :
  ∃ r, get_signatures_for_address demo_processor 0%Z None None 3 context_default = inl r ∧
    NoDup (si_signature ∘ rs_info <$> r) ∧ length (si_signature ∘ rs_info <$> r) ≤ 3.
Proof.
  destruct (signatures_for_address_page demo_processor 0%Z None None 3 context_default demo_bank
    (demo_info <$> [1; 2]%Z) true) as (r & Hr & _ & Hd & Hn & _).
  - reflexivity.
  - reflexivity.
  - reflexivity.
  - vm_compute. reflexivity.
  - exists r. split; [exact Hr|]. split; [exact Hd|exact Hn].
Defined.

Lemma signature_statuses_in_order_witness :
  ∃ r, get_signature_statuses demo_processor [1; 2]%Z (Some true) = inl r ∧ r_context_slot r = 6%Z.
Proof.
  destruct (signature_statuses_in_order demo_processor [1; 2]%Z true) as (r & Hr & Hs & _).
  - reflexivity.
  - intros _ s _. vm_compute. eexists. reflexivity.
  - exists r. split; [exact Hr|exact Hs].
Defined.

(** Every secondary index is enabled. *)
Definition demo_indexes : AccountSecondaryIndexes Z := mkIndexes (λ _, true) (λ _, true).
Lemma program_accounts_exact_witness :
  ∃ l, wanted demo_stored demo_bank 7%Z
      (optimize_filters [TokenAccountState; MemcmpFilter (1, [5%Z])]) l ∧
    get_program_accounts demo_indexes demo_processor 7%Z None
      [TokenAccountState; MemcmpFilter (1, [5%Z])] false true =
    (accounts ← encode_keyed true Binary None demo_bank l; inl (NoContext accounts)).
Proof.
  destruct (program_accounts_exact demo_stored demo_indexes demo_processor demo_bank 7%Z None
    [TokenAccountState; MemcmpFilter (1, [5%Z])] false true) as (l & Hw & _ & Hl).
  - reflexivity.
  - split; intros; eexists; reflexivity.
  - reflexivity.
  - exists l. split; [exact Hw|exact Hl].
Defined.

#[global] Instance demo_order : EntryOrder Z.leb.
Proof.
  split; [|intros x y z; rewrite !Z.leb_le; lia]. intros x y. rewrite !Z.leb_le. lia.
Qed.
Definition demo_unpack (d : list Z) : option (Z * Z) :=
  match d with [m; _; amount] => Some (m, amount) | _ => None end.
Definition demo_data : SplTokenAdditionalData unit := mkAdditional 9%Z None.
Definition demo_amount (x : Z) (_ : SplTokenAdditionalData unit) : Z := x.
Lemma token_largest_accounts_top_witness :
  ∃ s, s ≡ₚ [(30, 1); (40, 2)]%Z ∧
    get_token_largest_accounts (Memcmp := nat * list Z) demo_unpack demo_amount Z.leb 1
      demo_indexes demo_processor 9%Z None =
    Ok (inl (new_response demo_bank (map (token_balance demo_amount demo_data) (take 1 s)))).
Proof.
  destruct (token_largest_accounts_top (Memcmp := nat * list Z) demo_unpack demo_amount Z.leb 1
    demo_indexes demo_processor 9%Z None demo_data
    [(1, (7, [9; 5; 30])); (2, (7, [9; 6; 40]))]%Z) as (s & Hp & _ & Hl).
  - exact demo_order.
  - lia.
  - vm_compute. reflexivity.
  - exists s. split; [exact Hp|exact Hl].
Defined.

Lemma largest_accounts_repeated_witness :
  let unsorted := mkLargestConfig None None (Some false) in
  let sorted := mkLargestConfig None None (Some true) in
  let '(cache, r) := get_largest_accounts 20 demo_processor (new_cache 30) (Some unsorted) 0 1 in
  get_largest_accounts 20 demo_processor cache (Some sorted) 2 3 = (cache, r).
Proof.
  apply (largest_accounts_repeated 20 demo_processor demo_processor (new_cache 30) _
    (mkLargestConfig None None (Some false)) (mkLargestConfig None None (Some true)) 0 1 2 3).
  - vm_compute. reflexivity.
  - reflexivity.
  - reflexivity.
  - split; vm_compute; [discriminate|reflexivity].
Defined.


(** Epochs of two slots; the first block of epoch 2 pays a vote account, the
    next two the stake accounts of the two partitions. *)
#[global] Instance demo_epochs : EpochBank DemoBank := {
  eb_get_epoch _ s := (s / 2)%Z;
  eb_first_slot_in_epoch _ e := (2 * e)%Z;
  eb_partitioned_rewards_slot _ := Some 0%Z
}.
Definition demo_reward (k : Z) (t : RewardType) : Reward := mkReward (pretty k) (10 * k) 100 (Some t) None.
#[global] Instance demo_reward_blocks : RewardBlocks Z Z Z := {
  ub_rewards s :=
    if decide (s = 4%Z) then Some [demo_reward 1 Voting; demo_reward 2 Staking]
    else if decide (s = 5%Z) then Some [demo_reward 2 Staking]
    else if decide (s = 6%Z) then Some [demo_reward 3 Staking] else None;
  ub_num_reward_partitions _ := Some 2%Z;
  ub_previous_blockhash _ := "hash";
  parse_hash _ := Some 0%Z;
  partition_of n _ k := Z.to_nat (k mod 2)
}.
Definition demo_rewards_config (_ : option CommitmentLevel) : RpcBlockConfig (Enc := unit) (Details := unit) :=
  mkBlockConfig None None None None None.
Lemma inflation_rewards_exact_witness :
  get_inflation_reward 100 () () demo_encode demo_rewards_config map_to_list demo_processor [1; 2; 3; 4]%Z
    (Some (mkEpochConfig (Some 1%Z) None None)) =
  Ok (inl [Some (mkInflationReward 1 4 10 100 None); Some (mkInflationReward 1 5 20 100 None);
           Some (mkInflationReward 1 6 30 100 None); None]).
Proof.
  rewrite (inflation_rewards_exact 100 () () demo_encode demo_rewards_config map_to_list demo_processor
    [1; 2; 3; 4]%Z (Some (mkEpochConfig (Some 1%Z) None None)) 1 4 demo_bank (demo_block 4) [5; 6]%Z
    (λ k, Z.to_nat (k mod 2))).
  - vm_compute. reflexivity.
  - intros x y H. apply (inj pretty) in H. exact H.
  - reflexivity.
  - split_and!; vm_compute; reflexivity.
  - intros _. exists 2%Z, 0%Z. split_and!; try (vm_compute; reflexivity).
    + vm_compute. discriminate.
    + intros a. change (Z.to_nat (a mod 2) < 2). pose proof (Z.mod_pos_bound a 2). lia.
    + intros slot Hs. apply elem_of_cons in Hs as [->|Hs]; [eexists; vm_compute; reflexivity|].
      apply list_elem_of_singleton in Hs as ->. eexists; vm_compute; reflexivity.
Defined.

(** Slots 0 to 6 are in the history, with a block in the even ones. *)
#[global] Instance demo_parsers : Parsers Z Z Z := {
  from_str_pubkey _ := inr "bad key"; from_str_hash _ := inr "bad hash"; from_str_signature _ := inr "bad"
}.
#[global] Instance demo_method_bank : MethodBank DemoBank unit unit unit unit unit unit := {
  mb_epoch_info _ := (); mb_epoch b := (db_slot b / 2)%Z; mb_epoch_schedule _ := (); mb_inflation _ := ();
  inflation_governor _ := (); mb_slot_in_year_for_inflation _ := (); inflation_total _ _ := ();
  inflation_validator _ _ := (); inflation_foundation _ _ := (); mb_slot_history _ := ();
  sh_oldest _ := 0%Z; sh_newest _ := 6%Z; sh_found _ s := Z.even s; mb_stake_minimum_delegation _ := 1%Z
}.
(** Of the slots 0 to 6 one is counted. *)
Lemma block_production_witness :
  method_get_block_production demo_processor (Some (mkProductionConfig None (Some (0%Z, Some 6%Z)) None)) =
  Ok (inl (mkResponse 6%Z (mkProduction {[ "0" := (1, 1)%Z ]} (0%Z, 6%Z)))).
Proof.
  rewrite (block_production_counts_first_slot demo_processor
    (mkProductionConfig None (Some (0%Z, Some 6%Z)) None) None 0 6).
  - vm_compute. reflexivity.
  - reflexivity.
  - vm_compute. reflexivity.
  - vm_compute. reflexivity.
  - split; vm_compute; [discriminate|reflexivity].
  - split; vm_compute; discriminate.
  - vm_compute. reflexivity.
Defined.
End RpcApplied.
