(* ===== verification/RpcTests.v ===== *)
(** * The tests of the RPC service, run on the model

    Tests of [rpc/src/jsonrpc/core.rs] on blocks, on accounts and tokens and on
    encoded transactions, as programs of the model.  The node they run on has
    accounts in the layout of the token programs, and the base 58 and base 64
    encodings written out.  A request is the call of the processor it is
    dispatched to, with the parameters parsed, and an answer the value that is
    serialised.

    The node stands for the runtime and is chosen to behave as the tests set it
    up, so they check the code of the service and not the runtime: the logs and
    units of a simulation, the statuses of signatures and the parsing of token
    accounts are the node's.  Left out of the answers are the version of the
    interface, the executable flag and rent epoch of accounts and the
    floating-point form of amounts.  Keys, hashes and signatures are numbers; as
    bytes a key is 32 times the same one. *)
From Stdlib Require Import Ascii.
From stdpp Require Import sorting pretty.
From S2P Require Import Prelude RpcBase RpcBlocks RpcSignatures RpcAccounts RpcTokens RpcTransactions.

(** ** Encodings *)
Module Encoding.
Definition base58_alphabet : list ascii :=
  String.list_ascii_of_string "123456789ABCDEFGHJKLMNPQRSTUVWXYZabcdefghijkmnopqrstuvwxyz".
Definition base64_alphabet : list ascii :=
  String.list_ascii_of_string "ABCDEFGHIJKLMNOPQRSTUVWXYZabcdefghijklmnopqrstuvwxyz0123456789+/".
Definition char_of (alphabet : list ascii) (d : Z) : ascii := default " "%char (alphabet !! Z.to_nat d).
Definition digit_of (alphabet : list ascii) (c : ascii) : option Z :=
  (λ x, Z.of_nat x.1) <$> list_find (c =.) alphabet.
Definition leading {A} `{EqDecision A} (x : A) (l : list A) : nat :=
  length l - length ((fix go l := match l with
                                  | y :: l' => if decide (y = x) then go l' else l
                                  | [] => []
                                  end) l).

(** A number from its digits, and its digits, in a base *)
Definition number (base : Z) (l : list Z) : Z := foldl (λ n d, base * n + d)%Z 0%Z l.
Fixpoint digits (fuel : nat) (base n : Z) (acc : list Z) : list Z :=
  match fuel with
  | 0 => acc
  | S fuel => if (n =? 0)%Z then acc
              else let '(q, r) := Z.div_eucl n base in digits fuel base q (r :: acc)
  end.

Definition base58 (b : list Z) : string :=
  String.string_of_list_ascii (char_of base58_alphabet <$>
    replicate (leading 0%Z b) 0%Z ++ digits (2 * length b) 58 (number 256 b) []).
(** The digits of a text, or the first character that is none and its index *)
Fixpoint text_digits (alphabet : list ascii) (i : nat) (l : list ascii) : list Z + (nat * ascii) :=
  match l with
  | [] => inl []
  | c :: l =>
      match digit_of alphabet c with
      | None => inr (i, c)
      | Some d => match text_digits alphabet (S i) l with inl ds => inl (d :: ds) | inr e => inr e end
      end
  end.
Definition base58_decode (s : string) : list Z + string :=
  match text_digits base58_alphabet 0 (String.list_ascii_of_string s) with
  | inr (i, c) => inr ("InvalidCharacter { character: '" +:+ String c "', index: " +:+ pretty i +:+ " }")
  | inl ds => inl (replicate (leading 0%Z ds) 0%Z ++ digits (length ds) 256 (number 58 ds) [])
  end.

Fixpoint sextets (b : list Z) : list (option Z) :=
  match b with
  | x :: y :: z :: b =>
      (Some <$> [x / 4; (x mod 4) * 16 + y / 16; (y mod 16) * 4 + z / 64; z mod 64]%Z) ++ sextets b
  | [x; y] => (Some <$> [x / 4; (x mod 4) * 16 + y / 16; (y mod 16) * 4]%Z) ++ [None]
  | [x] => (Some <$> [x / 4; (x mod 4) * 16]%Z) ++ [None; None]
  | [] => []
  end.
Definition base64 (b : list Z) : string :=
  String.string_of_list_ascii ((λ d, match d with Some d => char_of base64_alphabet d | None => "="%char end)
    <$> sextets b).
Fixpoint octets (l : list Z) : list Z :=
  match l with
  | a :: b :: c :: d :: l =>
      [a * 4 + b / 16; (b mod 16) * 16 + c / 4; (c mod 4) * 64 + d]%Z ++ octets l
  | [a; b; c] => [a * 4 + b / 16; (b mod 16) * 16 + c / 4]%Z
  | [a; b] => [a * 4 + b / 16]%Z
  | _ => []
  end.
Definition strip_padding (l : list ascii) : list ascii :=
  reverse (match reverse l with
           | "="%char :: "="%char :: l => l
           | "="%char :: l => l
           | l => l
           end).
Definition base64_decode (s : string) : list Z + string :=
  match text_digits base64_alphabet 0 (strip_padding (String.list_ascii_of_string s)) with
  | inr (i, c) => inr ("InvalidByte(" +:+ pretty i +:+ ", " +:+ pretty (nat_of_ascii c) +:+ ")")
  | inl ds => inl (octets ds)
  end.
End Encoding.
Import Encoding.

(** ** The node *)
Module Node.
Record account := mkAccount { lamports : Z; data : list Z; owner : N }.
Record bank := mkBank {
  slot : Z; accounts : list (N * account); statuses : list (Z * (unit + string))
}.
Definition status_of (b : bank) (signature : Z) : option (unit + string) :=
  (λ x, x.2.2) <$> list_find (λ x, x.1 = signature) (statuses b).
Definition base_timestamp : Z := 1000.
(** The block store: its roots, in ascending order *)
Definition store := list Z.

#[export] Instance query : QueryBank bank N Z Z account string := {|
  qb_slot := slot;
  qb_block_height := slot;
  (* 400 ms per slot *)
  qb_unix_timestamp b := (base_timestamp + slot b * 4 / 10)%Z;
  qb_genesis_creation_time _ := base_timestamp;
  qb_collector_id _ := 0%N;
  qb_transaction_count _ := 0%Z;
  qb_get_balance b k := match list_find (λ x, x.1 = k) (accounts b) with
                        | Some (_, (_, a)) => lamports a
                        | None => 0%Z
                        end;
  qb_get_account b k := (λ x, x.2.2) <$> list_find (λ x, x.1 = k) (accounts b);
  qb_status_cache_ancestors _ := [];
  qb_signature_status := status_of;
  qb_signature_status_slot b s := (λ r, (slot b, r)) <$> status_of b s;
  qb_last_blockhash _ := 9%Z;
  qb_is_blockhash_valid _ h := bool_decide (h = 9%Z);
  qb_last_valid_block_height b h := if bool_decide (h = 9%Z) then Some (slot b + 150)%Z else None;
  qb_minimum_balance_for_rent_exemption _ n := ((n + 128) * 6960)%Z;
  pubkey_to_string k := pretty k;
  hash_to_string h := pretty h
|}.
Definition block_of (s : Z) : ConfirmedBlock unit :=
  mkConfirmedBlock (Some (base_timestamp + s * 4 / 10)%Z) (Some s) ().
Definition rooted {A} (d : store) (s : Z) (a : A) : A + BlockstoreError :=
  if bool_decide (s ∈ d) then inl a else inr (BlockstoreOther "SlotNotRooted").
#[export] Instance blocks : BlockReads store unit := {|
  bs_max_root d := foldr Z.max 0%Z d;
  bs_is_root d s := bool_decide (s ∈ d);
  bs_is_skipped d s := bool_decide (s < foldr Z.max 0 d)%Z && negb (bool_decide (s ∈ d));
  bs_first_available_block d := inl 0%Z;
  bs_get_rooted_block d s := rooted d s (block_of s);
  bs_get_complete_block d s := rooted d s (block_of s);
  bs_get_rooted_block_time d s := rooted d s (base_timestamp + s * 4 / 10)%Z;
  bs_rooted_slot_iterator d s := inl (filter (λ x, s ≤ x)%Z d);
  bs_slot_meta_iterator d s := inl (filter (λ x, s ≤ x)%Z d)
|}.
#[export] Instance table : BigTable unit unit := {|
  bt_get_confirmed_block _ s := inr (BlockNotFound s);
  bt_get_confirmed_blocks _ _ _ := inl [];
  bt_first_available_block _ := inl None
|}.

Abbreviation handler := (Processor bank store unit).
Definition node (root : Z) (working : bank) (banks : list bank) (d : store) : handler :=
  mkProcessor (mkForks root working (λ s, head (filter (λ b, slot b = s) banks))) d true None 0.
(** [RpcHandler::start], with some accounts *)
Definition start (l : list (N * account)) : handler := node 0 (mkBank 0 l []) [mkBank 0 l []] [].
(** [add_roots_to_blockstore]: a bank for every root and one more *)
Definition add_roots (d : store) (roots : list Z) : handler :=
  let roots := filter (λ s, 0 < s)%Z roots in
  let last := foldr Z.max 0%Z roots in
  let banks := (λ s, mkBank s [] []) <$> roots ++ [last + 1]%Z in
  node last (mkBank (last + 1) [] []) banks (d ++ roots).

(** *** Accounts in the layout of the token programs *)

Definition key_bytes (k : N) : list Z := replicate 32 (Z.of_N k).
Fixpoint le_bytes (n : nat) (x : Z) : list Z :=
  match n with 0 => [] | S n => (x mod 256)%Z :: le_bytes n (x / 256)%Z end.
Definition le_number (l : list Z) : Z := foldr (λ b n, b + 256 * n)%Z 0%Z l.
(** [COption] of a key *)
Definition some_key (k : N) : list Z := [1; 0; 0; 0]%Z ++ key_bytes k.
Definition slice (o n : nat) (d : list Z) : list Z := take n (drop o d).
Definition token_account_data (mint holder delegate : N) (amount : Z) : list Z :=
  key_bytes mint ++ key_bytes holder ++ le_bytes 8 amount ++ some_key delegate ++ [1%Z] ++
  replicate 12 0%Z ++ le_bytes 8 30 ++ some_key holder.
Definition mint_data (authority : N) (supply decimals : Z) : list Z :=
  some_key authority ++ le_bytes 8 supply ++ [decimals; 1%Z] ++ some_key authority.
(** The types of extended accounts, and an account with extensions *)
Definition TYPE_MINT : Z := 1.
Definition TYPE_ACCOUNT : Z := 2.
Definition extended (base : list Z) (type : Z) (extension : list Z) : list Z :=
  base ++ replicate (165 - length base) 0%Z ++ [type] ++ extension.
Definition has_type (len : nat) (type : Z) (d : list Z) : bool :=
  (length d =? len) || ((165 <? length d) && bool_decide (d !! 165 = Some type)).
Definition is_token_account (d : list Z) : bool :=
  has_type 165 TYPE_ACCOUNT d && negb (bool_decide (d !! 108 = Some 0%Z)).
Definition is_mint (d : list Z) : bool := has_type 82 TYPE_MINT d && bool_decide (d !! 45 = Some 1%Z).
Definition key_at (o : nat) (d : list Z) : option N := Z.to_N <$> head (slice o 32 d).
Definition token_id : N := 6.
Definition token_2022 : N := 22.
Definition native_mint : N := 7.
#[export] Instance token_programs : TokenPrograms N := {|
  is_known_spl_token_id k := bool_decide (k = token_id) || bool_decide (k = token_2022);
  spl_token_id := token_id;
  token_2022_id := token_2022;
  native_mint_id := native_mint;
  native_mint_decimals := 9%Z;
  SPL_TOKEN_ACCOUNT_OWNER_OFFSET := 32;
  SPL_TOKEN_ACCOUNT_MINT_OFFSET := 0;
  account_packed_len := 165;
  ACCOUNTTYPE_ACCOUNT := TYPE_ACCOUNT;
  PUBKEY_BYTES := 32;
  pubkey_to_bytes := key_bytes;
  pubkey_try_from b := if length b =? 32 then key_at 0 b else None;
  valid_account_data := is_token_account;
  get_token_account_mint d := if is_token_account d then key_at 0 d else None
|}.
Definition unpack_token (d : list Z) : option (N * Z) :=
  if is_token_account d then (λ k, (k, le_number (slice 64 8 d))) <$> key_at 0 d else None.

(** *** Encoded accounts and filters *)

Inductive ui_data := Parsed | Bytes (encoding : UiAccountEncoding) (text : string).
#[export] Instance ui_data_eq : EqDecision ui_data.
Proof. solve_decision. Defined.
Record ui_account := mkUi { ui_lamports : Z; ui_owner : N; ui_content : ui_data; ui_space : nat }.
#[export] Instance ui_account_eq : EqDecision ui_account.
Proof. solve_decision. Defined.
(** [slice_data]: a slice beyond the data is cut *)
Definition slice_data (s : option UiDataSliceConfig) (d : list Z) : list Z :=
  match s with Some s => slice (sl_offset s) (sl_length s) d | None => d end.
Definition encode_bytes (e : UiAccountEncoding) (d : list Z) : ui_data :=
  Bytes e (match e with Binary | Base58 => base58 d | _ => base64 d end).
(** A token account is parsed with the data of its mint only. *)
Definition parses (a : account) (additional : bool) : bool :=
  (bool_decide (owner a = token_id) || bool_decide (owner a = token_2022)) &&
  (if is_token_account (data a) then additional else is_mint (data a)).
Definition ui_encode_account (a : account) (e : UiAccountEncoding) (additional : bool)
    (s : option UiDataSliceConfig) : ui_account :=
  mkUi (lamports a) (owner a)
    match e with
    | JsonParsed => if parses a additional then Parsed else encode_bytes Base64 (slice_data s (data a))
    | e => encode_bytes e (slice_data s (data a))
    end (length (data a)).
#[export] Instance decoders : Decoders N account ui_account unit := {|
  unpack_mint d := if is_mint d then Some (mkMint (le_number (slice 36 8 d)) (default 0%Z (d !! 44)) None) else None;
  ui_encode _ a e additional s := ui_encode_account a e (bool_decide (additional ≠ None)) s;
  ui_is_json u := match ui_content u with Parsed => true | _ => false end;
  MAX_BASE58_BYTES := 128
|}.
Inductive compared := Raw (b : list Z) | Text (s : string).
Record memcmp := mkMemcmp { mc_at : nat; mc_bytes : compared }.
Definition convert (m : memcmp) : memcmp :=
  match mc_bytes m with
  | Text s => match base58_decode s with inl b => mkMemcmp (mc_at m) (Raw b) | inr _ => m end
  | Raw _ => m
  end.
#[export] Instance memcmp_ops : MemcmpOps memcmp := {|
  mc_offset := mc_at;
  mc_raw_bytes m := match mc_bytes m with Raw b => Some b | Text _ => None end;
  mc_new_raw o b := mkMemcmp o (Raw b);
  mc_convert := convert;
  mc_bytes_match m d := match mc_bytes (convert m) with
                        | Raw b => bool_decide (slice (mc_at m) (length b) d = b)
                        | Text _ => false
                        end
|}.
#[export] Instance view : AccountView account N := {| acc_owner := owner; acc_data := data |}.
#[export] Instance scans : ScanBank bank N account := {|
  sb_filtered_indexed_accounts b _ f _ := inl (filter (λ x, f x.2 = true) (accounts b));
  sb_filtered_program_accounts b p f _ := inl (filter (λ x, owner x.2 = p ∧ f x.2 = true) (accounts b))
|}.
Definition no_indexes : AccountSecondaryIndexes N := mkIndexes (λ _, false) (λ _, true).
End Node.
Import Node.

Definition is_ok {A} (r : rpc A) : bool := match r with inl _ => true | inr _ => false end.
Definition is_error {A} (r : rpc A) : bool := negb (is_ok r).
#[local] Instance custom_error_eq : EqDecision RpcCustomError.
Proof. solve_decision. Defined.
#[local] Instance rpc_error_eq : EqDecision RpcError.
Proof. solve_decision. Defined.
#[local] Instance response_eq {A} `{EqDecision A} : EqDecision (RpcResponse A).
Proof. solve_decision. Defined.
#[local] Instance optional_context_eq {A} `{EqDecision A} : EqDecision (OptionalContext A).
Proof. solve_decision. Defined.
#[local] Instance confirmed_block_eq : EqDecision (ConfirmedBlock unit).
Proof. solve_decision. Defined.

(** ** Blocks *)
Module BlockTests.
Definition MAX_GET_CONFIRMED_BLOCKS_RANGE : Z := 500000.
Definition blocks_are (rpc : handler) (from : Z) (to : option Z) (expected : list Z) : res unit :=
  assert_eq (get_blocks MAX_GET_CONFIRMED_BLOCKS_RANGE rpc from to None) (inl expected).
Definition limited_are (rpc : handler) (from limit : Z) (expected : list Z + RpcError) : res unit :=
  assert_eq (get_blocks_with_limit MAX_GET_CONFIRMED_BLOCKS_RANGE rpc from (Z.to_nat limit) None) expected.
(** The block store has slot 0 from the transactions stored first. *)
Definition test_get_blocks : res unit :=
  let rpc := add_roots [0%Z] [0; 1; 3; 4; 8]%Z in
  _ ← blocks_are rpc 0 None [0; 1; 3; 4; 8]%Z;
  _ ← blocks_are rpc 2 None [3; 4; 8]%Z;
  _ ← blocks_are rpc 0 (Some 4%Z) [0; 1; 3; 4]%Z;
  _ ← blocks_are rpc 0 (Some 7%Z) [0; 1; 3; 4]%Z;
  _ ← blocks_are rpc 9 (Some 11%Z) [];
  blocks_are rpc 0 (Some MAX_GET_CONFIRMED_BLOCKS_RANGE) [0; 1; 3; 4; 8]%Z.
Definition test_get_blocks_with_limit : res unit :=
  let rpc := add_roots [] [0; 1; 3; 4; 8]%Z in
  _ ← limited_are rpc 0 500001 (inr (InvalidParams "Limit too large; max 500000"));
  _ ← limited_are rpc 0 0 (inl []);
  _ ← limited_are rpc 2 2 (inl [3; 4]%Z);
  _ ← limited_are rpc 2 3 (inl [3; 4; 8]%Z);
  _ ← limited_are rpc 2 500000 (inl [3; 4; 8]%Z);
  limited_are rpc 9 500000 (inl []).
Definition test_get_block_time : res unit :=
  let rpc := add_roots [] [1; 2; 3; 4; 5; 6; 7]%Z in
  _ ← assert_eq (get_block_time rpc 2) (inl (Some base_timestamp));
  _ ← assert_eq (get_block_time rpc 7) (inl (Some (base_timestamp + 7 * 400 / 1000)%Z));
  assert_eq (get_block_time rpc 12345) (inr (Custom (BlockNotAvailable 12345))).
Definition test_is_finalized : res unit :=
  let bank := mkBank 0 [] [] in
  let blockstore : store := [0; 1]%Z in
  _ ← assert_that (is_finalized bank blockstore 0);
  _ ← assert_that (is_finalized bank blockstore 1);
  _ ← assert_that (negb (is_finalized bank blockstore 2));
  assert_that (negb (is_finalized bank blockstore 3)).
Definition block_tests : list (res unit) :=
  [test_get_blocks; test_get_blocks_with_limit; test_get_block_time; test_is_finalized].
End BlockTests.

Example block_tests_pass :
  forallb passed BlockTests.block_tests = true.
Proof. vm_compute. reflexivity. Qed.

(** ** Filters of token accounts *)
Module FilterTests.
Definition at_offset (o : nat) (b : list Z) : RpcFilterType memcmp := MemcmpFilter (mkMemcmp o (Raw b)).
Definition new_unique : N := 99.
Definition size_filter : RpcFilterType memcmp := DataSize 165.
Definition type_filter : RpcFilterType memcmp := at_offset 165 [TYPE_ACCOUNT].
Definition test_get_spl_token_owner_filter : res unit :=
  let owner := 50%N in
  let owned := at_offset 32 (key_bytes owner) in
  _ ← assert_eq (get_spl_token_owner_filter token_id [owned; size_filter]) (Some owner);
  _ ← assert_eq (get_spl_token_owner_filter token_2022 [owned; type_filter]) (Some owner);
  _ ← assert_eq (get_spl_token_owner_filter token_2022 [owned; TokenAccountState]) (Some owner);
  _ ← assert_eq (get_spl_token_owner_filter token_id [owned; type_filter]) None;
  _ ← assert_eq (get_spl_token_owner_filter token_id [at_offset 0 (key_bytes owner); size_filter]) None;
  _ ← assert_eq (get_spl_token_owner_filter new_unique [owned; size_filter]) None;
  assert_eq (get_spl_token_owner_filter new_unique [owned; type_filter]) None.
Definition test_get_spl_token_mint_filter : res unit :=
  let mint := 51%N in
  let minted := at_offset 0 (key_bytes mint) in
  _ ← assert_eq (get_spl_token_mint_filter token_id [minted; size_filter]) (Some mint);
  _ ← assert_eq (get_spl_token_mint_filter token_2022 [minted; type_filter]) (Some mint);
  _ ← assert_eq (get_spl_token_mint_filter token_id [minted; TokenAccountState]) (Some mint);
  _ ← assert_eq (get_spl_token_mint_filter token_id [minted; type_filter]) None;
  _ ← assert_eq (get_spl_token_mint_filter token_id [at_offset 32 (key_bytes mint); size_filter]) None;
  _ ← assert_eq (get_spl_token_mint_filter new_unique [minted; size_filter]) None;
  assert_eq (get_spl_token_mint_filter new_unique [minted; type_filter]) None.
Definition filter_tests : list (res unit) :=
  [test_get_spl_token_owner_filter; test_get_spl_token_mint_filter].
End FilterTests.

Example filter_tests_pass :
  forallb passed FilterTests.filter_tests = true.
Proof. vm_compute. reflexivity. Qed.

(** ** Accounts *)
Module AccountTests.
Definition big (n : nat) : account := mkAccount 42 (replicate n 42%Z) 60.
Definition encode58 (n : nat) (s : option UiDataSliceConfig) : rpc ui_account :=
  encode_account (big n) 60%N Base58 s.
(** The five tests of [encode_account], of which the second expects an error *)
Definition encode_account_tests : list (res unit) :=
  [assert_that (is_ok (encode58 5 (Some (mkSlice 0 6))));
   assert_eq (encode58 129 None) (inr (InvalidRequestWith
     "Encoded binary (base 58) data should be less than 128 bytes, please use Base64 encoding."));
   assert_that (is_ok (encode58 129 (Some (mkSlice 1 128))));
   assert_that (is_ok (encode58 128 (Some (mkSlice 0 129))));
   assert_that (is_ok (encode58 129 (Some (mkSlice 1 129))))].

Definition mint_keypair : N := 61.
Definition TEST_MINT_LAMPORTS : Z := 1000000000.
Definition system_program : N := 0.
Definition test_rpc_get_multiple_accounts : res unit :=
  let bytes := [1; 2; 3; 4; 5]%Z in
  let rpc := start [(mint_keypair, mkAccount TEST_MINT_LAMPORTS [] system_program);
                    (62%N, mkAccount 42 bytes system_program)] in
  let keys := [mint_keypair; 63%N; 62%N] in
  let accounts_are config e text := assert_eq (get_multiple_accounts rpc keys config)
    (inl (mkResponse 0%Z [Some (mkUi TEST_MINT_LAMPORTS system_program (Bytes e "") 0); None;
                        Some (mkUi 42 system_program (Bytes e text) 5)])) in
  _ ← accounts_are None Base64 (base64 bytes);
  _ ← accounts_are (Some (mkAccountInfo (Some Base58) None None None)) Base58 (base58 bytes);
  accounts_are (Some (mkAccountInfo (Some JsonParsed) (Some (mkSlice 1 2)) None None)) Base64
    (base64 (slice 1 2 bytes)).

Definition test_rpc_get_account_info : res unit :=
  let bytes := [1; 2; 3; 4; 5]%Z in
  let rpc := start [(mint_keypair, mkAccount TEST_MINT_LAMPORTS [] system_program);
                    (62%N, mkAccount 42 bytes system_program)] in
  _ ← assert_eq (get_account_info rpc mint_keypair None)
        (inl (mkResponse 0%Z (Some (mkUi TEST_MINT_LAMPORTS system_program (Bytes Binary "") 0))));
  let content_is e s content :=
    assert_eq (get_account_info rpc 62%N (Some (mkAccountInfo (Some e) s None None)))
      (inl (mkResponse 0%Z (Some (mkUi 42 system_program content 5)))) in
  _ ← content_is Base64 None (Bytes Base64 (base64 bytes));
  _ ← content_is Base64 (Some (mkSlice 1 2)) (Bytes Base64 (base64 (slice 1 2 bytes)));
  _ ← content_is Binary (Some (mkSlice 1 2)) (Bytes Binary (base58 (slice 1 2 bytes)));
  content_is JsonParsed (Some (mkSlice 1 2)) (Bytes Base64 (base64 (slice 1 2 bytes))).

Definition account_info_tests : list (res unit) := test_rpc_get_account_info :: encode_account_tests.

(** A nonce account: version, state, authority, nonce and fee *)
Definition nonce_data (authority : N) : list Z :=
  [1; 0; 0; 0]%Z ++ [1; 0; 0; 0]%Z ++ key_bytes authority ++ replicate 32 0%Z ++ le_bytes 8 1000.
Definition test_rpc_get_program_accounts : res unit :=
  let new_program_id := 70%N in
  let new_account := mkAccount 42 [] new_program_id in
  let rpc := start [(mint_keypair, mkAccount TEST_MINT_LAMPORTS [] system_program); (71%N, new_account);
                    (72%N, mkAccount 42 (nonce_data 73) system_program);
                    (74%N, mkAccount 42 (nonce_data 75) system_program)] in
  let value := [(pretty 71%N, ui_encode_account new_account Binary false None)] in
  _ ← assert_eq (get_program_accounts no_indexes rpc new_program_id None [] false true)
        (inl (NoContext value));
  _ ← assert_eq (get_program_accounts no_indexes rpc new_program_id None [] true true)
        (inl (WithContext (mkResponse 0%Z value)));
  let found filters n :=
    match get_program_accounts no_indexes rpc system_program None filters false true with
    | inl (NoContext l) => assert_eq (length l) n
    | _ => Panic "no list of accounts"
    end in
  let compare o b := MemcmpFilter (mkMemcmp o (Text (base58 b))) in
  _ ← found [compare 4 [1; 0; 0; 0]%Z] 2;
  _ ← found [compare 4 [0; 0; 0; 0]%Z] 0;
  _ ← found [DataSize 80] 2;
  _ ← found [DataSize 1] 0;
  _ ← found [compare 4 [1; 0; 0; 0]%Z; compare 8 (key_bytes 73)] 1;
  found [compare 4 [1; 0; 0; 0]%Z; DataSize 1] 0.
End AccountTests.

Example account_tests_pass :
  forallb passed (AccountTests.account_info_tests ++
    [AccountTests.test_rpc_get_multiple_accounts; AccountTests.test_rpc_get_program_accounts]) = true.
Proof. vm_compute. reflexivity. Qed.

(** ** Tokens *)
Module TokenTests.
(** [UiTokenAmount] without the floating-point number *)
Record ui_amount := mkAmount { am_amount : string; am_decimals : Z; am_text : string }.
#[export] Instance ui_amount_eq : EqDecision ui_amount.
Proof. solve_decision. Defined.
(** The digits of a fraction, without the zeros at its end *)
Fixpoint fraction (n : nat) (x : Z) : string :=
  match n with
  | 0 => ""
  | S n => if (x =? 0)%Z then "" else
             let unit := (10 ^ Z.of_nat n)%Z in pretty (x / unit)%Z +:+ fraction n (x mod unit)
  end.
Definition amount_text (amount decimals : Z) : string :=
  let unit := (10 ^ decimals)%Z in
  let f := fraction (Z.to_nat decimals) (amount mod unit) in
  pretty (amount / unit)%Z +:+ (if bool_decide (f = "") then "" else "." +:+ f).
Definition to_ui_amount (amount : Z) (d : SplTokenAdditionalData unit) : ui_amount :=
  mkAmount (pretty amount) (ad_decimals d) (amount_text amount (ad_decimals d)).

Definition mint : N := 2.
Definition owner : N := 3.
Definition delegate : N := 4.
Definition new_mint : N := 5.
Definition token_account_pubkey : N := 80.
Definition other_token_account : N := 81.
Definition token_with_different_mint : N := 82.
Definition token_with_smaller_balance : N := 83.
Definition unknown : N := 90.
Definition token (program_id m : N) (amount : Z) : account :=
  mkAccount 111 (token_account_data m owner delegate amount) program_id.
Definition plain_mint (program_id : N) : account := mkAccount 111 (mint_data owner 500 2) program_id.
(** For token-2022 account and mint have extensions. *)
Definition with_extension (program_id : N) (type : Z) (a : account) : account :=
  if bool_decide (program_id = token_2022)
  then mkAccount (lamports a) (extended (data a) type [7; 0; 0; 0]%Z) program_id else a.
Definition first_accounts (program_id : N) : list (N * account) :=
  let a := with_extension program_id TYPE_ACCOUNT (token program_id mint 420) in
  [(token_account_pubkey, a); (mint, with_extension program_id TYPE_MINT (plain_mint program_id));
   (other_token_account, a); (token_with_different_mint, token program_id new_mint 42)] ++
  (* the native mint of the bank *)
  [(native_mint, mkAccount 111 (mint_data 0 0 9) token_id)].
Definition more_accounts (program_id : N) : list (N * account) :=
  [(new_mint, plain_mint program_id); (token_with_smaller_balance, token program_id new_mint 10)].

Definition count {A} (r : rpc (RpcResponse (list A))) (n : nat) : res unit :=
  match r with inl x => assert_eq (length (r_value x)) n | inr _ => Panic "error" end.
Definition encoded_as (e : UiAccountEncoding) : option RpcAccountInfoConfig :=
  Some (mkAccountInfo (Some e) None None None).
Abbreviation by_owner rpc k f e := (get_token_accounts_by_owner no_indexes rpc k f e true).
Abbreviation by_delegate rpc k f e := (get_token_accounts_by_delegate no_indexes rpc k f e true).

Definition balance_and_supply (rpc : handler) : res unit :=
  _ ← assert_eq (get_token_account_balance unpack_token to_ui_amount rpc token_account_pubkey None)
        (inl (mkResponse 0%Z (mkAmount "420" 2 "4.2")));
  _ ← assert_that (is_error (get_token_account_balance unpack_token to_ui_amount rpc unknown None));
  _ ← assert_eq (get_token_supply to_ui_amount rpc mint None) (inl (mkResponse 0%Z (mkAmount "500" 2 "5")));
  assert_that (is_error (get_token_supply to_ui_amount rpc unknown None)).
Definition accounts_of_owner (rpc : handler) (program_id : N) : res unit :=
  _ ← count (by_owner rpc owner (FilterProgramId program_id) (encoded_as Base64)) 3;
  _ ← count (by_owner rpc owner (FilterProgramId program_id) (encoded_as JsonParsed)) 2;
  _ ← match get_program_accounts no_indexes rpc program_id (encoded_as JsonParsed) [] false true with
      | inl (NoContext l) => assert_eq (length l) (if bool_decide (program_id = token_id) then 4 else 3)
      | _ => Panic "no list of accounts"
      end;
  _ ← count (by_owner rpc owner (FilterMint mint) (encoded_as Base64)) 2;
  _ ← assert_that (is_error (by_owner rpc owner (FilterProgramId unknown) None));
  _ ← assert_that (is_error (by_owner rpc owner (FilterMint unknown) None));
  count (by_owner rpc unknown (FilterProgramId program_id) None) 0.
Definition accounts_of_delegate (rpc : handler) (program_id : N) : res unit :=
  _ ← count (by_delegate rpc delegate (FilterProgramId program_id) (encoded_as Base64)) 3;
  _ ← count (by_delegate rpc delegate (FilterMint mint) (encoded_as Base64)) 2;
  _ ← assert_that (is_error (by_delegate rpc delegate (FilterProgramId unknown) None));
  _ ← assert_that (is_error (by_delegate rpc delegate (FilterMint unknown) None));
  count (by_delegate rpc unknown (FilterProgramId program_id) None) 0.
Definition largest_accounts (program_id : N) : res unit :=
  let rpc := start (first_accounts program_id ++ more_accounts program_id) in
  r ← get_token_largest_accounts unpack_token to_ui_amount N.leb 20 no_indexes rpc new_mint None;
  assert_eq r (inl (mkResponse 0%Z [(pretty token_with_different_mint, mkAmount "42" 2 "0.42");
                                  (pretty token_with_smaller_balance, mkAmount "10" 2 "0.1")])).
Definition test_token_rpcs : res unit :=
  fold_res (λ _ program_id,
      let rpc := start (first_accounts program_id) in
      _ ← balance_and_supply rpc;
      _ ← accounts_of_owner rpc program_id;
      _ ← accounts_of_delegate rpc program_id;
      largest_accounts program_id)
    () [token_id; token_2022].
End TokenTests.

Example token_tests_pass : TokenTests.test_token_rpcs = Ok ().
Proof. vm_compute. reflexivity. Qed.

(** ** Encoded transactions *)
Module WireTests.
Definition PACKET : nat := 1232.
Definition transaction_name : string := "solana_sdk::transaction::Transaction".
(** A length of three bytes that does not end is refused, as in the compact
    arrays of the SDK; nothing else of a transaction is read. *)
Definition deserialize (b : list Z) : list Z + string :=
  match b with
  | x :: y :: z :: _ =>
      if (128 <=? x)%Z && (128 <=? y)%Z && (128 <=? z)%Z
      then inr ("invalid value: continue signal on byte-three, expected a terminal signal on or " +:+
                "before byte-three")
      else inl b
  | _ => inl b
  end.
#[export] Instance runtime : TxRuntime bank N Z Z account string (list Z) (list Z) unit unit unit := {|
  into_binary_encoding _ := Some EncBase58;
  enc_base58 := ();
  enc_to_string _ := "base58";
  bs58_decode := base58_decode;
  RpcTransactions.base64_decode := base64_decode;
  deserialize_tx := deserialize;
  tx_type_name := transaction_name;
  PACKET_DATA_SIZE := PACKET;
  MAX_PROCESSING_AGE := 150%Z;
  set_recent_blockhash v _ := v;
  try_create _ v := inl v;
  tx_signature _ := 0%Z;
  tx_recent_blockhash _ := 0%Z;
  tx_durable_nonce _ := None;
  tx_account_keys _ := [];
  tx_verify _ := true;
  tx_verify_precompiles _ _ := inl ();
  simulate _ _ _ := mkSimulation (inl ()) [] [] 0%Z None None;
  signature_to_string _ := "signature";
  tx_error_to_string e := e
|}.
Definition fails (encoded : string) (e : TransactionBinaryEncoding) (message : string) : res unit :=
  assert_eq (decode_and_deserialize encoded e) (inr (InvalidParams message)).

(** Of the payloads of the largest bytes the base 64 cases: their base 58 is a
    number of ten thousand bits. *)
Definition too_large_base64 : res unit :=
  let tx64 := base64 (replicate (PACKET + 2) 255%Z) in
  fails tx64 EncBase64 ("base64 encoded " +:+ transaction_name +:+ " too large: " +:+
    pretty (String.length tx64) +:+ " bytes (max: encoded/raw 1644/1232)").
Definition decoded_too_large : res unit :=
  let tx_ser := replicate (PACKET + 1) 0%Z in
  let message := "decoded " +:+ transaction_name +:+ " too large: 1233 bytes (max: 1232 bytes)" in
  _ ← fails (base58 tx_ser) EncBase58 message;
  fails (base64 tx_ser) EncBase64 message.
(** A payload of the right size that is no transaction, and a text that is no encoding *)
Definition malformed_base64 : res unit :=
  let tx64 := base64 (replicate (PACKET - 2) 255%Z) in
  _ ← fails tx64 EncBase64 ("failed to deserialize " +:+ transaction_name +:+
        ": invalid value: continue signal on byte-three, expected a terminal signal on or before byte-three");
  fails (tx64 +:+ "!") EncBase64 "invalid base64 encoding: InvalidByte(1640, 33)".
End WireTests.

Example wire_tests_pass :
  forallb passed [WireTests.too_large_base64; WireTests.decoded_too_large; WireTests.malformed_base64] = true.
Proof. vm_compute. reflexivity. Qed.

(** ** Sending and simulating transfers *)
Module SendTests.
(** A transfer and its signatures; it is sane when it is signed and its program
    is not the payer. *)
Record transfer := mkTransfer {
  signatures : list Z; blockhash : Z; program_index : Z; from : N; to : N; amount : Z
}.
(** The number of signatures and the signatures, one byte for each of the next
    four fields, and eight for the amount *)
Definition serialize (t : transfer) : list Z :=
  [Z.of_nat (length (signatures t))] ++ signatures t ++
  [blockhash t; program_index t; Z.of_N (from t); Z.of_N (to t)] ++ le_bytes 8 (amount t).
Definition deserialize (b : list Z) : transfer + string :=
  let count := Z.to_nat (default 0%Z (head b)) in
  match drop count (tail b) with
  | h :: i :: f :: t :: n =>
      if length n =? 8
      then inl (mkTransfer (take count (tail b)) h i (Z.to_N f) (Z.to_N t) (le_number n))
      else inr "unexpected end of file"
  | _ => inr "unexpected end of file"
  end.
Definition encoded (t : transfer) : string := base58 (serialize t).
Definition GOOD_SIGNATURE : Z := 5.
Definition LAST_BLOCKHASH : Z := 9.
Definition PROGRAM : Z := 2.
Definition logs : list string :=
  ["Program 11111111111111111111111111111111 invoke [1]"; "Program 11111111111111111111111111111111 success"].
Definition simulate_transfer (b : bank) (t : transfer) : SimulationResult N account string unit unit :=
  if bool_decide (blockhash t = LAST_BLOCKHASH) then
    mkSimulation (inl ()) logs
      [(from t, mkAccount (qb_get_balance b (from t) - amount t)%Z [] 0%N);
       (to t, mkAccount (qb_get_balance b (to t) + amount t)%Z [] 0%N)] 150 None None
  else mkSimulation (inr "BlockhashNotFound") [] [] 0 None None.
#[export] Instance runtime : TxRuntime bank N Z Z account string transfer transfer unit unit unit := {|
  into_binary_encoding _ := Some EncBase58;
  enc_base58 := ();
  enc_to_string _ := "base58";
  bs58_decode := base58_decode;
  RpcTransactions.base64_decode := base64_decode;
  deserialize_tx := deserialize;
  tx_type_name := "solana_sdk::transaction::versioned::VersionedTransaction";
  PACKET_DATA_SIZE := 1232;
  MAX_PROCESSING_AGE := 150%Z;
  set_recent_blockhash t h := mkTransfer (signatures t) h (program_index t) (from t) (to t) (amount t);
  try_create _ t := if bool_decide (program_index t = 0%Z) || bool_decide (signatures t = [])
                    then inr "Transaction failed to sanitize accounts offsets correctly" else inl t;
  tx_signature t := default 0%Z (head (signatures t));
  tx_recent_blockhash := blockhash;
  tx_durable_nonce _ := None;
  tx_account_keys t := [from t; to t; 0%N];
  tx_verify t := bool_decide (signatures t = [GOOD_SIGNATURE]);
  tx_verify_precompiles _ _ := inl ();
  simulate b t _ := simulate_transfer b t;
  signature_to_string s := pretty s;
  tx_error_to_string e := if bool_decide (e = "BlockhashNotFound") then "Blockhash not found" else e
|}.
Definition mint_keypair : N := 61.
Definition bob : N := 65.
Definition rpc : handler := start [(mint_keypair, mkAccount 1000000000 [] 0)].
Definition transfer_of (signature blockhash program_index amount : Z) : string :=
  encoded (mkTransfer [signature] blockhash program_index mint_keypair bob amount).
(** Keys are written as numbers. *)
Definition parse_key (s : string) : N + string :=
  match list_find (λ k, pretty k = s) [mint_keypair; bob; 66%N; 0%N] with
  | Some (_, k) => inl k
  | None => inr "Invalid"
  end.
Abbreviation config sig_verify replace accounts :=
  (Some (mkSimulateConfig sig_verify replace None None accounts None false)).
Abbreviation simulated data c := (simulate_transaction parse_key rpc data c).
#[local] Instance result_eq :
  EqDecision (RpcSimulateTransactionResult (UiAccount:=ui_account) (TransactionError:=string)
                (Return:=unit) (Inner:=unit)).
Proof. solve_decision. Defined.
Abbreviation answer err logs accounts units replaced :=
  (inl (mkResponse 0%Z (mkSimulateResult err logs accounts units None None replaced))).
Abbreviation expect_answer data c a := (r ← simulated data c; assert_eq r a).

Definition rent_exempt_amount : Z := 890880.
Definition tx_good : string := transfer_of GOOD_SIGNATURE LAST_BLOCKHASH PROGRAM rent_exempt_amount.
Definition tx_bad_signature : string := transfer_of 0 LAST_BLOCKHASH PROGRAM rent_exempt_amount.
Definition tx_invalid_blockhash : string := transfer_of 0 0 PROGRAM rent_exempt_amount.
(** The requests with [sigVerify] *)
Definition simulate_verified : res unit :=
  _ ← expect_answer tx_good (config true false (Some (Some JsonParsed, [pretty 66%N; pretty bob])))
        (answer None logs
           (Some [None; Some (mkUi rent_exempt_amount 0%N (Bytes Base64 "") 0)]) 150%Z None);
  _ ← expect_answer tx_good
        (config true false (Some (None, [pretty 0%N; pretty 0%N; pretty 0%N; pretty 0%N])))
        (inr (InvalidParams "Too many accounts provided; max 3"));
  expect_answer tx_bad_signature (config true false None)
    (inr (Custom TransactionSignatureVerificationFailure)).
(** The requests without, and those about the blockhash *)
Definition simulate_unverified : res unit :=
  _ ← expect_answer tx_good (config false false None) (answer None logs None 150%Z None);
  _ ← expect_answer tx_good None (answer None logs None 150%Z None);
  _ ← expect_answer tx_good (config true true None)
        (inr (InvalidParams "sigVerify may not be used with replaceRecentBlockhash"));
  _ ← expect_answer tx_invalid_blockhash (config false false None)
        (answer (Some "BlockhashNotFound") [] None 0%Z None);
  expect_answer tx_invalid_blockhash (config false true None)
    (answer None logs None 150%Z (Some (pretty LAST_BLOCKHASH, 150%Z))).

Definition open_channel : TxChannel transfer := mkTxChannel [].
Definition send (data : string) (skip_preflight : bool) (expected : RpcBase.rpc string) (queued : nat) : res unit :=
  '(ch, r) ← send_transaction rpc open_channel data (Some (mkSendConfig skip_preflight None None None));
  _ ← assert_eq r expected; assert_eq (length (ch_queue ch)) queued.
Definition test_rpc_send_transaction_preflight : res unit :=
  let insane := inr (InvalidParams
    "invalid transaction: Transaction failed to sanitize accounts offsets correctly") in
  _ ← send (transfer_of GOOD_SIGNATURE 0 PROGRAM 42) false
        (inr (Custom (SendTransactionPreflightFailure "Transaction simulation failed: Blockhash not found"))) 0;
  _ ← send (transfer_of GOOD_SIGNATURE LAST_BLOCKHASH 0 42) false insane 0;
  let bad_signature := transfer_of 0 LAST_BLOCKHASH PROGRAM 42 in
  _ ← send bad_signature false (inr (Custom TransactionSignatureVerificationFailure)) 0;
  _ ← send bad_signature true (inl (pretty 0%Z)) 1;
  send (encoded (mkTransfer [] LAST_BLOCKHASH PROGRAM mint_keypair bob 42)) false insane 0.
Definition test_rpc_send_bad_tx : res unit :=
  '(_, r) ← send_transaction rpc open_channel "37u9WtQpcm6ULa3Vmu7ySnANv" None;
  assert_that (match r with inr (InvalidParams _) => true | _ => false end).
Definition send_tests : list (res unit) := [test_rpc_send_bad_tx; test_rpc_send_transaction_preflight].
End SendTests.

Example send_tests_pass :
  forallb passed ([SendTests.simulate_verified; SendTests.simulate_unverified] ++ SendTests.send_tests) = true.
Proof. vm_compute. reflexivity. Qed.

(** ** Statuses of signatures *)
Module StatusTests.
#[export] Instance signatures : SignatureReads store N Z string unit := {|
  bs_signatures_for_address _ _ _ _ _ _ := inl ([], false);
  bs_rooted_transaction_status _ _ := inl None;
  bs_get_complete_transaction _ _ _ := inl None;
  bs_get_rooted_transaction _ _ := inl None;
  bs_old_signatures_for_address _ _ _ _ := inl [];
  bs_error_message _ := "error"
|}.
#[export] Instance signature_table : SignatureTable unit N Z string unit := {|
  bt_get_signature_status _ _ := inr SignatureNotFound;
  bt_get_confirmed_transaction _ _ := inl None;
  bt_signatures_for_address _ _ _ _ _ := inl []
|}.
(** The successful and the failed transaction of [create_test_transaction_entries] *)
Definition InstructionError : string := "InstructionError(0, Custom(1))".
Definition with_history (history : bool) : handler :=
  let b := mkBank 0 [] [(1%Z, inl ()); (2%Z, inr InstructionError)] in
  mkProcessor (mkForks 0%Z b (λ _, Some b)) [0%Z] history None 0.
Definition first_status (p : handler) (s : Z) : res (option (TransactionStatus string)) :=
  match get_signature_statuses p [s] None with
  | inl r => expect (head (r_value r)) "no value"
  | inr _ => Panic "error"
  end.
Definition test_rpc_get_signature_statuses : res unit :=
  let p := with_history true in
  status ← first_status p 1;
  status ← expect status "called `Option::unwrap()` on a `None` value";
  _ ← assert_eq (ts_status _ status) (inl ());
  _ ← assert_eq (ts_confirmations _ status) None;
  status ← first_status p 3;
  _ ← assert_that (bool_decide (status = None));
  status ← first_status p 2;
  status ← expect status "called `Option::unwrap()` on a `None` value";
  _ ← assert_eq (ts_status _ status) (inr InstructionError);
  match get_signature_statuses (with_history false) [2%Z] (Some true) with
  | inr (Custom TransactionHistoryNotAvailable) => Ok ()
  | _ => Panic "an answer"
  end.
End StatusTests.

Example status_tests_pass : passed StatusTests.test_rpc_get_signature_statuses = true.
Proof. vm_compute. reflexivity. Qed.
